(* ===== verification/_CoqProject ===== *)
-Q . S2P
Prelude.v
GoString.v
Sha256.v
Float64.v
GoTime.v
Leg.v
GoParse.v
Rules.v
Config.v
Match.v
Event.v
Jsonb.v
Gen.v
GenFacts.v
Sample.v
Kafka.v
Source.v
Index.v
IndexFacts.v
SubsetSum.v
Matcher.v
MatcherFacts.v
Heuristic.v
Repository.v
Ports.v
MemoryStore.v
Database.v
Postgres.v
Sql.v
PostgresFacts.v
MigrationFacts.v
StatsFacts.v
Engine.v
Logger.v
Metrics.v
Http.v
Middleware.v
EngineSpec.v
EngineRefine.v
EngineInv.v
EngineRun.v
EngineHistory.v
Parametric.v
Moments.v
RowTypes.v
MetricsFacts.v
EngineReplay.v
EngineFacts.v
ReplaySim.v
ReplayRun.v
Service.v
Shutdown.v
Tracing.v
Main.v
HttpFacts.v
MiddlewareFacts.v
Fixtures.v
PgFixture.v
Walkthrough.v
MatchingProperties.v
DataProperties.v
EngineProperties.v
ReplayProperties.v
StoreProperties.v
HttpProperties.v
ObservabilityProperties.v
SourceProperties.v
GenProperties.v
ServiceProperties.v
MomentProperties.v
MainProperties.v
PostgresProperties.v
