(* ===== verification/Prelude.v ===== *)
(** * recon-stream: a verification development

    The service under src/ reconciles money movements: two or more sources (a
    ledger, payment rails, settlement files) report _legs_; the engine pairs
    them into _matches_, keeps unpaired legs open for a window of time, and
    turns what cannot be paired into _breaks_ for an operator. Everything that
    happens is appended to an event log, from which the projections (legs,
    matches, breaks) can be replayed.

    ** The parts and the files that model them

    - Shared tools: Prelude.v (errors, the state-and-error monad, 64-bit
      integers, sorting), GoString.v, Float64.v (IEEE 754 binary64 rounding),
      GoTime.v, Sha256.v: what the program uses of the Go standard library.
    - internal/domain/recon/leg.go: Leg.v. [Validate] works on a copy and
      returns it, where the Go method writes through its receiver.
    - rules.go: Rules.v. match.go and classifier.go: Match.v. event.go: Event.v.
    - index.go: Index.v, with its theorems in IndexFacts.v.
    - matcher.go: SubsetSum.v (the search of tier 3) and Matcher.v, with the
      declarative rules [rule_match] and the theorems in MatcherFacts.v.
    - classify/heuristic.go: Heuristic.v.
    - the Repository interface of engine.go and ports/store.go: Repository.v, a
      class of operations and a class of laws over an abstract [View]. A store
      keeps times to its own [fidelity], and the laws say nothing of change sets
      it cannot hold ([cs_ok]).
    - adapters/memory/store.go: MemoryStore.v, an instance of both classes.
    - engine.go: Engine.v, the methods as computations over a [World] (the store
      and the engine's own fields); EngineSpec.v, what one step does to the
      abstract store and the index; EngineRefine.v, the code performs the steps;
      EngineInv.v, the steps keep the invariant [state_inv]; EngineRun.v, so do
      whole operations; EngineHistory.v, the operations as a step relation, what
      is never undone, the log; EngineReplay.v, what a replay does
      with the events it reads;
      ReplaySim.v and ReplayRun.v, the simulation between a first run and its
      replay; EngineFacts.v, what whole calls achieve. Parametric.v relates the
      engine's runs over two stores that answer alike; Moments.v uses it to
      list every state a store passes through during some operations, as the
      states left by a connection that breaks after so many calls; RowTypes.v
      gives the types of the rows in them.
    - adapters/postgres/store.go and migrations: Postgres.v, the statements as
      their texts over the driver's operations, a class ([Database] of Database.v);
      Sql.v, tables and what the documentation promises of these statements
      ([DatabaseLaws]); PostgresFacts.v, the repository contract over these laws;
      MigrationFacts.v. PgFixture.v is a concrete database that keeps the laws.
    - config/config.go: Config.v, with strconv, strings.Split and
      time.ParseDuration written out in GoParse.v.
    - adapters/kafka/source.go: Kafka.v; the client library is a class with laws.
      adapters/memory/source.go: Source.v, a step relation.
    - the rest of ports/store.go: Ports.v. api/http/server.go: Http.v, one
      computation per handler, and HttpFacts.v. api/http/middleware.go, the router
      and the chain of server.go: Middleware.v, handlers as computations over the
      exchange of one request, and MiddlewareFacts.v.
    - observability/metrics.go: Metrics.v, and MetricsFacts.v, the callbacks each
      operation of the engine makes. observability/logger.go: Logger.v.
      observability/tracing.go: Tracing.v.
    - cmd/recon-stream/main.go: Service.v, the store, the start, the consumer's
      handler, the sweeper and their interleaving with requests; Shutdown.v, the
      sweeper's loop, the goroutines' results and the result of [run]; Main.v,
      [run] and [main] from first line to last, with the deferred calls.
    - examples/gen/main.go: Gen.v, every section of it over the numbers the random
      source returns; GenFacts.v, that it ends and what it writes; Sample.v, the
      numbers that its seed gives, on which it writes examples/legs.json.
    - Fixtures.v is a small run on which the properties are evaluated, and the
      properties themselves are in EngineProperties.v, ReplayProperties.v,
      MatchingProperties.v, DataProperties.v, StoreProperties.v,
      HttpProperties.v, ObservabilityProperties.v, SourceProperties.v,
      ServiceProperties.v, PostgresProperties.v, MomentProperties.v,
      MainProperties.v, GenProperties.v.

    - Walkthrough.v runs the handlers on the sample file of examples/ with
      SHA-256 itself: the counts, the rates, the identifier and the reason of the
      fee break and the replay come out as README.md shows them.

    ** How they interact

    The engine's mutex makes its exported methods atomic, so a history is a
    sequence of operations ([EngineHistory.op]): batches, sweeps, window
    closings, resolutions, replays and restarts. A method is a function from the
    world to a result and a new world, and the new world is there on the error
    branch too: what was done before an error stays done. The engine calls the
    matcher with its index, the classifier through the class [BreakClassifier],
    and the store through the class [Repository]; the engine's theorems hold for
    every classifier and for every store that keeps [RepositoryLaws], including
    stores that fail at any call.

    ** What the theorems show

    - EngineProperties.v: the store and the index are consistent in every
      reachable world, no leg is matched twice, matches balance, breaks account
      for their legs, redelivery is harmless, decisions are final, the log is
      append-only, a replay ends and handles every event once, ingesting each leg
      and counting its outcome, a restart restores the
      index, expiry and resolution do exactly what they say; and a resolution of
      an expired leg's break is not replayed.
    - ReplayProperties.v: replaying the log of a run of batches and resolutions
      rebuilds the projections and the index of that run, at any clock; a leg
      that arrives with state of its own is the exception, as is one whose text
      is not UTF-8, and a replay that starts later in the log drops what came
      before.
    - MatchingProperties.v: [find] returns what its rules allow and misses
      nothing, the pruned search is exhaustive search, the index is a set of
      open legs, the classifier's labels are explained.
    - DataProperties.v: validation, identity, dates, tolerances and scores, and
      which payloads of the log come back as they were.
    - StoreProperties.v: the in-memory store keeps the contract; its listing and
      its statistics are exact (with the counting and paging of StatsFacts.v).
    - HttpProperties.v: every request is answered, reads are truthful and change
      nothing, refused requests change nothing, what an accepted batch or
      resolution means, which parameters are accepted.
    - ObservabilityProperties.v: a request is routed, answered (without a body if
      it is HEAD), counted, timed, logged and traced once, as what it was; a panic costs one request; the engine's
      counters say what its results say, and the gauge what its index holds.
    - SourceProperties.v: the in-memory source keeps order and is drained when it
      is closed.
    - ServiceProperties.v: [Load] accepts exactly the good configurations, an
      accepted one starts and restarts, a committed record is not lost unless the
      engine failed on its batch, and such a batch can indeed be lost.
    - PostgresProperties.v: a change set is applied as a whole and read back as
      the in-memory store would hold it, a service restarts over the database
      where it stopped, both stores list and count alike, and migrations run once
      each, in order up to the first that fails, and from there the next time.
    - MomentProperties.v: between any two calls of the store, which is what
      readers see while the engine works and what a crash leaves behind, the
      projections are consistent and well typed; a service that starts there loses
      no decision, and the batch can be delivered again.
    - MainProperties.v: [run] gives back what it acquires, latest first, on every
      path, and succeeds exactly when each of its steps does.
    - GenProperties.v: the sample generator ends, and writes legs that pass
      validation and are the pairs, batches and breaks that its comments announce,
      but that half of the clean pairs settle two days later and not one.

    ** Bounds and fuel

    - Amounts are positive and at most [2^62], and the absolute tolerance at
      most [2^62], so that no sum or difference of two of them wraps
      ([amount_ok], [sane_rules]); sums of a subset are bounded by the search.
      Outside these bounds the code computes, with wrapped results.
    - Value dates are of the years 0000 to 9999, which is what the date format
      can print ([wf_date_range]).
    - Match and break identifiers are truncated hashes, so they cannot be
      injective; [no_collisions U] assumes that they are on the sets of legs out
      of a finite set [U] of leg identifiers. They have 80 bits and [U] has two
      to the power of its size subsets, so by counting no [U] of more than about
      80 leg identifiers has this property, fewer than the 200 of the sample: the
      theorems that assume it are about histories of that size. They use it only
      where a new match or break is stored under its identifier. The fixtures
      check it by computing.
    - Exhaustiveness of tier 3 holds for the default caps, 24 candidates and 6
      legs: the search then visits at most 190051 nodes, and the budget is
      200000. For larger caps what it returns is still right.
    - The generator's rejection loops have fuel; over a source in which every
      number keeps coming up ([fair_source]) some fuel is enough, and more
      changes nothing ([sample_as_described]).
    - The paging loop of a replay gets one unit of fuel more than there are
      sequence numbers left; that it never runs out is part of
      [replay_reads_everything].

    ** What is not modelled, and why

    - JSON text: payloads, record values and request bodies are JSON values
      ([Event.json]); the text is what encoding/json prints and parses. What this
      does to strings is in the model: [Event.jstr] and the decoders put U+FFFD
      in place of bytes that are not UTF-8 ([GoString.coerced]), so the round
      trip of a payload holds exactly for valid text ([payload_round_trip]), the
      replay of valid text is the run again, and the raw key of a Kafka record
      is the exception. The texts of errors of the standard library are
      abbreviated, and [fmt.Sprintf] is a parameter of the classifier. Jsonb.v is
      what a jsonb column does to a value.
    - Goroutines: the mutex and the single consumer loop leave only sequences
      of atomic calls. Contexts are the answers of [ctx.Err] at each poll.
    - PostgreSQL, its driver, the Kafka client, the metrics, tracing and group
      libraries are other programs: parameters, with laws where a theorem needs
      them. A commit whose answer is lost is left out: the laws make a transaction
      that reports an error one that did not happen. Columns keep microseconds, so
      the theorems of the engine over Postgres ask for a clock that ticks in whole
      microseconds; those over the in-memory store do not.
    - The consumer, the sweeper and the requests interleave at the calls of the
      engine: a handler runs uninterrupted between these. A reader that does not
      wait for the engine sees one of the states of MomentProperties.v; a single
      lookup is atomic, a handler that makes several may see several. The mux works on clean, unescaped paths, and a client that goes away
      while it is answered is left out. The handlers' own log lines and timings
      are left out of Http.v; the access log and the recoverer's are modelled.
    - Serving and registering with the metrics library, signals, the listener of
      net/http and the enforcement of its timeouts, the algorithm of math/rand
      behind its stream of numbers, and the layout of the generator's file. *)

From stdpp Require Export prelude gmap strings sorting list fin_maps.
From Stdlib Require Export ZArith Lia.

#[global] Open Scope Z_scope.

(** ** Notations and errors *)

Declare Scope recon_scope.
Delimit Scope recon_scope with recon.

(** The sentinel errors that [errors.Is] looks for: the program's own, and
    [context.Canceled] and [http.ErrServerClosed]. *)
Inductive sentinel : Set :=
  | ErrInvalidLeg
  | ErrBreakResolved
  | ErrNotFound
  | Canceled
  | ErrServerClosed.

#[export] Instance sentinel_eq_dec : EqDecision sentinel.
Proof. solve_decision. Defined.

(** Go error values, as the program builds them: a sentinel, [errors.New] and
    [fmt.Errorf] without [%w], [fmt.Errorf] with one [%w], and [errors.Join]. *)
Inductive error : Set :=
  | ErrSentinel (s : sentinel)
  | ErrText (msg : string)
  | ErrWrap (prefix : string) (e : error) (suffix : string)
  | ErrJoin (es : list error).

(** [errors.Is err s]: the wrapping chain is searched, joined errors too. *)
Fixpoint errors_Is (e : error) (s : sentinel) : bool :=
  match e with
  | ErrSentinel s' => bool_decide (s' = s)
  | ErrText _ => false
  | ErrWrap _ e' _ => errors_Is e' s
  | ErrJoin es => existsb (fun e' => errors_Is e' s) es
  end.

(** A Go call returning [(T, error)] where the value is used only when the
    error is nil. *)
Inductive result (A : Type) : Type :=
  | Ok (a : A)
  | Err (e : error).
Arguments Ok {A} a.
Arguments Err {A} e.

(** ** Lists *)

Lemma filter_bool_cons {A} (f : A -> bool) x l : filter f (x :: l) = if f x then x :: filter f l else filter f l.
Proof. rewrite filter_cons. destruct (f x) eqn:E; by case_decide. Qed.

(** ** State-and-error computations

    The stateful code is modelled in explicit state-passing style: a
    computation takes the state and returns its outcome with the state it
    leaves. The state is kept on the error branch, because what a Go method
    did before it returned an error stays done. *)

Definition M (S A : Type) : Type := S -> result A * S.

Definition mret {S A} (a : A) : M S A := fun s => (Ok a, s).
Definition mfail {S A} (e : error) : M S A := fun s => (Err e, s).
Definition mbind {S A B} (m : M S A) (k : A -> M S B) : M S B :=
  fun s => match m s with
           | (Ok a, s') => k a s'
           | (Err e, s') => (Err e, s')
           end.
Definition mget {S} : M S S := fun s => (Ok s, s).
Definition mmodify {S} (f : S -> S) : M S unit := fun s => (Ok tt, f s).
(** [if err != nil { return fmt.Errorf("prefix: %w", err) }] *)
Definition mwrap {S A} (prefix : string) (m : M S A) : M S A :=
  fun s => match m s with
           | (Ok a, s') => (Ok a, s')
           | (Err e, s') => (Err (ErrWrap prefix e ""), s')
           end.
(** A call whose error the caller inspects instead of returning. *)
Definition mtry {S A} (m : M S A) : M S (result A) :=
  fun s => let '(r, s') := m s in (Ok r, s').

Notation "'let!' x := m 'in' k" := (mbind m (fun x => k))
  (at level 200, x binder, m at level 200, k at level 200, right associativity,
   format "'[v' 'let!'  x  :=  m  'in' '/' k ']'") : recon_scope.
Notation "m ;;! k" := (mbind m (fun _ => k))
  (at level 199, right associativity) : recon_scope.

(** ** Machine integers

    Go's [int64] (and [int] on the 64-bit targets the program is built for):
    a [Z] in [[-2^63, 2^63)], every arithmetic result wrapped. *)

Definition in64 (z : Z) : Prop := - 2 ^ 63 <= z < 2 ^ 63.

#[export] Instance in64_dec z : Decision (in64 z).
Proof. unfold in64. solve_decision. Defined.

Definition wrap64 (z : Z) : Z := (z + 2 ^ 63) mod 2 ^ 64 - 2 ^ 63.
Definition add64 (a b : Z) : Z := wrap64 (a + b).
Definition sub64 (a b : Z) : Z := wrap64 (a - b).
Definition neg64 (a : Z) : Z := wrap64 (- a).

Lemma wrap64_id z : in64 z -> wrap64 z = z.
Proof.
  unfold in64, wrap64. intros H. rewrite Z.mod_small; lia.
Qed.

Lemma wrap64_in64 z : in64 (wrap64 z).
Proof.
  unfold in64, wrap64. pose proof (Z.mod_pos_bound (z + 2 ^ 63) (2 ^ 64)). lia.
Qed.

Lemma add64_id a b : in64 (a + b) -> add64 a b = a + b.
Proof. apply wrap64_id. Qed.
Lemma sub64_id a b : in64 (a - b) -> sub64 a b = a - b.
Proof. apply wrap64_id. Qed.
Lemma neg64_id a : in64 (- a) -> neg64 a = - a.
Proof. apply wrap64_id. Qed.

(** Wrapped operations whose results stay in range are the plain ones. *)
Create HintDb int64.
#[export] Hint Rewrite add64_id sub64_id neg64_id wrap64_id using (unfold in64 in *; lia) : int64.
Ltac unwrap64 := autorewrite with int64.

(** ** Sorting

    [sort.Slice] and [sort.Strings] are unstable sorts; they are modelled by
    stdpp's merge sort, and wherever the program relies on the order the
    result is shown to be the only sorted permutation. [sort.SliceStable] is
    insertion sort, which is stable. *)

Section Sorting.
Context {A : Type} (R : relation A) `{!RelDecision R}.

Fixpoint insert_stable (x : A) (l : list A) : list A :=
  match l with
  | [] => [x]
  | y :: l' => if decide (R x y) then x :: y :: l' else y :: insert_stable x l'
  end.

Fixpoint stable_sort (l : list A) : list A :=
  match l with
  | [] => []
  | x :: l' => insert_stable x (stable_sort l')
  end.

Lemma insert_stable_Permutation x l : insert_stable x l ≡ₚ x :: l.
Proof.
  induction l as [|y l IH]; simpl; [done|].
  case_decide; [done|]. rewrite IH. apply Permutation_swap.
Qed.

Lemma stable_sort_Permutation l : stable_sort l ≡ₚ l.
Proof.
  induction l as [|x l IH]; simpl; [done|].
  rewrite insert_stable_Permutation. by f_equiv.
Qed.

Context `{!Transitive R, !Total R}.

Lemma insert_stable_sorted x l :
  StronglySorted R l -> StronglySorted R (insert_stable x l).
Proof.
  induction 1 as [|y l Hl IH Hy]; simpl.
  - by repeat constructor.
  - case_decide as HR.
    + constructor; [by constructor|]. constructor; [done|].
      eapply Forall_impl; [exact Hy|]. intros z ?. by trans y.
    + constructor; [done|]. rewrite insert_stable_Permutation.
      constructor; [|done]. by destruct (total R x y).
Qed.

Lemma stable_sort_sorted l : StronglySorted R (stable_sort l).
Proof.
  induction l as [|x l IH]; simpl; [constructor|]. by apply insert_stable_sorted.
Qed.

(** A sort whose order is antisymmetric on the elements at hand does not
    depend on the order in which they were enumerated. *)
Lemma merge_sort_unique l1 l2 :
  (forall x y, x ∈ l1 -> y ∈ l1 -> R x y -> R y x -> x = y) ->
  StronglySorted R l2 -> l1 ≡ₚ l2 -> merge_sort R l1 = l2.
Proof.
  intros Hanti Hs Hp.
  eapply (StronglySorted_unique_strong R); [| | exact Hs |].
  - intros x y Hx Hy. rewrite merge_sort_Permutation in Hx. rewrite <- Hp in Hy.
    by apply Hanti.
  - by apply (StronglySorted_merge_sort R).
  - by rewrite merge_sort_Permutation.
Qed.

Lemma merge_sort_ext l1 l2 :
  (forall x y, x ∈ l1 -> y ∈ l1 -> R x y -> R y x -> x = y) ->
  l1 ≡ₚ l2 -> merge_sort R l1 = merge_sort R l2.
Proof.
  intros Hanti Hp. apply merge_sort_unique; [done| |].
  - by apply (StronglySorted_merge_sort R).
  - by rewrite merge_sort_Permutation.
Qed.
End Sorting.

(** [sort.Strings]: ascending byte-wise order. *)
Definition sort_Strings (l : list string) : list string := merge_sort String.le l.

Lemma sort_Strings_Permutation l : sort_Strings l ≡ₚ l.
Proof. apply merge_sort_Permutation. Qed.

Lemma sort_Strings_ext l1 l2 : l1 ≡ₚ l2 -> sort_Strings l1 = sort_Strings l2.
Proof.
  intros Hp. apply merge_sort_ext; [apply _..| |done].
  intros x y _ _ ??. by apply (anti_symm String.le).
Qed.

Lemma elem_of_sort_Strings x l : x ∈ sort_Strings l <-> x ∈ l.
Proof. by rewrite sort_Strings_Permutation. Qed.

Lemma NoDup_sort_Strings l : NoDup (sort_Strings l) <-> NoDup l.
Proof. by rewrite sort_Strings_Permutation. Qed.

(** ** Lists *)

Lemma filter_ext_in {A} (P Q : A -> Prop) `{!forall x, Decision (P x), !forall x, Decision (Q x)} (l : list A) :
  (forall x, x ∈ l -> P x <-> Q x) -> filter P l = filter Q l.
Proof.
  induction l as [|x l IH]; intros Hpq; [done|]. rewrite !filter_cons.
  assert (filter P l = filter Q l) as -> by (apply IH; intros y Hy; apply Hpq; by right).
  pose proof (Hpq x (list_elem_of_here x l)). repeat case_decide; tauto.
Qed.

Lemma filter_all {A} (P : A -> Prop) `{!forall x, Decision (P x)} (l : list A) : Forall P l -> filter P l = l.
Proof. induction 1 as [|x l Hx _ IH]; [done|]. rewrite filter_cons_True by done. by rewrite IH. Qed.

Lemma filter_none {A} (P : A -> Prop) `{!forall x, Decision (P x)} (l : list A) :
  (forall x, P x -> x ∉ l) -> filter P l = [].
Proof.
  induction l as [|x l IH]; intros Hn; [done|]. rewrite filter_cons_False.
  - apply IH. intros y Hy Hin. apply (Hn y Hy). by right.
  - intros Hx. apply (Hn x Hx). by left.
Qed.

Lemma NoDup_snoc {A} (l : list A) x : NoDup l -> x ∉ l -> NoDup (l ++ [x]).
Proof.
  intros Hl Hx. apply NoDup_app. split_and!; [done| |apply NoDup_singleton].
  intros y Hy ->%list_elem_of_singleton. done.
Qed.

Lemma elem_of_cons_fmap {A B} (f : A -> B) a (l : list A) y :
  y ∈ f a :: (f <$> l) -> exists x, y = f x /\ x ∈ a :: l.
Proof. intros Hy. by apply (list_elem_of_fmap f (a :: l)). Qed.
