(* ===== verification/GoString.v ===== *)
(** * Go strings

    Go strings are byte strings; they are modelled by [string], whose
    characters are bytes. This file holds the functions of the packages
    [strings], [strconv] and [encoding/hex] that the program calls. *)

From S2P Require Export Prelude.
From stdpp Require Export pretty.

Definition byte (n : nat) : Ascii.ascii := Ascii.ascii_of_nat n.
Definition bytes (l : list nat) : string := String.string_of_list_ascii (byte <$> l).

(** The NUL byte. *)
Definition NUL : string := bytes [0%nat].

(** ** [strings.TrimSpace], [strings.Trim] *)

(** UTF-8 encodings of the code points for which [unicode.IsSpace] holds. *)
Definition space_seqs : list string :=
  (bytes <$> [[9]; [10]; [11]; [12]; [13]; [32]; [194; 133]; [194; 160]; [225; 154; 128];
            [226; 128; 168]; [226; 128; 169]; [226; 128; 175]; [226; 129; 159];
            [227; 128; 128]])%nat
  ++ ((fun k => bytes [226; 128; 128 + k]) <$> seq 0 11)%nat.

(** Drop the first sequence of [seqs] that [s] starts with. *)
Fixpoint strip_one (seqs : list string) (s : string) : option string :=
  match seqs with
  | [] => None
  | p :: seqs' =>
      if String.prefix p s
      then Some (String.substring (String.length p) (String.length s - String.length p)%nat s)
      else strip_one seqs' s
  end.

(** Strip repeatedly. Every sequence is non-empty, so [String.length s] rounds
    are enough: see [trim_left_fuel]. *)
Fixpoint trim_left_go (fuel : nat) (seqs : list string) (s : string) : string :=
  match fuel with
  | O => s
  | S n => match strip_one seqs s with
           | Some s' => trim_left_go n seqs s'
           | None => s
           end
  end.
Definition trim_left (seqs : list string) (s : string) : string :=
  trim_left_go (String.length s) seqs s.
Definition trim_right (seqs : list string) (s : string) : string :=
  String.rev (trim_left (String.rev <$> seqs) (String.rev s)).

Definition TrimSpace (s : string) : string :=
  trim_right space_seqs (trim_left space_seqs s).

(** [strings.Trim(s, cutset)] for an ASCII cutset. *)
Definition Trim (s : string) (cutset : string) : string :=
  let seqs := (fun c => String c EmptyString) <$> String.list_ascii_of_string cutset in
  trim_right seqs (trim_left seqs s).

(** ** Case mapping

    ASCII letters, and the code points outside ASCII whose image is an ASCII
    letter (U+017F and U+0131 in upper case, U+0130 and U+212A in lower case).
    Every other non-ASCII code point is mapped to a non-ASCII one; it is left
    as it is, since the callers only compare the result with ASCII text. *)

Definition ascii_upper (c : Ascii.ascii) : Ascii.ascii :=
  let n := Ascii.nat_of_ascii c in
  if bool_decide (97 <= n <= 122)%nat then byte (n - 32)%nat else c.
Definition ascii_lower (c : Ascii.ascii) : Ascii.ascii :=
  let n := Ascii.nat_of_ascii c in
  if bool_decide (65 <= n <= 90)%nat then byte (n + 32)%nat else c.

Fixpoint ToUpper (s : string) : string :=
  match s with
  | EmptyString => EmptyString
  | String c1 t =>
      let plain := String (ascii_upper c1) (ToUpper t) in
      match t with
      | String c2 t' =>
          if bool_decide (c1 = byte 197 /\ c2 = byte 191) then String (byte 83) (ToUpper t')
          else if bool_decide (c1 = byte 196 /\ c2 = byte 177) then String (byte 73) (ToUpper t')
          else plain
      | EmptyString => plain
      end
  end.

Fixpoint ToLower (s : string) : string :=
  match s with
  | EmptyString => EmptyString
  | String c1 t =>
      let plain := String (ascii_lower c1) (ToLower t) in
      match t with
      | String c2 t' =>
          if bool_decide (c1 = byte 196 /\ c2 = byte 176) then String (byte 105) (ToLower t')
          else match t' with
               | String c3 t'' =>
                   if bool_decide (c1 = byte 226 /\ c2 = byte 132 /\ c3 = byte 170)
                   then String (byte 107) (ToLower t'')
                   else plain
               | EmptyString => plain
               end
      | EmptyString => plain
      end
  end.

(** ** [strings.Join], [strconv.FormatInt(n, 10)], [hex.EncodeToString] *)

Fixpoint strings_Join (l : list string) (sep : string) : string :=
  match l with
  | [] => ""
  | [s] => s
  | s :: l' => s +:+ sep +:+ strings_Join l' sep
  end.

Definition FormatInt (n : Z) : string := pretty n.

Definition hex_digit (n : nat) : Ascii.ascii :=
  if bool_decide (n < 10)%nat then byte (48 + n)%nat else byte (87 + n)%nat.

Fixpoint hex_EncodeToString (s : string) : string :=
  match s with
  | EmptyString => EmptyString
  | String c s' =>
      let n := Ascii.nat_of_ascii c in
      String (hex_digit (n / 16)%nat) (String (hex_digit (n mod 16)%nat) (hex_EncodeToString s'))
  end.

(** [s[:n]] for [n <= len(s)], which every caller guarantees. *)
Definition str_take (n : nat) (s : string) : string := String.substring 0 n s.

(** [strings.HasPrefix]. *)
Definition HasPrefix (s p : string) : bool := String.prefix p s.

(** ** UTF-8

    A Go string holds any bytes. [utf8.DecodeRune] reads the encoding of a code
    point from its start, or a single byte that begins none; the packages that
    produce text put U+FFFD for each such byte. *)

Definition RuneError : string := bytes [239; 191; 189]%nat.

Definition is_ascii (c : Ascii.ascii) : bool :=
  match c with Ascii.Ascii _ _ _ _ _ _ _ high => negb high end.

(** [lo <= c <= hi]; a continuation byte. *)
Definition byte_in (lo hi : N) (c : Ascii.ascii) : bool :=
  let n := Ascii.N_of_ascii c in (lo <=? n)%N && (n <=? hi)%N.
Definition is_cont (c : Ascii.ascii) : bool := byte_in 128 191 c.

(** The first two bytes of a code point of three bytes (no overlong form, no
    surrogate) or of four (none beyond U+10FFFF). *)
Definition lead3 (c c2 : Ascii.ascii) : bool :=
  byte_in 224 224 c && byte_in 160 191 c2 || byte_in 225 236 c && is_cont c2 ||
  byte_in 237 237 c && byte_in 128 159 c2 || byte_in 238 239 c && is_cont c2.
Definition lead4 (c c2 : Ascii.ascii) : bool :=
  byte_in 240 240 c && byte_in 144 191 c2 || byte_in 241 243 c && is_cont c2 ||
  byte_in 244 244 c && byte_in 128 143 c2.

(** How many bytes encode the code point [s] starts with; 0 when they encode
    none. *)
Definition rune_len (s : string) : nat :=
  match s with
  | EmptyString => 0
  | String c t =>
      if is_ascii c then 1
      else match t with
           | EmptyString => 0
           | String c2 t2 =>
               if byte_in 194 223 c then if is_cont c2 then 2 else 0
               else match t2 with
                    | EmptyString => 0
                    | String c3 t3 =>
                        if lead3 c c2 then if is_cont c3 then 3 else 0
                        else match t3 with
                             | EmptyString => 0
                             | String c4 _ => if lead4 c c2 && is_cont c3 && is_cont c4 then 4 else 0
                             end
                    end
           end
  end%nat.

(** [s] with each byte that is not part of a code point replaced by U+FFFD:
    what is left of a string once it has been through JSON, both ways. The
    first [k] bytes belong to a code point already read. *)
Fixpoint coerced_from (k : nat) (s : string) : string :=
  match s with
  | EmptyString => EmptyString
  | String c t =>
      match k with
      | S k => String c (coerced_from k t)
      | O => match rune_len s with
             | O => RuneError +:+ coerced_from 0 t
             | S w => String c (coerced_from w t)
             end
      end
  end.
Definition coerced (s : string) : string := coerced_from 0 s.

(** [utf8.ValidString]. *)
Fixpoint valid_from (k : nat) (s : string) : bool :=
  match s with
  | EmptyString => true
  | String c t =>
      match k with
      | S k => valid_from k t
      | O => match rune_len s with
             | O => false
             | S w => valid_from w t
             end
      end
  end.
Definition ValidString (s : string) : bool := valid_from 0 s.

(** [err.Error()]. *)
Fixpoint error_text (e : error) : string :=
  match e with
  | ErrSentinel ErrInvalidLeg => "invalid leg"
  | ErrSentinel ErrBreakResolved => "break already resolved"
  | ErrSentinel ErrNotFound => "not found"
  | ErrSentinel Canceled => "context canceled"
  | ErrSentinel ErrServerClosed => "http: Server closed"
  | ErrText msg => msg
  | ErrWrap prefix e' suffix => prefix +:+ error_text e' +:+ suffix
  | ErrJoin es => strings_Join (error_text <$> es) (bytes [10%nat])
  end.

(** ** Facts *)

Lemma str_app_nil_r (s : string) : s +:+ "" = s.
Proof. induction s as [|c s IH]; [done|]. exact (f_equal (String _) IH). Qed.

Lemma str_app_assoc (a b c : string) : (a +:+ b) +:+ c = a +:+ (b +:+ c).
Proof. induction a as [|x a IH]; [done|]. exact (f_equal (String _) IH). Qed.

Lemma str_app_inj_tail (a a' b b' : string) :
  String.length a = String.length a' -> a +:+ b = a' +:+ b' -> a = a' /\ b = b'.
Proof.
  revert a'. induction a as [|x a IH]; intros [|y a'] Hl Heq; simplify_eq/=; [done|].
  destruct (IH a') as [-> ->]; naive_solver.
Qed.

Lemma FormatInt_inj a b : FormatInt a = FormatInt b -> a = b.
Proof. apply pretty_Z_inj. Qed.

Lemma trim_left_go_nil seqs fuel : trim_left_go fuel seqs "" = "" \/ "" ∈ seqs.
Proof.
  destruct fuel as [|n]; simpl; [by left|].
  destruct (strip_one seqs "") as [s|] eqn:E; [|by left]. right.
  revert E. induction seqs as [|p seqs IH]; simpl; [done|].
  destruct p; [by left|]. intros H. right. by apply IH.
Qed.

Lemma ToUpper_no_escape s :
  Forall (fun c => Ascii.nat_of_ascii c < 128)%nat (String.list_ascii_of_string s) ->
  String.list_ascii_of_string (ToUpper s) = ascii_upper <$> String.list_ascii_of_string s.
Proof.
  induction s as [|c s IH]; simpl; [done|].
  intros [Hc Hs]%Forall_cons. specialize (IH Hs).
  destruct s as [|c2 s]; simpl; [done|].
  rewrite !bool_decide_eq_false_2.
  - simpl. f_equal. exact IH.
  - intros [-> _]. vm_compute in Hc. lia.
  - intros [-> _]. vm_compute in Hc. lia.
Qed.

Lemma list_ascii_inj s1 s2 :
  String.list_ascii_of_string s1 = String.list_ascii_of_string s2 -> s1 = s2.
Proof.
  intros H. rewrite <- (String.string_of_list_ascii_of_string s1), H.
  apply String.string_of_list_ascii_of_string.
Qed.

(** *** Trimming *)

Notation chars := String.list_ascii_of_string.

Lemma substring_all s n : (String.length s <= n)%nat -> String.substring 0 n s = s.
Proof.
  revert n. induction s as [|c s IH]; intros [|n] Hn; cbn in *; [done..|lia|].
  f_equal. apply IH. lia.
Qed.

Lemma strip_one_head_ne seqs c s :
  Forall (fun p => exists d p', p = String d p' /\ d <> c) seqs ->
  strip_one seqs (String c s) = None.
Proof.
  induction 1 as [|p seqs (d & p' & -> & Hd) _ IH]; [done|].
  cbn. destruct (Ascii.ascii_dec d c); [done|]. exact IH.
Qed.

Lemma trim_left_head_ne seqs c s :
  Forall (fun p => exists d p', p = String d p' /\ d <> c) seqs ->
  trim_left seqs (String c s) = String c s.
Proof. intros H. unfold trim_left. cbn. by rewrite strip_one_head_ne. Qed.

Definition singletons (cut : list Ascii.ascii) : list string :=
  (fun c => String c EmptyString) <$> cut.

Lemma strip_one_singletons cut c s :
  strip_one (singletons cut) (String c s) = if decide (c ∈ cut) then Some s else None.
Proof.
  induction cut as [|d cut IH]; cbn [singletons fmap list_fmap strip_one]; [done|].
  cbn [String.prefix]. destruct (Ascii.ascii_dec d c) as [->|Hne].
  - rewrite decide_True by left. destruct s; cbn; [done|].
    f_equal. by rewrite substring_all.
  - unfold singletons in IH. rewrite IH.
    destruct (decide (c ∈ cut)) as [Hin|Hin], (decide (c ∈ d :: cut)) as [Hin'|Hin']; try done.
    + exfalso. apply Hin'. by right.
    + apply elem_of_cons in Hin' as [?|?]; congruence.
Qed.

(** What [trim_left] removes consists of characters of the cutset. *)
Lemma trim_left_singletons cut s :
  exists removed, chars s = removed ++ chars (trim_left (singletons cut) s)
                  /\ Forall (.∈ cut) removed.
Proof.
  unfold trim_left. generalize (String.length s) as fuel. intros fuel. revert s.
  induction fuel as [|n IH]; intros s; [by exists []|]. cbn [trim_left_go].
  destruct s as [|c s].
  - exists []. split; [|done]. destruct (strip_one _ _) eqn:E; [|done].
    exfalso. clear IH. induction cut; cbn in E; [done|]. by apply IHcut.
  - rewrite strip_one_singletons. destruct (decide (c ∈ cut)) as [Hin|Hin]; [|by exists []].
    destruct (IH s) as (r & Hr & HF). exists (c :: r). split; [|by constructor].
    cbn. by rewrite Hr at 1.
Qed.

Lemma chars_rev_app s t : chars (String.rev_app s t) = reverse (chars s) ++ chars t.
Proof.
  revert t. induction s as [|c s IH]; intros t; [done|].
  change (chars (String c s)) with (c :: chars s). cbn [String.rev_app].
  rewrite IH, reverse_cons, <- app_assoc. done.
Qed.

Lemma chars_rev s : chars (String.rev s) = reverse (chars s).
Proof. unfold String.rev. rewrite chars_rev_app. apply app_nil_r. Qed.

(** [strings.Trim(s, cutset) == ""] exactly when every byte is in the cutset. *)
Lemma Trim_empty s cut :
  Trim s cut = "" -> Forall (.∈ chars cut) (chars s).
Proof.
  unfold Trim, trim_right. intros H.
  change ((fun c => String c EmptyString) <$> chars cut) with (singletons (chars cut)) in H.
  destruct (trim_left_singletons (chars cut) s) as (r1 & Hr1 & HF1).
  set (s1 := trim_left (singletons (chars cut)) s) in *.
  assert (String.rev <$> singletons (chars cut) = singletons (chars cut)) as Hrev.
  { unfold singletons. by rewrite <- list_fmap_compose. }
  rewrite Hrev in H.
  destruct (trim_left_singletons (chars cut) (String.rev s1)) as (r2 & Hr2 & HF2).
  set (s2 := trim_left (singletons (chars cut)) (String.rev s1)) in *.
  assert (chars s2 = []) as Hs2.
  { rewrite <- (reverse_involutive (chars s2)), <- chars_rev, H. done. }
  rewrite Hs2, app_nil_r, chars_rev in Hr2.
  rewrite Hr1. apply Forall_app. split; [done|].
  rewrite <- (reverse_involutive (chars s1)), Hr2. by apply Forall_reverse.
Qed.

(** *** NUL-terminated concatenation *)

Definition no_nul (s : string) : Prop := byte 0 ∉ chars s.

Lemma chars_app a b : chars (a +:+ b) = chars a ++ chars b.
Proof. induction a as [|c a IH]; [done|]. exact (f_equal (cons c) IH). Qed.

Lemma cut_at_nul (l1 l2 r1 r2 : list Ascii.ascii) (z : Ascii.ascii) :
  z ∉ l1 -> z ∉ l2 -> l1 ++ z :: r1 = l2 ++ z :: r2 -> l1 = l2 /\ r1 = r2.
Proof.
  revert l2. induction l1 as [|c l1 IH]; intros [|d l2] H1 H2 Heq; simplify_eq/=.
  - done.
  - exfalso. apply H2. by left.
  - exfalso. apply H1. by left.
  - destruct (IH l2) as [-> ->]; [..|done|done].
    + intros ?. apply H1. by right.
    + intros ?. apply H2. by right.
Qed.

Lemma pretty_N_go_no_nul n s : no_nul s -> no_nul (pretty_N_go n s).
Proof.
  revert s. induction (N.lt_wf_0 n) as [n _ IH]. intros s Hs.
  destruct (decide (n = 0%N)) as [->|Hn]; [done|].
  rewrite pretty_N_go_step by lia. apply IH; [apply N.div_lt; lia|].
  unfold no_nul. change (chars (String ?c s)) with (c :: chars s). intros Hin.
  apply elem_of_cons in Hin as [Hin|]; [|done]. revert Hin.
  unfold pretty_N_char. repeat case_match; done.
Qed.

Lemma FormatInt_no_nul z : no_nul (FormatInt z).
Proof.
  assert (forall n : N, no_nul (pretty n)) as HN.
  { intros n. unfold pretty, pretty_N. case_decide.
    - intros Hin. apply elem_of_cons in Hin as [|Hin]; [done|]. by apply not_elem_of_nil in Hin.
    - apply pretty_N_go_no_nul. apply not_elem_of_nil. }
  destruct z as [|p|p]; unfold FormatInt, pretty, pretty_Z; [|apply HN|].
  - intros Hin. apply elem_of_cons in Hin as [|Hin]; [done|]. by apply not_elem_of_nil in Hin.
  - intros Hin. rewrite chars_app in Hin. apply elem_of_app in Hin as [Hin|Hin]; [|by apply HN in Hin].
    apply elem_of_cons in Hin as [|Hin]; [done|]. by apply not_elem_of_nil in Hin.
Qed.

(** *** UTF-8 *)

Lemma RuneError_length s : String.length (RuneError +:+ s) = (3 + String.length s)%nat.
Proof. done. Qed.

Lemma coerced_from_length k s : (String.length s <= String.length (coerced_from k s))%nat.
Proof.
  revert k. induction s as [|c s IH]; intros k; [done|]. cbn [coerced_from].
  destruct k as [|k]; [|cbn; specialize (IH k); lia].
  destruct (rune_len _) as [|w]; [rewrite RuneError_length; specialize (IH 0%nat)|specialize (IH w)]; cbn; lia.
Qed.

(** Only valid text comes through unchanged. *)
Lemma coerced_from_fixed k s : coerced_from k s = s <-> valid_from k s = true.
Proof.
  revert k. induction s as [|c s IH]; intros k; [done|]. cbn [coerced_from valid_from].
  assert (forall a b, String c a = String c b <-> a = b) as Hc by (intros; split; congruence).
  destruct k as [|k]; [|by rewrite Hc]. destruct (rune_len _) as [|w]; [|by rewrite Hc].
  split; [|done]. intros H. apply (f_equal String.length) in H. rewrite RuneError_length in H. cbn in H.
  pose proof (coerced_from_length 0 s). lia.
Qed.

Lemma coerced_valid s : ValidString s = true -> coerced s = s.
Proof. apply coerced_from_fixed. Qed.

(** A code point is still read where one was. *)
Lemma rune_len_coerced c t w :
  rune_len (String c t) = S w -> rune_len (String c (coerced_from w t)) = S w.
Proof.
  intros H. unfold rune_len in H.
  repeat case_match; simplify_eq; cbn [coerced_from rune_len]; by repeat case_match.
Qed.

Lemma valid_coerced_from k s : valid_from k (coerced_from k s) = true.
Proof.
  revert k. induction s as [|c s IH]; intros k; [done|]. cbn [coerced_from].
  destruct k as [|k]; [|apply IH]. destruct (rune_len (String c s)) as [|w] eqn:E.
  - change (valid_from 0 (coerced_from 0 s) = true). apply IH.
  - cbn [valid_from]. rewrite (rune_len_coerced _ _ _ E). apply IH.
Qed.

(** What went through JSON goes through it unchanged. *)
Lemma valid_coerced s : ValidString (coerced s) = true.
Proof. apply valid_coerced_from. Qed.

Lemma coerced_coerced s : coerced (coerced s) = coerced s.
Proof. apply coerced_valid, valid_coerced. Qed.

Lemma coerced_iff s : coerced s = s <-> ValidString s = true.
Proof. apply coerced_from_fixed. Qed.

Lemma coerced_empty s : coerced s = "" <-> s = "".
Proof.
  split; [|by intros ->]. intros H. pose proof (coerced_from_length 0 s) as Hl.
  change (coerced_from 0 s) with (coerced s) in Hl. rewrite H in Hl. destruct s; [done|]. cbn in Hl. lia.
Qed.

Lemma ascii_valid s : Forall (fun c => is_ascii c = true) (chars s) -> ValidString s = true.
Proof.
  unfold ValidString. induction s as [|c s IH]; [done|]. intros [Hc Hs]%Forall_cons.
  cbn [valid_from rune_len]. rewrite Hc. by apply IH.
Qed.

Lemma is_ascii_nat c : (Ascii.nat_of_ascii c < 128)%nat -> is_ascii c = true.
Proof.
  destruct c as [b0 b1 b2 b3 b4 b5 b6 []]; [|done]. intros H. exfalso. revert H.
  destruct b0, b1, b2, b3, b4, b5, b6; vm_compute; lia.
Qed.

Lemma hex_ascii s : Forall (fun c => is_ascii c = true) (chars (hex_EncodeToString s)).
Proof.
  assert (forall n, (n < 16)%nat -> is_ascii (hex_digit n) = true) as Hd.
  { intros n Hn. do 16 (destruct n as [|n]; [done|]). lia. }
  induction s as [|c s IH]; [constructor|]. cbn [hex_EncodeToString String.list_ascii_of_string].
  pose proof (Ascii.nat_ascii_bounded c). repeat constructor; [apply Hd..|done].
  - apply Nat.Div0.div_lt_upper_bound. lia.
  - apply Nat.mod_upper_bound. lia.
Qed.

Lemma str_take_ascii n s : Forall (fun c => is_ascii c = true) (chars s) ->
  Forall (fun c => is_ascii c = true) (chars (str_take n s)).
Proof.
  unfold str_take. revert n. induction s as [|c s IH]; intros [|n] Hs; try constructor.
  - by apply Forall_cons in Hs as [].
  - apply IH. by apply Forall_cons in Hs as [].
Qed.

Example coerced_ex : coerced (bytes [65; 255; 66]%nat) = "A" +:+ RuneError +:+ "B" /\
  coerced (bytes [195; 169; 226; 130; 172; 240; 159; 146; 182]%nat) = bytes [195; 169; 226; 130; 172; 240; 159; 146; 182]%nat /\
  coerced (bytes [192; 128; 237; 160; 128]%nat) = RuneError +:+ RuneError +:+ RuneError +:+ RuneError +:+ RuneError /\
  ValidString (bytes [226; 130]%nat) = false.
Proof. by repeat split; vm_compute. Qed.

Example TrimSpace_ex : TrimSpace ("  usd" +:+ bytes [194; 160; 10]%nat) = "usd".
Proof. reflexivity. Qed.
Example ToUpper_ex : ToUpper "Us" = "US" /\ ToUpper (bytes [117; 197; 191; 100]%nat) = "USD".
Proof. split; reflexivity. Qed.
Example ToLower_ex : ToLower "DEBIT" = "debit" /\ ToLower (bytes [68; 69; 66; 196; 176; 84]%nat) = "debit".
Proof. split; reflexivity. Qed.
Example FormatInt_ex : FormatInt (-120) = "-120".
Proof. reflexivity. Qed.
