(* ===== verification/Sha256.v ===== *)
(** * SHA-256

    [crypto/sha256], the hash behind leg, match and break identifiers. The
    development is generic in the hash (class [Sha256]): nothing but the absence
    of collisions on the identifiers at hand is ever used of it. [sha256] is the
    function itself (FIPS 180-4); [checksum] is a function that is cheap to
    compute, with which the examples of the development are evaluated. *)

From S2P Require Export GoString.

#[local] Open Scope Z_scope.

Class Sha256 := sha256_sum : string -> string.

(** ** 32-bit words *)

Definition w32 (x : Z) : Z := Z.land x (Z.ones 32).
Definition rotr (n x : Z) : Z := Z.lor (Z.shiftr x n) (w32 (Z.shiftl x (32 - n))).
Definition Ch (x y z : Z) : Z := Z.lxor (Z.land x y) (Z.land (Z.lxor x (Z.ones 32)) z).
Definition Maj (x y z : Z) : Z := Z.lxor (Z.land x y) (Z.lxor (Z.land x z) (Z.land y z)).
Definition Sigma0 (x : Z) : Z := Z.lxor (rotr 2 x) (Z.lxor (rotr 13 x) (rotr 22 x)).
Definition Sigma1 (x : Z) : Z := Z.lxor (rotr 6 x) (Z.lxor (rotr 11 x) (rotr 25 x)).
Definition sigma0 (x : Z) : Z := Z.lxor (rotr 7 x) (Z.lxor (rotr 18 x) (Z.shiftr x 3)).
Definition sigma1 (x : Z) : Z := Z.lxor (rotr 17 x) (Z.lxor (rotr 19 x) (Z.shiftr x 10)).

(** ** The constants

    The first 32 bits of the fractional parts of the cube roots (the round
    constants) and of the square roots (the initial state) of the first primes. *)

Definition primes (n : nat) : list Z :=
  take n (filter (fun p => Forall (fun d => p mod d <> 0) (Z.of_nat <$> seq 2 (Z.to_nat (Z.sqrt p) - 1)))
                 (Z.of_nat <$> seq 2 320)).

(** The integer part of the cube root of [x], its bits set from [2^(k-1)] down. *)
Fixpoint cube_root (k : nat) (r x : Z) : Z :=
  match k with
  | O => r
  | Datatypes.S k' =>
      let r' := r + 2 ^ Z.of_nat k' in
      cube_root k' (if r' * r' * r' <=? x then r' else r) x
  end.

Definition K256 : list Z :=
  Eval cbv in (fun p => w32 (cube_root 36 0 (p * 2 ^ 96))) <$> primes 64.

Record hash_state : Type := mkHash { h_a : Z; h_b : Z; h_c : Z; h_d : Z; h_e : Z; h_f : Z; h_g : Z; h_h : Z }.

Definition H256 : hash_state :=
  Eval cbv in
  match (fun p => w32 (Z.sqrt (p * 2 ^ 64))) <$> primes 8 with
  | [a; b; c; d; e; f; g; h] => mkHash a b c d e f g h
  | _ => mkHash 0 0 0 0 0 0 0 0
  end.

(** ** The message *)

(** The bytes with the padding: a one bit, zeros, and the length in bits. *)
Definition be_bytes (n : nat) (x : Z) : list Z :=
  (fun i => Z.land (Z.shiftr x (8 * Z.of_nat i)) 255) <$> reverse (seq 0 n).

Definition pad (s : string) : list Z :=
  let bs := (fun c => Z.of_nat (Ascii.nat_of_ascii c)) <$> chars s in
  let n := Z.of_nat (length bs) in
  bs ++ [128] ++ replicate (Z.to_nat ((55 - n) mod 64)) 0 ++ be_bytes 8 (8 * n).

Fixpoint words (bs : list Z) : list Z :=
  match bs with
  | a :: b :: c :: d :: bs' =>
      Z.lor (Z.shiftl a 24) (Z.lor (Z.shiftl b 16) (Z.lor (Z.shiftl c 8) d)) :: words bs'
  | _ => []
  end.

(** The next word of the schedule, from the last sixteen, the oldest first. *)
Definition next_word (w : list Z) : Z :=
  match w with
  | w0 :: w1 :: _ :: _ :: _ :: _ :: _ :: _ :: _ :: w9 :: _ :: _ :: _ :: _ :: w14 :: _ =>
      w32 (sigma1 w14 + w9 + sigma0 w1 + w0)
  | _ => 0
  end.

Definition round (k w : Z) (h : hash_state) : hash_state :=
  let '(mkHash a b c d e f g hh) := h in
  let t1 := w32 (hh + Sigma1 e + Ch e f g + k + w) in
  mkHash (w32 (t1 + w32 (Sigma0 a + Maj a b c))) a b c (w32 (d + t1)) e f g.

(** The rounds of a block over a sliding window of sixteen words. *)
Fixpoint rounds (ks : list Z) (w : list Z) (h : hash_state) : hash_state :=
  match ks, w with
  | k :: ks', w0 :: w' => let nw := next_word w in rounds ks' (w' ++ [nw]) (round k w0 h)
  | _, _ => h
  end.

Definition compress (h : hash_state) (block : list Z) : hash_state :=
  let '(mkHash a b c d e f g hh) := h in
  let '(mkHash a' b' c' d' e' f' g' hh') := rounds K256 block h in
  mkHash (w32 (a + a')) (w32 (b + b')) (w32 (c + c')) (w32 (d + d'))
         (w32 (e + e')) (w32 (f + f')) (w32 (g + g')) (w32 (hh + hh')).

Fixpoint blocks (fuel : nat) (h : hash_state) (ws : list Z) : hash_state :=
  match fuel, ws with
  | Datatypes.S fuel', _ :: _ => blocks fuel' (compress h (take 16 ws)) (drop 16 ws)
  | _, _ => h
  end.

Definition digest (h : hash_state) : string :=
  String.string_of_list_ascii ((fun z => byte (Z.to_nat z)) <$>
    ([h_a h; h_b h; h_c h; h_d h; h_e h; h_f h; h_g h; h_h h] ≫= be_bytes 4)).

(** [sha256.Sum256]; a block takes sixteen words, so the fuel is enough. *)
Definition sha256 : Sha256 := fun s => let ws := words (pad s) in digest (blocks (length ws) H256 ws).

(** The published test vector. *)
Example sha256_abc : hex_EncodeToString (sha256 "abc") =
  "ba7816bf8f01cfea414140de5dae2223b00361a396177a9cb410ff61f20015ad".
Proof. vm_compute. reflexivity. Qed.

(** ** A cheap hash

    The bytes as a number modulo a prime below [2^80], in ten bytes. *)
Definition checksum : Sha256 := fun s =>
  let p := 2 ^ 80 - 65 in
  let n := foldl (fun acc c => (acc * 257 + 1 + Z.of_nat (Ascii.nat_of_ascii c)) mod p) 7 (chars s) in
  String.string_of_list_ascii ((fun z => byte (Z.to_nat z)) <$> be_bytes 10 n).
