(* ===== verification/Float64.v ===== *)
(** * Go float64

    A finite [float64] is a dyadic rational. An arithmetic operation returns
    the exact result rounded to the nearest representable number, ties to even,
    as IEEE 754 (and the Go specification) has it. Overflow to infinity is not
    modelled: every value the program computes lies far below [2^1023].

    The program's expressions are evaluated operation by operation, without
    fused multiply-add. *)

From S2P Require Export Prelude.
From Stdlib Require Export QArith Qround Qabs Qpower Lqa.

#[global] Open Scope Z_scope.
Local Open Scope Q_scope.

Definition float64 : Type := Q.

(** ** Rounding *)

Definition pow2 (e : Z) : Q := Qpower (2 # 1) e.

(** Round to the nearest integer, ties to even. *)
Definition rne (x : Q) : Z :=
  let q := Qfloor x in
  match Qcompare (x - inject_Z q) (1 # 2) with
  | Lt => q
  | Gt => (q + 1)%Z
  | Eq => if Z.even q then q else (q + 1)%Z
  end.

(** The exponent [k] with [2^k <= x < 2^(k+1)], for [x > 0]. *)
Definition ilog2 (x : Q) : Z :=
  let k := (Z.log2 (Qnum x) - Z.log2 (Zpos (Qden x)))%Z in
  if Qle_bool (pow2 k) x then k else (k - 1)%Z.

(** Exponent of the unit in the last place: 53 significant bits, and the
    subnormal range below [2^-1022]. *)
Definition ulp_exp (x : Q) : Z := Z.max (ilog2 x - 52) (-1074).

Definition rnd_pos (x : Q) : Q :=
  inject_Z (rne (x / pow2 (ulp_exp x))) * pow2 (ulp_exp x).

Definition rnd (x : Q) : float64 :=
  Qred (match Qcompare x 0 with
        | Eq => 0
        | Gt => rnd_pos x
        | Lt => - rnd_pos (- x)
        end).

(** ** Operations *)

Definition fconst (q : Q) : float64 := rnd q.
Definition of_int (z : Z) : float64 := rnd (inject_Z z).
Definition fadd (x y : float64) : float64 := rnd (x + y).
Definition fsub (x y : float64) : float64 := rnd (x - y).
Definition fmul (x y : float64) : float64 := rnd (x * y).
Definition fdiv (x y : float64) : float64 := rnd (x / y).
Definition fneg (x : float64) : float64 := Qred (- x).
Definition fle (x y : float64) : bool := Qle_bool x y.
Definition flt (x y : float64) : bool := negb (Qle_bool y x).

(** [math.Abs], [math.Max], [math.Min]. *)
Definition fabs (x : float64) : float64 := if flt x 0 then fneg x else x.
Definition fmax (x y : float64) : float64 := if flt x y then y else x.
Definition fmin (x y : float64) : float64 := if flt y x then y else x.

(** Nearest integer, halves away from zero; [math.Round] is its float. *)
Definition round_half_away (x : Q) : Z :=
  if Qle_bool 0 x then Qfloor (x + (1 # 2)) else (- Qfloor (- x + (1 # 2)))%Z.
Definition math_Round (x : float64) : float64 := inject_Z (round_half_away x).

(** [int64(x)]: truncation towards zero. Out of range the result is
    implementation-defined; amd64 gives the smallest integer. *)
Definition int64_of (x : float64) : Z :=
  let z := Z.quot (Qnum x) (Zpos (Qden x)) in
  if decide (in64 z) then z else (- 2 ^ 63)%Z.

(** ** Facts about [pow2] *)

Lemma pow2_pos e : 0 < pow2 e.
Proof. by apply Qpower_0_lt. Qed.

Lemma pow2_nz e : ~ pow2 e == 0.
Proof. pose proof (pow2_pos e). lra. Qed.
#[export] Hint Resolve pow2_pos pow2_nz : core.

Lemma pow2_add a b : pow2 (a + b) == pow2 a * pow2 b.
Proof. unfold pow2. apply Qpower_plus. lra. Qed.

Lemma pow2_int e : (0 <= e)%Z -> pow2 e == inject_Z (2 ^ e).
Proof.
  intros He. unfold pow2. change (2 # 1) with (inject_Z 2).
  symmetry. by apply Zpower_Qpower.
Qed.

Lemma pow2_le a b : (a <= b)%Z -> pow2 a <= pow2 b.
Proof. intros H. apply Qpower_le_compat_l; [lia|lra]. Qed.

Lemma pow2_lt_inv a b : pow2 a < pow2 b -> (a < b)%Z.
Proof.
  intros H. destruct (Z_lt_le_dec a b) as [|Hle]; [done|].
  apply pow2_le in Hle. lra.
Qed.

Lemma pow2_sub_split a b : pow2 a == pow2 (a - b) * pow2 b.
Proof. rewrite <- pow2_add. by replace (a - b + b)%Z with a by lia. Qed.

(** ** Rounding to an integer *)

Lemma Qfloor_bounds x : inject_Z (Qfloor x) <= x < inject_Z (Qfloor x) + 1.
Proof.
  split; [apply Qfloor_le|]. pose proof (Qlt_floor x) as H.
  rewrite inject_Z_plus in H. exact H.
Qed.

Lemma Qfloor_unique x z : inject_Z z <= x < inject_Z z + 1 -> Qfloor x = z.
Proof.
  intros [H1 H2]. pose proof (Qfloor_bounds x) as [H3 H4].
  assert (inject_Z (Qfloor x) < inject_Z (z + 1)) as Ha by (rewrite inject_Z_plus; change (inject_Z 1) with 1; lra).
  assert (inject_Z z < inject_Z (Qfloor x + 1)) as Hb by (rewrite inject_Z_plus; change (inject_Z 1) with 1; lra).
  rewrite <- Zlt_Qlt in Ha, Hb. lia.
Qed.

Lemma rne_cases x :
  let q := Qfloor x in
  (rne x = q /\ x - inject_Z q <= 1 # 2) \/ (rne x = (q + 1)%Z /\ 1 # 2 <= x - inject_Z q).
Proof.
  cbn. unfold rne. destruct (Qcompare_spec (x - inject_Z (Qfloor x)) (1 # 2)) as [H|H|H].
  - destruct (Z.even _); [left|right]; split; try done; rewrite H; lra.
  - left. split; [done|lra].
  - right. split; [done|lra].
Qed.

Lemma rne_err x : - (1 # 2) <= inject_Z (rne x) - x <= 1 # 2.
Proof.
  pose proof (Qfloor_bounds x) as [H1 H2].
  destruct (rne_cases x) as [[-> H]|[-> H]]; [lra|].
  rewrite inject_Z_plus. change (inject_Z 1) with 1. lra.
Qed.

Lemma rne_int z : rne (inject_Z z) = z.
Proof.
  unfold rne. rewrite Qfloor_Z.
  destruct (Qcompare_spec (inject_Z z - inject_Z z) (1 # 2)) as [H|H|H]; [lra|done|lra].
Qed.

Lemma rne_mono x y : x <= y -> (rne x <= rne y)%Z.
Proof.
  intros Hle. pose proof (Qfloor_resp_le x y Hle) as Hf.
  destruct (Z.eq_dec (Qfloor x) (Qfloor y)) as [He|Hne].
  - unfold rne. rewrite <- He.
    destruct (Qcompare_spec (x - inject_Z (Qfloor x)) (1 # 2)) as [H|H|H];
    destruct (Qcompare_spec (y - inject_Z (Qfloor x)) (1 # 2)) as [H'|H'|H'];
      try (destruct (Z.even _)); try lia; exfalso; lra.
  - destruct (rne_cases x) as [[-> _]|[-> _]], (rne_cases y) as [[-> _]|[-> _]]; lia.
Qed.

#[export] Instance rne_proper : Proper (Qeq ==> eq) rne.
Proof.
  intros x y H. apply Z.le_antisymm; apply rne_mono; rewrite H; apply Qle_refl.
Qed.

(** ** Rounding to a float *)

Lemma Qnum_Qden x : x * inject_Z (Zpos (Qden x)) == inject_Z (Qnum x).
Proof. destruct x as [n d]. unfold Qeq, inject_Z; simpl. lia. Qed.

Lemma log2_pow2 z : (0 < z)%Z -> pow2 (Z.log2 z) <= inject_Z z < pow2 (Z.log2 z + 1).
Proof.
  intros Hz. destruct (Z.log2_spec z Hz) as [H1 H2].
  pose proof (Z.log2_nonneg z). rewrite !pow2_int by lia.
  rewrite <- Zle_Qle, <- Zlt_Qlt. by split.
Qed.

Lemma ilog2_spec x : 0 < x -> pow2 (ilog2 x) <= x < pow2 (ilog2 x + 1).
Proof.
  intros Hx. assert (0 < Qnum x)%Z as Hn.
  { destruct x as [n d]. unfold Qlt in Hx. simpl in *. lia. }
  pose proof (Qnum_Qden x) as He.
  pose proof (log2_pow2 (Qnum x) Hn) as [Ha1 Ha2].
  pose proof (log2_pow2 (Zpos (Qden x)) eq_refl) as [Hb1 Hb2].
  unfold ilog2. set (a := Z.log2 (Qnum x)) in *. set (b := Z.log2 (Zpos (Qden x))) in *.
  set (d := inject_Z (Zpos (Qden x))) in *.
  pose proof (pow2_pos b). assert (0 < d) by lra.
  assert (x < pow2 (a - b + 1)) as Hup.
  { apply (Qmult_lt_r _ _ d); [done|]. rewrite He.
    eapply Qlt_le_trans; [exact Ha2|].
    rewrite (pow2_sub_split (a + 1) b).
    replace (a + 1 - b)%Z with (a - b + 1)%Z by lia.
    apply Qmult_le_l; [apply pow2_pos|done]. }
  assert (pow2 (a - b - 1) <= x) as Hlo.
  { apply (Qmult_le_r _ _ d); [done|]. rewrite He.
    eapply Qle_trans; [|exact Ha1].
    rewrite (pow2_sub_split a (b + 1)).
    replace (a - (b + 1))%Z with (a - b - 1)%Z by lia.
    apply Qmult_le_l; [apply pow2_pos|]. lra. }
  destruct (Qle_bool (pow2 (a - b)) x) eqn:E.
  - apply Qle_bool_iff in E. by split.
  - assert (x < pow2 (a - b)).
    { apply Qnot_le_lt. intros ?%Qle_bool_iff. congruence. }
    split; [done|]. by replace (a - b - 1 + 1)%Z with (a - b)%Z by lia.
Qed.

Lemma ilog2_mono x y : 0 < x -> x <= y -> (ilog2 x <= ilog2 y)%Z.
Proof.
  intros Hx Hle. destruct (ilog2_spec x Hx) as [H1 _].
  assert (0 < y) as Hy by lra. destruct (ilog2_spec y Hy) as [_ H2].
  assert (pow2 (ilog2 x) < pow2 (ilog2 y + 1)) as H by lra. apply pow2_lt_inv in H. lia.
Qed.

Lemma ulp_exp_mono x y : 0 < x -> x <= y -> (ulp_exp x <= ulp_exp y)%Z.
Proof. intros Hx Hle. unfold ulp_exp. pose proof (ilog2_mono x y Hx Hle). lia. Qed.

Lemma ulp_exp_bound x k : 0 < x -> x < pow2 k -> (-1021 <= k)%Z -> (ulp_exp x <= k - 53)%Z.
Proof.
  intros Hx Hk Hr. destruct (ilog2_spec x Hx) as [Hlo _]. unfold ulp_exp.
  assert (pow2 (ilog2 x) < pow2 k) as Hl by lra. apply pow2_lt_inv in Hl. lia.
Qed.

Lemma Qdiv_mult_cancel x p : ~ p == 0 -> x / p * p == x.
Proof. intros. field. done. Qed.

Lemma Qdiv_le_mono x y p : 0 < p -> x <= y -> x / p <= y / p.
Proof.
  intros Hp H. apply Qmult_le_compat_r; [done|].
  apply Qlt_le_weak, Qinv_lt_0_compat, Hp.
Qed.

(** Rounding never crosses a multiple of the unit in the last place. *)
Lemma rnd_pos_le_grid x z : x <= inject_Z z * pow2 (ulp_exp x) ->
  rnd_pos x <= inject_Z z * pow2 (ulp_exp x).
Proof.
  intros H. unfold rnd_pos. apply Qmult_le_compat_r; [|apply Qlt_le_weak, pow2_pos].
  rewrite <- Zle_Qle. rewrite <- (rne_int z). apply rne_mono.
  apply Qle_shift_div_r; [apply pow2_pos|done].
Qed.

Lemma rnd_pos_ge_grid x z : inject_Z z * pow2 (ulp_exp x) <= x ->
  inject_Z z * pow2 (ulp_exp x) <= rnd_pos x.
Proof.
  intros H. unfold rnd_pos. apply Qmult_le_compat_r; [|apply Qlt_le_weak, pow2_pos].
  rewrite <- Zle_Qle. rewrite <- (rne_int z). apply rne_mono.
  apply Qle_shift_div_l; [apply pow2_pos|done].
Qed.

Lemma rnd_pos_nonneg x : 0 <= x -> 0 <= rnd_pos x.
Proof.
  intros H. pose proof (rnd_pos_ge_grid x 0) as Hg.
  change (inject_Z 0) with 0 in Hg. rewrite Qmult_0_l in Hg. by apply Hg.
Qed.

Lemma rnd_pos_mono x y : 0 < x -> x <= y -> rnd_pos x <= rnd_pos y.
Proof.
  intros Hx Hle. pose proof (ulp_exp_mono x y Hx Hle) as Hm.
  destruct (Z.eq_dec (ulp_exp x) (ulp_exp y)) as [He|Hne].
  - unfold rnd_pos. rewrite He. apply Qmult_le_compat_r; [|apply Qlt_le_weak, pow2_pos].
    rewrite <- Zle_Qle. apply rne_mono, Qdiv_le_mono; [apply pow2_pos|done].
  - destruct (ilog2_spec y) as [Hy _]; [lra|].
    destruct (ilog2_spec x Hx) as [_ Hx2].
    assert (ulp_exp y = ilog2 y - 52 /\ ilog2 x < ilog2 y)%Z as [Hey Hlt].
    { unfold ulp_exp in *. lia. }
    apply Qle_trans with (pow2 (ilog2 y)).
    + rewrite (pow2_sub_split (ilog2 y) (ulp_exp x)), pow2_int by lia.
      apply rnd_pos_le_grid. rewrite <- pow2_int, <- pow2_sub_split by lia.
      apply Qlt_le_weak. eapply Qlt_le_trans; [exact Hx2|]. apply pow2_le. lia.
    + rewrite (pow2_sub_split (ilog2 y) (ulp_exp y)) at 1. rewrite pow2_int by lia.
      apply rnd_pos_ge_grid. rewrite <- pow2_int, <- pow2_sub_split by lia. done.
Qed.

(** Rounding is off by at most half a unit in the last place. *)
Lemma rnd_pos_err x : 0 < x ->
  - pow2 (ulp_exp x - 1) <= rnd_pos x - x <= pow2 (ulp_exp x - 1).
Proof.
  intros Hx. unfold rnd_pos. set (e := ulp_exp x).
  assert (pow2 e == pow2 (e - 1) * 2) as He.
  { replace e with (e - 1 + 1)%Z at 1 by lia. rewrite pow2_add. reflexivity. }
  pose proof (rne_err (x / pow2 e)) as [H1 H2].
  pose proof (pow2_pos e) as Hp.
  assert (x == x / pow2 e * pow2 e) as Hxe by (by rewrite Qdiv_mult_cancel).
  set (q := x / pow2 e) in *. set (r := inject_Z (rne q)) in *.
  assert (r * pow2 e - x == (r - q) * pow2 e) as -> by (rewrite Hxe; ring).
  assert (pow2 (e - 1) == (1 # 2) * pow2 e) as -> by (rewrite He; ring).
  split.
  - assert (- ((1 # 2) * pow2 e) == (- (1 # 2)) * pow2 e) as -> by ring.
    apply Qmult_le_compat_r; lra.
  - apply Qmult_le_compat_r; lra.
Qed.

Lemma rnd_0 : rnd 0 = 0.
Proof. reflexivity. Qed.

Lemma rnd_pos_eq x : 0 < x -> rnd x == rnd_pos x.
Proof.
  intros H. unfold rnd. rewrite Qred_correct.
  destruct (Qcompare_spec x 0) as [He|Hl|Hg]; [lra|lra|reflexivity].
Qed.

Lemma rnd_neg_eq x : x < 0 -> rnd x == - rnd_pos (- x).
Proof.
  intros H. unfold rnd. rewrite Qred_correct.
  destruct (Qcompare_spec x 0) as [He|Hl|Hg]; [lra|reflexivity|lra].
Qed.

Lemma rnd_zero_eq x : x == 0 -> rnd x == 0.
Proof.
  intros H. unfold rnd. rewrite Qred_correct.
  destruct (Qcompare_spec x 0) as [He|Hl|Hg]; [reflexivity|lra|lra].
Qed.

Lemma rnd_nonneg x : 0 <= x -> 0 <= rnd x.
Proof.
  intros H. destruct (Qle_lt_or_eq _ _ H) as [Hlt|Heq].
  - rewrite rnd_pos_eq by done. by apply rnd_pos_nonneg.
  - rewrite rnd_zero_eq by lra. lra.
Qed.

Lemma rnd_nonpos x : x <= 0 -> rnd x <= 0.
Proof.
  intros H. destruct (Qle_lt_or_eq _ _ H) as [Hlt|Heq].
  - rewrite rnd_neg_eq by done. pose proof (rnd_pos_nonneg (- x)). lra.
  - rewrite rnd_zero_eq by lra. lra.
Qed.

(** Rounding is monotone. *)
Lemma rnd_mono x y : x <= y -> rnd x <= rnd y.
Proof.
  intros H. destruct (Qlt_le_dec 0 x) as [Hx|Hx].
  { rewrite !rnd_pos_eq by lra. by apply rnd_pos_mono. }
  destruct (Qlt_le_dec y 0) as [Hy|Hy].
  { rewrite !rnd_neg_eq by lra. pose proof (rnd_pos_mono (- y) (- x)) as Hm.
    assert (rnd_pos (- y) <= rnd_pos (- x)) by (apply Hm; lra). lra. }
  apply Qle_trans with 0; [by apply rnd_nonpos|by apply rnd_nonneg].
Qed.

#[export] Instance rnd_proper : Proper (Qeq ==> eq) rnd.
Proof.
  intros x y H. unfold rnd. apply Qred_complete.
  assert (rnd x == rnd y) as Hr.
  { apply Qle_antisym; apply rnd_mono; rewrite H; apply Qle_refl. }
  unfold rnd in Hr. by rewrite !Qred_correct in Hr.
Qed.

(** A number of at most 53 significant bits. *)
Definition is_float (x : Q) : Prop :=
  exists m e : Z, (Z.abs m <= 2 ^ 53)%Z /\ (-1074 <= e)%Z /\ x == inject_Z m * pow2 e.

Lemma is_float_neg x : is_float x -> is_float (- x).
Proof.
  intros (m & e & Hm & He & Hx). exists (- m)%Z, e. repeat split; [lia|lia|].
  rewrite Hx, inject_Z_opp. ring.
Qed.

Lemma rnd_pos_exact x : 0 < x -> is_float x -> rnd_pos x == x.
Proof.
  intros Hpos (m & e & Hm & He & Hx).
  assert (exists z, x == inject_Z z * pow2 (ulp_exp x)) as [z Hz].
  { destruct (ilog2_spec x Hpos) as [Hl Hu].
    assert (0 < m)%Z as Hm0.
    { apply Z.nle_gt. intros Hneg. pose proof (pow2_pos e) as Hp.
      assert (inject_Z m <= 0) as Hq by (change 0 with (inject_Z 0); by rewrite <- Zle_Qle).
      assert (inject_Z m * pow2 e <= 0 * pow2 e) by (apply Qmult_le_compat_r; lra). lra. }
    assert (pow2 (ilog2 x) <= pow2 (53 + e)) as Hk.
    { rewrite pow2_add, (pow2_int 53) by lia. eapply Qle_trans; [exact Hl|].
      rewrite Hx. apply Qmult_le_compat_r; [|apply Qlt_le_weak, pow2_pos].
      rewrite <- Zle_Qle. lia. }
    destruct (Z_le_gt_dec (ulp_exp x) e) as [Hle|Hgt].
    - exists (m * 2 ^ (e - ulp_exp x))%Z. rewrite inject_Z_mult, <- pow2_int by lia.
      rewrite <- Qmult_assoc, <- pow2_add.
      replace (e - ulp_exp x + ulp_exp x)%Z with e by lia. exact Hx.
    - assert (ilog2 x <= 53 + e)%Z as Hle.
      { destruct (Z_lt_le_dec (53 + e) (ilog2 x)) as [Hc|]; [|done]. exfalso.
        assert (pow2 (53 + e) * 2 <= pow2 (ilog2 x)) as Hd.
        { change 2 with (pow2 1). rewrite <- pow2_add. apply pow2_le. lia. }
        pose proof (pow2_pos (53 + e)). lra. }
      assert (ulp_exp x = ilog2 x - 52 /\ ilog2 x = 53 + e)%Z as [Hu1 Hu2].
      { unfold ulp_exp in *. lia. }
      exists (2 ^ 52)%Z. rewrite <- pow2_int by lia. rewrite <- pow2_add, Hu1.
      replace (52 + (ilog2 x - 52))%Z with (ilog2 x) by lia.
      apply Qle_antisym; [|done]. eapply Qle_trans; [rewrite Hx; apply Qle_refl|].
      rewrite Hu2, pow2_add, (pow2_int 53) by lia.
      apply Qmult_le_compat_r; [|apply Qlt_le_weak, pow2_pos].
      rewrite <- Zle_Qle. lia. }
  apply Qle_antisym.
  - eapply Qle_trans; [apply (rnd_pos_le_grid x z)|]; rewrite <- Hz; apply Qle_refl.
  - eapply Qle_trans; [|apply (rnd_pos_ge_grid x z)]; rewrite <- Hz; apply Qle_refl.
Qed.

(** Representable numbers are fixed by rounding. *)
Lemma rnd_exact x : is_float x -> rnd x == x.
Proof.
  intros Hf. destruct (Q_dec x 0) as [[H|H]|H].
  - rewrite rnd_neg_eq by done. rewrite rnd_pos_exact; [ring|lra|by apply is_float_neg].
  - rewrite rnd_pos_eq by done. by apply rnd_pos_exact.
  - rewrite rnd_zero_eq by done. by symmetry.
Qed.

Lemma is_float_half z : (Z.abs z <= 2 ^ 53)%Z -> is_float (inject_Z z * (1 # 2)).
Proof. intros H. exists z, (-1)%Z. repeat split; [done|lia]. Qed.

Lemma is_float_int z : (Z.abs z <= 2 ^ 53)%Z -> is_float (inject_Z z).
Proof. intros H. exists z, 0%Z. repeat split; [done|lia|]. unfold pow2; simpl. ring. Qed.

Lemma of_int_exact z : (Z.abs z <= 2 ^ 53)%Z -> of_int z == inject_Z z.
Proof. intros H. by apply rnd_exact, is_float_int. Qed.

(** The rounding error of a positive number below [2^k]. *)
Lemma rnd_err x k : 0 < x -> x < pow2 k -> (-1021 <= k)%Z ->
  - pow2 (k - 54) <= rnd x - x <= pow2 (k - 54).
Proof.
  intros Hx Hk Hr. rewrite rnd_pos_eq by done.
  pose proof (rnd_pos_err x Hx) as [H1 H2].
  pose proof (ulp_exp_bound x k Hx Hk Hr) as Hu.
  assert (pow2 (ulp_exp x - 1) <= pow2 (k - 54)) by (apply pow2_le; lia). lra.
Qed.

(** ** Rounding to whole numbers *)

Lemma round_half_away_int z : round_half_away (inject_Z z) = z.
Proof.
  unfold round_half_away. destruct (Qle_bool 0 (inject_Z z)).
  - apply Qfloor_unique. lra.
  - rewrite <- inject_Z_opp.
    rewrite (Qfloor_unique (inject_Z (- z) + (1 # 2)) (- z)) by lra. lia.
Qed.

Lemma round_half_away_unique x z :
  0 <= x -> inject_Z z - (1 # 2) <= x < inject_Z z + (1 # 2) -> round_half_away x = z.
Proof.
  intros Hx Hz. unfold round_half_away. rewrite (proj2 (Qle_bool_iff 0 x) Hx).
  apply Qfloor_unique. lra.
Qed.

Lemma round_half_away_mono x y : 0 <= x -> x <= y -> (round_half_away x <= round_half_away y)%Z.
Proof.
  intros Hx Hle. unfold round_half_away.
  rewrite (proj2 (Qle_bool_iff 0 x) Hx), (proj2 (Qle_bool_iff 0 y)) by lra.
  apply Qfloor_resp_le. lra.
Qed.

Lemma round_half_away_nonneg x : 0 <= x -> (0 <= round_half_away x)%Z.
Proof.
  intros H. pose proof (round_half_away_mono 0 x (Qle_refl 0) H) as Hm.
  change (round_half_away 0) with 0%Z in Hm. done.
Qed.

Lemma int64_of_int z : in64 z -> int64_of (inject_Z z) = z.
Proof.
  intros H. unfold int64_of. simpl. rewrite Z.quot_1_r. by rewrite decide_True.
Qed.

Lemma int64_of_floor x : 0 <= x -> in64 (Qfloor x) -> int64_of x = Qfloor x.
Proof.
  intros Hx Hr. destruct x as [n d]. unfold int64_of, Qfloor in *. cbn [Qnum Qden].
  assert (0 <= n)%Z by (unfold Qle in Hx; cbn in Hx; lia).
  rewrite Z.quot_div_nonneg by lia. by rewrite decide_True.
Qed.

Lemma int64_of_unique x z :
  in64 z -> 0 <= x -> inject_Z z <= x < inject_Z z + 1 -> int64_of x = z.
Proof.
  intros Hr Hx Hz. pose proof (Qfloor_unique x z Hz) as Hf.
  rewrite int64_of_floor; [done|done|by rewrite Hf].
Qed.

(** Push [inject_Z] through sums and products of a hypothesis. *)
Ltac push_inject H := repeat (rewrite inject_Z_plus in H || rewrite inject_Z_mult in H).

Lemma is_float_shift z : (Z.abs (2 * z + 1) <= 2 ^ 53)%Z -> is_float (inject_Z z + (1 # 2)).
Proof.
  intros H. exists (2 * z + 1)%Z, (-1)%Z. repeat split; [done|lia|].
  rewrite inject_Z_plus, inject_Z_mult. change (pow2 (-1)) with (1 # 2).
  change (inject_Z 2) with 2. change (inject_Z 1) with 1. ring.
Qed.

Example float_ex1 : fdiv (of_int 1) (of_int 10) = (3602879701896397 # 36028797018963968).
Proof. reflexivity. Qed.
Example float_ex2 : fadd (fconst (1 # 10)) (fconst (2 # 10)) = (1351079888211149 # 4503599627370496).
Proof. reflexivity. Qed.
