(* ===== verification/GoTime.v ===== *)
(** * Go time

    [time.Time] as an instant: nanoseconds since 0001-01-01T00:00:00Z, the zero
    [Time] being 0. [time.Duration] is an [int64] number of nanoseconds. *)

From S2P Require Export GoString Float64.

Definition Time : Type := Z.
Definition Duration : Type := Z.

Definition Second : Duration := 10 ^ 9.
Definition Hour : Duration := 3600 * Second.
Definition Day : Duration := 24 * Hour.

Definition IsZero (t : Time) : bool := t =? 0.
Definition Equal (t u : Time) : bool := t =? u.
Definition Before (t u : Time) : bool := t <? u.
Definition After (t u : Time) : bool := u <? t.
Definition Add (t : Time) (d : Duration) : Time := t + d.

(** [t.Sub(u)] saturates at the range of [Duration] (about 292 years). *)
Definition Sub (t u : Time) : Duration :=
  let d := t - u in
  if decide (in64 d) then d else if t <? u then - 2 ^ 63 else 2 ^ 63 - 1.

(** [d.Hours()]: whole hours plus the fraction, in floating point. *)
Definition Hours (d : Duration) : float64 :=
  fadd (of_int (Z.quot d Hour)) (fdiv (of_int (Z.rem d Hour)) (of_int (60 * 60 * 10 ^ 9))).

(** [d.Seconds()], likewise. *)
Definition Seconds (d : Duration) : float64 :=
  fadd (of_int (Z.quot d Second)) (fdiv (of_int (Z.rem d Second)) (of_int (10 ^ 9))).

(** ** [Duration.String]

    Hours, minutes and seconds with a fraction, or one of the smaller units;
    zero is ["0s"]. *)

(** [fmtFrac]: the low [prec] digits of [v] without trailing zeros, after a
    point, before [acc], and the rest of [v]. *)
Fixpoint fmtFrac (prec : nat) (v : Z) (acc : string) : string * Z :=
  match prec with
  | O => (if bool_decide (acc = "") then "" else "." +:+ acc, v)
  | S prec' =>
      let digit := v mod 10 in
      fmtFrac prec' (v / 10)
        (if (digit =? 0) && bool_decide (acc = "") then "" else FormatInt digit +:+ acc)
  end.

Definition Duration_String (d : Duration) : string :=
  let u := Z.abs d in
  let body :=
    if u <? Second then
      if u =? 0 then "0s"
      else
        let '(prec, unit) :=
          if u <? 1000 then (0%nat, "ns")
          else if u <? 1000000 then (3%nat, bytes [194; 181; 115]%nat)
          else (6%nat, "ms") in
        let '(frac, n) := fmtFrac prec u "" in
        FormatInt n +:+ frac +:+ unit
    else
      let '(frac, n) := fmtFrac 9 u "" in
      let s := FormatInt (n mod 60) +:+ frac +:+ "s" in
      let n := n / 60 in
      if 0 <? n then
        let s := FormatInt (n mod 60) +:+ "m" +:+ s in
        let n := n / 60 in
        if 0 <? n then FormatInt n +:+ "h" +:+ s else s
      else s in
  if d <? 0 then "-" +:+ body else body.

Example Duration_String_ex :
  Duration_String <$> [0; 72 * Hour; 90 * Second; 1500000; 1; -1500 * 10 ^ 6; 1000000007]
  = ["0s"; "72h0m0s"; "1m30s"; "1.5ms"; "1ns"; "-1.5s"; "1.000000007s"].
Proof. vm_compute. reflexivity. Qed.

(** ** Calendar

    The proleptic Gregorian calendar, days counted from 0001-01-01 = 0. *)

Definition civil_from_days (n : Z) : Z * Z * Z :=
  let z := n + 306 in
  let era := z / 146097 in
  let doe := z - era * 146097 in
  let yoe := (doe - doe / 1460 + doe / 36524 - doe / 146096) / 365 in
  let doy := doe - (365 * yoe + yoe / 4 - yoe / 100) in
  let mp := (5 * doy + 2) / 153 in
  let d := doy - (153 * mp + 2) / 5 + 1 in
  let m := if mp <? 10 then mp + 3 else mp - 9 in
  let y := yoe + era * 400 in
  (if m <=? 2 then y + 1 else y, m, d).

Definition days_from_civil (y m d : Z) : Z :=
  let y' := if m <=? 2 then y - 1 else y in
  let era := y' / 400 in
  let yoe := y' - era * 400 in
  let mp := (m + 9) mod 12 in
  let doy := (153 * mp + 2) / 5 + d - 1 in
  let doe := yoe * 365 + yoe / 4 - yoe / 100 + doy in
  era * 146097 + doe - 306.

Definition is_leap (y : Z) : bool :=
  (y mod 4 =? 0) && (negb (y mod 100 =? 0) || (y mod 400 =? 0)).

(** [time.daysIn]. *)
Definition daysIn (m y : Z) : Z :=
  if m =? 2 then (if is_leap y then 29 else 28)
  else if (m =? 4) || (m =? 6) || (m =? 9) || (m =? 11) then 30 else 31.

(** Linear arithmetic with division by constants. *)
Ltac divlia := Z.to_euclidean_division_equations; lia.

Lemma civil_ranges doe : 0 <= doe < 146097 ->
  let yoe := (doe - doe / 1460 + doe / 36524 - doe / 146096) / 365 in
  let doy := doe - (365 * yoe + yoe / 4 - yoe / 100) in
  0 <= yoe <= 399 /\ 0 <= doy <= 365.
Proof. intros H yoe doy. subst yoe doy. split; divlia. Qed.

(** The last day of the computational year exists in leap years only. *)
Lemma civil_leap doe : 0 <= doe < 146097 ->
  let yoe := (doe - doe / 1460 + doe / 36524 - doe / 146096) / 365 in
  doe - (365 * yoe + yoe / 4 - yoe / 100) = 365 ->
  (yoe + 1) mod 4 = 0 /\ ((yoe + 1) mod 100 <> 0 \/ (yoe + 1) mod 400 = 0).
Proof. intros H yoe. subst yoe. split; divlia. Qed.

Lemma days_civil n :
  let '(y, m, d) := civil_from_days n in days_from_civil y m d = n.
Proof.
  unfold civil_from_days.
  pose proof (civil_ranges (n + 306 - (n + 306) / 146097 * 146097)) as Hr. cbv zeta in *.
  set (era := (n + 306) / 146097) in *.
  set (doe := n + 306 - era * 146097) in *.
  assert (0 <= doe < 146097) as Hdoe by (subst doe era; divlia).
  specialize (Hr Hdoe).
  set (yoe := (doe - doe / 1460 + doe / 36524 - doe / 146096) / 365) in *.
  set (doy := doe - (365 * yoe + yoe / 4 - yoe / 100)) in *.
  set (mp := (5 * doy + 2) / 153) in *.
  assert (0 <= mp <= 11) as Hmp by (subst mp; divlia).
  set (m := if mp <? 10 then mp + 3 else mp - 9).
  assert ((m + 9) mod 12 = mp) as Hm by (subst m; destruct (Z.ltb_spec mp 10); divlia).
  unfold days_from_civil. rewrite Hm.
  assert ((if m <=? 2 then (if m <=? 2 then yoe + era * 400 + 1 else yoe + era * 400) - 1
           else if m <=? 2 then yoe + era * 400 + 1 else yoe + era * 400) = yoe + era * 400) as Hy
    by (destruct (m <=? 2); lia).
  rewrite Hy. assert ((yoe + era * 400) / 400 = era) as -> by divlia.
  replace (yoe + era * 400 - era * 400) with yoe by lia.
  subst doy. lia.
Qed.

Lemma civil_valid n :
  let '(y, m, d) := civil_from_days n in 1 <= m <= 12 /\ 1 <= d <= daysIn m y.
Proof.
  unfold civil_from_days.
  pose proof (civil_ranges (n + 306 - (n + 306) / 146097 * 146097)) as Hr.
  pose proof (civil_leap (n + 306 - (n + 306) / 146097 * 146097)) as Hl. cbv zeta in *.
  set (era := (n + 306) / 146097) in *.
  set (doe := n + 306 - era * 146097) in *.
  assert (0 <= doe < 146097) as Hdoe by (subst doe era; divlia).
  specialize (Hr Hdoe). specialize (Hl Hdoe).
  set (yoe := (doe - doe / 1460 + doe / 36524 - doe / 146096) / 365) in *.
  set (doy := doe - (365 * yoe + yoe / 4 - yoe / 100)) in *.
  clearbody era doe yoe. clearbody doy.
  assert (exists mp, (5 * doy + 2) / 153 = mp /\ 153 * mp <= 5 * doy + 2 < 153 * mp + 153)
    as (mp & -> & Hmp) by (eexists; split; [done|divlia]).
  assert (mp ∈ [0; 1; 2; 3; 4; 5; 6; 7; 8; 9; 10; 11]) as Hin.
  { assert (0 <= mp <= 11) as Hb by lia. rewrite !elem_of_cons. lia. }
  assert ((yoe + era * 400 + 1) mod 4 = (yoe + 1) mod 4) as E4 by divlia.
  assert ((yoe + era * 400 + 1) mod 100 = (yoe + 1) mod 100) as E100 by divlia.
  assert ((yoe + era * 400 + 1) mod 400 = (yoe + 1) mod 400) as E400 by divlia.
  assert (is_leap (yoe + era * 400 + 1) = false -> doy <> 365) as Hleap.
  { unfold is_leap. rewrite E4, E100, E400. lia. }
  unfold daysIn. clear Hl E4 E100 E400 Hdoe.
  repeat (apply elem_of_cons in Hin as [->|Hin]); [..|by apply not_elem_of_nil in Hin];
    repeat case_match; divlia.
Qed.

(** The year of a day between 0000-01-01 and 9999-12-31 has four digits. *)
Lemma civil_year n : -366 <= n < 3652059 ->
  let '(y, _, _) := civil_from_days n in 0 <= y <= 9999.
Proof.
  intros Hn. pose proof (days_civil n) as Hd. pose proof (civil_valid n) as Hv.
  destruct (civil_from_days n) as [[y m] d]. destruct Hv as [Hm Hdd].
  assert (d <= 31) as Hd31 by (unfold daysIn in Hdd; repeat case_match; lia).
  unfold days_from_civil in Hd.
  destruct (Z.leb_spec m 2); divlia.
Qed.
