(* ===== verification/Leg.v ===== *)
(** * Legs

    internal/domain/recon/leg.go: calendar dates, the [Leg] record, its
    validation, its content hash and the identifiers derived from it. *)

From S2P Require Export Sha256 GoTime.

(** ** Dates (leg.go, [Date]) *)

(** A [Date] embeds a [time.Time]; well-formed dates are UTC midnights. *)
Definition Date : Type := Time.
Definition date_of_day (n : Z) : Date := n * Day.

Definition NewDate (y m d : Z) : Date := date_of_day (days_from_civil y m d).

Definition digit (n : Z) : Ascii.ascii := byte (48 + Z.to_nat n)%nat.
Definition pad2 (n : Z) : string := String (digit (n / 10)) (String (digit (n mod 10)) EmptyString).
Definition pad4 (n : Z) : string := pad2 (n / 100) +:+ pad2 (n mod 100).

(** [d.Format("2006-01-02")]: the year has at least four digits. *)
Definition format_year (y : Z) : string :=
  if y <? 0 then "-" +:+ (if - y <? 10000 then pad4 (- y) else FormatInt (- y))
  else if y <? 10000 then pad4 y else FormatInt y.

Definition Date_String (d : Date) : string :=
  let '(y, m, dd) := civil_from_days (d / Day) in
  format_year y +:+ "-" +:+ pad2 m +:+ "-" +:+ pad2 dd.

Definition digit_val (c : Ascii.ascii) : option Z :=
  let n := Z.of_nat (Ascii.nat_of_ascii c) - 48 in
  if bool_decide (0 <= n <= 9) then Some n else None.

Fixpoint digits_val (acc : Z) (l : list Ascii.ascii) : option Z :=
  match l with
  | [] => Some acc
  | c :: l' => match digit_val c with
               | Some v => digits_val (10 * acc + v) l'
               | None => None
               end
  end.

(** [time.Parse("2006-01-02", s)]: exactly four, two and two digits, a month
    from 1 to 12 and a day of that month. *)
Definition time_Parse_date (s : string) : option Time :=
  match String.list_ascii_of_string s with
  | [y1; y2; y3; y4; h1; m1; m2; h2; d1; d2] =>
      match digits_val 0 [y1; y2; y3; y4], digits_val 0 [m1; m2], digits_val 0 [d1; d2] with
      | Some y, Some m, Some d =>
          if bool_decide (h1 = byte 45 /\ h2 = byte 45 /\ 1 <= m <= 12 /\ 1 <= d <= daysIn m y)
          then Some (date_of_day (days_from_civil y m d))
          else None
      | _, _, _ => None
      end
  | _ => None
  end.

Definition ParseDate (s : string) : result Date :=
  match time_Parse_date s with
  | Some t => Ok t
  | None => Err (ErrWrap ("parse value_date " +:+ s +:+ ": ") (ErrText "parsing time") "")
  end.

Definition DaysBetween (a b : Date) : Z :=
  let diff := fdiv (Hours (Sub a b)) (of_int 24) in
  let diff := if flt diff 0%Q then fneg diff else diff in
  int64_of (fadd diff (fconst (1 # 2))).

(** ** Legs (leg.go, [Leg]) *)

Abbreviation Direction := string (only parsing).
Definition Debit : Direction := "debit".
Definition Credit : Direction := "credit".

Abbreviation LegStatus := string (only parsing).
Definition LegOpen : LegStatus := "open".
Definition LegMatched : LegStatus := "matched".
Definition LegBroken : LegStatus := "break".

Record Leg : Type := mkLeg {
  ID : string;
  Source : string;
  TxnRef : string;
  AmountMinor : Z;
  Currency : string;
  ValueDate : Date;
  Dir : Direction;
  Counterparty : string;
  Attrs : gmap string string;
  IngestedAt : Time;
  Status : LegStatus;
  MatchID : string;
  BreakID : string
}.

#[export] Instance Leg_eq_dec : EqDecision Leg.
Proof. solve_decision. Defined.

(** [l.Attrs[k]]: a missing key reads as the empty string. *)
Definition attr (l : Leg) (k : string) : string := default "" (Attrs l !! k).

Definition set_norm (ccy dir : string) (l : Leg) : Leg :=
  mkLeg (ID l) (Source l) (TxnRef l) (AmountMinor l) ccy (ValueDate l) dir (Counterparty l)
        (Attrs l) (IngestedAt l) (Status l) (MatchID l) (BreakID l).
Definition set_ID (id : string) (l : Leg) : Leg :=
  mkLeg id (Source l) (TxnRef l) (AmountMinor l) (Currency l) (ValueDate l) (Dir l)
        (Counterparty l) (Attrs l) (IngestedAt l) (Status l) (MatchID l) (BreakID l).
Definition set_IngestedAt (t : Time) (l : Leg) : Leg :=
  mkLeg (ID l) (Source l) (TxnRef l) (AmountMinor l) (Currency l) (ValueDate l) (Dir l)
        (Counterparty l) (Attrs l) t (Status l) (MatchID l) (BreakID l).
(** [l.Status, l.MatchID, l.BreakID = s, m, b]. *)
Definition set_state (s m b : string) (l : Leg) : Leg :=
  mkLeg (ID l) (Source l) (TxnRef l) (AmountMinor l) (Currency l) (ValueDate l) (Dir l)
        (Counterparty l) (Attrs l) (IngestedAt l) s m b.

Definition letters : string := "ABCDEFGHIJKLMNOPQRSTUVWXYZ".

(** The problems [Validate] collects, in order. *)
Definition leg_problems (l : Leg) : list string :=
  let ccy := ToUpper (TrimSpace (Currency l)) in
  let dir := ToLower (Dir l) in
  (if bool_decide (TrimSpace (Source l) = "") then ["source is required"] else []) ++
  (if bool_decide (TrimSpace (TxnRef l) = "") then ["txn_ref is required"] else []) ++
  (if AmountMinor l <=? 0 then ["amount_minor must be > 0"] else []) ++
  (if bool_decide (String.length ccy <> 3%nat \/ Trim ccy letters <> "")
   then ["currency must be a 3-letter ISO 4217 code"] else []) ++
  (if IsZero (ValueDate l) then ["value_date is required"] else []) ++
  (if bool_decide (dir <> Debit /\ dir <> Credit)
   then ["direction must be debit or credit"] else []) ++
  (if bool_decide (TrimSpace (Counterparty l) = "") then ["counterparty is required"] else []).

(** [Validate]: the leg with normalised currency and direction, and the error. *)
Definition Validate (l : Leg) : Leg * result unit :=
  (set_norm (ToUpper (TrimSpace (Currency l))) (ToLower (Dir l)) l,
   match leg_problems l with
   | [] => Ok tt
   | ps => Err (ErrWrap "" (ErrSentinel ErrInvalidLeg) (": " +:+ strings_Join ps "; "))
   end).

(** ** Identity *)

Section Identity.
Context `{Sha256}.

(** The fields written to the hash, in order; each is followed by a NUL. *)
Definition content_fields (l : Leg) : list string :=
  [Source l; TxnRef l; FormatInt (AmountMinor l); Currency l; Date_String (ValueDate l);
   Dir l; Counterparty l]
  ++ (k ← sort_Strings ((map_to_list (Attrs l)).*1); [k; attr l k]).

Definition nul_terminated (fs : list string) : string :=
  foldr (fun f acc => f +:+ NUL +:+ acc) "" fs.

Definition ContentHash (l : Leg) : string :=
  hex_EncodeToString (sha256_sum (nul_terminated (content_fields l))).

Definition AssignID (l : Leg) : Leg :=
  set_ID (Source l +:+ ":" +:+ TxnRef l +:+ ":" +:+ str_take 12 (ContentHash l)) l.
End Identity.

(** ** Windows *)

Record WindowKey : Type := mkWindowKey { wk_currency : string; wk_counterparty : string }.

#[export] Instance WindowKey_eq_dec : EqDecision WindowKey.
Proof. solve_decision. Defined.
#[export] Instance WindowKey_countable : Countable WindowKey.
Proof.
  refine (inj_countable' (fun k => (wk_currency k, wk_counterparty k))
                         (fun p => mkWindowKey p.1 p.2) _).
  by intros [].
Defined.

Definition Key (l : Leg) : WindowKey := mkWindowKey (Currency l) (Counterparty l).

(** ** Dates: facts *)

Lemma Hours_whole k : Z.abs k <= 106751 -> Hours (k * Day) == inject_Z (24 * k).
Proof.
  intros Hk. unfold Hours.
  assert (Z.quot (k * Day) Hour = 24 * k) as ->.
  { unfold Day. rewrite Z.mul_assoc. rewrite Z.quot_mul by (unfold Hour, Second; lia). lia. }
  assert (Z.rem (k * Day) Hour = 0) as ->.
  { unfold Day. rewrite Z.mul_assoc. apply Z.rem_mul. unfold Hour, Second. lia. }
  change (fdiv (of_int 0) (of_int (60 * 60 * 10 ^ 9))) with 0%Q.
  unfold fadd. rewrite Qplus_0_r, of_int_exact by lia. apply rnd_exact, is_float_int. lia.
Qed.

Lemma Sub_days i j : Z.abs (i - j) <= 106751 ->
  Sub (date_of_day i) (date_of_day j) = (i - j) * Day.
Proof.
  intros H. unfold Sub, date_of_day. replace (i * Day - j * Day) with ((i - j) * Day) by lia.
  rewrite decide_True; [done|]. unfold in64, Day, Hour, Second. lia.
Qed.

(** Between UTC midnights less than 292 years apart, [DaysBetween] is the
    exact distance in days: the floating-point detour loses nothing. *)
Lemma DaysBetween_days i j : Z.abs (i - j) <= 106751 ->
  DaysBetween (date_of_day i) (date_of_day j) = Z.abs (i - j).
Proof.
  intros Hk. unfold DaysBetween. rewrite Sub_days by done. set (k := i - j) in *.
  set (diff := fdiv (Hours (k * Day)) (of_int 24)).
  assert (diff == inject_Z k)%Q as Hd.
  { unfold diff, fdiv. rewrite Hours_whole by done. change (of_int 24) with 24%Q.
    assert (inject_Z (24 * k) / 24 == inject_Z k)%Q as ->.
    { rewrite inject_Z_mult. change (inject_Z 24) with 24%Q. field. }
    apply rnd_exact, is_float_int. lia. }
  assert ((if flt diff 0 then fneg diff else diff) == inject_Z (Z.abs k))%Q as Ha.
  { unfold flt. destruct (Qle_bool 0 diff) eqn:E; cbn [negb].
    - apply Qle_bool_iff in E. rewrite Hd in E |- *. change 0%Q with (inject_Z 0) in E.
      rewrite <- Zle_Qle in E. by rewrite Z.abs_eq.
    - assert (~ (0 <= diff)%Q) as Hn by (intros ?%Qle_bool_iff; congruence).
      unfold fneg. rewrite Qred_correct. rewrite Hd in Hn |- *.
      change 0%Q with (inject_Z 0) in Hn. rewrite <- Zle_Qle in Hn.
      rewrite <- inject_Z_opp. rewrite Z.abs_neq by lia. reflexivity. }
  set (a := if flt diff 0%Q then fneg diff else diff). change (a == inject_Z (Z.abs k))%Q in Ha.
  assert (fadd a (fconst (1 # 2)) == inject_Z (Z.abs k) + (1 # 2))%Q as Hs.
  { unfold fadd. rewrite Ha. change (fconst (1 # 2)) with (1 # 2)%Q.
    apply rnd_exact, is_float_shift. lia. }
  assert (inject_Z 0 <= inject_Z (Z.abs k))%Q as H0 by (rewrite <- Zle_Qle; lia).
  change (inject_Z 0) with 0%Q in H0.
  apply int64_of_unique; [unfold in64; lia|rewrite Hs; lra|rewrite Hs; lra].
Qed.

(** Farther apart, the subtraction saturates. *)
Example DaysBetween_saturates :
  DaysBetween (NewDate 1600 1 1) (NewDate 2026 1 1) = 106752.
Proof. vm_compute. reflexivity. Qed.

(** Decimal digits are read back. *)
Lemma digit_val_digit n : 0 <= n <= 9 -> digit_val (digit n) = Some n.
Proof.
  intros H. unfold digit_val, digit, byte.
  rewrite Ascii.nat_ascii_embedding by lia.
  rewrite bool_decide_eq_true_2 by lia. f_equal. lia.
Qed.

Lemma digits_val_pad2 acc n l : 0 <= n <= 99 ->
  digits_val acc (digit (n / 10) :: digit (n mod 10) :: l) = digits_val (100 * acc + n) l.
Proof.
  intros H. cbn [digits_val].
  rewrite !digit_val_digit by divlia. f_equal. divlia.
Qed.

Lemma days_in_range m y : 28 <= daysIn m y <= 31.
Proof. unfold daysIn. repeat case_match; lia. Qed.

(** [ParseDate] reads back what [String] prints, for the dates whose year has
    four digits. *)
Lemma ParseDate_String n : -366 <= n < 3652059 ->
  ParseDate (Date_String (date_of_day n)) = Ok (date_of_day n).
Proof.
  intros Hn. unfold ParseDate, Date_String, date_of_day at 1.
  rewrite Z.div_mul by (unfold Day, Hour, Second; lia).
  pose proof (days_civil n) as Hd. pose proof (civil_valid n) as Hv.
  pose proof (civil_year n Hn) as Hy.
  destruct (civil_from_days n) as [[y m] d]. destruct Hv as [Hm Hdd].
  pose proof (days_in_range m y) as Hr.
  unfold format_year. rewrite (proj2 (Z.ltb_ge y 0)) by lia.
  rewrite (proj2 (Z.ltb_lt y 10000)) by lia.
  unfold time_Parse_date, pad4, pad2, String.app, String.append, String.list_ascii_of_string.
  rewrite !digits_val_pad2 by divlia. cbn [digits_val].
  replace (100 * (100 * 0 + y / 100) + y mod 100) with y by divlia.
  replace (100 * 0 + m) with m by lia. replace (100 * 0 + d) with d by lia.
  rewrite bool_decide_eq_true_2 by (repeat split; lia || reflexivity). by rewrite Hd.
Qed.

(** What is parsed as a date is ASCII. *)
Lemma digits_val_ascii acc cs v : digits_val acc cs = Some v -> Forall (fun c => is_ascii c = true) cs.
Proof.
  revert acc. induction cs as [|c cs IH]; intros acc; [constructor|]. cbn.
  unfold digit_val. case_bool_decide; [|done]. intros Hv. constructor; [apply is_ascii_nat; lia|by eapply IH].
Qed.

Lemma ParseDate_valid s d : ParseDate s = Ok d -> ValidString s = true.
Proof.
  unfold ParseDate, time_Parse_date. intros Hd. apply ascii_valid.
  destruct (chars s) as [|y1 [|y2 [|y3 [|y4 [|h1 [|m1 [|m2 [|h2 [|d1 [|d2 [|? ?]]]]]]]]]]]; try done.
  destruct (digits_val 0 [y1; _; _; _]) as [y|] eqn:Ey; [|done].
  destruct (digits_val 0 [m1; _]) as [m|] eqn:Em; [|done].
  destruct (digits_val 0 [d1; _]) as [dd|] eqn:Ed; [|done].
  case_bool_decide as Hh; [|done]. destruct Hh as (-> & -> & _).
  apply digits_val_ascii in Ey, Em, Ed. rewrite !Forall_cons in *. naive_solver.
Qed.

Lemma Date_String_inj i j : -366 <= i < 3652059 -> -366 <= j < 3652059 ->
  Date_String (date_of_day i) = Date_String (date_of_day j) -> i = j.
Proof.
  intros Hi Hj Heq. pose proof (ParseDate_String i Hi) as H1.
  rewrite Heq, (ParseDate_String j Hj) in H1. injection H1 as H1.
  unfold date_of_day in H1. unfold Day, Hour, Second in H1. lia.
Qed.

(** ** Validation: facts *)

Definition is_upper (c : Ascii.ascii) : Prop := (65 <= Ascii.nat_of_ascii c <= 90)%nat.

Lemma in_letters c : c ∈ chars letters -> is_upper c.
Proof.
  intros H. cbn in H.
  repeat (apply elem_of_cons in H as [->|H]; [unfold is_upper; vm_compute; lia|]).
  by apply not_elem_of_nil in H.
Qed.

Lemma letters_in c : is_upper c -> c ∈ chars letters.
Proof.
  unfold is_upper. intros H. rewrite <- (Ascii.ascii_nat_embedding c).
  generalize dependent (Ascii.nat_of_ascii c). intros n Hn.
  assert (n ∈ seq 65 26) as Hin by (apply elem_of_seq; lia).
  cbn in Hin.
  repeat (apply elem_of_cons in Hin as [->|Hin]; [apply list_elem_of_In; vm_compute; tauto|]).
  by apply not_elem_of_nil in Hin.
Qed.

(** What the engine relies on in a validated leg. *)
(** Three capital letters. *)
Definition iso_currency (c : string) : Prop := length (chars c) = 3%nat /\ Forall is_upper (chars c).

Record wf_leg (l : Leg) : Prop := {
  wf_source : TrimSpace (Source l) <> "";
  wf_ref : TrimSpace (TxnRef l) <> "";
  wf_amount : 0 < AmountMinor l;
  wf_currency : iso_currency (Currency l);
  wf_date : ValueDate l <> 0;
  wf_dir : Dir l = Debit \/ Dir l = Credit;
  wf_counterparty : TrimSpace (Counterparty l) <> ""
}.

Lemma String_length_chars s : String.length s = length (chars s).
Proof. induction s; cbn; congruence. Qed.

Lemma problem_nil (b : bool) (p : string) : (if b then [p] else []) = [] <-> b = false.
Proof. by destruct b. Qed.

Lemma and_iff_compat_aux_l (P Q R : Prop) : (P -> (Q <-> R)) -> (P /\ Q <-> P /\ R).
Proof. tauto. Qed.

(** [Validate] accepts exactly the legs that pass its seven tests. *)
Lemma Validate_ok_iff l l' :
  Validate l = (l', Ok tt) <->
  l' = set_norm (ToUpper (TrimSpace (Currency l))) (ToLower (Dir l)) l /\
  TrimSpace (Source l) <> "" /\ TrimSpace (TxnRef l) <> "" /\ 0 < AmountMinor l /\
  (String.length (Currency l') = 3%nat /\ Trim (Currency l') letters = "") /\
  ValueDate l <> 0 /\ (Dir l' = Debit \/ Dir l' = Credit) /\ TrimSpace (Counterparty l) <> "".
Proof.
  assert (Validate l = (l', Ok tt) <->
    l' = set_norm (ToUpper (TrimSpace (Currency l))) (ToLower (Dir l)) l /\ leg_problems l = [])
    as ->.
  { unfold Validate. destruct (leg_problems l); naive_solver. }
  apply and_iff_compat_aux_l. intros ->. cbn [set_norm Currency Dir].
  unfold leg_problems. rewrite !app_nil, !problem_nil, !bool_decide_eq_false.
  unfold IsZero. rewrite Z.leb_gt, Z.eqb_neq.
  pose proof (decide (String.length (ToUpper (TrimSpace (Currency l))) = 3%nat)).
  pose proof (decide (Trim (ToUpper (TrimSpace (Currency l))) letters = "")).
  pose proof (decide (ToLower (Dir l) = Debit)). pose proof (decide (ToLower (Dir l) = Credit)).
  tauto.
Qed.

Lemma upper_not_space c s : is_upper c -> trim_left space_seqs (String c s) = String c s.
Proof.
  unfold is_upper. intros Hc. apply trim_left_head_ne. cbn.
  repeat (constructor; [eexists _, _; split; [reflexivity|]; intros <-; vm_compute in Hc; lia|]).
  constructor.
Qed.

Lemma upper_not_space_rev c s : is_upper c ->
  trim_left (String.rev <$> space_seqs) (String c s) = String c s.
Proof.
  unfold is_upper. intros Hc. apply trim_left_head_ne. cbn.
  repeat (constructor; [eexists _, _; split; [reflexivity|]; intros <-; vm_compute in Hc; lia|]).
  constructor.
Qed.

(** Three letters are left alone by the normalisation. *)
Lemma TrimSpace_iso s : length (chars s) = 3%nat -> Forall is_upper (chars s) -> TrimSpace s = s.
Proof.
  intros Hl Hu. destruct s as [|a [|b [|c [|? ?]]]]; cbn in Hl; simplify_eq.
  apply Forall_cons in Hu as [Ha [Hb Hu]%Forall_cons]. apply Forall_cons in Hu as [Hc _].
  unfold TrimSpace. rewrite upper_not_space by done.
  unfold trim_right. change (String.rev (String a (String b (String c ""))))
    with (String c (String b (String a ""))).
  by rewrite upper_not_space_rev.
Qed.

Lemma normal_currency s :
  length (chars s) = 3%nat -> Forall is_upper (chars s) -> ToUpper (TrimSpace s) = s.
Proof.
  intros Hl Hu. rewrite TrimSpace_iso by done.
  apply list_ascii_inj. rewrite ToUpper_no_escape.
  - clear Hl. induction Hu as [|c l Hc _ IH]; cbn; [done|]. rewrite IH. f_equal.
    unfold ascii_upper, is_upper in *. rewrite bool_decide_eq_false_2 by lia. done.
  - eapply Forall_impl; [exact Hu|]. unfold is_upper. lia.
Qed.

Lemma Trim_letters s : length (chars s) = 3%nat -> Forall is_upper (chars s) -> Trim s letters = "".
Proof.
  intros Hl Hu. destruct s as [|a [|b [|c [|? ?]]]]; cbn in Hl; simplify_eq.
  apply Forall_cons in Hu as [Ha [Hb Hu]%Forall_cons]. apply Forall_cons in Hu as [Hc _].
  apply letters_in in Ha, Hb, Hc. unfold Trim.
  change ((fun c => String c EmptyString) <$> chars letters) with (singletons (chars letters)).
  assert (trim_left (singletons (chars letters)) (String a (String b (String c ""))) = "") as ->;
    [|done].
  unfold trim_left. cbn [String.length trim_left_go].
  do 3 (rewrite strip_one_singletons, decide_True by done; cbn [String.length trim_left_go]).
  done.
Qed.

Lemma Validate_sound l l' : Validate l = (l', Ok tt) ->
  wf_leg l' /\ l' = set_norm (Currency l') (Dir l') l.
Proof.
  intros (-> & Hs & Ht & Ha & [Hc1 Hc2] & Hd & Hdir & Hcp)%Validate_ok_iff.
  cbn [set_norm Currency Dir] in *.
  split; [|done]. constructor; cbn [set_norm Source TxnRef AmountMinor Currency ValueDate Dir Counterparty]; try done.
  split; [by rewrite <- String_length_chars|].
  apply Trim_empty in Hc2. eapply Forall_impl; [exact Hc2|]. apply in_letters.
Qed.

Lemma set_norm_id l : set_norm (Currency l) (Dir l) l = l.
Proof. by destruct l. Qed.

(** Validation is the identity on well-formed legs: normalisation is
    idempotent, and a validated leg passes again unchanged. *)
Lemma Validate_wf l : wf_leg l -> Validate l = (l, Ok tt).
Proof.
  intros [Hs Ht Ha [Hl Hu] Hd Hdir Hcp]. apply Validate_ok_iff.
  assert (ToLower (Dir l) = Dir l) as -> by (by destruct Hdir as [->| ->]).
  rewrite normal_currency, set_norm_id by done.
  repeat split; try done; [by rewrite String_length_chars|by apply Trim_letters].
Qed.

Lemma Validate_error l l' e : Validate l = (l', Err e) -> errors_Is e ErrInvalidLeg = true.
Proof. unfold Validate. destruct (leg_problems l); intros [= _ <-]. done. Qed.

(** ** Content identity: facts *)

(** Two legs with the same business fields. *)
Definition same_content (l1 l2 : Leg) : Prop :=
  Source l1 = Source l2 /\ TxnRef l1 = TxnRef l2 /\ AmountMinor l1 = AmountMinor l2 /\
  Currency l1 = Currency l2 /\ ValueDate l1 = ValueDate l2 /\ Dir l1 = Dir l2 /\
  Counterparty l1 = Counterparty l2 /\ Attrs l1 = Attrs l2.

(** A value date is a UTC midnight of the years 0000 to 9999: what [ParseDate]
    returns. *)
Definition wf_date_range (d : Date) : Prop := exists n, -366 <= n < 3652059 /\ d = date_of_day n.

(** No string of the leg holds a NUL byte. *)
Record nul_free (l : Leg) : Prop := {
  nf_source : no_nul (Source l);
  nf_ref : no_nul (TxnRef l);
  nf_currency : no_nul (Currency l);
  nf_dir : no_nul (Dir l);
  nf_counterparty : no_nul (Counterparty l);
  nf_attrs : forall k v, Attrs l !! k = Some v -> no_nul k /\ no_nul v
}.

Lemma nul_terminated_cons f fs :
  chars (nul_terminated (f :: fs)) = chars f ++ byte 0 :: chars (nul_terminated fs).
Proof.
  change (nul_terminated (f :: fs)) with (f +:+ NUL +:+ nul_terminated fs).
  by rewrite !chars_app.
Qed.

Lemma nul_terminated_inj fs gs :
  Forall no_nul fs -> Forall no_nul gs -> nul_terminated fs = nul_terminated gs -> fs = gs.
Proof.
  intros Hf. revert gs. induction Hf as [|f fs Hf _ IH]; intros gs Hg Heq.
  - destruct Hg as [|g gs]; [done|]. apply (f_equal chars) in Heq.
    rewrite nul_terminated_cons in Heq. by destruct (chars g).
  - destruct Hg as [|g gs Hg Hgs]; apply (f_equal chars) in Heq.
    + rewrite nul_terminated_cons in Heq. by destruct (chars f).
    + rewrite !nul_terminated_cons in Heq.
      destruct (cut_at_nul _ _ _ _ _ Hf Hg Heq) as [Ha%list_ascii_inj Hb%list_ascii_inj].
      subst. f_equal. by apply IH.
Qed.

Lemma digit_no_nul n : 0 <= n <= 9 -> digit n <> byte 0.
Proof.
  intros H Heq. pose proof (digit_val_digit n H) as Hd. rewrite Heq in Hd. done.
Qed.

Lemma pad2_no_nul n : 0 <= n <= 99 -> no_nul (pad2 n).
Proof.
  intros H Hin. unfold pad2 in Hin.
  apply elem_of_cons in Hin as [Hin|Hin]; [symmetry in Hin; apply digit_no_nul in Hin; [done|divlia]|].
  apply elem_of_cons in Hin as [Hin|Hin]; [symmetry in Hin; apply digit_no_nul in Hin; [done|divlia]|].
  by apply not_elem_of_nil in Hin.
Qed.

Lemma no_nul_app a b : no_nul a -> no_nul b -> no_nul (a +:+ b).
Proof. unfold no_nul. rewrite chars_app, elem_of_app. tauto. Qed.

Lemma no_nul_dash : no_nul "-".
Proof. unfold no_nul. cbn. rewrite elem_of_cons, elem_of_nil. by intros [|]. Qed.

Lemma Date_String_no_nul n : -366 <= n < 3652059 -> no_nul (Date_String (date_of_day n)).
Proof.
  intros Hn. unfold Date_String, date_of_day.
  rewrite Z.div_mul by (unfold Day, Hour, Second; lia).
  pose proof (civil_valid n) as Hv. pose proof (civil_year n Hn) as Hy.
  destruct (civil_from_days n) as [[y m] d]. destruct Hv as [Hm Hdd].
  pose proof (days_in_range m y) as Hr. unfold format_year, pad4.
  rewrite (proj2 (Z.ltb_ge y 0)), (proj2 (Z.ltb_lt y 10000)) by lia.
  repeat apply no_nul_app; try apply no_nul_dash; apply pad2_no_nul; divlia.
Qed.

Section IdentityFacts.
Context `{Sha256}.

Lemma content_fields_no_nul l :
  nul_free l -> wf_date_range (ValueDate l) -> Forall no_nul (content_fields l).
Proof.
  intros [Hs Hr Hc Hd Hcp Hat] (n & Hn & Hdate). unfold content_fields.
  apply Forall_app. split.
  - rewrite Hdate. repeat (constructor; [by auto using FormatInt_no_nul, Date_String_no_nul|]). constructor.
  - apply Forall_forall. intros f Hin. apply list_elem_of_bind in Hin as (k & Hin & Hk).
    rewrite elem_of_sort_Strings in Hk. apply list_elem_of_fmap in Hk as ([k' v] & -> & Hkv).
    apply elem_of_map_to_list in Hkv. cbn in *. destruct (Hat _ _ Hkv) as [Hk Hv].
    unfold attr in Hin. rewrite Hkv in Hin. cbn in Hin.
    apply elem_of_cons in Hin as [->|Hin]; [done|]. by apply list_elem_of_singleton in Hin as ->.
Qed.

Lemma pairs_inj (f g : string -> string) ks1 ks2 :
  (k ← ks1; [k; f k]) = (k ← ks2; [k; g k]) -> ks1 = ks2 /\ (forall k, k ∈ ks1 -> f k = g k).
Proof.
  revert ks2. induction ks1 as [|k ks1 IH]; intros [|k2 ks2] Heq; simplify_eq/=.
  - split; [done|]. intros k Hk. by apply not_elem_of_nil in Hk.
  - destruct (IH ks2) as [-> Hf]; [done|]. split; [done|].
    intros k Hk. apply elem_of_cons in Hk as [->|Hk]; [done|]. by apply Hf.
Qed.

Lemma content_fields_inj l1 l2 :
  wf_date_range (ValueDate l1) -> wf_date_range (ValueDate l2) ->
  content_fields l1 = content_fields l2 -> same_content l1 l2.
Proof.
  intros (n1 & Hn1 & Hd1) (n2 & Hn2 & Hd2) Heq. unfold content_fields in Heq.
  rewrite Hd1, Hd2 in Heq. cbn [app] in Heq.
  injection Heq as Hs Hr Ha Hc Hd Hdir Hcp Hat.
  apply FormatInt_inj in Ha. apply Date_String_inj in Hd; [|done..].
  apply (pairs_inj (attr l1) (attr l2)) in Hat as [Hk Hv].
  repeat split; try done; [by rewrite Hd1, Hd2, Hd|].
  apply map_eq. intros k.
  assert (forall l, k ∈ sort_Strings ((map_to_list (Attrs l)).*1) <-> is_Some (Attrs l !! k)) as Hdom.
  { intros l. rewrite elem_of_sort_Strings, list_elem_of_fmap. split.
    - intros ([k' v] & -> & Hkv). apply elem_of_map_to_list in Hkv. by exists v.
    - intros [v Hkv]. exists (k, v). split; [done|]. by apply elem_of_map_to_list. }
  specialize (Hv k). unfold attr in Hv.
  destruct (Attrs l1 !! k) as [v1|] eqn:E1.
  - assert (k ∈ sort_Strings ((map_to_list (Attrs l1)).*1)) as Hin by (apply Hdom; by rewrite E1).
    specialize (Hv Hin). rewrite Hk in Hin. apply Hdom in Hin as [v2 E2].
    rewrite E2 in Hv |- *. cbn in Hv. by subst.
  - destruct (Attrs l2 !! k) as [v2|] eqn:E2; [|done]. exfalso.
    assert (k ∈ sort_Strings ((map_to_list (Attrs l2)).*1)) as Hin by (apply Hdom; by rewrite E2).
    rewrite <- Hk in Hin. apply Hdom in Hin as [? ?]. congruence.
Qed.

Lemma same_content_fields l1 l2 : same_content l1 l2 -> content_fields l1 = content_fields l2.
Proof.
  intros (H1 & H2 & H3 & H4 & H5 & H6 & H7 & H8). unfold content_fields, attr.
  by rewrite H1, H2, H3, H4, H5, H6, H7, H8.
Qed.
End IdentityFacts.
