(* ===== verification/GoParse.v ===== *)
(** * Parsing numbers, booleans and durations

    What the configuration and the HTTP API use of [strconv], [strings.Split]
    and [time.ParseDuration]. The texts of the errors are abbreviated. *)

From S2P Require Export Leg.

(** ** [strings.Split], by one character *)

Fixpoint Split (sep : Ascii.ascii) (s : string) : list string :=
  match s with
  | EmptyString => [""]
  | String c s' =>
      if bool_decide (c = sep) then "" :: Split sep s'
      else match Split sep s' with
           | p :: ps => String c p :: ps
           | [] => [String c ""]
           end
  end.
Definition Split_comma : string -> list string := Split (byte 44).

(** ** [strconv.ParseInt(s, 10, 64)], [strconv.Atoi], [strconv.ParseBool] *)

Inductive num_error : Set := ErrSyntax | ErrRange.

Definition num_text (e : num_error) : string :=
  match e with ErrSyntax => "strconv: invalid syntax" | ErrRange => "strconv: value out of range" end.

(** The digits of an unsigned 64-bit number, read until the first that is none
    or that overflows. *)
Fixpoint uint_digits (n : Z) (l : list Ascii.ascii) : Z + num_error :=
  match l with
  | [] => inl n
  | c :: l' =>
      match digit_val c with
      | None => inr ErrSyntax
      | Some d => if 2 ^ 64 <=? 10 * n + d then inr ErrRange else uint_digits (10 * n + d) l'
      end
  end.

(** The sign in front, and the rest. *)
Definition split_sign (l : list Ascii.ascii) : bool * list Ascii.ascii :=
  match l with
  | c :: l' => if bool_decide (c = byte 45) then (true, l')
               else if bool_decide (c = byte 43) then (false, l') else (false, l)
  | [] => (false, l)
  end.

Definition ParseInt (s : string) : result Z :=
  let '(neg, l) := split_sign (chars s) in
  match l with
  | [] => Err (ErrText (num_text ErrSyntax))
  | _ =>
      match uint_digits 0 l with
      | inr e => Err (ErrText (num_text e))
      | inl n =>
          if neg then (if 2 ^ 63 <? n then Err (ErrText (num_text ErrRange)) else Ok (- n))
          else if 2 ^ 63 <=? n then Err (ErrText (num_text ErrRange)) else Ok n
      end
  end.

(** [int] has 64 bits. *)
Definition Atoi (s : string) : result Z := ParseInt s.

Definition ParseBool (s : string) : result bool :=
  if decide (s ∈ ["1"; "t"; "T"; "TRUE"; "true"; "True"]) then Ok true
  else if decide (s ∈ ["0"; "f"; "F"; "FALSE"; "false"; "False"]) then Ok false
  else Err (ErrText (num_text ErrSyntax)).

Lemma ParseInt_in64 s n : ParseInt s = Ok n -> in64 n.
Proof.
  assert (forall l acc n, 0 <= acc -> uint_digits acc l = inl n -> 0 <= n) as Hpos.
  { induction l as [|c l IH]; intros acc k Ha; cbn; [by intros [= <-]|].
    destruct (digit_val c) as [d|] eqn:Ed; [|done]. case_match; [done|]. apply IH.
    unfold digit_val in Ed. case_bool_decide; [|done]. injection Ed as <-. lia. }
  unfold ParseInt, in64. destruct (split_sign (chars s)) as [neg [|c l]]; [done|].
  destruct (uint_digits 0 (c :: l)) as [k|e] eqn:E; [|done]. apply Hpos in E; [|done].
  destruct neg; case_match; try done; intros [= <-]; lia.
Qed.

Example ParseInt_ex : ParseInt <$> ["42"; "-9223372036854775808"; "+7"; "0010"]
  = [Ok 42; Ok (- 2 ^ 63); Ok 7; Ok 10].
Proof. reflexivity. Qed.
Example ParseInt_bad : (fun s => match ParseInt s with Ok _ => true | Err _ => false end) <$>
  [""; "-"; "1_000"; " 1"; "9223372036854775808"; "1e3"] = replicate 6 false.
Proof. reflexivity. Qed.

(** ** [time.ParseDuration] *)

Definition is_digit (c : Ascii.ascii) : bool := if digit_val c then true else false.
Definition is_dot (c : Ascii.ascii) : bool := bool_decide (c = byte 46).

(** [leadingInt]: the number in front, unless it exceeds [2^63], and the rest. *)
Fixpoint leadingInt (x : Z) (l : list Ascii.ascii) : option (Z * list Ascii.ascii) :=
  match l with
  | c :: l' =>
      match digit_val c with
      | Some d => if 2 ^ 63 <? 10 * x + d then None else leadingInt (10 * x + d) l'
      | None => Some (x, l)
      end
  | [] => Some (x, [])
  end.

(** [leadingFraction]: digits beyond what 63 bits hold are skipped; the scale is
    a power of ten below [10^22], which floating point holds exactly. *)
Fixpoint leadingFraction (x scale : Z) (overflow : bool) (l : list Ascii.ascii)
    : Z * Z * list Ascii.ascii :=
  match l with
  | c :: l' =>
      match digit_val c with
      | Some d => if overflow || (2 ^ 63 <? 10 * x + d) then leadingFraction x scale true l'
                  else leadingFraction (10 * x + d) (10 * scale) false l'
      | None => (x, scale, l)
      end
  | [] => (x, scale, [])
  end.

(** The unit: everything up to the next digit or point. *)
Fixpoint unit_name (l : list Ascii.ascii) : list Ascii.ascii * list Ascii.ascii :=
  match l with
  | c :: l' => if is_dot c || is_digit c then ([], l)
               else let '(u, rest) := unit_name l' in (c :: u, rest)
  | [] => ([], [])
  end.

Definition unitMap (u : string) : option Z :=
  if bool_decide (u = "ns") then Some 1
  else if bool_decide (u = "us" \/ u = bytes [194; 181; 115]%nat \/ u = bytes [206; 188; 115]%nat)
  then Some (10 ^ 3)
  else if bool_decide (u = "ms") then Some (10 ^ 6)
  else if bool_decide (u = "s") then Some Second
  else if bool_decide (u = "m") then Some (60 * Second)
  else if bool_decide (u = "h") then Some Hour
  else None.

(** One number with its unit: the nanoseconds, and what follows it. *)
Definition duration_part (l : list Ascii.ascii) : option (Z * list Ascii.ascii) :=
  match leadingInt 0 l with
  | None => None
  | Some (v, l1) =>
      let pre := negb (bool_decide (length l1 = length l)) in
      let '(f, scale, l2, post) :=
        match l1 with
        | c :: l1' =>
            if is_dot c then
              let '(f, scale, l2) := leadingFraction 0 1 false l1' in
              (f, scale, l2, negb (bool_decide (length l2 = length l1')))
            else (0, 1, l1, false)
        | [] => (0, 1, l1, false)
        end in
      if negb pre && negb post then None
      else
        let '(u, l3) := unit_name l2 in
        match unitMap (String.string_of_list_ascii u) with
        | None => None
        | Some unit =>
            if 2 ^ 63 / unit <? v then None
            else
              let v := v * unit in
              let v := if 0 <? f
                       then v + int64_of (fmul (of_int f) (fdiv (of_int unit) (of_int scale)))
                       else v in
              if 2 ^ 63 <? v then None else Some (v, l3)
        end
  end.

(** The sum of the parts, an unsigned 64-bit number; [None] is an error. *)
Fixpoint duration_parts (fuel : nat) (d : Z) (l : list Ascii.ascii) : option Z :=
  match l with
  | [] => Some d
  | c :: _ =>
      match fuel with
      | O => None
      | Datatypes.S fuel =>
          if negb (is_dot c || is_digit c) then None
          else match duration_part l with
               | None => None
               | Some (v, l') =>
                   let d := (d + v) mod 2 ^ 64 in
                   if 2 ^ 63 <? d then None else duration_parts fuel d l'
               end
      end
  end.

Definition duration_error : error := ErrText "time: invalid duration".

(** A part consumes a character, so the length is enough fuel:
    [duration_parts_fuel]. *)
Definition ParseDuration (s : string) : result Duration :=
  let '(neg, l) := split_sign (chars s) in
  if bool_decide (l = [byte 48]) then Ok 0
  else if bool_decide (l = []) then Err duration_error
  else match duration_parts (length l) 0 l with
       | None => Err duration_error
       | Some d => if neg then Ok (- d)
                   else if 2 ^ 63 <=? d then Err duration_error else Ok d
       end.

Lemma leadingInt_length l : forall x v l', leadingInt x l = Some (v, l') -> (length l' <= length l)%nat.
Proof.
  induction l as [|c l IH]; intros x v l'; cbn; [by intros [= <- <-]|].
  destruct (digit_val c); [case_match; [done|]|by intros [= <- <-]]. intros Hr%IH. lia.
Qed.

Lemma leadingFraction_length l : forall x s o f s' l',
  leadingFraction x s o l = (f, s', l') -> (length l' <= length l)%nat.
Proof.
  induction l as [|c l IH]; intros x s o f s' l'; cbn; [by intros [= <- <- <-]|].
  destruct (digit_val c); [case_match|by intros [= <- <- <-]]; intros Hr%IH; lia.
Qed.

Lemma unit_name_length l u l' : unit_name l = (u, l') -> (length l = length u + length l')%nat.
Proof.
  revert u l'. induction l as [|c l IH]; intros u l'; cbn; [by intros [= <- <-]|].
  case_match; [by intros [= <- <-]|]. destruct (unit_name l) as [u1 l1].
  intros [= <- <-]. cbn. by rewrite (IH u1 l1).
Qed.

Lemma unitMap_empty : unitMap "" = None.
Proof. reflexivity. Qed.

(** Every part is followed by less than what it was read from. *)
Lemma duration_part_shorter l v l' : duration_part l = Some (v, l') -> (length l' < length l)%nat.
Proof.
  unfold duration_part. destruct (leadingInt 0 l) as [[v1 l1]|] eqn:E1; [|done].
  apply leadingInt_length in E1.
  set (t := match l1 with [] => _ | _ => _ end). destruct t as [[[f s] l2] post] eqn:E2.
  assert (length l2 <= length l1)%nat as H2.
  { subst t. destruct l1 as [|c l1]; [by injection E2 as <- <- <- <-|].
    destruct (is_dot c); [|by injection E2 as <- <- <- <-].
    destruct (leadingFraction 0 1 false l1) as [[f1 s1] l3] eqn:E3. injection E2 as <- <- <- <-.
    apply leadingFraction_length in E3. cbn. lia. }
  case_match; [done|]. destruct (unit_name l2) as [u l3] eqn:E4. apply unit_name_length in E4.
  destruct u as [|c u].
  { cbn [String.string_of_list_ascii]. by rewrite unitMap_empty. }
  destruct (unitMap _); [|done]. do 2 (case_match; [done|]). intros [= <- <-]. cbn in E4. lia.
Qed.

Lemma duration_parts_fuel l : forall n d, (length l <= n)%nat ->
  duration_parts n d l = duration_parts (length l) d l.
Proof.
  induction l as [l IH] using (induction_ltof1 _ (@length Ascii.ascii)). unfold ltof in IH.
  intros n d Hn. destruct l as [|c l]; [by destruct n|].
  destruct n as [|n]; [cbn in Hn; lia|]. cbn [duration_parts length].
  destruct (negb _); [done|]. destruct (duration_part (c :: l)) as [[v l']|] eqn:E; [|done].
  apply duration_part_shorter in E. cbn in E, Hn. case_match; [done|].
  rewrite (IH l') by (cbn; lia). symmetry. apply IH; cbn; lia.
Qed.

Lemma duration_parts_range n : forall l d r, 0 <= d <= 2 ^ 63 -> duration_parts n d l = Some r ->
  0 <= r <= 2 ^ 63.
Proof.
  induction n as [|n IH]; intros [|c l] d r Hd; cbn [duration_parts];
    [by intros [= <-]|done|by intros [= <-]|].
  destruct (negb _); [done|]. destruct (duration_part (c :: l)) as [[v l']|]; [|done].
  destruct (Z.ltb_spec (2 ^ 63) ((d + v) mod 2 ^ 64)); [done|]. apply IH.
  pose proof (Z.mod_pos_bound (d + v) (2 ^ 64)). lia.
Qed.

Lemma ParseDuration_in64 s d : ParseDuration s = Ok d -> in64 d.
Proof.
  unfold ParseDuration, in64. destruct (split_sign (chars s)) as [neg l].
  case_bool_decide; [by intros [= <-]|]. case_bool_decide; [done|].
  destruct (duration_parts (length l) 0 l) as [r|] eqn:E; [|done].
  apply duration_parts_range in E; [|done]. destruct neg; [intros [= <-]; lia|].
  case_match; [done|]. intros [= <-]. lia.
Qed.

Example ParseDuration_ex : ParseDuration <$> ["48h"; "1h30m"; "-1.5s"; "0"; ".5m"; "1us"]
  = [Ok (48 * Hour); Ok (90 * 60 * Second); Ok (- 1500000000); Ok 0; Ok (30 * Second); Ok 1000].
Proof. vm_compute. reflexivity. Qed.
Example ParseDuration_bad : (fun s => match ParseDuration s with Ok _ => true | Err _ => false end) <$>
  [""; "soon"; "3"; "1h-1m"; "1d"; "."; "3000000h"] = replicate 7 false.
Proof. vm_compute. reflexivity. Qed.
