(* ===== verification/Rules.v ===== *)
(** * Matching rules

    internal/domain/recon/rules.go: the rule identifiers, the tunable
    parameters, tolerances and confidences. *)

From S2P Require Export Leg.

Definition RuleT1Exact : string := "T1.exact@v1".
Definition RuleT2Tolerant : string := "T2.ref-tolerant@v1".
Definition RuleT2AmountDate : string := "T2.amount-date@v1".
Definition RuleT2Late : string := "T2.late-arrival@v1".
Definition RuleT3Subset : string := "T3.subset-sum@v1".

Record Rules : Type := mkRules {
  ToleranceBps : Z;
  ToleranceAbsMinor : Z;
  ValueDateWindowDays : Z;
  T3MaxCandidates : Z;
  T3MaxSubset : Z;
  T3RequireBatchHint : bool
}.

Definition AttrBatchRef : string := "batch_ref".

Definition DefaultRules : Rules := mkRules 10 2 2 24 6 true.

Definition rules_errors (r : Rules) : list error :=
  (if (ToleranceBps r <? 0) || (10000 <? ToleranceBps r)
   then [ErrText ("tolerance_bps must be within [0,10000], got " +:+ FormatInt (ToleranceBps r))]
   else []) ++
  (if ToleranceAbsMinor r <? 0
   then [ErrText ("tolerance_abs_minor must be >= 0, got " +:+ FormatInt (ToleranceAbsMinor r))]
   else []) ++
  (if (ValueDateWindowDays r <? 0) || (365 <? ValueDateWindowDays r)
   then [ErrText ("value_date_window_days must be within [0,365], got " +:+ FormatInt (ValueDateWindowDays r))]
   else []) ++
  (if (T3MaxCandidates r <? 2) || (64 <? T3MaxCandidates r)
   then [ErrText ("t3_max_candidates must be within [2,64], got " +:+ FormatInt (T3MaxCandidates r))]
   else []) ++
  (if (T3MaxSubset r <? 2) || (12 <? T3MaxSubset r)
   then [ErrText ("t3_max_subset must be within [2,12], got " +:+ FormatInt (T3MaxSubset r))]
   else []).

(** [Rules.Validate]; [errors.Join] of no errors is nil. *)
Definition Rules_Validate (r : Rules) : result unit :=
  match rules_errors r with
  | [] => Ok tt
  | es => Err (ErrJoin es)
  end.

(** [Tolerance]: the larger of the relative and the absolute tolerance. *)
Definition Tolerance (r : Rules) (amount : Z) : Z :=
  let amount := if amount <? 0 then neg64 amount else amount in
  let rel := int64_of (math_Round (fdiv (fmul (of_int amount) (of_int (ToleranceBps r)))
                                        (of_int 10000))) in
  if ToleranceAbsMinor r <? rel then rel else ToleranceAbsMinor r.

Definition WithinTolerance (r : Rules) (a b : Z) : bool :=
  let d := sub64 a b in
  let d := if d <? 0 then neg64 d else d in
  d <=? Tolerance r a.

Definition WithinDateWindow (r : Rules) (a b : Date) : bool :=
  DaysBetween a b <=? ValueDateWindowDays r.

Definition tolerantConfidence (residual tolerance : Z) : float64 :=
  let residual := if residual <? 0 then neg64 residual else residual in
  if tolerance <=? 0 then fconst (95 # 100)
  else
    let f := fdiv (of_int residual) (of_int tolerance) in
    let f := if flt 1%Q f then 1%Q else f in
    fdiv (math_Round (fmul (fsub (fconst (95 # 100)) (fmul (fconst (15 # 100)) f)) (of_int 1000)))
         (of_int 1000).

(** Conversion should try everything else before computing in floating point. *)
#[global] Strategy 1000 [Tolerance WithinTolerance WithinDateWindow tolerantConfidence DaysBetween].

(** ** Validated rules *)

Record wf_rules (r : Rules) : Prop := {
  wf_bps : 0 <= ToleranceBps r <= 10000;
  wf_abs : 0 <= ToleranceAbsMinor r;
  wf_days : 0 <= ValueDateWindowDays r <= 365;
  wf_cands : 2 <= T3MaxCandidates r <= 64;
  wf_subset : 2 <= T3MaxSubset r <= 12
}.

Lemma single_error_nil (b : bool) (e : error) : (if b then [e] else []) = [] <-> b = false.
Proof. by destruct b. Qed.

Lemma Rules_Validate_ok r : Rules_Validate r = Ok tt <-> wf_rules r.
Proof.
  assert (Rules_Validate r = Ok tt <-> rules_errors r = []) as ->.
  { unfold Rules_Validate. by destruct (rules_errors r). }
  unfold rules_errors. rewrite !app_nil, !single_error_nil, !orb_false_iff.
  split; [intros; constructor; lia|intros []; lia].
Qed.

Lemma DefaultRules_wf : wf_rules DefaultRules.
Proof. by constructor. Qed.
#[export] Hint Resolve DefaultRules_wf : core.

(** ** Tolerance: facts *)

Lemma Tolerance_abs_le r a : ToleranceAbsMinor r <= Tolerance r a.
Proof. unfold Tolerance. cbv zeta. case_match; lia. Qed.

Lemma Tolerance_nonneg r a : wf_rules r -> 0 <= Tolerance r a.
Proof. intros [_ H _ _ _]. pose proof (Tolerance_abs_le r a). lia. Qed.

(** The relative tolerance, [amount * bps / 10000] rounded half up, on the
    range where both factors and their product are exact in floating point. *)
Lemma relative_exact n : 0 <= n <= 2 ^ 53 ->
  round_half_away (rnd (inject_Z n / inject_Z 10000)) = (n + 5000) / 10000.
Proof.
  intros Hn. set (m := (n + 5000) / 10000). set (x := (inject_Z n / inject_Z 10000)%Q).
  assert (0 <= m /\ 10000 * m <= n + 5000 /\ n + 5000 + 1 <= 10000 * m + 10000) as (Hm0 & Hlo & Hhi)
    by (subst m; divlia).
  assert (m <= 2 ^ 40) as Hm40 by lia.
  assert (x * inject_Z 10000 == inject_Z n)%Q as Hx by (apply Qdiv_mult_cancel; done).
  rewrite Zle_Qle in Hlo, Hhi. push_inject Hlo. push_inject Hhi.
  change (inject_Z 5000) with 5000%Q in *. change (inject_Z 10000) with 10000%Q in *.
  change (inject_Z 1) with 1%Q in *.
  assert (0 <= x)%Q as Hx0.
  { destruct Hn as [Hn _]. rewrite Zle_Qle in Hn. change (inject_Z 0) with 0%Q in Hn. lra. }
  apply round_half_away_unique; [by apply rnd_nonneg|]. split.
  - destruct (Z.eq_dec m 0) as [->|Hm].
    { pose proof (rnd_nonneg x Hx0). change (inject_Z 0) with 0%Q. lra. }
    assert (is_float (inject_Z m - (1 # 2))) as Hf.
    { destruct (is_float_shift (m - 1)) as (p & e & Hp & He & Hv); [lia|].
      exists p, e. repeat split; [done..|]. rewrite <- Hv.
      replace (m - 1) with (m + -1) by lia.
      rewrite inject_Z_plus. change (inject_Z (-1)) with (- (1))%Q. lra. }
    rewrite <- (rnd_exact _ Hf). apply rnd_mono. lra.
  - destruct (Qle_lt_or_eq _ _ Hx0) as [Hpos|Hzero].
    + assert (x < pow2 40)%Q as Hk.
      { rewrite pow2_int by lia. destruct Hn as [_ Hn]. rewrite Zle_Qle in Hn.
        change (inject_Z (2 ^ 53)) with (9007199254740992)%Q in Hn.
        change (inject_Z (2 ^ 40)) with (1099511627776)%Q. lra. }
      pose proof (rnd_err x 40 Hpos Hk) as [_ He]; [lia|].
      change (pow2 (40 - 54)) with (1 # 16384)%Q in He. lra.
    + rewrite rnd_zero_eq by (by symmetry).
      assert (0 <= inject_Z m)%Q by (change 0%Q with (inject_Z 0); by rewrite <- Zle_Qle). lra.
Qed.

Lemma of_int_nonneg z : 0 <= z -> (0 <= of_int z)%Q.
Proof.
  intros H. apply rnd_nonneg. change 0%Q with (inject_Z 0). by rewrite <- Zle_Qle.
Qed.

Lemma of_int_mono a b : a <= b -> (of_int a <= of_int b)%Q.
Proof. intros H. apply rnd_mono. by rewrite <- Zle_Qle. Qed.

Lemma fmul_mono_l a b c : (0 <= c)%Q -> (a <= b)%Q -> (fmul a c <= fmul b c)%Q.
Proof. intros Hc H. apply rnd_mono. by apply Qmult_le_compat_r. Qed.

Lemma fdiv_mono a b c : (0 < c)%Q -> (a <= b)%Q -> (fdiv a c <= fdiv b c)%Q.
Proof. intros Hc H. apply rnd_mono. by apply Qdiv_le_mono. Qed.

(** The relative tolerance before truncation. *)
Definition relative (r : Rules) (a : Z) : float64 :=
  fdiv (fmul (of_int a) (of_int (ToleranceBps r))) (of_int 10000).

Lemma of_int_10000 : of_int 10000 = 10000%Q.
Proof. reflexivity. Qed.

Lemma relative_nonneg r a : wf_rules r -> 0 <= a -> (0 <= relative r a)%Q.
Proof.
  intros Hr Ha. unfold relative, fdiv. apply rnd_nonneg. rewrite of_int_10000.
  assert (0 / 10000 <= fmul (of_int a) (of_int (ToleranceBps r)) / 10000)%Q as H.
  { apply Qdiv_le_mono; [done|]. apply rnd_nonneg, Qmult_le_0_compat;
      apply of_int_nonneg; [done|apply Hr]. }
  eapply Qle_trans; [|exact H]. by apply Qle_bool_iff.
Qed.

Lemma relative_mono r a b : wf_rules r -> a <= b -> (relative r a <= relative r b)%Q.
Proof.
  intros Hr H. unfold relative. apply fdiv_mono; [by rewrite of_int_10000|].
  apply fmul_mono_l; [apply of_int_nonneg, Hr|by apply of_int_mono].
Qed.

(** For amounts up to [2^62] the relative tolerance is at most [2^62]: the
    conversion back to an integer is in range. *)
Lemma relative_bound r a : wf_rules r -> a <= 2 ^ 62 -> (relative r a <= inject_Z (2 ^ 62))%Q.
Proof.
  intros Hr H. eapply Qle_trans; [apply (relative_mono r a (2 ^ 62)); done|].
  unfold relative.
  eapply Qle_trans; [apply (fdiv_mono _ (fmul (of_int (2 ^ 62)) (of_int 10000)))|].
  - by rewrite of_int_10000.
  - unfold fmul. apply rnd_mono.
    rewrite (Qmult_comm _ (of_int (ToleranceBps r))), (Qmult_comm _ (of_int 10000)).
    apply Qmult_le_compat_r; [apply of_int_mono, Hr|by apply of_int_nonneg].
  - apply Qle_bool_iff. vm_compute. reflexivity.
Qed.

Lemma Tolerance_unfold r a : wf_rules r -> 0 <= a <= 2 ^ 62 ->
  Tolerance r a = Z.max (round_half_away (relative r a)) (ToleranceAbsMinor r) /\
  0 <= round_half_away (relative r a) <= 2 ^ 62.
Proof.
  intros Hr Ha. unfold Tolerance, math_Round. rewrite (proj2 (Z.ltb_ge a 0)) by lia.
  cbv zeta. fold (relative r a).
  assert (0 <= round_half_away (relative r a) <= 2 ^ 62) as Hb.
  { split; [apply round_half_away_nonneg, relative_nonneg; [done|lia]|].
    rewrite <- (round_half_away_int (2 ^ 62)).
    apply round_half_away_mono; [apply relative_nonneg; [done|lia]|].
    apply relative_bound; [done|lia]. }
  rewrite int64_of_int by (unfold in64; lia).
  split; [|done]. case_match eqn:E; lia.
Qed.

(** Matching rules.go's comment: the tolerance is [max(bps-derived, absolute)],
    where the derived part is [amount * bps / 10000] rounded half up, exactly,
    while [amount * bps] is at most [2^53]. *)
Lemma Tolerance_exact_aux r a : wf_rules r -> 0 <= a -> a * ToleranceBps r <= 2 ^ 53 ->
  a <= 2 ^ 62 ->
  Tolerance r a = Z.max ((a * ToleranceBps r + 5000) / 10000) (ToleranceAbsMinor r).
Proof.
  intros Hr Ha Hp Hb. destruct (Tolerance_unfold r a Hr) as [-> _]; [lia|]. f_equal.
  unfold relative, fdiv. rewrite of_int_10000.
  assert (fmul (of_int a) (of_int (ToleranceBps r)) == inject_Z (a * ToleranceBps r))%Q as Hm.
  { unfold fmul. destruct (Z.eq_dec (ToleranceBps r) 0) as [E|E].
    - rewrite E, Z.mul_0_r. apply rnd_zero_eq. change (of_int 0) with 0%Q. ring.
    - pose proof (wf_bps r Hr). rewrite !of_int_exact by nia.
      rewrite <- inject_Z_mult. apply rnd_exact, is_float_int. nia. }
  rewrite Hm. change 10000%Q with (inject_Z 10000). apply relative_exact.
  pose proof (wf_bps r Hr). nia.
Qed.

Lemma Tolerance_bound r a : wf_rules r -> 0 <= a <= 2 ^ 62 -> ToleranceAbsMinor r <= 2 ^ 62 ->
  0 <= Tolerance r a <= 2 ^ 62.
Proof.
  intros Hr Ha Hb. destruct (Tolerance_unfold r a Hr Ha) as [-> ?]. pose proof (wf_abs r Hr). lia.
Qed.

Lemma Tolerance_mono r a b : wf_rules r -> 0 <= a -> a <= b -> b <= 2 ^ 62 ->
  Tolerance r a <= Tolerance r b.
Proof.
  intros Hr Ha Hab Hb. destruct (Tolerance_unfold r a Hr) as [-> _]; [lia|].
  destruct (Tolerance_unfold r b Hr) as [-> _]; [lia|].
  assert (round_half_away (relative r a) <= round_half_away (relative r b)); [|lia].
  apply round_half_away_mono; [by apply relative_nonneg|by apply relative_mono].
Qed.

(** Amounts for which no subtraction of two of them overflows, nor the sum of
    one and its tolerance. *)
Definition amount_ok (a : Z) : Prop := 0 < a < 2 ^ 62.

Lemma WithinTolerance_iff r a b : amount_ok a -> amount_ok b ->
  WithinTolerance r a b = true <-> Z.abs (a - b) <= Tolerance r a.
Proof.
  unfold amount_ok, WithinTolerance. intros Ha Hb. unwrap64. cbv zeta.
  destruct (Z.ltb_spec (a - b) 0); unwrap64; rewrite Z.leb_le; lia.
Qed.

Lemma WithinDateWindow_days r i j : Z.abs (i - j) <= 106751 ->
  WithinDateWindow r (date_of_day i) (date_of_day j) = (Z.abs (i - j) <=? ValueDateWindowDays r).
Proof. intros H. unfold WithinDateWindow. by rewrite DaysBetween_days. Qed.

(** ** Confidence: facts *)

(** The score as a function of the clamped ratio. *)
Definition score (f : float64) : float64 :=
  fdiv (math_Round (fmul (fsub (fconst (95 # 100)) (fmul (fconst (15 # 100)) f)) (of_int 1000)))
       (of_int 1000).

Lemma score_antitone f g : (0 <= f)%Q -> (f <= g)%Q -> (g <= 1)%Q -> (score g <= score f)%Q.
Proof.
  intros Hf Hfg Hg. unfold score.
  assert (forall h, (0 <= h)%Q -> (fmul (fconst (15 # 100)) h = fmul h (fconst (15 # 100)))) as Hc.
  { intros h _. unfold fmul. by rewrite Qmult_comm. }
  rewrite !Hc by lra.
  assert (0 <= fconst (15 # 100))%Q as H15 by (by apply Qle_bool_iff).
  assert (fmul f (fconst (15 # 100)) <= fmul g (fconst (15 # 100)))%Q as H1 by (by apply fmul_mono_l).
  assert (fmul g (fconst (15 # 100)) <= fmul 1 (fconst (15 # 100)))%Q as H2 by (by apply fmul_mono_l).
  set (u := fmul f (fconst (15 # 100))) in *. set (v := fmul g (fconst (15 # 100))) in *.
  apply fdiv_mono; [by vm_compute|]. unfold math_Round. rewrite <- Zle_Qle.
  assert (0 <= of_int 1000)%Q as H1000 by (by apply Qle_bool_iff).
  apply round_half_away_mono.
  - unfold fmul at 1. apply rnd_nonneg, Qmult_le_0_compat; [|done].
    apply rnd_nonneg.
    assert (fmul 1 (fconst (15 # 100)) <= fconst (95 # 100))%Q by (by apply Qle_bool_iff). lra.
  - apply fmul_mono_l; [done|]. apply rnd_mono. lra.
Qed.

(** The ratio of residual and tolerance, clamped to 1. *)
Definition ratio (residual tolerance : Z) : float64 :=
  let f := fdiv (of_int (if residual <? 0 then neg64 residual else residual)) (of_int tolerance) in
  if flt 1%Q f then 1%Q else f.

Lemma ratio_range residual tolerance : 0 < tolerance -> in64 (Z.abs residual) ->
  (0 <= ratio residual tolerance <= 1)%Q.
Proof.
  intros Ht Hr. unfold ratio. cbv zeta. 
  assert (0 <= if residual <? 0 then neg64 residual else residual) as Ha.
  { destruct (Z.ltb_spec residual 0); [|done]. unwrap64. lia. }
  revert Ha. generalize (if residual <? 0 then neg64 residual else residual). intros a Ha.
  assert (0 <= fdiv (of_int a) (of_int tolerance))%Q as H0.
  { apply rnd_nonneg. unfold Qdiv. apply Qmult_le_0_compat; [by apply of_int_nonneg|].
    apply Qinv_le_0_compat, of_int_nonneg. lia. }
  revert H0. generalize (fdiv (of_int a) (of_int tolerance)). intros f H0. unfold flt.
  destruct (Qle_bool f 1) eqn:E; cbn [negb].
  - apply Qle_bool_iff in E. by split.
  - lra.
Qed.

Lemma ratio_mono r r' tolerance : 0 < tolerance -> in64 (Z.abs r) -> in64 (Z.abs r') -> Z.abs r <= Z.abs r' ->
  (ratio r tolerance <= ratio r' tolerance)%Q.
Proof.
  intros Ht Hr Hr' Hle. unfold ratio. cbv zeta.
  assert (forall x, in64 (Z.abs x) -> (if x <? 0 then neg64 x else x) = Z.abs x) as Habs.
  { intros x Hx. destruct (Z.ltb_spec x 0); [|lia]. unfold in64 in Hx. unwrap64. lia. }
  rewrite !Habs by done.
  assert (fdiv (of_int (Z.abs r)) (of_int tolerance) <= fdiv (of_int (Z.abs r')) (of_int tolerance))%Q as Hd.
  { apply rnd_mono. unfold Qdiv. apply Qmult_le_compat_r; [by apply of_int_mono|].
    apply Qinv_le_0_compat, of_int_nonneg. lia. }
  revert Hd. generalize (fdiv (of_int (Z.abs r)) (of_int tolerance)) (fdiv (of_int (Z.abs r')) (of_int tolerance)).
  intros x y Hxy. unfold flt. destruct (Qle_bool x 1) eqn:Ex, (Qle_bool y 1) eqn:Ey; cbn [negb]; try done.
  - by apply Qle_bool_iff in Ex.
  - apply Qle_bool_iff in Ey. assert (~ (x <= 1)%Q) by (intros ?%Qle_bool_iff; congruence). lra.
Qed.

Lemma tolerantConfidence_score residual tolerance : 0 < tolerance ->
  tolerantConfidence residual tolerance = score (ratio residual tolerance).
Proof.
  intros Ht. unfold tolerantConfidence, score, ratio. cbv zeta.
  by rewrite (proj2 (Z.leb_gt _ _) Ht).
Qed.

Lemma tolerantConfidence_range residual tolerance : in64 (Z.abs residual) ->
  (fconst (80 # 100) <= tolerantConfidence residual tolerance <= fconst (95 # 100))%Q.
Proof.
  intros Hr. destruct (Z_lt_le_dec 0 tolerance) as [Ht|Ht].
  - rewrite (tolerantConfidence_score _ _ Ht).
    destruct (ratio_range _ _ Ht Hr) as [Hf0 Hf1]. revert Hf0 Hf1.
    generalize (ratio residual tolerance). intros f Hf0 Hf1. split.
    + eapply Qle_trans; [|apply (score_antitone f 1); [done|done|apply Qle_refl]].
      apply Qle_bool_iff. vm_compute. reflexivity.
    + eapply Qle_trans; [apply (score_antitone 0 f); [apply Qle_refl|done|done]|].
      apply Qle_bool_iff. vm_compute. reflexivity.
  - unfold tolerantConfidence. rewrite (proj2 (Z.leb_le _ _) Ht).
    split; apply Qle_bool_iff; vm_compute; reflexivity.
Qed.

(** The values of rules.go's tests. *)
Example Tolerance_ex :
  Tolerance DefaultRules <$> [100; 2000; 10000; 1234567; -5000] = [2; 2; 10; 1235; 5].
Proof. vm_compute. reflexivity. Qed.
Example tolerantConfidence_ex :
  tolerantConfidence 0 10 = fconst (95 # 100) /\ tolerantConfidence 10 10 = fconst (80 # 100)
  /\ tolerantConfidence 7 10 = fconst (845 # 1000)
  /\ fsub (tolerantConfidence 0 7) (fconst (1 # 10)) = fconst (85 # 100).
Proof. vm_compute. repeat split. Qed.
