(* ===== verification/Config.v ===== *)
(** * Configuration

    internal/config/config.go: the service's settings, read from the
    environment, with a default for every variable and every problem reported.
    The environment is a function from names to values. *)

From S2P Require Export Rules GoParse.

Local Open Scope recon_scope.

Definition StoreMemory : string := "memory".
Definition StorePostgres : string := "postgres".

Record Config : Type := mkServiceConfig {
  HTTPAddr : string;
  ShutdownTimeout : Duration;
  LogLevel : string;
  ServiceName : string;
  cf_Store : string;
  PostgresDSN : string;
  KafkaEnabled : bool;
  KafkaBrokers : list string;
  KafkaGroup : string;
  KafkaTopics : list string;
  WindowTTL : Duration;
  SweepInterval : Duration;
  cf_Rules : Rules;
  OTelEndpoint : string;
  OTelInsecure : bool
}.

(** [%q], for text that needs no escapes. *)
Definition quoted (s : string) : string := bytes [34%nat] +:+ s +:+ bytes [34%nat].

Definition Minute : Duration := 60 * Second.

Section EnvReader.
Context (lookup : string -> option string).

(** ** [envReader]: the errors so far are the state *)

Definition env_str (key def : string) : string :=
  match lookup key with
  | Some v => if bool_decide (TrimSpace v <> "") then TrimSpace v else def
  | None => def
  end.

Definition env_list (key def : string) : list string :=
  filter (fun p => p <> "") (TrimSpace <$> Split_comma (env_str key def)).

(** The common shape of [dur], [i64] and [boolean]: the parsed value, or the
    default and one more error. *)
Definition env_parse {A} (parse : string -> result A) (key : string) (def : A) : M (list error) A :=
  match lookup key with
  | None => mret def
  | Some v =>
      if bool_decide (TrimSpace v = "") then mret def
      else match parse (TrimSpace v) with
           | Ok a => mret a
           | Err e => fun errs => (Ok def, errs ++ [ErrWrap (key +:+ ": ") e ""])
           end
  end.

Definition env_dur : string -> Duration -> M (list error) Duration := env_parse ParseDuration.
Definition env_i64 : string -> Z -> M (list error) Z := env_parse ParseInt.
Definition env_boolean : string -> bool -> M (list error) bool := env_parse ParseBool.

(** ** [Load] *)

(** The settings as they are read, with the errors of those that do not parse. *)
Definition read_config : M (list error) Config :=
  let! shutdown := env_dur "RECON_SHUTDOWN_TIMEOUT" (20 * Second) in
  let! kafka := env_boolean "RECON_KAFKA_ENABLED" false in
  let! ttl := env_dur "RECON_WINDOW_TTL" (48 * Hour) in
  let! sweep := env_dur "RECON_SWEEP_INTERVAL" (30 * Second) in
  let! bps := env_i64 "RECON_TOLERANCE_BPS" 10 in
  let! abs_minor := env_i64 "RECON_TOLERANCE_ABS_MINOR" 2 in
  let! days := env_i64 "RECON_VALUE_DATE_WINDOW_DAYS" 2 in
  let! cands := env_i64 "RECON_T3_MAX_CANDIDATES" 24 in
  let! subset := env_i64 "RECON_T3_MAX_SUBSET" 6 in
  let! hint := env_boolean "RECON_T3_REQUIRE_BATCH_HINT" true in
  let! insecure := env_boolean "RECON_OTEL_INSECURE" true in
  mret (mkServiceConfig
    (env_str "RECON_HTTP_ADDR" ":8080") shutdown (ToLower (env_str "RECON_LOG_LEVEL" "info"))
    (env_str "RECON_SERVICE_NAME" "recon-stream") (ToLower (env_str "RECON_STORE" StoreMemory))
    (env_str "RECON_POSTGRES_DSN" "") kafka (env_list "RECON_KAFKA_BROKERS" "localhost:9092")
    (env_str "RECON_KAFKA_GROUP" "recon-stream") (env_list "RECON_KAFKA_TOPICS" "ledger.legs,rail.legs")
    ttl sweep (mkRules bps abs_minor days cands subset hint)
    (env_str "RECON_OTEL_ENDPOINT" "") insecure).

Definition require (b : bool) (msg : string) : list error := if b then [] else [ErrText msg].

Definition check_store (c : Config) : list error :=
  if bool_decide (cf_Store c = StoreMemory) then []
  else if bool_decide (cf_Store c = StorePostgres) then
    require (negb (bool_decide (PostgresDSN c = "")))
      "RECON_POSTGRES_DSN is required when RECON_STORE=postgres"
  else [ErrText ("RECON_STORE must be memory or postgres, got " +:+ quoted (cf_Store c))].

Definition check_level (c : Config) : list error :=
  if decide (LogLevel c ∈ ["debug"; "info"; "warn"; "error"]) then []
  else [ErrText ("RECON_LOG_LEVEL must be debug|info|warn|error, got " +:+ quoted (LogLevel c))].

Definition check_kafka (c : Config) : list error :=
  if KafkaEnabled c then
    require (negb (bool_decide (length (KafkaBrokers c) = 0%nat)))
      "RECON_KAFKA_BROKERS is required when Kafka is enabled" ++
    require (negb (bool_decide (length (KafkaTopics c) = 0%nat)))
      "RECON_KAFKA_TOPICS is required when Kafka is enabled"
  else [].

Definition check_durations (c : Config) : list error :=
  require (0 <? WindowTTL c) "RECON_WINDOW_TTL must be > 0" ++
  require (0 <? SweepInterval c) "RECON_SWEEP_INTERVAL must be > 0" ++
  require (0 <? ShutdownTimeout c) "RECON_SHUTDOWN_TIMEOUT must be > 0".

Definition check_rules (c : Config) : list error :=
  match Rules_Validate (cf_Rules c) with Ok _ => [] | Err e => [e] end.

Definition config_errors (c : Config) : list error :=
  check_store c ++ check_level c ++ check_kafka c ++ check_durations c ++ check_rules c.

Definition Load : result Config :=
  match read_config [] with
  | (Ok c, errs) =>
      match errs ++ config_errors c with
      | [] => Ok c
      | errs => Err (ErrWrap "config: " (ErrJoin errs) "")
      end
  | (Err e, _) => Err e
  end.

(** ** What a configuration is *)

(** The value of a variable: what is left of it without blanks, if anything. *)
Definition env_value (key : string) : option string :=
  match lookup key with
  | Some v => if bool_decide (TrimSpace v = "") then None else Some (TrimSpace v)
  | None => None
  end.

Definition reads {A} (parse : string -> result A) (key : string) (def a : A) : Prop :=
  match env_value key with Some s => parse s = Ok a | None => a = def end.

(** The settings are what the environment says. *)
Record config_read (c : Config) : Prop := {
  cr_addr : reads Ok "RECON_HTTP_ADDR" ":8080" (HTTPAddr c);
  cr_shutdown : reads ParseDuration "RECON_SHUTDOWN_TIMEOUT" (20 * Second) (ShutdownTimeout c);
  cr_level : reads (fun s => Ok (ToLower s)) "RECON_LOG_LEVEL" "info" (LogLevel c);
  cr_name : reads Ok "RECON_SERVICE_NAME" "recon-stream" (ServiceName c);
  cr_store : reads (fun s => Ok (ToLower s)) "RECON_STORE" "memory" (cf_Store c);
  cr_dsn : reads Ok "RECON_POSTGRES_DSN" "" (PostgresDSN c);
  cr_kafka : reads ParseBool "RECON_KAFKA_ENABLED" false (KafkaEnabled c);
  cr_brokers : KafkaBrokers c = env_list "RECON_KAFKA_BROKERS" "localhost:9092";
  cr_group : reads Ok "RECON_KAFKA_GROUP" "recon-stream" (KafkaGroup c);
  cr_topics : KafkaTopics c = env_list "RECON_KAFKA_TOPICS" "ledger.legs,rail.legs";
  cr_ttl : reads ParseDuration "RECON_WINDOW_TTL" (48 * Hour) (WindowTTL c);
  cr_sweep : reads ParseDuration "RECON_SWEEP_INTERVAL" (30 * Second) (SweepInterval c);
  cr_bps : reads ParseInt "RECON_TOLERANCE_BPS" 10 (ToleranceBps (cf_Rules c));
  cr_abs : reads ParseInt "RECON_TOLERANCE_ABS_MINOR" 2 (ToleranceAbsMinor (cf_Rules c));
  cr_days : reads ParseInt "RECON_VALUE_DATE_WINDOW_DAYS" 2 (ValueDateWindowDays (cf_Rules c));
  cr_cands : reads ParseInt "RECON_T3_MAX_CANDIDATES" 24 (T3MaxCandidates (cf_Rules c));
  cr_subset : reads ParseInt "RECON_T3_MAX_SUBSET" 6 (T3MaxSubset (cf_Rules c));
  cr_hint : reads ParseBool "RECON_T3_REQUIRE_BATCH_HINT" true (T3RequireBatchHint (cf_Rules c));
  cr_otel : reads Ok "RECON_OTEL_ENDPOINT" "" (OTelEndpoint c);
  cr_insecure : reads ParseBool "RECON_OTEL_INSECURE" true (OTelInsecure c)
}.

(** The settings the service can run with. *)
Record config_ok (c : Config) : Prop := {
  ok_store : cf_Store c = StoreMemory \/ cf_Store c = StorePostgres /\ PostgresDSN c <> "";
  ok_level : LogLevel c ∈ ["debug"; "info"; "warn"; "error"];
  ok_kafka : KafkaEnabled c = true -> KafkaBrokers c <> [] /\ KafkaTopics c <> [];
  ok_ttl : 0 < WindowTTL c;
  ok_sweep : 0 < SweepInterval c;
  ok_shutdown : 0 < ShutdownTimeout c;
  ok_rules : wf_rules (cf_Rules c)
}.

Lemma require_nil b msg : require b msg = [] <-> b = true.
Proof. by destruct b. Qed.

Lemma config_errors_nil c : config_errors c = [] <-> config_ok c.
Proof.
  assert (check_store c = [] <-> cf_Store c = StoreMemory \/ cf_Store c = StorePostgres /\ PostgresDSN c <> "") as Hs.
  { unfold check_store. case_bool_decide as E1; [tauto|]. case_bool_decide as E2.
    - rewrite require_nil, negb_true_iff, bool_decide_eq_false. tauto.
    - split; [done|tauto]. }
  assert (check_level c = [] <-> LogLevel c ∈ ["debug"; "info"; "warn"; "error"]) as Hl.
  { unfold check_level. case_decide; split; done. }
  assert (check_kafka c = [] <-> (KafkaEnabled c = true -> KafkaBrokers c <> [] /\ KafkaTopics c <> [])) as Hk.
  { unfold check_kafka. destruct (KafkaEnabled c); [|by split].
    rewrite app_nil, !require_nil, !negb_true_iff, !bool_decide_eq_false, !length_zero_iff_nil. tauto. }
  assert (check_rules c = [] <-> wf_rules (cf_Rules c)) as Hr.
  { rewrite <- Rules_Validate_ok. unfold check_rules. by destruct (Rules_Validate _) as [[]|]. }
  unfold config_errors, check_durations. rewrite !app_nil, !require_nil, Hs, Hl, Hk, Hr, !Z.ltb_lt.
  split; [intros (? & ? & ? & (? & ? & ?) & ?); by constructor|intros []; tauto].
Qed.

Lemma env_str_reads key def : reads Ok key def (env_str key def).
Proof. unfold reads, env_value, env_str. destruct (lookup key); [|done]. by repeat case_bool_decide. Qed.

Lemma env_str_unique key def a : reads Ok key def a <-> a = env_str key def.
Proof.
  unfold reads, env_value, env_str. destruct (lookup key); [|done]. repeat case_bool_decide; naive_solver.
Qed.

Lemma env_lower_unique key def a : ToLower def = def ->
  reads (fun s => Ok (ToLower s)) key def a <-> a = ToLower (env_str key def).
Proof.
  intros Hd. unfold reads, env_value, env_str. destruct (lookup key); [|by rewrite Hd].
  repeat case_bool_decide; rewrite ?Hd; naive_solver.
Qed.

(** One variable: it reads as [a], or it leaves an error. *)
Lemma env_parse_spec {A} (parse : string -> result A) key def errs :
  exists a new, env_parse parse key def errs = (Ok a, errs ++ new) /\
    forall b, reads parse key def b <-> new = [] /\ b = a.
Proof.
  unfold env_parse, reads, env_value. destruct (lookup key) as [v|].
  - case_bool_decide; [exists def, []; rewrite app_nil_r; naive_solver|].
    destruct (parse (TrimSpace v)) as [a|e]; [exists a, []; rewrite app_nil_r; naive_solver|].
    eexists def, [_]. split; [done|]. naive_solver.
  - exists def, []. rewrite app_nil_r. naive_solver.
Qed.
End EnvReader.

Section Load.
Context (lookup : string -> option string).

(** Run the next variable's read, with what it says of that variable. *)
Ltac next_variable :=
  unfold mbind at 1;
  match goal with
  | |- context [env_parse ?l ?p ?k ?d ?errs] =>
      let a := fresh "a" in let n := fresh "new" in let E := fresh in let HS := fresh "HS" in
      destruct (env_parse_spec l p k d errs) as (a & n & E & HS); rewrite E; clear E; cbv beta iota
  end.

(** [read_config] leaves no error exactly when every variable can be read. *)
Lemma read_config_spec : exists c errs, read_config lookup [] = (Ok c, errs) /\
  forall c', config_read lookup c' <-> errs = [] /\ c' = c.
Proof.
  unfold read_config, env_dur, env_i64, env_boolean. do 11 next_variable.
  unfold mret. do 2 eexists. split; [reflexivity|]. intros c'. rewrite !app_nil. split.
  - intros []. repeat match goal with HS : forall b, reads lookup _ _ _ b <-> _ |- _ =>
      rewrite HS in *; clear HS end.
    rewrite env_lower_unique in * by done. rewrite env_str_unique in *.
    destruct c' as [????????????[]??]; cbn in *. split; [tauto|]. f_equal; try tauto. f_equal; tauto.
  - intros [Hn ->]. constructor; cbn; try done; try (by apply env_str_unique);
      try (by apply env_lower_unique); match goal with HS : forall b, _ <-> ?n = [] /\ b = ?a |- reads _ _ _ _ ?a =>
        apply HS; tauto end.
Qed.

Lemma Load_spec c : Load lookup = Ok c <-> config_read lookup c /\ config_ok c.
Proof.
  destruct read_config_spec as (c0 & errs & Heq & Hread). unfold Load. rewrite Heq, Hread.
  rewrite <- config_errors_nil. split.
  - destruct (errs ++ config_errors c0) as [|e es] eqn:E; [|done]. intros [= <-].
    apply app_nil in E. tauto.
  - intros [[-> ->] ->]. done.
Qed.

(** A refusal is one error that joins at least one problem. *)
Lemma Load_error e : Load lookup = Err e -> exists es, e = ErrWrap "config: " (ErrJoin es) "" /\ es <> [].
Proof.
  destruct read_config_spec as (c0 & errs & Heq & _). unfold Load. rewrite Heq.
  destruct (errs ++ config_errors c0) as [|e0 es]; [done|]. intros [= <-]. by eexists.
Qed.
End Load.

(** Without any variable set, the defaults. *)
Definition default_config : Config :=
  mkServiceConfig ":8080" (20 * Second) "info" "recon-stream" StoreMemory "" false ["localhost:9092"]
    "recon-stream" ["ledger.legs"; "rail.legs"] (48 * Hour) (30 * Second) DefaultRules "" true.

Example Load_defaults : Load (fun _ => None) = Ok default_config.
Proof. vm_compute. reflexivity. Qed.
