(* ===== verification/Match.v ===== *)
(** * Matches, breaks and the classifier interface

    internal/domain/recon/match.go and classifier.go. *)

From S2P Require Export Rules.

Abbreviation Tier := Z (only parsing).
Definition TierExact : Tier := 1.
Definition TierTolerant : Tier := 2.
Definition TierManyToOne : Tier := 3.

Record Match : Type := mkMatch {
  m_ID : string;
  m_LegIDs : list string;
  m_Tier : Tier;
  m_RuleID : string;
  m_Confidence : float64;
  m_ResidualMinor : Z;
  m_Currency : string;
  m_MatchedAt : Time
}.

Definition set_MatchedAt (t : Time) (m : Match) : Match :=
  mkMatch (m_ID m) (m_LegIDs m) (m_Tier m) (m_RuleID m) (m_Confidence m) (m_ResidualMinor m)
          (m_Currency m) t.

Abbreviation Category := string (only parsing).
Definition CatFee : Category := "fee".
Definition CatFXDrift : Category := "fx_drift".
Definition CatTiming : Category := "timing".
Definition CatDuplicate : Category := "duplicate".
Definition CatMissingCounterparty : Category := "missing_counterparty".
Definition CatUnclassified : Category := "unclassified".

Abbreviation BreakStatus := string (only parsing).
Definition BreakOpen : BreakStatus := "open".
Definition BreakResolved : BreakStatus := "resolved".

Record Break : Type := mkBreak {
  b_ID : string;
  b_LegIDs : list string;
  b_Currency : string;
  b_Counterparty : string;
  b_Category : Category;
  b_Confidence : float64;
  b_ClassifierID : string;
  b_Trigger : string;
  b_Status : BreakStatus;
  b_OpenedAt : Time;
  b_ResolvedAt : option Time;
  b_Reason : string;
  b_Actor : string;
  b_AgeSeconds : Z
}.

(** [b.Status, b.ResolvedAt, b.Reason, b.Actor = BreakResolved, &at, reason, actor]. *)
Definition resolve (at_ : Time) (reason actor : string) (b : Break) : Break :=
  mkBreak (b_ID b) (b_LegIDs b) (b_Currency b) (b_Counterparty b) (b_Category b)
          (b_Confidence b) (b_ClassifierID b) (b_Trigger b) BreakResolved (b_OpenedAt b)
          (Some at_) reason actor (b_AgeSeconds b).

(** [Break.Age]. *)
Definition Age (b : Break) (now : Time) : Duration :=
  Sub (match b_ResolvedAt b with Some t => t | None => now end) (b_OpenedAt b).

(** [DeriveID]: the prefix and 20 hex digits of the hash of the sorted leg IDs. *)
Definition DeriveID `{Sha256} (prefix : string) (legIDs : list string) : string :=
  prefix +:+ "_" +:+
  str_take 20 (hex_EncodeToString (sha256_sum (strings_Join (sort_Strings legIDs) NUL))).

(** The order in which the legs are listed does not matter. *)
(** Identifiers are ASCII. *)
Lemma DeriveID_valid `{Sha256} p ids : Forall (fun c => is_ascii c = true) (chars p) ->
  ValidString (DeriveID p ids) = true.
Proof.
  intros Hp. apply ascii_valid. unfold DeriveID. rewrite !chars_app, !Forall_app.
  split_and!; [done|by repeat constructor|apply str_take_ascii, hex_ascii].
Qed.

Lemma DeriveID_perm `{Sha256} p l1 l2 : l1 ≡ₚ l2 -> DeriveID p l1 = DeriveID p l2.
Proof. intros Hp. unfold DeriveID. by rewrite (sort_Strings_ext _ _ Hp). Qed.

#[export] Instance DeriveID_proper `{Sha256} p : Proper ((≡ₚ) ==> eq) (DeriveID p).
Proof. intros l1 l2. apply DeriveID_perm. Qed.

(** ** Classifier interface (classifier.go) *)

Definition TriggerRefConflict : string := "ref_conflict".
Definition TriggerDuplicate : string := "duplicate".
Definition TriggerWindowExpired : string := "window_expired".

Record ClassifyInput : Type := mkClassifyInput {
  ci_Legs : list Leg;
  ci_Related : list Leg;
  ci_Trigger : string;
  ci_Rules : Rules
}.

Record Classification : Type := mkClassification {
  c_Category : Category;
  c_Confidence : float64;
  c_ClassifierID : string;
  c_Evidence : string
}.

(** [BreakClassifier]: the engine's theorems hold for every implementation. *)
Class BreakClassifier := Classify : ClassifyInput -> Classification.
