(* ===== verification/Event.v ===== *)
(** * Events

    internal/domain/recon/event.go: the append-only log, its JSON payloads and
    the change set, the unit of persistence.

    A payload is modelled as a JSON value, the result of parsing the text
    [json.Marshal] prints: numbers by their value, and RFC 3339 instants as a
    constructor of their own. A string is printed, and read, as UTF-8: what is
    not becomes U+FFFD on the way ([coerced]). *)

From S2P Require Export Match.

Inductive json : Type :=
  | JNull
  | JBool (b : bool)
  | JInt (z : Z)
  | JFloat (q : float64)
  | JStr (s : string)
  | JTime (t : Time)
  | JArr (l : list json)
  | JObj (fields : list (string * json)).

(** ** Encoding *)

(** [Time.MarshalJSON] refuses years outside [0,9999]. *)
Definition year_ok (t : Time) : bool := bool_decide (-366 <= t / Day < 3652059).
Definition marshal_time (t : Time) : result json :=
  if year_ok t then Ok (JTime t)
  else Err (ErrText "Time.MarshalJSON: year outside of range [0,9999]").

Definition res_bind {A B} (r : result A) (k : A -> result B) : result B :=
  match r with Ok a => k a | Err e => Err e end.

(** A string value, as [json.Marshal] prints it. *)
Definition jstr (s : string) : json := JStr (coerced s).

(** A field with [omitempty]. *)
Definition opt_str (k v : string) : list (string * json) :=
  if bool_decide (v = "") then [] else [(k, jstr v)].

(** Map keys are printed in the order they sort before they are coerced. *)
Definition attr_keys (a : gmap string string) : list string := sort_Strings ((map_to_list a).*1).
Definition marshal_attrs (a : gmap string string) : json :=
  JObj ((fun k => (coerced k, jstr (default "" (a !! k)))) <$> attr_keys a).

Definition marshal_leg (l : Leg) : result json :=
  res_bind (if IsZero (IngestedAt l) then Ok []
            else res_bind (marshal_time (IngestedAt l)) (fun j => Ok [("ingested_at", j)]))
    (fun ing =>
       Ok (JObj (opt_str "id" (ID l) ++
                 [("source", jstr (Source l)); ("txn_ref", jstr (TxnRef l));
                  ("amount_minor", JInt (AmountMinor l)); ("currency", jstr (Currency l));
                  ("value_date", JStr (Date_String (ValueDate l)));
                  ("direction", jstr (Dir l)); ("counterparty", jstr (Counterparty l))] ++
                 (if bool_decide (Attrs l = ∅) then [] else [("attrs", marshal_attrs (Attrs l))]) ++
                 ing ++
                 opt_str "status" (Status l) ++ opt_str "match_id" (MatchID l) ++
                 opt_str "break_id" (BreakID l)))).

Definition marshal_match (m : Match) : result json :=
  res_bind (marshal_time (m_MatchedAt m))
    (fun at_ => Ok (JObj [("id", jstr (m_ID m)); ("leg_ids", JArr (jstr <$> m_LegIDs m));
                          ("tier", JInt (m_Tier m)); ("rule_id", jstr (m_RuleID m));
                          ("confidence", JFloat (m_Confidence m));
                          ("residual_minor", JInt (m_ResidualMinor m));
                          ("currency", jstr (m_Currency m)); ("matched_at", at_)])).

Definition marshal_break (b : Break) : result json :=
  res_bind (marshal_time (b_OpenedAt b)) (fun opened =>
  res_bind (match b_ResolvedAt b with
            | None => Ok []
            | Some t => res_bind (marshal_time t) (fun j => Ok [("resolved_at", j)])
            end) (fun resolved =>
  Ok (JObj ([("id", jstr (b_ID b)); ("leg_ids", JArr (jstr <$> b_LegIDs b));
             ("currency", jstr (b_Currency b)); ("counterparty", jstr (b_Counterparty b));
             ("category", jstr (b_Category b)); ("confidence", JFloat (b_Confidence b));
             ("classifier_id", jstr (b_ClassifierID b)); ("trigger", jstr (b_Trigger b));
             ("status", jstr (b_Status b)); ("opened_at", opened)] ++ resolved ++
            opt_str "reason" (b_Reason b) ++ opt_str "actor" (b_Actor b) ++
            [("age_seconds", JInt (b_AgeSeconds b))])))).

Record ResolutionPayload : Type := mkResolutionPayload {
  rp_BreakID : string;
  rp_Reason : string;
  rp_Actor : string;
  rp_At : Time;
  rp_MatchID : string
}.

Definition marshal_resolution (p : ResolutionPayload) : result json :=
  res_bind (marshal_time (rp_At p)) (fun at_ =>
  Ok (JObj ([("break_id", jstr (rp_BreakID p)); ("reason", jstr (rp_Reason p));
             ("actor", jstr (rp_Actor p)); ("at", at_)] ++ opt_str "match_id" (rp_MatchID p)))).

(** ** Decoding

    [json.Unmarshal] into a zero struct: each key of the object is matched with
    a field name up to case folding, a repeated key overwrites, unknown keys are
    skipped, and [null] leaves the field as it is. *)

Fixpoint fold_name (s : string) : string :=
  match s with
  | EmptyString => EmptyString
  | String c1 t =>
      let plain := String (ascii_lower c1) (fold_name t) in
      match t with
      | String c2 t' =>
          if bool_decide (c1 = byte 197 /\ c2 = byte 191) then String (byte 115) (fold_name t')
          else match t' with
               | String c3 t'' =>
                   if bool_decide (c1 = byte 226 /\ c2 = byte 132 /\ c3 = byte 170)
                   then String (byte 107) (fold_name t'')
                   else plain
               | EmptyString => plain
               end
      | EmptyString => plain
      end
  end.

Definition type_error {A} : result A := Err (ErrText "json: cannot unmarshal value into Go struct field").

Definition dec_str (old : string) (j : json) : result string :=
  match j with JStr s => Ok (coerced s) | JNull => Ok old | _ => type_error end.
Definition dec_int (old : Z) (j : json) : result Z :=
  match j with
  | JInt z => if decide (in64 z) then Ok z else type_error
  | JNull => Ok old
  | _ => type_error
  end.
Definition dec_time (old : Time) (j : json) : result Time :=
  match j with JTime t => Ok t | JNull => Ok old | _ => type_error end.

(** [Date.UnmarshalJSON]: the value must be a string; [null] decodes as the
    empty string, which is no date. *)
Definition dec_date (j : json) : result Date :=
  match j with
  | JStr s => ParseDate (coerced s)
  | JNull => ParseDate ""
  | _ => Err (ErrWrap "value_date must be a string: " (ErrText "json: cannot unmarshal") "")
  end.

Fixpoint dec_attrs_fields (m : gmap string string) (fs : list (string * json)) : result (gmap string string) :=
  match fs with
  | [] => Ok m
  | (k, j) :: fs' => res_bind (dec_str "" j) (fun v => dec_attrs_fields (<[coerced k := v]> m) fs')
  end.
Definition dec_attrs (old : gmap string string) (j : json) : result (gmap string string) :=
  match j with
  | JObj fs => dec_attrs_fields old fs
  | JNull => Ok ∅
  | _ => type_error
  end.

Definition zero_leg : Leg := mkLeg "" "" "" 0 "" 0 "" "" ∅ 0 "" "" "".

Definition dec_leg_field (l : Leg) (k : string) (j : json) : result Leg :=
  let '(mkLeg id src ref amt ccy vd dir cp at_ ing st mid bid) := l in
  let k := fold_name k in
  if bool_decide (k = "id") then
    res_bind (dec_str id j) (fun v => Ok (mkLeg v src ref amt ccy vd dir cp at_ ing st mid bid))
  else if bool_decide (k = "source") then
    res_bind (dec_str src j) (fun v => Ok (mkLeg id v ref amt ccy vd dir cp at_ ing st mid bid))
  else if bool_decide (k = "txn_ref") then
    res_bind (dec_str ref j) (fun v => Ok (mkLeg id src v amt ccy vd dir cp at_ ing st mid bid))
  else if bool_decide (k = "amount_minor") then
    res_bind (dec_int amt j) (fun v => Ok (mkLeg id src ref v ccy vd dir cp at_ ing st mid bid))
  else if bool_decide (k = "currency") then
    res_bind (dec_str ccy j) (fun v => Ok (mkLeg id src ref amt v vd dir cp at_ ing st mid bid))
  else if bool_decide (k = "value_date") then
    res_bind (dec_date j) (fun v => Ok (mkLeg id src ref amt ccy v dir cp at_ ing st mid bid))
  else if bool_decide (k = "direction") then
    res_bind (dec_str dir j) (fun v => Ok (mkLeg id src ref amt ccy vd v cp at_ ing st mid bid))
  else if bool_decide (k = "counterparty") then
    res_bind (dec_str cp j) (fun v => Ok (mkLeg id src ref amt ccy vd dir v at_ ing st mid bid))
  else if bool_decide (k = "attrs") then
    res_bind (dec_attrs at_ j) (fun v => Ok (mkLeg id src ref amt ccy vd dir cp v ing st mid bid))
  else if bool_decide (k = "ingested_at") then
    res_bind (dec_time ing j) (fun v => Ok (mkLeg id src ref amt ccy vd dir cp at_ v st mid bid))
  else if bool_decide (k = "status") then
    res_bind (dec_str st j) (fun v => Ok (mkLeg id src ref amt ccy vd dir cp at_ ing v mid bid))
  else if bool_decide (k = "match_id") then
    res_bind (dec_str mid j) (fun v => Ok (mkLeg id src ref amt ccy vd dir cp at_ ing st v bid))
  else if bool_decide (k = "break_id") then
    res_bind (dec_str bid j) (fun v => Ok (mkLeg id src ref amt ccy vd dir cp at_ ing st mid v))
  else Ok l.

Fixpoint dec_leg_fields (l : Leg) (fs : list (string * json)) : result Leg :=
  match fs with
  | [] => Ok l
  | (k, j) :: fs' => res_bind (dec_leg_field l k j) (fun l' => dec_leg_fields l' fs')
  end.

(** [json.Unmarshal(raw, l)]. *)
Definition dec_leg (l : Leg) (j : json) : result Leg :=
  match j with
  | JObj fs => dec_leg_fields l fs
  | JNull => Ok l
  | _ => type_error
  end.

Definition dec_resolution_field (p : ResolutionPayload) (k : string) (j : json) : result ResolutionPayload :=
  let '(mkResolutionPayload b r a t m) := p in
  let k := fold_name k in
  if bool_decide (k = "break_id") then
    res_bind (dec_str b j) (fun v => Ok (mkResolutionPayload v r a t m))
  else if bool_decide (k = "reason") then
    res_bind (dec_str r j) (fun v => Ok (mkResolutionPayload b v a t m))
  else if bool_decide (k = "actor") then
    res_bind (dec_str a j) (fun v => Ok (mkResolutionPayload b r v t m))
  else if bool_decide (k = "at") then
    res_bind (dec_time t j) (fun v => Ok (mkResolutionPayload b r a v m))
  else if bool_decide (k = "match_id") then
    res_bind (dec_str m j) (fun v => Ok (mkResolutionPayload b r a t v))
  else Ok p.

Fixpoint dec_resolution_fields (p : ResolutionPayload) (fs : list (string * json)) : result ResolutionPayload :=
  match fs with
  | [] => Ok p
  | (k, j) :: fs' => res_bind (dec_resolution_field p k j) (fun p' => dec_resolution_fields p' fs')
  end.

Definition dec_resolution (j : json) : result ResolutionPayload :=
  match j with
  | JObj fs => dec_resolution_fields (mkResolutionPayload "" "" "" 0 "") fs
  | JNull => Ok (mkResolutionPayload "" "" "" 0 "")
  | _ => type_error
  end.

(** ** The log *)

Definition EvLegIngested : string := "leg.ingested".
Definition EvLegDuplicate : string := "leg.duplicate".
Definition EvLegExpired : string := "leg.expired".
Definition EvMatchCreated : string := "match.created".
Definition EvBreakOpened : string := "break.opened".
Definition EvBreakResolved : string := "break.resolved".
Definition EvWindowClosed : string := "window.closed".
Definition EvReplayStarted : string := "replay.started".

Record Event : Type := mkEvent {
  ev_Seq : Z;
  ev_Type : string;
  ev_At : Time;
  ev_AggregateID : string;
  ev_Payload : json
}.

Definition set_Seq (n : Z) (e : Event) : Event :=
  mkEvent n (ev_Type e) (ev_At e) (ev_AggregateID e) (ev_Payload e).

(** [NewEvent]; the sequence number is assigned by the store. *)
Definition NewEvent (typ : string) (at_ : Time) (aggregateID : string) (payload : result json)
  : result Event :=
  match payload with
  | Ok b => Ok (mkEvent 0 typ at_ aggregateID b)
  | Err e => Err (ErrWrap ("marshal " +:+ typ +:+ " payload: ") e "")
  end.

Record ChangeSet : Type := mkChangeSet {
  cs_Legs : list Leg;
  cs_Matches : list Match;
  cs_Breaks : list Break;
  cs_Events : list Event
}.

Definition empty_cs : ChangeSet := mkChangeSet [] [] [] [].

(** [ChangeSet.Empty]. *)
Definition cs_Empty (c : ChangeSet) : bool :=
  bool_decide (length (cs_Legs c) = 0%nat) && bool_decide (length (cs_Matches c) = 0%nat) &&
  bool_decide (length (cs_Breaks c) = 0%nat) && bool_decide (length (cs_Events c) = 0%nat).

Definition add_legs (ls : list Leg) (c : ChangeSet) : ChangeSet :=
  mkChangeSet (cs_Legs c ++ ls) (cs_Matches c) (cs_Breaks c) (cs_Events c).
Definition add_match (m : Match) (c : ChangeSet) : ChangeSet :=
  mkChangeSet (cs_Legs c) (cs_Matches c ++ [m]) (cs_Breaks c) (cs_Events c).
Definition add_break (b : Break) (c : ChangeSet) : ChangeSet :=
  mkChangeSet (cs_Legs c) (cs_Matches c) (cs_Breaks c ++ [b]) (cs_Events c).

(** [cs.addEvent]. *)
Definition addEvent (typ : string) (at_ : Time) (aggregateID : string) (payload : result json)
    (c : ChangeSet) : result ChangeSet :=
  match NewEvent typ at_ aggregateID payload with
  | Ok ev => Ok (mkChangeSet (cs_Legs c) (cs_Matches c) (cs_Breaks c) (cs_Events c ++ [ev]))
  | Err e => Err e
  end.

(** [unmarshalLeg]: decode, validate, re-derive the identity and strip the
    derived state. *)
Definition unmarshalLeg `{Sha256} (raw : json) : result Leg :=
  match dec_leg zero_leg raw with
  | Err e => Err (ErrWrap "decode leg payload: " e "")
  | Ok l => match Validate l with
            | (_, Err e) => Err e
            | (l', Ok tt) => Ok (set_state "" "" "" (AssignID l'))
            end
  end.

(** ** What a string loses on the way *)

(** A leg as it comes back from the log: every string of it coerced. Of two
    attributes whose keys become the same, the later one is read. *)
Definition coerce_into (a : gmap string string) (m : gmap string string) (ks : list string) : gmap string string :=
  foldl (fun m k => <[coerced k := coerced (default "" (a !! k))]> m) m ks.
Definition coerce_attrs (a : gmap string string) : gmap string string := coerce_into a ∅ (attr_keys a).

Definition coerce_leg (l : Leg) : Leg :=
  mkLeg (coerced (ID l)) (coerced (Source l)) (coerced (TxnRef l)) (AmountMinor l) (coerced (Currency l))
        (ValueDate l) (coerced (Dir l)) (coerced (Counterparty l)) (coerce_attrs (Attrs l)) (IngestedAt l)
        (coerced (Status l)) (coerced (MatchID l)) (coerced (BreakID l)).

Definition coerce_resolution (p : ResolutionPayload) : ResolutionPayload :=
  mkResolutionPayload (coerced (rp_BreakID p)) (coerced (rp_Reason p)) (coerced (rp_Actor p)) (rp_At p)
                      (coerced (rp_MatchID p)).

(** Keys and values of valid UTF-8. *)
Definition valid_attrs (a : gmap string string) : Prop :=
  map_Forall (fun k v => ValidString k = true /\ ValidString v = true) a.

Lemma elem_of_attr_keys a k : k ∈ attr_keys a <-> is_Some (a !! k).
Proof.
  unfold attr_keys. rewrite elem_of_sort_Strings, list_elem_of_fmap. split.
  - intros ([k' v] & -> & Hin%elem_of_map_to_list). by exists v.
  - intros [v Hv]. exists (k, v). split; [done|]. by apply elem_of_map_to_list.
Qed.

Lemma coerce_into_valid a m ks : valid_attrs m -> valid_attrs (coerce_into a m ks).
Proof.
  unfold coerce_into. revert m. induction ks as [|k ks IH]; intros m Hm; [done|]. cbn [foldl]. apply IH.
  apply map_Forall_insert_2; [split; apply valid_coerced|done].
Qed.

Lemma coerce_attrs_valid a : valid_attrs (coerce_attrs a).
Proof. apply coerce_into_valid, map_Forall_empty. Qed.

(** With valid keys and values, the attributes at the keys listed are copied. *)
Lemma coerce_into_lookup a m ks k : valid_attrs a -> (forall k, k ∈ ks -> is_Some (a !! k)) ->
  coerce_into a m ks !! k = if decide (k ∈ ks) then a !! k else m !! k.
Proof.
  intros Ha. unfold coerce_into. revert m. induction ks as [|k0 ks IH]; intros m Hks; cbn [foldl].
  - by rewrite decide_False by apply not_elem_of_nil.
  - destruct (Hks k0) as [v Hv]; [by left|]. destruct (Ha k0 v Hv) as [Hvk Hvv]. rewrite Hv. cbn [default from_option].
    rewrite IH, (coerced_valid k0), (coerced_valid (id v)) by (done || intros; apply Hks; by right).
    destruct (decide (k ∈ ks)) as [Hin|Hin].
    + by rewrite decide_True by (by right).
    + destruct (decide (k = k0)) as [->|Hne].
      * rewrite lookup_insert_eq, decide_True by left. done.
      * rewrite lookup_insert_ne by done. rewrite decide_False; [done|].
        intros [?|?]%elem_of_cons; done.
Qed.

Lemma coerce_listed a ks : valid_attrs a -> (forall k, k ∈ ks <-> is_Some (a !! k)) -> coerce_into a ∅ ks = a.
Proof.
  intros Ha Hks. apply map_eq. intros k. rewrite coerce_into_lookup by (done || intros; by apply Hks).
  destruct (decide (k ∈ ks)) as [Hin|Hin]; [done|]. rewrite lookup_empty.
  destruct (a !! k) eqn:E; [|done]. exfalso. by apply Hin, Hks.
Qed.

Lemma coerce_attrs_iff a : coerce_attrs a = a <-> valid_attrs a.
Proof.
  split; [intros <-; apply coerce_attrs_valid|]. intros Ha. apply coerce_listed; [done|apply elem_of_attr_keys].
Qed.

Lemma coerce_attrs_idem a : coerce_attrs (coerce_attrs a) = coerce_attrs a.
Proof. apply coerce_attrs_iff, coerce_attrs_valid. Qed.

Lemma coerce_leg_idem l : coerce_leg (coerce_leg l) = coerce_leg l.
Proof. unfold coerce_leg. cbn. by rewrite !coerced_coerced, coerce_attrs_idem. Qed.

(** ** Round trips *)

Lemma dec_leg_fields_app l a b :
  dec_leg_fields l (a ++ b) = res_bind (dec_leg_fields l a) (fun l' => dec_leg_fields l' b).
Proof.
  revert l. induction a as [|[k j] a IH]; intros l; cbn; [done|].
  destruct (dec_leg_field l k j); cbn; [apply IH|done].
Qed.

Lemma dec_attrs_marshal (a : gmap string string) ks m :
  dec_attrs_fields m ((fun k => (coerced k, jstr (default "" (a !! k)))) <$> ks) = Ok (coerce_into a m ks).
Proof.
  revert m. induction ks as [|k0 ks IH]; intros m; [done|].
  cbn [fmap list_fmap dec_attrs_fields res_bind dec_str jstr]. rewrite !coerced_coerced. apply IH.
Qed.

Lemma dec_attrs_roundtrip a : dec_attrs ∅ (marshal_attrs a) = Ok (coerce_attrs a).
Proof. apply dec_attrs_marshal. Qed.

Lemma dec_step l k j l' fs :
  dec_leg_field l k j = Ok l' -> dec_leg_fields l ((k, j) :: fs) = dec_leg_fields l' fs.
Proof. intros H. cbn. by rewrite H. Qed.

Lemma dec_value_date_step l n fs : -366 <= n < 3652059 ->
  dec_leg_fields l (("value_date", JStr (Date_String (date_of_day n))) :: fs) =
  dec_leg_fields (mkLeg (ID l) (Source l) (TxnRef l) (AmountMinor l) (Currency l) (date_of_day n)
    (Dir l) (Counterparty l) (Attrs l) (IngestedAt l) (Status l) (MatchID l) (BreakID l)) fs.
Proof.
  intros Hn. apply dec_step.
  assert (forall s d, ParseDate s = Ok d -> dec_leg_field l "value_date" (JStr s) =
    Ok (mkLeg (ID l) (Source l) (TxnRef l) (AmountMinor l) (Currency l) d
      (Dir l) (Counterparty l) (Attrs l) (IngestedAt l) (Status l) (MatchID l) (BreakID l))) as H.
  { intros s d Hs. destruct l. unfold dec_leg_field.
    rewrite !bool_decide_eq_false_2 by done. rewrite bool_decide_eq_true_2 by done.
    cbn [dec_date]. rewrite coerced_valid, Hs; [done|]. by eapply ParseDate_valid. }
  by apply H, ParseDate_String.
Qed.

Lemma dec_amount_step l amt fs : in64 amt ->
  dec_leg_fields l (("amount_minor", JInt amt) :: fs) =
  dec_leg_fields (mkLeg (ID l) (Source l) (TxnRef l) amt (Currency l) (ValueDate l)
    (Dir l) (Counterparty l) (Attrs l) (IngestedAt l) (Status l) (MatchID l) (BreakID l)) fs.
Proof.
  intros Hn. apply dec_step. destruct l. unfold dec_leg_field.
  rewrite !bool_decide_eq_false_2 by done. rewrite bool_decide_eq_true_2 by done.
  cbn [dec_int]. by rewrite decide_True.
Qed.

(** A member that is left out when it is empty. *)
Lemma dec_opt_str l k v (f : string -> Leg -> Leg) :
  (forall s, dec_leg_field l k (JStr s) = Ok (f (coerced s) l)) -> f "" l = l ->
  dec_leg_fields l (opt_str k v) = Ok (f (coerced v) l).
Proof.
  intros Hf H0. unfold opt_str, jstr. case_bool_decide as E.
  - subst v. change (coerced "") with "". by rewrite H0.
  - cbn [dec_leg_fields]. rewrite Hf. cbn [res_bind]. by rewrite coerced_coerced.
Qed.

(** Decoding what [marshal_leg] printed gives the leg back, its strings
    coerced. *)
Lemma dec_leg_marshal l j :
  in64 (AmountMinor l) -> wf_date_range (ValueDate l) ->
  marshal_leg l = Ok j -> dec_leg zero_leg j = Ok (coerce_leg l).
Proof.
  intros Ha (n & Hn & Hd) Hm. unfold marshal_leg in Hm.
  destruct l as [id src ref amt ccy vd dir cp at_ ing st mid bid]. cbn [ID Source TxnRef AmountMinor
    Currency ValueDate Dir Counterparty Attrs IngestedAt Status MatchID BreakID] in *. subst vd.
  assert (exists ingf, j = JObj (opt_str "id" id ++
     [("source", jstr src); ("txn_ref", jstr ref); ("amount_minor", JInt amt);
      ("currency", jstr ccy); ("value_date", JStr (Date_String (date_of_day n)));
      ("direction", jstr dir); ("counterparty", jstr cp)] ++
     (if bool_decide (at_ = ∅) then [] else [("attrs", marshal_attrs at_)]) ++
     ingf ++ opt_str "status" st ++ opt_str "match_id" mid ++ opt_str "break_id" bid) /\
     forall i s r a c v d p t, dec_leg_fields (mkLeg i s r a c v d p t 0 "" "" "") ingf
       = Ok (mkLeg i s r a c v d p t ing "" "" "")) as (ingf & -> & Hing).
  { unfold IsZero, marshal_time in Hm. destruct (Z.eqb_spec ing 0) as [->|Hne].
    - exists []. by injection Hm as <-.
    - destruct (year_ok ing); [|done]. exists [("ingested_at", JTime ing)]. by injection Hm as <-. }
  clear Hm. unfold dec_leg, zero_leg. rewrite dec_leg_fields_app.
  assert (dec_leg_fields (mkLeg "" "" "" 0 "" 0 "" "" ∅ 0 "" "" "") (opt_str "id" id)
          = Ok (mkLeg (coerced id) "" "" 0 "" 0 "" "" ∅ 0 "" "" "")) as ->
    by exact (dec_opt_str zero_leg "id" id set_ID (fun _ => eq_refl) eq_refl).
  cbn [res_bind app].
  do 2 erewrite dec_step by reflexivity. rewrite dec_amount_step by done.
  erewrite dec_step by reflexivity. rewrite dec_value_date_step by done.
  do 2 erewrite dec_step by reflexivity. rewrite dec_leg_fields_app.
  cbn [ID Source TxnRef AmountMinor Currency ValueDate Dir Counterparty Attrs IngestedAt Status
       MatchID BreakID].
  assert (forall i s r a c v d p, dec_leg_fields (mkLeg i s r a c v d p ∅ 0 "" "" "")
    (if bool_decide (at_ = ∅) then [] else [("attrs", marshal_attrs at_)])
    = Ok (mkLeg i s r a c v d p (coerce_attrs at_) 0 "" "" "")) as Hat.
  { intros. case_bool_decide as E; [by subst|].
    rewrite (dec_step _ _ _ (mkLeg i s r a c v d p (coerce_attrs at_) 0 "" "" "")); [done|].
    unfold dec_leg_field. rewrite !bool_decide_eq_false_2 by done.
    rewrite bool_decide_eq_true_2 by done. by rewrite dec_attrs_roundtrip. }
  rewrite Hat. cbn [res_bind]. rewrite dec_leg_fields_app, Hing. cbn [res_bind].
  rewrite dec_leg_fields_app, (dec_opt_str _ "status" st (fun s l => set_state s (MatchID l) (BreakID l) l)) by done.
  cbn [res_bind]. rewrite dec_leg_fields_app.
  rewrite (dec_opt_str _ "match_id" mid (fun m l => set_state (Status l) m (BreakID l) l)) by done. cbn [res_bind].
  rewrite (dec_opt_str _ "break_id" bid (fun b l => set_state (Status l) (MatchID l) b l)) by done.
  rewrite !coerced_coerced. reflexivity.
Qed.

Lemma dec_resolution_marshal p j : marshal_resolution p = Ok j -> dec_resolution j = Ok (coerce_resolution p).
Proof.
  destruct p as [b r a t m]. unfold marshal_resolution, marshal_time. cbn.
  destruct (year_ok t); [|done]. intros [= <-]. unfold opt_str, coerce_resolution.
  transitivity (Ok (mkResolutionPayload (coerced (coerced b)) (coerced (coerced r)) (coerced (coerced a)) t
    (coerced (coerced m)))); [|by rewrite !coerced_coerced].
  case_bool_decide as E; [rewrite E; reflexivity|reflexivity].
Qed.

Lemma set_ID_content `{Sha256} id l : content_fields (set_ID id l) = content_fields l.
Proof. done. Qed.

(** [AssignID] is idempotent: the identity does not depend on the ID field. *)
Lemma AssignID_idem `{Sha256} l : AssignID (AssignID l) = AssignID l.
Proof. done. Qed.

(** The strings of a leg that [Validate] does not restrict to ASCII. *)
Record valid_text (l : Leg) : Prop := {
  vt_source : ValidString (Source l) = true;
  vt_ref : ValidString (TxnRef l) = true;
  vt_counterparty : ValidString (Counterparty l) = true;
  vt_attrs : valid_attrs (Attrs l)
}.

Lemma iso_valid c : iso_currency c -> coerced c = c.
Proof.
  intros [_ Hc]. apply coerced_valid, ascii_valid. eapply Forall_impl; [exact Hc|].
  unfold is_upper. intros x Hx. apply is_ascii_nat. lia.
Qed.

Lemma wf_norm l : wf_leg l -> ToUpper (TrimSpace (Currency l)) = Currency l /\ ToLower (Dir l) = Dir l.
Proof.
  intros Hwf. pose proof (Validate_wf l Hwf) as Hv. apply (f_equal fst) in Hv. cbn [Validate fst] in Hv.
  split; [apply (f_equal Currency) in Hv|apply (f_equal Dir) in Hv]; exact Hv.
Qed.

Lemma wf_ascii l : wf_leg l -> coerced (Currency l) = Currency l /\ coerced (Dir l) = Dir l.
Proof. intros Hwf. split; [apply iso_valid, Hwf|]. by destruct (wf_dir _ Hwf) as [-> | ->]. Qed.

(** What [unmarshalLeg] makes of the payload of a validated leg. *)
Lemma unmarshal_coerced `{Sha256} l j : wf_leg l -> dec_leg zero_leg j = Ok (coerce_leg l) ->
  unmarshalLeg j = match (Validate (coerce_leg l)).2 with
                   | Ok _ => Ok (set_state "" "" "" (AssignID (coerce_leg l)))
                   | Err e => Err e
                   end.
Proof.
  intros Hwf Hj. unfold unmarshalLeg. rewrite Hj. destruct (wf_ascii l Hwf) as [Hc Hd], (wf_norm l Hwf) as [Hc' Hd'].
  assert ((Validate (coerce_leg l)).1 = coerce_leg l) as Hn.
  { unfold Validate, coerce_leg. cbn [fst Currency Dir]. rewrite Hc, Hd, Hc', Hd'. reflexivity. }
  destruct (Validate (coerce_leg l)) as [l' [[]|e]]; cbn in *; by subst.
Qed.

(** A [leg.ingested] payload is read back as the leg it recorded, stripped of
    its derived state, exactly when the strings of the leg are UTF-8. *)
Lemma unmarshalLeg_marshal_iff `{Sha256} l j :
  wf_leg l -> in64 (AmountMinor l) -> wf_date_range (ValueDate l) -> AssignID l = l ->
  marshal_leg l = Ok j -> unmarshalLeg j = Ok (set_state "" "" "" l) <-> valid_text l.
Proof.
  intros Hwf Ha Hd Hid Hm. rewrite (unmarshal_coerced l j Hwf (dec_leg_marshal l j Ha Hd Hm)). split.
  - destruct (Validate _).2; [|done]. intros [= _ Hs Hr _ _ Hp Hat].
    constructor; [by apply coerced_iff..|by apply coerce_attrs_iff].
  - intros [Hs%coerced_valid Hr%coerced_valid Hp%coerced_valid Hat%coerce_attrs_iff].
    destruct (wf_ascii l Hwf) as [Hc Hdir].
    assert (set_ID (ID l) (set_state (Status l) (MatchID l) (BreakID l) (coerce_leg l)) = l) as Hl.
    { destruct l. unfold coerce_leg. cbn in *. by rewrite Hs, Hr, Hp, Hat, Hc, Hdir. }
    assert ((Validate (coerce_leg l)).2 = (Validate l).2) as ->.
    { rewrite <- Hl at 2. reflexivity. }
    rewrite Validate_wf by done. cbn [snd]. f_equal. rewrite <- Hid at 2. rewrite <- Hl at 2. reflexivity.
Qed.
