(* ===== verification/Jsonb.v ===== *)
(** * JSON in the database

    What a JSONB column keeps of a JSON value: objects lose the order of their
    fields and all but the last of the values of a repeated key; everything
    else keeps its value. The payloads of the log and the attributes of legs
    are read back from such a column as from the text that was written. *)

From S2P Require Export Event.

Local Open Scope recon_scope.

(** The value of a key: that of its last field. *)
Definition field (k : string) (fs : list (string * json)) : option json :=
  (list_to_map (reverse fs) : gmap string json) !! k.

Definition is_atom (j : json) : Prop := match j with JArr _ | JObj _ => False | _ => True end.

(** The documented conversion to JSONB. *)
Record keeps_json (jsonb : json -> json) : Prop := {
  kj_atom j : is_atom j -> jsonb j = j;
  kj_array l : jsonb (JArr l) = JArr (jsonb <$> l);
  kj_object fs : exists gs, jsonb (JObj fs) = JObj gs /\ NoDup gs.*1 /\
    forall k, field k gs = jsonb <$> field k fs
}.

Lemma field_elem k j fs : NoDup fs.*1 -> field k fs = Some j <-> (k, j) ∈ fs.
Proof.
  intros Hnd. unfold field. rewrite <- elem_of_list_to_map; [by rewrite elem_of_reverse|].
  by rewrite reverse_Permutation.
Qed.

(** ** Decoding an object field by field *)

Definition dec_at {A} (name : string) (dec : A -> json -> result A) (old : A) (kj : string * json) : result A :=
  if bool_decide (fold_name kj.1 = name) then dec old kj.2 else Ok old.

Fixpoint dec_all {A} (name : string) (dec : A -> json -> result A) (old : A) (fs : list (string * json)) : result A :=
  match fs with
  | [] => Ok old
  | kj :: fs' => res_bind (dec_at name dec old kj) (fun v => dec_all name dec v fs')
  end.

Lemma res_bind_Ok {A B} (r : result A) (k : A -> result B) b :
  res_bind r k = Ok b <-> exists a, r = Ok a /\ k a = Ok b.
Proof. destruct r as [a|e]; cbn; split; [by exists a|by intros (? & [= <-] & ?)|done|by intros (? & ? & _)]. Qed.

Definition folded (fs : list (string * json)) : list string := fold_name <$> fs.*1.

Lemma folded_map jsonb fs : folded (prod_map id jsonb <$> fs) = folded fs.
Proof. unfold folded. f_equal. by rewrite <- list_fmap_compose. Qed.

(** The order of the fields does not matter when each names another member. *)
Lemma dec_all_perm {A} name (dec : A -> json -> result A) fs gs old v :
  fs ≡ₚ gs -> NoDup (folded fs) -> dec_all name dec old fs = Ok v -> dec_all name dec old gs = Ok v.
Proof.
  intros Hp. revert old v. induction Hp as [|x fs gs _ IH|x y fs|fs gs hs Hp1 IH1 Hp2 IH2]; intros old v Hnd; [done|..].
  - apply NoDup_cons in Hnd as [_ Hnd]. cbn [dec_all]. rewrite !res_bind_Ok.
    intros (a & Ha & Hv). exists a. auto.
  - unfold folded in Hnd. cbn in Hnd. apply NoDup_cons in Hnd as [Hxy _].
    cbn [dec_all]. unfold dec_at. do 2 case_bool_decide; cbn [res_bind]; try done.
    exfalso. apply Hxy. apply elem_of_cons. left. congruence.
  - intros Hv. apply IH2; [|by apply IH1]. unfold folded in *. by rewrite <- Hp1.
Qed.

Lemma dec_all_map {A} name (dec : A -> json -> result A) (jsonb : json -> json) fs old v :
  (forall k j a, (k, j) ∈ fs -> fold_name k = name -> dec old j = Ok a -> dec old (jsonb j) = Ok a) ->
  NoDup (folded fs) -> dec_all name dec old fs = Ok v -> dec_all name dec old (prod_map id jsonb <$> fs) = Ok v.
Proof.
  revert old v. induction fs as [|[k j] fs IH]; intros old v Hj Hnd; [done|].
  unfold folded in Hnd. cbn in Hnd. apply NoDup_cons in Hnd as [Hk Hnd].
  cbn [fmap list_fmap dec_all]. unfold dec_at. cbn [prod_map fst snd id]. 
  case_bool_decide as Hn.
  - rewrite !res_bind_Ok. intros (a & Ha & Hv). exists a. split; [eapply Hj; [by left|done..]|].
    assert (forall fs b, fold_name k ∉ folded fs -> dec_all name dec b fs = Ok b) as Hnone.
    { clear - Hn. induction fs as [|[k' j'] fs IH]; intros b Hin; [done|]. cbn in Hin.
      apply not_elem_of_cons in Hin as [Hne Hin]. cbn [dec_all]. unfold dec_at. cbn [fst].
      rewrite bool_decide_eq_false_2 by congruence. by apply IH. }
    rewrite Hnone in Hv by done. by rewrite Hnone by (by rewrite folded_map).
  - cbn [res_bind]. apply IH; [|done]. intros k' j' a Hin. apply Hj. by right.
Qed.

(** ** Legs and resolutions, member by member *)

(** [R name dec old new] for every member of a leg. *)
Definition leg_members (R : forall A, string -> (A -> json -> result A) -> A -> A -> Prop) (l l' : Leg) : Prop :=
  R _ "id" dec_str (ID l) (ID l') /\ R _ "source" dec_str (Source l) (Source l') /\
  R _ "txn_ref" dec_str (TxnRef l) (TxnRef l') /\ R _ "amount_minor" dec_int (AmountMinor l) (AmountMinor l') /\
  R _ "currency" dec_str (Currency l) (Currency l') /\
  R _ "value_date" (fun _ => dec_date) (ValueDate l) (ValueDate l') /\
  R _ "direction" dec_str (Dir l) (Dir l') /\ R _ "counterparty" dec_str (Counterparty l) (Counterparty l') /\
  R _ "attrs" dec_attrs (Attrs l) (Attrs l') /\ R _ "ingested_at" dec_time (IngestedAt l) (IngestedAt l') /\
  R _ "status" dec_str (Status l) (Status l') /\ R _ "match_id" dec_str (MatchID l) (MatchID l') /\
  R _ "break_id" dec_str (BreakID l) (BreakID l').

Lemma dec_leg_field_members l k j l' :
  dec_leg_field l k j = Ok l' <-> leg_members (fun A name dec old new => dec_at name dec old (k, j) = Ok new) l l'.
Proof.
  destruct l as [i1 s1 r1 a1 c1 d1 e1 p1 t1 g1 x1 y1 z1], l' as [i2 s2 r2 a2 c2 d2 e2 p2 t2 g2 x2 y2 z2].
  unfold leg_members, dec_at, dec_leg_field. cbn [fst snd ID Source TxnRef AmountMinor Currency ValueDate
    Dir Counterparty Attrs IngestedAt Status MatchID BreakID].
  do 13 (let Hk := fresh "Hk" in case_bool_decide as Hk;
    [rewrite ?Hk; repeat (rewrite bool_decide_eq_false_2 by done); rewrite ?bool_decide_eq_true_2 by done;
     rewrite res_bind_Ok; split;
       [intros (v & Hv & [=]); subst; by split_and!|intros (?&?&?&?&?&?&?&?&?&?&?&?&?); simplify_eq; eexists; by split]|]).
  split; [intros [=]; subst; by split_and!|]. intros (?&?&?&?&?&?&?&?&?&?&?&?&?). by simplify_eq.
Qed.

Lemma dec_leg_fields_members fs l l' :
  dec_leg_fields l fs = Ok l' <-> leg_members (fun A name dec old new => dec_all name dec old fs = Ok new) l l'.
Proof.
  revert l. induction fs as [|[k j] fs IH]; intros l.
  { unfold leg_members. cbn. split; [by intros [= <-]|]. destruct l, l'.
    intros (?&?&?&?&?&?&?&?&?&?&?&?&?). by simplify_eq. }
  cbn [dec_leg_fields]. rewrite res_bind_Ok. setoid_rewrite IH. setoid_rewrite dec_leg_field_members.
  unfold leg_members. cbn [dec_all]. rewrite !res_bind_Ok. split.
  - intros (l1 & (?&?&?&?&?&?&?&?&?&?&?&?&?) & (?&?&?&?&?&?&?&?&?&?&?&?&?)). split_and!; by eexists.
  - intros ((v1&?&?)&(v2&?&?)&(v3&?&?)&(v4&?&?)&(v5&?&?)&(v6&?&?)&(v7&?&?)&(v8&?&?)&(v9&?&?)&(v10&?&?)&(v11&?&?)&
      (v12&?&?)&(v13&?&?)).
    exists (mkLeg v1 v2 v3 v4 v5 v6 v7 v8 v9 v10 v11 v12 v13). by split_and!.
Qed.

Definition resolution_members (R : forall A, string -> (A -> json -> result A) -> A -> A -> Prop)
    (p p' : ResolutionPayload) : Prop :=
  R _ "break_id" dec_str (rp_BreakID p) (rp_BreakID p') /\ R _ "reason" dec_str (rp_Reason p) (rp_Reason p') /\
  R _ "actor" dec_str (rp_Actor p) (rp_Actor p') /\ R _ "at" dec_time (rp_At p) (rp_At p') /\
  R _ "match_id" dec_str (rp_MatchID p) (rp_MatchID p').

Lemma dec_resolution_field_members p k j p' :
  dec_resolution_field p k j = Ok p' <->
  resolution_members (fun A name dec old new => dec_at name dec old (k, j) = Ok new) p p'.
Proof.
  destruct p as [b1 r1 a1 t1 m1], p' as [b2 r2 a2 t2 m2].
  unfold resolution_members, dec_at, dec_resolution_field. cbn [fst snd rp_BreakID rp_Reason rp_Actor rp_At rp_MatchID].
  do 5 (let Hk := fresh "Hk" in case_bool_decide as Hk;
    [rewrite ?Hk; repeat (rewrite bool_decide_eq_false_2 by done); rewrite ?bool_decide_eq_true_2 by done;
     rewrite res_bind_Ok; split;
       [intros (v & Hv & [=]); subst; by split_and!|intros (?&?&?&?&?); simplify_eq; eexists; by split]|]).
  split; [intros [=]; subst; by split_and!|]. intros (?&?&?&?&?). by simplify_eq.
Qed.

Lemma dec_resolution_fields_members fs p p' :
  dec_resolution_fields p fs = Ok p' <->
  resolution_members (fun A name dec old new => dec_all name dec old fs = Ok new) p p'.
Proof.
  revert p. induction fs as [|[k j] fs IH]; intros p.
  { unfold resolution_members. cbn. split; [by intros [= <-]|]. destruct p, p'.
    intros (?&?&?&?&?). by simplify_eq. }
  cbn [dec_resolution_fields]. rewrite res_bind_Ok. setoid_rewrite IH. setoid_rewrite dec_resolution_field_members.
  unfold resolution_members. cbn [dec_all]. rewrite !res_bind_Ok. split.
  - intros (p1 & (?&?&?&?&?) & (?&?&?&?&?)). split_and!; by eexists.
  - intros ((v1&?&?)&(v2&?&?)&(v3&?&?)&(v4&?&?)&(v5&?&?)).
    exists (mkResolutionPayload v1 v2 v3 v4 v5). by split_and!.
Qed.

(** ** What a JSONB column gives back *)

Section Jsonb.
Context (jsonb : json -> json) (Hjsonb : keeps_json jsonb).

Lemma jsonb_object fs : NoDup fs.*1 -> exists gs, jsonb (JObj fs) = JObj gs /\ gs ≡ₚ prod_map id jsonb <$> fs.
Proof.
  intros Hnd. destruct (kj_object _ Hjsonb fs) as (gs & -> & Hgs & Hf). exists gs. split; [done|].
  assert (NoDup (prod_map id jsonb <$> fs).*1) as Hnd' by (by rewrite <- list_fmap_compose).
  apply NoDup_Permutation; [by eapply NoDup_fmap_1|by eapply NoDup_fmap_1|].
  intros [k j]. rewrite <- (field_elem k j gs Hgs), Hf, fmap_Some, list_elem_of_fmap. split.
  - intros (j0 & Hj0%field_elem & ->); [|done]. by exists (k, j0).
  - intros ([k0 j0] & [= -> ->] & Hin). exists j0. split; [by apply field_elem|done].
Qed.

Lemma NoDup_folded fs : NoDup (folded fs) -> NoDup fs.*1.
Proof. apply NoDup_fmap_1. Qed.

(** The member [name], read back. *)
Lemma jsonb_member {A} name (dec : A -> json -> result A) fs gs old v :
  NoDup (folded fs) -> gs ≡ₚ prod_map id jsonb <$> fs ->
  (forall k j a, (k, j) ∈ fs -> fold_name k = name -> dec old j = Ok a -> dec old (jsonb j) = Ok a) ->
  dec_all name dec old fs = Ok v -> dec_all name dec old gs = Ok v.
Proof.
  intros Hnd Hp Hj Hv. eapply dec_all_perm; [by symmetry| |by apply dec_all_map].
  by rewrite folded_map.
Qed.

(** The attributes of a leg: with keys that are UTF-8 no two of them become
    one. *)
Lemma attr_fields_valid a (ks : list string) : valid_attrs a -> (forall k, k ∈ ks -> is_Some (a !! k)) ->
  (fun k => (coerced k, jstr (default "" (a !! k)))) <$> ks = (fun k => (k, jstr (default "" (a !! k)))) <$> ks.
Proof.
  intros Ha Hks. apply list_fmap_ext. intros i k [v Hv]%list_elem_of_lookup_2%Hks.
  by rewrite coerced_valid by apply (Ha k v Hv).
Qed.

Lemma dec_attrs_jsonb a : valid_attrs a -> dec_attrs ∅ (jsonb (marshal_attrs a)) = Ok a.
Proof.
  intros Ha. unfold marshal_attrs. pose proof (elem_of_attr_keys a) as Hks. set (ks := attr_keys a) in *.
  rewrite attr_fields_valid by (done || intros; by apply Hks).
  set (f := fun k => (k, jstr (default "" (a !! k)))).
  assert (NoDup ks) as Hnd by (unfold ks, attr_keys; rewrite sort_Strings_Permutation; apply NoDup_fst_map_to_list).
  destruct (jsonb_object (f <$> ks)) as (gs & -> & Hgs).
  { rewrite <- list_fmap_compose. change (NoDup (id <$> ks)). by rewrite list_fmap_id. }
  assert (prod_map id jsonb <$> (f <$> ks) = f <$> ks) as Hid.
  { rewrite <- list_fmap_compose. apply list_fmap_ext. intros i k _. unfold f, compose, prod_map. cbn.
    by rewrite (kj_atom _ Hjsonb). }
  rewrite Hid in Hgs. assert (gs = f <$> gs.*1) as Hform.
  { rewrite <- list_fmap_compose. symmetry. rewrite <- (list_fmap_id gs) at 2. apply list_fmap_ext.
    intros i kj Hkj%list_elem_of_lookup_2. rewrite Hgs in Hkj.
    apply list_elem_of_fmap in Hkj as (k & -> & _). done. }
  assert (gs.*1 ≡ₚ ks) as Hkeys.
  { rewrite Hgs, <- list_fmap_compose. change (id <$> ks ≡ₚ ks). by rewrite list_fmap_id. }
  assert (forall k, k ∈ gs.*1 <-> is_Some (a !! k)) as Hks' by (intros k; by rewrite Hkeys).
  unfold dec_attrs. rewrite Hform. unfold f. rewrite <- attr_fields_valid by (done || intros; by apply Hks').
  rewrite dec_attrs_marshal. f_equal. by apply coerce_listed.
Qed.

(** A member whose values are all atoms is read back as it was. *)
Lemma jsonb_atoms {A} name (dec : A -> json -> result A) fs gs old v :
  NoDup (folded fs) -> gs ≡ₚ prod_map id jsonb <$> fs ->
  (forall k j, (k, j) ∈ fs -> fold_name k = name -> is_atom j) ->
  dec_all name dec old fs = Ok v -> dec_all name dec old gs = Ok v.
Proof.
  intros Hnd Hp Hj. apply jsonb_member; [done|done|]. intros k j a Hin Hk Ha.
  by rewrite (kj_atom _ Hjsonb) by (by eapply Hj).
Qed.

Lemma dec_resolution_jsonb p j : marshal_resolution p = Ok j -> dec_resolution (jsonb j) = Ok (coerce_resolution p).
Proof.
  intros Hj. pose proof (dec_resolution_marshal p j Hj) as Hdec.
  assert (exists fs, j = JObj fs /\ NoDup (folded fs) /\ Forall (fun kj => is_atom kj.2) fs) as (fs & -> & Hnd & Hat).
  { unfold marshal_resolution, marshal_time in Hj. destruct (year_ok _); [|done]. injection Hj as <-.
    eexists. split; [done|]. split; [|unfold opt_str; case_bool_decide; by repeat constructor].
    unfold opt_str. case_bool_decide; apply (bool_decide_unpack _); vm_compute; done. }
  destruct (jsonb_object fs (NoDup_folded _ Hnd)) as (gs & -> & Hgs). unfold dec_resolution in *.
  apply dec_resolution_fields_members in Hdec. apply dec_resolution_fields_members.
  assert (forall k j, (k, j) ∈ fs -> is_atom j) as Hatom.
  { intros k j Hin. rewrite Forall_forall in Hat. exact (Hat (k, j) Hin). }
  destruct Hdec as (?&?&?&?&?). split_and!; (eapply jsonb_atoms; [exact Hnd|exact Hgs|intros k j Hin _; by eapply Hatom|done]).
Qed.

Definition leg_names : list string :=
  ["id"; "source"; "txn_ref"; "amount_minor"; "currency"; "value_date"; "direction"; "counterparty"; "attrs";
   "ingested_at"; "status"; "match_id"; "break_id"].

(** The payload of a leg: distinct members, of which only the attributes are
    not atoms. *)
Lemma marshal_leg_shape l j : marshal_leg l = Ok j -> exists fs, j = JObj fs /\ NoDup (folded fs) /\
  forall k v, (k, v) ∈ fs -> is_atom v \/ (k = "attrs" /\ v = marshal_attrs (Attrs l)).
Proof.
  unfold marshal_leg, marshal_time. intros Hj.
  assert (exists ing, (ing = [] \/ ing = [("ingested_at", JTime (IngestedAt l))]) /\ j = JObj (opt_str "id" (ID l) ++
     [("source", jstr (Source l)); ("txn_ref", jstr (TxnRef l)); ("amount_minor", JInt (AmountMinor l));
      ("currency", jstr (Currency l)); ("value_date", JStr (Date_String (ValueDate l)));
      ("direction", jstr (Dir l)); ("counterparty", jstr (Counterparty l))] ++
     (if bool_decide (Attrs l = ∅) then [] else [("attrs", marshal_attrs (Attrs l))]) ++ ing ++
     opt_str "status" (Status l) ++ opt_str "match_id" (MatchID l) ++ opt_str "break_id" (BreakID l)))
    as (ing & Hing & ->).
  { destruct (IsZero _); [exists []; split; [by left|by injection Hj as <-]|].
    destruct (year_ok _); [|done]. eexists. split; [by right|by injection Hj as <-]. }
  clear Hj. eexists. split; [done|]. split.
  - eapply (sublist_NoDup _ leg_names); [apply (bool_decide_unpack _); vm_compute; done|].
    unfold folded, opt_str, leg_names. destruct Hing as [-> | ->]; repeat case_bool_decide; cbn [app fmap list_fmap fst];
      repeat first [apply sublist_nil | apply sublist_skip | apply sublist_cons].
  - intros k v Hin. unfold opt_str in Hin.
    repeat (apply elem_of_app in Hin as [Hin|Hin]); repeat case_bool_decide; destruct Hing as [-> | ->];
      rewrite ?elem_of_cons, ?elem_of_nil in Hin; naive_solver.
Qed.

Lemma dec_leg_jsonb l j : in64 (AmountMinor l) -> wf_date_range (ValueDate l) -> valid_attrs (Attrs l) ->
  marshal_leg l = Ok j -> dec_leg zero_leg (jsonb j) = Ok (coerce_leg l).
Proof.
  intros Ha Hd Hat_ Hj. pose proof (dec_leg_marshal l j Ha Hd Hj) as Hdec.
  destruct (marshal_leg_shape l j Hj) as (fs & -> & Hnd & Hat).
  destruct (jsonb_object fs (NoDup_folded _ Hnd)) as (gs & -> & Hgs). unfold dec_leg in *.
  apply dec_leg_fields_members in Hdec. apply dec_leg_fields_members.
  assert (forall k v name, (k, v) ∈ fs -> fold_name k = name -> name <> "attrs" -> is_atom v) as Hatom.
  { intros k v name Hin <- Hne. by destruct (Hat k v Hin) as [|[-> _]]. }
  destruct Hdec as (?&?&?&?&?&?&?&?&?&?&?&?&?).
  split_and!; (eapply jsonb_member; [exact Hnd|exact Hgs| |done]); intros k v a Hin Hk Hv.
  all: destruct (Hat k v Hin) as [Hv'|[-> ->]]; [by rewrite (kj_atom _ Hjsonb)|try (by vm_compute in Hk)].
  rewrite dec_attrs_jsonb by done. change (Attrs zero_leg) with (∅ : gmap string string) in Hv.
  by rewrite dec_attrs_roundtrip, (proj2 (coerce_attrs_iff _)) in Hv.
Qed.
End Jsonb.
