(* ===== verification/Gen.v ===== *)
(** * The sample generator

    examples/gen/main.go: the 200 legs of examples/legs.json, drawn from
    math/rand. The source of the random bits is a stream of 63-bit numbers, of
    which each draw takes the next ones; [Int63n] and [Intn] are what math/rand
    makes of them. Loops that reject a draw have fuel, read like the stream. *)

From S2P Require Export Rules Event.

(** ** State *)

(** Where the stream is read next, and the variables of [main]. *)
Record GenState : Type := mkGenState {
  gs_pos : nat;
  usedAmounts : gset Z;
  gs_seq : Z;
  gs_ledger : list Leg;
  gs_rail : list Leg
}.

Definition no_legs : GenState := mkGenState 0 ∅ 0 [] [].

(** A computation of [main], given the fuel of its loops; [None] when that is
    used up. *)
Definition Gen (A : Type) : Type := nat -> GenState -> option (A * GenState).

Definition gret {A} (a : A) : Gen A := fun _ s => Some (a, s).
Definition gbind {A B} (m : Gen A) (k : A -> Gen B) : Gen B := fun fuel s =>
  match m fuel s with
  | Some (a, s') => k a fuel s'
  | None => None
  end.
Definition gmodify (f : GenState -> GenState) : Gen unit := fun _ s => Some (tt, f s).

Declare Scope gen_scope.
Notation "'draw!' x := m 'in' k" := (gbind m (fun x => k))
  (at level 200, x binder, m at level 200, k at level 200, right associativity,
   format "'[v' 'draw!'  x  :=  m  'in' '/' k ']'") : gen_scope.
Notation "m ;;% k" := (gbind m (fun _ => k)) (at level 199, right associativity) : gen_scope.
Local Open Scope gen_scope.

(** [for i := 0; i < n; i++ { body }] *)
Definition for_upto (n : nat) (body : Z -> Gen unit) : Gen unit :=
  foldr (fun i rest => body (Z.of_nat i) ;;% rest) (gret tt) (seq 0 n).

(** [%0wd] of a number that is not negative. *)
Definition zero_padded (w : nat) (n : Z) : string :=
  let s := FormatInt n in
  String.string_of_list_ascii (replicate (w - String.length s) (byte 48)) +:+ s.

(** ** math/rand *)

Section Generator.
(** [Source.Int63]: the numbers it returns, one after the other. *)
Variable src : nat -> Z.

Definition Int63 : Gen Z := fun _ s =>
  Some (src (gs_pos s), mkGenState (1 + gs_pos s) (usedAmounts s) (gs_seq s) (gs_ledger s) (gs_rail s)).
Definition Int31 : Gen Z := draw! v := Int63 in gret (Z.shiftr v 32).

(** [v := draw(); for v > max { v = draw() }] *)
Fixpoint draw_loop (rounds : nat) (max : Z) (d : Gen Z) : Gen Z :=
  match rounds with
  | O => fun _ _ => None
  | Datatypes.S rounds => draw! v := d in if max <? v then draw_loop rounds max d else gret v
  end.
Definition draw_upto (max : Z) (d : Gen Z) : Gen Z := fun fuel => draw_loop fuel max d fuel.

(** Both panic unless [n] is positive, which it is wherever they are called. *)
Definition Int63n (n : Z) : Gen Z :=
  if Z.land n (n - 1) =? 0 then draw! v := Int63 in gret (Z.land v (n - 1))
  else
    draw! v := draw_upto (2 ^ 63 - 1 - 2 ^ 63 mod n) Int63 in
    gret (Z.rem v n).
Definition Int31n (n : Z) : Gen Z :=
  if Z.land n (n - 1) =? 0 then draw! v := Int31 in gret (Z.land v (n - 1))
  else
    draw! v := draw_upto (2 ^ 31 - 1 - 2 ^ 31 mod n) Int31 in
    gret (Z.rem v n).
Definition Intn (n : Z) : Gen Z := if n <=? 2 ^ 31 - 1 then Int31n n else Int63n n.

(** ** The closures of [main] *)

Definition d14 : Date := NewDate 2026 9 14.
Definition d15 : Date := NewDate 2026 9 15.
Definition d16 : Date := NewDate 2026 9 16.
Definition merchants : list string :=
  ["M-1023"; "M-2210"; "M-3391"; "M-4457"; "M-5120"; "M-6688"; "M-7014"; "M-8891"].

(** An amount not drawn before. *)
Fixpoint amount_loop (rounds : nat) (lo hi : Z) : Gen Z :=
  match rounds with
  | O => fun _ _ => None
  | Datatypes.S rounds =>
      draw! v := Int63n (sub64 hi lo) in
      let a := add64 lo v in
      fun fuel s =>
        if decide (a ∈ usedAmounts s) then amount_loop rounds lo hi fuel s
        else Some (a, mkGenState (gs_pos s) ({[a]} ∪ usedAmounts s) (gs_seq s) (gs_ledger s) (gs_rail s))
  end.
Definition amount (lo hi : Z) : Gen Z := fun fuel => amount_loop fuel lo hi fuel.

Definition ref : Gen string := fun _ s =>
  let n := add64 (gs_seq s) 1 in
  Some ("TXN-" +:+ zero_padded 6 (add64 240000 n),
        mkGenState (gs_pos s) (usedAmounts s) n (gs_ledger s) (gs_rail s)).

Definition arn : Gen string := draw! v := Int63n (10 ^ 15) in gret ("7451" +:+ zero_padded 19 v).

(** [for k, v := range extra { attrs[k] = v }] *)
Definition with_extra (extra attrs : gmap string string) : gmap string string := extra ∪ attrs.

Definition ledgerLeg (txn : string) (amt : Z) (ccy cp : string) (d : Date) (extra : gmap string string) : Gen unit :=
  draw! i := Intn (Z.of_nat (length merchants)) in
  let attrs := {["account" := "1200-SETTLEMENT-" +:+ cp; "merchant_id" := nth (Z.to_nat i) merchants "";
                 "channel" := "card_present"]} in
  let leg := mkLeg "" "ledger" txn amt ccy d Debit cp (with_extra extra attrs) 0 "" "" "" in
  gmodify (fun s => mkGenState (gs_pos s) (usedAmounts s) (gs_seq s) (gs_ledger s ++ [leg]) (gs_rail s)).

Definition railLeg (txn : string) (amt : Z) (ccy cp : string) (d : Date) (extra : gmap string string) : Gen unit :=
  draw! a := arn in
  let attrs := {["arn" := a; "settlement_file" := cp +:+ "-STL-20260916-01"]} in
  let leg := mkLeg "" "card_network" txn amt ccy d Credit cp (with_extra extra attrs) 0 "" "" "" in
  gmodify (fun s => mkGenState (gs_pos s) (usedAmounts s) (gs_seq s) (gs_ledger s) (gs_rail s ++ [leg])).

Definition network (i : Z) : string * string :=
  if Z.rem i 3 =? 0 then ("GBP", "MASTERCARD") else ("USD", "VISA").

(** ** The records, section by section *)

(** 76 clean pairs. *)
Definition clean_pairs : Gen unit := for_upto 76 (fun i =>
  let '(ccy, cp) := network i in
  draw! r := ref in
  draw! a := amount 500 250000 in
  let d := if Z.rem i 2 =? 0 then d15 else d14 in
  ledgerLeg r a ccy cp d ∅ ;;%
  railLeg r a ccy cp d16 ∅).

(** 9 pairs with rounding differences. *)
Definition rounded_pairs : Gen unit := for_upto 9 (fun i =>
  let '(ccy, cp) := network i in
  draw! r := ref in
  draw! a := amount 20000 400000 in
  draw! k := Intn 2 in
  let delta := add64 1 k in
  let delta := if Z.rem i 2 =? 0 then neg64 delta else delta in
  ledgerLeg r a ccy cp d15 ∅ ;;%
  railLeg r (add64 a delta) ccy cp d16 {["rounding" := "scheme"]}).

(** The ledger legs of a batch: [n] of them, and their sum. *)
Fixpoint batch_legs (batch : string) (n : nat) (sum : Z) : Gen Z :=
  match n with
  | O => gret sum
  | Datatypes.S n =>
      draw! a := amount 1000 90000 in
      draw! r := ref in
      ledgerLeg r a "USD" "VISA" d15 {[AttrBatchRef := batch]} ;;%
      batch_legs batch n (add64 sum a)
  end.

(** 4 batches of 3, 3, 3 and 4 legs. *)
Definition batches : Gen unit := for_upto 4 (fun b =>
  let n := if b =? 3 then 4%nat else 3%nat in
  let batch := "VISA-BATCH-2026091" +:+ FormatInt 5 +:+ "-" +:+ zero_padded 2 (add64 b 1) in
  draw! sum := batch_legs batch n 0 in
  railLeg batch sum "USD" "VISA" d16 {["record_type" := "batch_settlement"]}).

(** 2 pairs without a common reference. *)
Definition amount_date_pairs : Gen unit := for_upto 2 (fun i =>
  draw! a := amount 300000 900000 in
  draw! r := ref in
  ledgerLeg r a "USD" "VISA" d15 {["note" := "ref not echoed by network"]} ;;%
  draw! n := arn in
  railLeg ("ARN-" +:+ str_take 12 n) a "USD" "VISA" d16 ∅).

Definition fee_pair : Gen unit :=
  draw! r := ref in
  draw! a := amount 100000 300000 in
  let fee := Z.quot (wrap64 (a * 25)) 1000 in
  ledgerLeg r a "USD" "VISA" d15 ∅ ;;%
  railLeg r (sub64 a fee) "USD" "VISA" d16
    {["interchange_minor" := FormatInt fee; "record_type" := "net_settlement"]}.

Definition fx_pair : Gen unit :=
  draw! r := ref in
  draw! a := amount 50000 120000 in
  let eur := int64_of (fmul (of_int a) (fconst (9183 # 10000))) in
  ledgerLeg r a "USD" "VISA" d15 {["original_currency" := "EUR"]} ;;%
  railLeg r eur "EUR" "VISA" d16 {["fx_rate" := "0.9183"; "settlement_currency" := "EUR"]}.

Definition timing_pair : Gen unit :=
  draw! r := ref in
  draw! a := amount 10000 60000 in
  ledgerLeg r a "GBP" "MASTERCARD" d14 ∅ ;;%
  railLeg r a "GBP" "MASTERCARD" (NewDate 2026 9 20) {["settlement_file" := "MASTERCARD-STL-20260920-01"]}.

Definition unsettled (ccy cp : string) : Gen unit :=
  draw! r := ref in
  draw! a := amount 5000 40000 in
  ledgerLeg r a ccy cp d15 {["note" := "authorised, never presented"]}.

Definition sections : Gen unit :=
  clean_pairs ;;% rounded_pairs ;;% batches ;;% amount_date_pairs ;;% fee_pair ;;% fx_pair ;;% timing_pair ;;%
  unsettled "USD" "VISA" ;;% unsettled "GBP" "MASTERCARD".

(** ** The file *)

(** [dup]: the first rail leg, in a second file. *)
Definition resent (l : Leg) : Leg :=
  mkLeg (ID l) (Source l) (TxnRef l) (AmountMinor l) (Currency l) (ValueDate l) (Dir l) (Counterparty l)
    {["arn" := attr l "arn"; "settlement_file" := Counterparty l +:+ "-STL-20260917-01"; "resend" := "true"]}
    (IngestedAt l) (Status l) (MatchID l) (BreakID l).

Definition ref_le (a b : Leg) : Prop := String.le (TxnRef a) (TxnRef b).
#[export] Instance ref_le_dec : RelDecision ref_le.
Proof. intros a b. unfold ref_le. apply _. Defined.

(** The legs in the order of the file: the ledger's by reference, the rail's as
    they were drawn, the duplicate. There always is a first rail leg. *)
Definition ordered (s : GenState) : list Leg :=
  stable_sort ref_le (gs_ledger s) ++ gs_rail s ++ [resent (default zero_leg (head (gs_rail s)))].

(** [Validate], and the identifier and the time cleared; the first error ends it. *)
Fixpoint check_legs (ls : list Leg) : result (list Leg) :=
  match ls with
  | [] => Ok []
  | l :: ls =>
      match Validate l with
      | (l', Ok _) => res_bind (check_legs ls) (fun ls' => Ok (set_ID "" (set_IngestedAt 0 l') :: ls'))
      | (_, Err e) => Err e
      end
  end.

Fixpoint marshal_legs (ls : list Leg) : result (list json) :=
  match ls with
  | [] => Ok []
  | l :: ls => res_bind (marshal_leg l) (fun j => res_bind (marshal_legs ls) (fun js => Ok (j :: js)))
  end.

Definition description (legs ledger rail : Z) : string :=
  FormatInt legs +:+ " legs: " +:+ FormatInt ledger +:+ " ledger postings vs " +:+ FormatInt rail +:+
  " card-network settlement records (Visa/USD, Mastercard/GBP) for value dates 2026-09-14..16. Expected: 191 legs auto-matched (T1/T2/T3), 9 legs in breaks (fee, fx_drift, timing, duplicate, 2x missing_counterparty).".

Definition document (s : GenState) : result json :=
  res_bind (check_legs (ordered s)) (fun legs =>
  res_bind (marshal_legs legs) (fun js =>
  Ok (JObj [("description", jstr (description (Z.of_nat (length legs)) (Z.of_nat (length (gs_ledger s)))
                                    (Z.of_nat (length (gs_rail s)) + 1)));
            ("legs", JArr js)]))).

(** [main]: the exit status, and the document that was to be written. Writing a
    file is the operating system's. *)
Variable WriteFile : string -> json -> option error.

Definition main (path : string) : Gen (Z * option json) :=
  sections ;;%
  (fun _ s =>
     Some (match document s with
           | Err _ => (1, None)
           | Ok b => (match WriteFile path b with Some _ => 1 | None => 0 end, Some b)
           end, s)).
End Generator.
