(* ===== verification/GenFacts.v ===== *)
(** * What the generator draws

    Total correctness of examples/gen/main.go: over a source of random bits in
    which every number keeps coming up, each section ends, with legs that fit its
    description. *)

From S2P Require Export Gen.

Local Open Scope gen_scope.

(** ** Strings *)

Lemma prefix_split p s : String.prefix p s = true ->
  s = p +:+ String.substring (String.length p) (String.length s - String.length p)%nat s.
Proof.
  revert s. induction p as [|c p IH]; intros s Hp.
  - by rewrite Nat.sub_0_r, substring_all.
  - destruct s as [|d s]; [done|]. cbn in Hp. destruct (Ascii.ascii_dec c d) as [->|]; [|done].
    change (String d s = String d (p +:+ String.substring (String.length p) (String.length s - String.length p) s)).
    f_equal. by apply IH.
Qed.

Lemma strip_one_split seqs s t : strip_one seqs s = Some t -> exists p, p ∈ seqs /\ s = p +:+ t.
Proof.
  induction seqs as [|p seqs IH]; cbn; [done|]. destruct (String.prefix p s) eqn:E.
  - intros [= <-]. exists p. split; [left|by apply prefix_split].
  - intros (q & Hq & ->)%IH. exists q. split; [by right|done].
Qed.

(** A character that no sequence contains is never trimmed. *)
Lemma trim_left_keeps seqs c s : (forall p, p ∈ seqs -> c ∉ chars p) -> c ∈ chars s -> c ∈ chars (trim_left seqs s).
Proof.
  intros Hseqs. unfold trim_left. generalize (String.length s). intros n. revert s.
  induction n as [|n IH]; intros s Hc; cbn [trim_left_go]; [done|].
  destruct (strip_one seqs s) as [t|] eqn:E; [|done]. apply IH.
  apply strip_one_split in E as (p & Hp & ->). rewrite chars_app, elem_of_app in Hc.
  destruct Hc as [Hc|Hc]; [|done]. by destruct (Hseqs p Hp).
Qed.

(** What contains a capital letter is not blank. *)
Lemma TrimSpace_upper c s : is_upper c -> c ∈ chars s -> TrimSpace s <> "".
Proof.
  intros Hc Hin. assert (forall p, p ∈ space_seqs -> c ∉ chars p) as Hsp.
  { assert (Forall (fun p => Forall (fun d => ~ is_upper d) (chars p)) space_seqs) as Hall.
    { apply (bool_decide_unpack _). vm_compute. exact I. }
    intros p Hp Hcp. eapply Forall_forall in Hall; [|exact Hp]. eapply Forall_forall in Hall; [|exact Hcp]. done. }
  assert (c ∈ chars (TrimSpace s)) as Hk; [|intros E; rewrite E in Hk; by apply not_elem_of_nil in Hk].
  unfold TrimSpace, trim_right. rewrite chars_rev, elem_of_reverse. apply trim_left_keeps.
  - intros p (q & -> & Hq)%list_elem_of_fmap. rewrite chars_rev, elem_of_reverse. by apply Hsp.
  - rewrite chars_rev, elem_of_reverse. by apply trim_left_keeps.
Qed.

(** ** Computations that end *)

(** From some fuel on, the same result in the same state. *)
Definition ends {A} (m : Gen A) (s : GenState) (Q : A -> GenState -> Prop) : Prop :=
  exists f0 a s', (forall f, (f0 <= f)%nat -> m f s = Some (a, s')) /\ Q a s'.

Lemma ends_ret {A} (a : A) s (Q : A -> GenState -> Prop) : Q a s -> ends (gret a) s Q.
Proof. intros HQ. by exists 0%nat, a, s. Qed.

Lemma ends_mono {A} (m : Gen A) s (Q Q' : A -> GenState -> Prop) : ends m s Q ->
  (forall a s', Q a s' -> Q' a s') -> ends m s Q'.
Proof. intros (f0 & a & s' & Hm & HQ) H. exists f0, a, s'. auto. Qed.

Lemma ends_bind {A B} (m : Gen A) (k : A -> Gen B) s Q : ends m s (fun a s' => ends (k a) s' Q) -> ends (gbind m k) s Q.
Proof.
  intros (f1 & a & s1 & Hm & (f2 & b & s2 & Hk & HQ)). exists (f1 + f2)%nat, b, s2. split; [|done].
  intros f Hf. unfold gbind. rewrite Hm by lia. apply Hk. lia.
Qed.

Lemma ends_modify f s (Q : unit -> GenState -> Prop) : Q tt (f s) -> ends (gmodify f) s Q.
Proof. intros HQ. by exists 0%nat, tt, (f s). Qed.

(** ** The draws *)

(** Random bits: every 63-bit number comes up again and again. *)
Record fair_source (src : nat -> Z) : Prop := {
  fs_range n : 0 <= src n < 2 ^ 63;
  fs_recurs p x : 0 <= x < 2 ^ 63 -> exists q, (p <= q)%nat /\ src q = x
}.

Section Draws.
Variable src : nat -> Z.
Context (Hsrc : fair_source src).

Abbreviation at_pos p s := (mkGenState p (usedAmounts s) (gs_seq s) (gs_ledger s) (gs_rail s)).

(** The loop stops at the latest at the first good number. *)
Lemma draw_loop_ends max q s : (gs_pos s <= q)%nat -> src q <= max ->
  exists p, (gs_pos s <= p <= q)%nat /\ src p <= max /\
    forall rounds fuel, (q - gs_pos s < rounds)%nat ->
      draw_loop rounds max (Int63 src) fuel s = Some (src p, at_pos (Datatypes.S p) s).
Proof.
  remember (q - gs_pos s)%nat as d eqn:Hd. revert s Hd. induction d as [|d IH]; intros s Hd Hle Hq.
  - assert (gs_pos s = q) as Ep by lia. exists q. split; [lia|]. split; [done|]. intros [|rounds] fuel Hr; [lia|].
    cbn. unfold gbind, Int63. cbn. rewrite Ep. by replace (max <? src q) with false by lia.
  - destruct (max <? src (gs_pos s)) eqn:E.
    + destruct (IH (at_pos (Datatypes.S (gs_pos s)) s)) as (p & Hp & Hmax & Hrun); cbn [gs_pos] in *; [lia|lia|done|].
      exists p. split; [lia|]. split; [done|]. intros [|rounds] fuel Hr; [lia|]. cbn. unfold gbind, Int63. cbn.
      rewrite E. apply (Hrun rounds fuel). lia.
    + exists (gs_pos s). split; [lia|]. split; [lia|]. intros [|rounds] fuel Hr; [lia|].
      cbn. unfold gbind, Int63. cbn. by rewrite E.
Qed.

(** A draw below [n], for an [n] that is no power of two: it comes no later than
    the place [q] of a given result [x], and is [x] if it comes there. *)
Lemma Int63n_ends n q s : 0 < n < 2 ^ 62 -> Z.land n (n - 1) <> 0 -> (gs_pos s <= q)%nat -> 0 <= src q < n ->
  exists p, (gs_pos s <= p <= q)%nat /\ 0 <= Z.rem (src p) n < n /\ (p = q -> Z.rem (src p) n = src q) /\
    forall fuel, (q - gs_pos s < fuel)%nat -> Int63n src n fuel s = Some (Z.rem (src p) n, at_pos (Datatypes.S p) s).
Proof.
  intros Hn Hp2 Hle Hq. set (max := 2 ^ 63 - 1 - 2 ^ 63 mod n).
  assert (src q <= max) as Hmax by (subst max; pose proof (Z.mod_pos_bound (2 ^ 63) n); lia).
  destruct (draw_loop_ends max q s Hle Hmax) as (p & Hp & _ & Hrun). exists p.
  pose proof (fs_range _ Hsrc p) as Hr. rewrite Z.rem_mod_nonneg by lia.
  split; [done|]. split; [by apply Z.mod_pos_bound; lia|]. split; [intros ->; by apply Z.mod_small|].
  intros fuel Hf. unfold Int63n, draw_upto. replace (Z.land n (n - 1) =? 0) with false by lia.
  unfold gbind. rewrite Hrun by done. unfold gret. by rewrite Z.rem_mod_nonneg by lia.
Qed.

Lemma Int63n_any n s : 0 < n < 2 ^ 62 -> Z.land n (n - 1) <> 0 ->
  ends (Int63n src n) s (fun v s' => 0 <= v < n /\ exists p, s' = at_pos p s).
Proof.
  intros Hn Hp2. destruct (fs_recurs _ Hsrc (gs_pos s) 0) as (q & Hle & Hq); [lia|].
  destruct (Int63n_ends n q s Hn Hp2 Hle) as (p & _ & Hv & _ & Hrun); [lia|].
  eexists (Datatypes.S (q - gs_pos s)), _, _. split; [intros f Hf; apply Hrun; lia|]. split; [done|by eexists].
Qed.

(** Below a power of two one number of the source is enough. *)
Lemma Intn_ends n s : n = 2 \/ n = 8 -> ends (Intn src n) s (fun v s' => 0 <= v < n /\ exists p, s' = at_pos p s).
Proof.
  intros Hn. unfold Intn, Int31n. assert (Z.land n (n - 1) =? 0 = true /\ n <=? 2 ^ 31 - 1 = true) as [-> ->]
    by (by destruct Hn as [->| ->]).
  eexists 0%nat, _, _. split; [by intros f _|]. split; [|by eexists].
  assert (n - 1 = Z.ones (Z.log2 n)) as -> by (by destruct Hn as [->| ->]).
  rewrite Z.land_ones by (by destruct Hn as [->| ->]).
  assert (2 ^ Z.log2 n = n) as -> by (by destruct Hn as [->| ->]). apply Z.mod_pos_bound. lia.
Qed.

(** ** Amounts *)

(** An interval that is not used up. *)
Lemma fresh_amount (used : gset Z) lo hi : 0 <= hi - lo -> Z.of_nat (size used) < hi - lo ->
  exists a, lo <= a < hi /\ a ∉ used.
Proof.
  intros Hle Hsz. destruct (decide (Exists (fun a => a ∉ used) (seqZ lo (hi - lo)))) as [He|Hn].
  - apply Exists_exists in He as (a & Ha%elem_of_seqZ & Hu). exists a. split; [lia|done].
  - exfalso. assert (list_to_set (C := gset Z) (seqZ lo (hi - lo)) ⊆ used) as Hsub.
    { intros a Ha%elem_of_list_to_set. destruct (decide (a ∈ used)); [done|].
      exfalso. apply Hn, Exists_exists. by exists a. }
    apply subseteq_size in Hsub. rewrite size_list_to_set in Hsub by apply NoDup_seqZ.
    rewrite length_seqZ in Hsub. lia.
Qed.

Lemma amount_loop_ends lo hi q s : 0 <= lo -> lo < hi -> hi < 2 ^ 62 -> Z.land (hi - lo) (hi - lo - 1) <> 0 ->
  (gs_pos s <= q)%nat -> 0 <= src q < hi - lo -> lo + src q ∉ usedAmounts s ->
  exists a p, lo <= a < hi /\ a ∉ usedAmounts s /\
    forall rounds fuel, (q - gs_pos s < rounds)%nat -> (q - gs_pos s < fuel)%nat ->
      amount_loop src rounds lo hi fuel s =
      Some (a, mkGenState p ({[a]} ∪ usedAmounts s) (gs_seq s) (gs_ledger s) (gs_rail s)).
Proof.
  intros Hlo Hhi Hmax Hp2 Hle Hq Hfresh. assert (sub64 hi lo = hi - lo) as Hsub by (apply sub64_id; unfold in64; lia).
  remember (q - gs_pos s)%nat as d eqn:Hd. revert s Hd Hle Hfresh. induction d as [d IH] using lt_wf_ind.
  intros s Hd Hle Hfresh. destruct (Int63n_ends (hi - lo) q s) as (p & Hp & Hv & Hlast & Hrun); [lia|done..|].
  set (v := Z.rem (src p) (hi - lo)) in *.
  assert (add64 lo v = lo + v) as Hadd by (apply add64_id; unfold in64; lia).
  destruct (decide (lo + v ∈ usedAmounts s)) as [Hin|Hnin].
  - assert (p <> q) as Hpq by (intros E; rewrite (Hlast E) in Hin; done).
    destruct (IH (q - Datatypes.S p)%nat ltac:(lia) (at_pos (Datatypes.S p) s)) as (a & p' & Ha & Hna & Hgo);
      cbn [gs_pos usedAmounts] in *; [lia|lia|done|].
    exists a, p'. split; [done|]. split; [done|]. intros [|rounds] fuel Hr Hf; [lia|]. cbn [amount_loop].
    unfold gbind. rewrite Hsub, Hrun by lia. fold v. rewrite Hadd, decide_True by done.
    rewrite Hgo by lia. done.
  - exists (lo + v), (Datatypes.S p). split; [lia|]. split; [done|]. intros [|rounds] fuel Hr Hf; [lia|].
    cbn [amount_loop]. unfold gbind. rewrite Hsub, Hrun by lia. fold v. rewrite Hadd, decide_False by done. done.
Qed.

(** [amount] ends with an amount of its range that was not used before. *)
Lemma amount_ends lo hi s (Q : Z -> GenState -> Prop) :
  0 <= lo -> lo < hi -> hi < 2 ^ 62 -> Z.land (hi - lo) (hi - lo - 1) <> 0 ->
  Z.of_nat (size (usedAmounts s)) < hi - lo ->
  (forall a p, lo <= a < hi -> a ∉ usedAmounts s ->
     Q a (mkGenState p ({[a]} ∪ usedAmounts s) (gs_seq s) (gs_ledger s) (gs_rail s))) ->
  ends (amount src lo hi) s Q.
Proof.
  intros Hlo Hhi Hmax Hp2 Hsz HQ. destruct (fresh_amount (usedAmounts s) lo hi) as (x & Hx & Hfresh); [lia|done|].
  destruct (fs_recurs _ Hsrc (gs_pos s) (x - lo)) as (q & Hle & Hq); [lia|].
  destruct (amount_loop_ends lo hi q s) as (a & p & Ha & Hna & Hrun); [done..|lia| |].
  { rewrite Hq. by replace (lo + (x - lo)) with x by lia. }
  eexists (Datatypes.S (q - gs_pos s)), _, _. split; [intros f Hf; apply Hrun; lia|]. by apply HQ.
Qed.
End Draws.

(** ** What the file holds *)

(** A ledger posting of day [d] and a card-network record of day [d']. *)
Definition facing (d d' : Date) (l r : Leg) : Prop :=
  Source l = "ledger" /\ Source r = "card_network" /\ Dir l = Debit /\ Dir r = Credit /\
  Counterparty l = Counterparty r /\ ValueDate l = d /\ ValueDate r = d'.

Abbreviation in_window l r := (WithinDateWindow DefaultRules (ValueDate l) (ValueDate r)).

(** Visa settles in dollars, Mastercard in pounds. *)
Definition networked (l : Leg) : Prop :=
  (Currency l = "USD" /\ Counterparty l = "VISA") \/ (Currency l = "GBP" /\ Counterparty l = "MASTERCARD").

(** The records that belong together: ledger legs and rail legs. A clean pair
    carries the day its posting has. *)
Inductive kind : Type :=
  | Clean (posted : Date)
  | Rounded
  | Batch (n : nat)
  | AmountDate
  | FeeTaken
  | FxSettled
  | SettledLate
  | Unsettled.

Inductive group : kind -> list Leg -> list Leg -> Prop :=
  | gr_clean d l r : facing d d16 l r -> networked l -> TxnRef l = TxnRef r -> AmountMinor l = AmountMinor r ->
      Currency l = Currency r -> in_window l r = true -> group (Clean d) [l] [r]
  | gr_rounded l r : facing d15 d16 l r -> networked l -> TxnRef l = TxnRef r ->
      1 <= Z.abs (AmountMinor r - AmountMinor l) <= 2 ->
      WithinTolerance DefaultRules (AmountMinor l) (AmountMinor r) = true ->
      Currency l = Currency r -> in_window l r = true -> attr r "rounding" = "scheme" -> group Rounded [l] [r]
  | gr_batch ls r : Forall (fun l => facing d15 d16 l r /\ networked l /\ attr l AttrBatchRef = TxnRef r /\
                                     Currency l = Currency r /\ in_window l r = true) ls ->
      AmountMinor r = foldr Z.add 0 (AmountMinor <$> ls) -> attr r "record_type" = "batch_settlement" ->
      group (Batch (length ls)) ls [r]
  | gr_amount_date l r a : facing d15 d16 l r -> networked l -> TxnRef l <> TxnRef r -> TxnRef r = "ARN-" +:+ a ->
      AmountMinor l = AmountMinor r -> Currency l = Currency r -> in_window l r = true -> group AmountDate [l] [r]
  | gr_fee l r fee : facing d15 d16 l r -> networked l -> TxnRef l = TxnRef r ->
      fee = AmountMinor l * 25 / 1000 -> AmountMinor r = AmountMinor l - fee ->
      Tolerance DefaultRules (AmountMinor l) < fee -> attr r "interchange_minor" = FormatInt fee ->
      Currency l = Currency r -> in_window l r = true -> group FeeTaken [l] [r]
  | gr_fx l r : facing d15 d16 l r -> networked l -> TxnRef l = TxnRef r -> Currency r = "EUR" ->
      AmountMinor r = int64_of (fmul (of_int (AmountMinor l)) (fconst (9183 # 10000))) ->
      attr r "fx_rate" = "0.9183" -> attr r "settlement_currency" = Currency r -> group FxSettled [l] [r]
  | gr_late l r : facing d14 (NewDate 2026 9 20) l r -> networked l -> TxnRef l = TxnRef r ->
      AmountMinor l = AmountMinor r -> Currency l = Currency r -> in_window l r = false -> group SettledLate [l] [r]
  | gr_unsettled l : Source l = "ledger" -> Dir l = Debit -> ValueDate l = d15 -> networked l -> group Unsettled [l] [].

Inductive made : list kind -> list Leg -> list Leg -> Prop :=
  | made_nil : made [] [] []
  | made_cons k L R ks L' R' : group k L R -> made ks L' R' -> made (k :: ks) (L ++ L') (R ++ R').

Lemma made_app ks1 L1 R1 ks2 L2 R2 : made ks1 L1 R1 -> made ks2 L2 R2 -> made (ks1 ++ ks2) (L1 ++ L2) (R1 ++ R2).
Proof. induction 1; intros H2; cbn; [done|]. rewrite <- !app_assoc. constructor; auto. Qed.

Lemma made_one k L R : group k L R -> made [k] L R.
Proof. intros Hg. rewrite <- (app_nil_r L), <- (app_nil_r R). by repeat constructor. Qed.

(** How many ledger legs a group has. *)
Definition postings (k : kind) : nat := match k with Batch n => n | _ => 1%nat end.

Lemma made_postings ks L R : made ks L R -> length L = sum_list_with postings ks.
Proof. induction 1 as [|k L R ks L' R' Hg _ IH]; [done|]. cbn. rewrite length_app, IH. by destruct Hg. Qed.

(** ** The state between sections *)

Definition ref_text (n : Z) : string := "TXN-" +:+ zero_padded 6 (240000 + n).

(** Fields that the file leaves out. *)
Definition unmarked (l : Leg) : Prop :=
  ID l = "" /\ IngestedAt l = 0 /\ Status l = "" /\ MatchID l = "" /\ BreakID l = "".

Record good (s : GenState) : Prop := {
  gd_seq : gs_seq s = Z.of_nat (length (gs_ledger s));
  gd_size : size (usedAmounts s) = length (gs_ledger s);
  gd_used l : l ∈ gs_ledger s -> AmountMinor l ∈ usedAmounts s;
  gd_amounts : NoDup (AmountMinor <$> gs_ledger s);
  gd_refs : TxnRef <$> gs_ledger s = (fun k => ref_text (Z.of_nat k)) <$> seq 1 (length (gs_ledger s));
  gd_wf : Forall wf_leg (gs_ledger s ++ gs_rail s);
  gd_unmarked : Forall unmarked (gs_ledger s ++ gs_rail s)
}.

Lemma good_start : good no_legs.
Proof. constructor; cbn; try done; [set_solver|constructor]. Qed.

(** One ledger leg under the next reference, with an amount of its own. *)
Lemma good_posted p p' u n L R l R' : good (mkGenState p u n L R) -> AmountMinor l ∉ u ->
  TxnRef l = ref_text (n + 1) -> wf_leg l -> unmarked l -> Forall wf_leg R' -> Forall unmarked R' ->
  good (mkGenState p' ({[AmountMinor l]} ∪ u) (n + 1) (L ++ [l]) (R ++ R')).
Proof.
  intros [Hseq Hsize Hused Hnd Hrefs Hwf Hun] Ha Hr Hwl Hul HwR HuR.
  cbn [gs_seq usedAmounts gs_ledger gs_rail] in *. constructor; cbn [gs_seq usedAmounts gs_ledger gs_rail].
  - rewrite length_app. cbn. lia.
  - rewrite size_union, size_singleton, length_app by set_solver. cbn. lia.
  - intros x [Hx| ->%list_elem_of_singleton]%elem_of_app; [apply Hused in Hx|]; set_solver.
  - rewrite fmap_app. apply NoDup_snoc; [done|]. intros (x & Heq & Hx)%list_elem_of_fmap.
    apply Ha. rewrite Heq. by apply Hused.
  - rewrite fmap_app, length_app, Hrefs, seq_app, fmap_app. cbn. f_equal. rewrite Hr. do 3 f_equal. lia.
  - rewrite !Forall_app in *. naive_solver.
  - rewrite !Forall_app in *. naive_solver.
Qed.

(** ** Sections *)

Section Sections.
Variable src : nat -> Z.
Context (Hsrc : fair_source src).

(** A section adds groups of these kinds, and leaves a good state. *)
Definition adds (ks : list kind) (m : Gen unit) : Prop := forall s, good s ->
  (length (gs_ledger s) + sum_list_with postings ks <= 105)%nat ->
  ends m s (fun _ s' => good s' /\ exists L R, gs_ledger s' = gs_ledger s ++ L /\ gs_rail s' = gs_rail s ++ R /\ made ks L R).

Lemma adds_nil : adds [] (gret tt).
Proof.
  intros s Hs _. apply ends_ret. split; [done|]. exists [], []. rewrite !app_nil_r. repeat split. constructor.
Qed.

Lemma adds_seq ks1 ks2 m1 m2 : adds ks1 m1 -> adds ks2 m2 -> adds (ks1 ++ ks2) (m1 ;;% m2).
Proof.
  intros H1 H2 s Hs Hlen. rewrite sum_list_with_app in Hlen. apply ends_bind.
  eapply ends_mono; [apply H1; [done|lia]|]. intros _ s1 (Hs1 & L1 & R1 & HL1 & HR1 & Hm1).
  pose proof (made_postings _ _ _ Hm1). eapply ends_mono; [apply H2; [done|]|].
  { rewrite HL1, length_app. lia. }
  intros _ s2 (Hs2 & L2 & R2 & HL2 & HR2 & Hm2). split; [done|]. exists (L1 ++ L2), (R1 ++ R2).
  rewrite HL2, HR2, HL1, HR1, <- !app_assoc. repeat split. by apply made_app.
Qed.

Lemma adds_for n body (k : Z -> kind) : (forall i, 0 <= i < Z.of_nat n -> adds [k i] (body i)) ->
  adds ((fun i => k (Z.of_nat i)) <$> seq 0 n) (for_upto n body).
Proof.
  intros Hb. unfold for_upto. assert (Forall (fun i => (i < n)%nat) (seq 0 n)) as Hall.
  { apply Forall_forall. intros i Hi%elem_of_seq. lia. }
  induction Hall as [|i js Hi _ IH]; [apply adds_nil|].
  exact (adds_seq [_] _ _ _ (Hb (Z.of_nat i) ltac:(lia)) IH).
Qed.

(** ** The steps of a section *)

Lemma ref_ends s (Q : string -> GenState -> Prop) : 0 <= gs_seq s <= 2 ^ 32 ->
  Q (ref_text (gs_seq s + 1)) (mkGenState (gs_pos s) (usedAmounts s) (gs_seq s + 1) (gs_ledger s) (gs_rail s)) ->
  ends ref s Q.
Proof.
  intros Hs HQ. eexists 0%nat, _, _. split; [by intros f _|]. unfold ref_text in HQ.
  rewrite (add64_id (gs_seq s)), add64_id by (unfold in64; lia). done.
Qed.

Definition is_arn (a : string) : Prop := exists v, 0 <= v < 10 ^ 15 /\ a = "7451" +:+ zero_padded 19 v.

Lemma arn_ends s (Q : string -> GenState -> Prop) :
  (forall a p, is_arn a -> Q a (mkGenState p (usedAmounts s) (gs_seq s) (gs_ledger s) (gs_rail s))) ->
  ends (arn src) s Q.
Proof.
  intros HQ. apply ends_bind. eapply ends_mono; [apply (Int63n_any src Hsrc); [lia|by vm_compute]|].
  intros v s' (Hv & p & ->). apply ends_ret, HQ. by exists v.
Qed.

(** The legs that are posted. *)
Definition ledger_leg (m txn : string) (amt : Z) (ccy cp : string) (d : Date) (extra : gmap string string) : Leg :=
  mkLeg "" "ledger" txn amt ccy d Debit cp
    (with_extra extra {["account" := "1200-SETTLEMENT-" +:+ cp; "merchant_id" := m; "channel" := "card_present"]})
    0 "" "" "".
Definition rail_leg (a txn : string) (amt : Z) (ccy cp : string) (d : Date) (extra : gmap string string) : Leg :=
  mkLeg "" "card_network" txn amt ccy d Credit cp
    (with_extra extra {["arn" := a; "settlement_file" := cp +:+ "-STL-20260916-01"]}) 0 "" "" "".

Lemma ledgerLeg_ends txn amt ccy cp d extra s (Q : unit -> GenState -> Prop) :
  (forall m p, m ∈ merchants ->
     Q tt (mkGenState p (usedAmounts s) (gs_seq s) (gs_ledger s ++ [ledger_leg m txn amt ccy cp d extra]) (gs_rail s))) ->
  ends (ledgerLeg src txn amt ccy cp d extra) s Q.
Proof.
  intros HQ. apply ends_bind. eapply ends_mono; [by apply (Intn_ends src); right|].
  intros i s' (Hi & p & ->). apply ends_modify, HQ. apply list_elem_of_In, nth_In. change (length merchants) with 8%nat in *. lia.
Qed.

Lemma railLeg_ends txn amt ccy cp d extra s (Q : unit -> GenState -> Prop) :
  (forall a p, is_arn a ->
     Q tt (mkGenState p (usedAmounts s) (gs_seq s) (gs_ledger s) (gs_rail s ++ [rail_leg a txn amt ccy cp d extra]))) ->
  ends (railLeg src txn amt ccy cp d extra) s Q.
Proof. intros HQ. apply ends_bind, arn_ends. intros a p Ha. by apply ends_modify, HQ. Qed.

(** Well-formed legs of the sample. *)
Definition known_network (ccy cp : string) : Prop := ccy ∈ ["USD"; "GBP"; "EUR"] /\ cp ∈ ["VISA"; "MASTERCARD"].

Lemma sample_leg_wf source txn amt ccy d dir cp attrs : source ∈ ["ledger"; "card_network"] ->
  (exists c, is_upper c /\ c ∈ chars txn) -> 0 < amt -> known_network ccy cp -> d <> 0 -> dir = Debit \/ dir = Credit ->
  wf_leg (mkLeg "" source txn amt ccy d dir cp attrs 0 "" "" "").
Proof.
  intros Hs (c & Hc & Hin) Ha [Hccy Hcp] Hd Hdir. constructor; cbn; [|by eapply TrimSpace_upper|done| |done|done|].
  - repeat (apply elem_of_cons in Hs as [->|Hs]; [done|]). by apply not_elem_of_nil in Hs.
  - repeat (apply elem_of_cons in Hccy as [->|Hccy]; [apply (bool_decide_unpack _); vm_compute; exact I|]).
    by apply not_elem_of_nil in Hccy.
  - repeat (apply elem_of_cons in Hcp as [->|Hcp]; [done|]). by apply not_elem_of_nil in Hcp.
Qed.

Lemma network_known i : known_network (network i).1 (network i).2.
Proof. unfold network, known_network. case_match; split; set_solver. Qed.

(** A reference of the sample starts with a capital letter. *)
Definition lettered (s : string) : Prop := exists c, is_upper c /\ c ∈ chars s.

Lemma lettered_head c s : is_upper c -> lettered (String c s).
Proof. intros Hc. exists c. split; [done|]. left. Qed.

Lemma ref_text_lettered n : lettered (ref_text n).
Proof. apply lettered_head. vm_compute. lia. Qed.

(** The end of a section of one ledger leg and one rail leg. *)
Lemma pair_done k p p' u n L R m x t a b ccy ccy' cp d d' e e' : good (mkGenState p u n L R) -> a ∉ u ->
  0 < a -> 0 < b -> known_network ccy cp -> known_network ccy' cp -> d <> 0 -> d' <> 0 -> lettered t ->
  group k [ledger_leg m (ref_text (n + 1)) a ccy cp d e] [rail_leg x t b ccy' cp d' e'] ->
  let s' := mkGenState p' ({[a]} ∪ u) (n + 1) (L ++ [ledger_leg m (ref_text (n + 1)) a ccy cp d e])
              (R ++ [rail_leg x t b ccy' cp d' e']) in
  good s' /\ exists L' R', gs_ledger s' = L ++ L' /\ gs_rail s' = R ++ R' /\ made [k] L' R'.
Proof.
  intros Hs Hu Ha Hb Hn Hn' Hd Hd' Ht Hg. split; [|do 2 eexists; by eauto using made_one].
  apply (good_posted p p' u n L R (ledger_leg m (ref_text (n + 1)) a ccy cp d e)); [done|done|done| |done| |].
  - apply sample_leg_wf; [left|apply ref_text_lettered|done|done|done|by left].
  - apply Forall_singleton, sample_leg_wf; [right; left|done|done|done|done|by right].
  - by apply Forall_singleton.
Qed.

(** Step by step through a section, from a state of known fields. *)
Ltac draw_ref :=
  apply ends_bind, ref_ends; [cbn [gs_seq]; lia|]; cbn [gs_pos usedAmounts gs_seq gs_ledger gs_rail].
Ltac draw_amount :=
  apply ends_bind, (amount_ends src Hsrc); [lia|lia|lia|by vm_compute|cbn [usedAmounts]; lia|];
  cbn [gs_pos usedAmounts gs_seq gs_ledger gs_rail]; intros ? ? ? ?.
Ltac post_ledger :=
  apply ends_bind, ledgerLeg_ends; cbn [gs_pos usedAmounts gs_seq gs_ledger gs_rail]; intros ? ? _.
Ltac post_rail := apply railLeg_ends; cbn [gs_pos usedAmounts gs_seq gs_ledger gs_rail]; intros ? ? _.

(** A good state, field by field. *)
Lemma good_fields s : good s -> exists p u L R, s = mkGenState p u (Z.of_nat (length L)) L R /\ size u = length L.
Proof. destruct s as [p u n L R]. intros [Hn Hsz _ _ _ _ _]. cbn in *. subst. by exists p, u, L, R. Qed.

(** The day of the [i]th clean posting. *)
Definition clean_day (i : Z) : Date := if Z.rem i 2 =? 0 then d15 else d14.

Lemma network_networked i l : Currency l = (network i).1 -> Counterparty l = (network i).2 -> networked l.
Proof. unfold network, networked. case_match; cbn; auto. Qed.

Lemma adds_clean i : adds [Clean (clean_day i)] (
  let '(ccy, cp) := network i in
  draw! r := ref in
  draw! a := amount src 500 250000 in
  let d := if Z.rem i 2 =? 0 then d15 else d14 in
  ledgerLeg src r a ccy cp d ∅ ;;%
  railLeg src r a ccy cp d16 ∅).
Proof.
  pose proof (network_known i) as Hn. pose proof (network_networked i) as Hnet.
  destruct (network i) as [ccy cp]. cbn [fst snd] in Hn, Hnet.
  intros s Hs Hlen. destruct (good_fields s Hs) as (p & u & L & R & -> & Hsz). cbn in Hlen.
  draw_ref. draw_amount. post_ledger. post_rail.
  eapply pair_done; [exact Hs|done|lia|lia|done|done|by case_match|done|apply ref_text_lettered|].
  constructor; [done|by apply Hnet|done|done|done|]. cbn. case_match; vm_compute; reflexivity.
Qed.

Lemma adds_rounded i : adds [Rounded] (
  let '(ccy, cp) := network i in
  draw! r := ref in
  draw! a := amount src 20000 400000 in
  draw! k := Intn src 2 in
  let delta := add64 1 k in
  let delta := if Z.rem i 2 =? 0 then neg64 delta else delta in
  ledgerLeg src r a ccy cp d15 ∅ ;;%
  railLeg src r (add64 a delta) ccy cp d16 {["rounding" := "scheme"]}).
Proof.
  pose proof (network_known i) as Hn. pose proof (network_networked i) as Hnet.
  destruct (network i) as [ccy cp]. cbn [fst snd] in Hn, Hnet.
  intros s Hs Hlen. destruct (good_fields s Hs) as (p & u & L & R & -> & Hsz). cbn in Hlen.
  draw_ref. draw_amount. apply ends_bind. eapply ends_mono; [by apply (Intn_ends src); left|].
  intros k s' (Hk & p' & ->). cbv zeta. cbn [gs_pos usedAmounts gs_seq gs_ledger gs_rail].
  rewrite (add64_id 1 k) by (unfold in64; lia).
  set (delta := if Z.rem i 2 =? 0 then neg64 (1 + k) else 1 + k).
  assert (1 <= Z.abs delta <= 2) as Hdelta.
  { subst delta. case_match; [rewrite neg64_id by (unfold in64; lia)|]; lia. }
  rewrite (add64_id a delta) by (unfold in64; lia). post_ledger. post_rail.
  eapply pair_done; [exact Hs|done|lia|lia|done|done|done|done|apply ref_text_lettered|].
  constructor; [done|by apply Hnet|done|cbn; lia| |done|vm_compute; reflexivity|done]. cbn.
  unfold WithinTolerance. cbv zeta. rewrite sub64_id by (unfold in64; lia).
  pose proof (Tolerance_abs_le DefaultRules a) as Ht. change (ToleranceAbsMinor DefaultRules) with 2 in Ht.
  case_match; [rewrite neg64_id by (unfold in64; lia)|]; lia.
Qed.

Lemma adds_amount_date : adds [AmountDate] (
  draw! a := amount src 300000 900000 in
  draw! r := ref in
  ledgerLeg src r a "USD" "VISA" d15 {["note" := "ref not echoed by network"]} ;;%
  draw! n := arn src in
  railLeg src ("ARN-" +:+ str_take 12 n) a "USD" "VISA" d16 ∅).
Proof.
  intros s Hs Hlen. destruct (good_fields s Hs) as (p & u & L & R & -> & Hsz). cbn in Hlen.
  draw_amount. draw_ref. post_ledger. apply ends_bind, arn_ends. intros n p' _.
  cbn [gs_pos usedAmounts gs_seq gs_ledger gs_rail]. post_rail.
  eapply pair_done; [exact Hs|done|lia|lia|by split; left|by split; left|done|done| |].
  - apply lettered_head. vm_compute. lia.
  - econstructor; try done. by left.
Qed.

Lemma adds_fee : adds [FeeTaken] (fee_pair src).
Proof.
  intros s Hs Hlen. destruct (good_fields s Hs) as (p & u & L & R & -> & Hsz). cbn in Hlen.
  unfold fee_pair. draw_ref. draw_amount. cbv zeta.
  rewrite (wrap64_id (a * 25)) by (unfold in64; lia). set (fee := Z.quot (a * 25) 1000).
  assert (2500 <= fee <= 7500 /\ a < 40 * (fee + 1)) as Hfee.
  { subst fee. rewrite Z.quot_div_nonneg by lia. divlia. }
  rewrite sub64_id by (unfold in64; lia). post_ledger. post_rail.
  eapply pair_done; [exact Hs|done|lia|lia|by split; left|by split; left|done|done|apply ref_text_lettered|].
  apply (gr_fee _ _ fee); [done|by left|done| |done| |done|done|vm_compute; reflexivity]; cbn.
  { subst fee. by rewrite Z.quot_div_nonneg by lia. }
  rewrite Tolerance_exact_aux by (done || cbn; lia). cbn. divlia.
Qed.

(** The settled amount of the EUR leg is positive. *)
Lemma eur_positive a : 50000 <= a < 120000 -> 0 < int64_of (fmul (of_int a) (fconst (9183 # 10000))).
Proof.
  intros Ha. set (x := fmul (of_int a) (fconst (9183 # 10000))).
  assert (inject_Z 25000 <= x <= inject_Z 120000)%Q as [Hlo Hhi].
  { subst x. unfold fmul. rewrite of_int_exact by lia.
    assert ((1 # 2) <= fconst (9183 # 10000) <= 1)%Q as [Hc1 Hc2] by (split; apply Qle_bool_iff; vm_compute; reflexivity).
    destruct Ha as [Ha1 Ha2]. rewrite Zle_Qle in Ha1. apply Z.lt_le_incl in Ha2. rewrite Zle_Qle in Ha2.
    change (inject_Z 50000) with 50000%Q in Ha1. change (inject_Z 120000) with 120000%Q in Ha2.
    rewrite <- (rnd_exact (inject_Z 25000)), <- (rnd_exact (inject_Z 120000)) by (apply is_float_int; lia).
    change (inject_Z 25000) with 25000%Q. change (inject_Z 120000) with 120000%Q.
    split; apply rnd_mono; nra. }
  assert (25000 <= Qfloor x <= 120000) as Hfloor.
  { rewrite <- (Qfloor_Z 25000), <- (Qfloor_Z 120000). split; by apply Qfloor_resp_le. }
  rewrite int64_of_floor; [lia| |unfold in64; lia]. by apply (Qle_trans _ (inject_Z 25000)).
Qed.

Lemma adds_fx : adds [FxSettled] (fx_pair src).
Proof.
  intros s Hs Hlen. destruct (good_fields s Hs) as (p & u & L & R & -> & Hsz). cbn in Hlen.
  unfold fx_pair. draw_ref. draw_amount. cbv zeta. pose proof (eur_positive a ltac:(lia)) as Heur.
  remember (int64_of (fmul (of_int a) (fconst (9183 # 10000)))) as eur eqn:Hrate. post_ledger. post_rail.
  eapply pair_done; [exact Hs|done|lia|lia|by split; left|split; [by right; right; left|by left]|done|done|apply ref_text_lettered|].
  constructor; try done. by left.
Qed.

Lemma adds_timing : adds [SettledLate] (timing_pair src).
Proof.
  intros s Hs Hlen. destruct (good_fields s Hs) as (p & u & L & R & -> & Hsz). cbn in Hlen.
  unfold timing_pair. draw_ref. draw_amount. post_ledger. post_rail.
  assert (known_network "GBP" "MASTERCARD") as Hn by (split; right; left).
  eapply pair_done; [exact Hs|done|lia|lia|done|done|done|done|apply ref_text_lettered|].
  constructor; [done|by right|done|done|done|vm_compute; reflexivity].
Qed.

(** A ledger leg without a rail leg. *)
Lemma posting_done k p p' u n L R m a ccy cp d e : good (mkGenState p u n L R) -> a ∉ u ->
  0 < a -> known_network ccy cp -> d <> 0 -> group k [ledger_leg m (ref_text (n + 1)) a ccy cp d e] [] ->
  let s' := mkGenState p' ({[a]} ∪ u) (n + 1) (L ++ [ledger_leg m (ref_text (n + 1)) a ccy cp d e]) R in
  good s' /\ exists L' R', gs_ledger s' = L ++ L' /\ gs_rail s' = R ++ R' /\ made [k] L' R'.
Proof.
  intros Hs Hu Ha Hn Hd Hg. split.
  - rewrite <- (app_nil_r R).
    apply (good_posted p p' u n L R (ledger_leg m (ref_text (n + 1)) a ccy cp d e)); [done|done|done| |done|done|done].
    apply sample_leg_wf; [left|apply ref_text_lettered|done|done|done|by left].
  - exists [ledger_leg m (ref_text (n + 1)) a ccy cp d e], []. rewrite app_nil_r. by eauto using made_one.
Qed.

Lemma adds_unsettled ccy cp : known_network ccy cp ->
  (ccy = "USD" /\ cp = "VISA") \/ (ccy = "GBP" /\ cp = "MASTERCARD") -> adds [Unsettled] (unsettled src ccy cp).
Proof.
  intros Hn Hnet s Hs Hlen. destruct (good_fields s Hs) as (p & u & L & R & -> & Hsz). cbn in Hlen.
  unfold unsettled. draw_ref. draw_amount. apply ledgerLeg_ends. intros m p' _.
  eapply posting_done; [exact Hs|done|lia|done|done|by constructor].
Qed.

(** ** Batches *)

Abbreviation batched batch l :=
  (Source l = "ledger" /\ Dir l = Debit /\ Counterparty l = "VISA" /\ attr l AttrBatchRef = batch /\
   Currency l = "USD" /\ ValueDate l = d15).

(** The ledger legs of a batch, and the sum that comes out. *)
Lemma batch_legs_ends batch n sum s : good s -> (length (gs_ledger s) + n <= 105)%nat ->
  0 <= sum -> sum + 90000 * Z.of_nat n <= 2 ^ 40 ->
  ends (batch_legs src batch n sum) s (fun total s' => good s' /\ gs_rail s' = gs_rail s /\
    exists L, gs_ledger s' = gs_ledger s ++ L /\ length L = n /\ Forall (fun l => batched batch l) L /\
      total = sum + foldr Z.add 0 (AmountMinor <$> L) /\ sum + Z.of_nat n <= total).
Proof.
  revert sum s. induction n as [|n IH]; intros sum s Hs Hlen Hsum Hmax; cbn [batch_legs].
  { apply ends_ret. split; [done|]. split; [done|]. exists []. rewrite app_nil_r. split_and!; [done..|cbn; lia|lia]. }
  destruct (good_fields s Hs) as (p & u & L & R & -> & Hsz). cbn [gs_ledger gs_rail] in *.
  draw_amount. draw_ref. post_ledger. rewrite add64_id by (unfold in64; lia).
  match goal with |- ends _ ?s' _ => assert (good s' /\ exists L' R', gs_ledger s' = L ++ L' /\ gs_rail s' = R ++ R' /\
    made [Unsettled] L' R') as [Hs' _] end.
  { apply (posting_done Unsettled p _ u (Z.of_nat (length L)) L R); [done|done|lia|by split; left|done|].
    constructor; try done. by left. }
  eapply ends_mono; [apply IH; [exact Hs'|cbn [gs_ledger]; rewrite length_app; cbn; lia|lia|lia]|].
  cbn [gs_ledger gs_rail]. intros total s1 (Hs1 & HR & L1 & HL & Hlen1 & Hb & Htot & Hge).
  split; [done|]. split; [done|]. eexists (_ :: L1). rewrite HL, <- app_assoc. split_and!; [done|cbn; lia| | |lia].
  - by constructor.
  - rewrite Htot. cbn. lia.
Qed.

Definition batch_kind (b : Z) : kind := Batch (if b =? 3 then 4 else 3).

Lemma adds_batch b : 0 <= b < 4 -> adds [batch_kind b] (
  let n := if b =? 3 then 4%nat else 3%nat in
  let batch := "VISA-BATCH-2026091" +:+ FormatInt 5 +:+ "-" +:+ zero_padded 2 (add64 b 1) in
  draw! sum := batch_legs src batch n 0 in
  railLeg src batch sum "USD" "VISA" d16 {["record_type" := "batch_settlement"]}).
Proof.
  intros Hb s Hs Hlen. cbv zeta. set (batch := "VISA-BATCH-2026091" +:+ _).
  assert (lettered batch) as Hbatch by (apply lettered_head; vm_compute; lia). clearbody batch.
  unfold batch_kind in *. set (n := if b =? 3 then 4%nat else 3%nat) in *.
  assert ((3 <= n <= 4)%nat) as Hn by (subst n; case_match; lia). clearbody n. cbn in Hlen.
  apply ends_bind. eapply ends_mono; [apply batch_legs_ends; [done|lia|lia|lia]|].
  intros total s1 (Hs1 & HR & L & HL & Hlen1 & Hall & Htot & Hge). post_rail. cbn [gs_ledger gs_rail].
  assert (good (mkGenState p (usedAmounts s1) (gs_seq s1) (gs_ledger s1)
    (gs_rail s1 ++ [rail_leg a batch total "USD" "VISA" d16 {["record_type" := "batch_settlement"]}]))) as Hgood.
  { destruct Hs1 as [H1 H2 H3 H4 H5 H6 H7]. constructor; cbn [gs_seq usedAmounts gs_ledger gs_rail]; try done.
    - rewrite app_assoc. apply Forall_app. split; [done|]. apply Forall_singleton.
      apply sample_leg_wf; [right; left|done|lia|by split; left|done|by right].
    - rewrite app_assoc. apply Forall_app. split; [done|]. by apply Forall_singleton. }
  split; [exact Hgood|]. exists L. eexists. split; [done|]. split; [by rewrite HR|]. apply made_one.
  rewrite <- Hlen1. apply gr_batch; [|done|done]. eapply Forall_impl; [exact Hall|].
  cbn. intros l (H1 & H2 & H3 & H4 & H5 & H6). split_and!; [by split_and!|by left|done|done|].
  cbn. rewrite H6. vm_compute. reflexivity.
Qed.

(** ** The whole file *)

(** What the sections add, in order. Of the clean pairs every other one has the
    day before the settlement, and every other one the day before that. *)
Definition kinds : list kind :=
  mjoin (replicate 38 [Clean d15; Clean d14]) ++ replicate 9 Rounded ++ [Batch 3; Batch 3; Batch 3; Batch 4] ++ replicate 2 AmountDate ++
  [FeeTaken; FxSettled; SettledLate; Unsettled; Unsettled].

Lemma adds_sections : adds kinds (sections src).
Proof.
  unfold sections, kinds.
  apply adds_seq; [exact (adds_for 76 _ (fun i => Clean (clean_day i)) (fun i _ => adds_clean i))|].
  apply adds_seq; [exact (adds_for 9 _ (fun _ => Rounded) (fun i _ => adds_rounded i))|].
  apply adds_seq; [exact (adds_for 4 _ batch_kind adds_batch)|].
  apply adds_seq; [exact (adds_for 2 _ (fun _ => AmountDate) (fun i _ => adds_amount_date))|].
  change ([FeeTaken; FxSettled; SettledLate; Unsettled; Unsettled]) with
    ([FeeTaken] ++ [FxSettled] ++ [SettledLate] ++ [Unsettled] ++ [Unsettled]).
  apply adds_seq; [apply adds_fee|]. apply adds_seq; [apply adds_fx|]. apply adds_seq; [apply adds_timing|].
  apply adds_seq; apply adds_unsettled; [split; (by left) || (by right; left)|by left| |by right].
  split; by right; left.
Qed.
End Sections.

Lemma stable_sort_id {A} (R : relation A) `{!RelDecision R} l : StronglySorted R l -> stable_sort R l = l.
Proof.
  induction 1 as [|x l _ IH Hx]; [done|]. cbn. rewrite IH. destruct l as [|y l]; [done|]. cbn.
  apply Forall_inv in Hx. by rewrite decide_True.
Qed.

(** The references come in order. *)
Fixpoint ascending (l : list string) : bool :=
  match l with
  | x :: (y :: _) as l' => bool_decide (String.le x y) && ascending l'
  | _ => true
  end.

Lemma ascending_sorted ls : ascending (TxnRef <$> ls) = true -> StronglySorted ref_le ls.
Proof.
  intros Ha. apply Sorted_StronglySorted; [intros x y z; apply (transitivity (R := String.le))|].
  induction ls as [|x ls IH]; [constructor|]. destruct ls as [|y ls]; [repeat constructor|].
  cbn in Ha. apply andb_true_iff in Ha as [Hxy Ha]. apply bool_decide_eq_true in Hxy.
  constructor; [by apply IH|by constructor].
Qed.

Lemma ordered_good s : good s -> length (gs_ledger s) = 105%nat ->
  stable_sort ref_le (gs_ledger s) = gs_ledger s.
Proof.
  intros Hs Hlen. apply stable_sort_id, ascending_sorted. rewrite (gd_refs _ Hs), Hlen. vm_compute. reflexivity.
Qed.

Lemma check_legs_ok ls : Forall wf_leg ls -> Forall unmarked ls -> check_legs ls = Ok ls.
Proof.
  induction 1 as [|l ls Hl _ IH]; [done|]. intros [Hu Hus]%Forall_cons. cbn [check_legs].
  rewrite Validate_wf, IH by done. cbn [res_bind].
  destruct Hu as (H1 & H2 & _). do 2 f_equal. destruct l. cbn in *. by subst.
Qed.

Lemma marshal_legs_ok ls : Forall unmarked ls ->
  exists js, marshal_legs ls = Ok js /\ Forall2 (fun l j => marshal_leg l = Ok j) ls js.
Proof.
  induction 1 as [|l ls Hl _ (js & Hjs & Hall)]; [by exists []|].
  destruct (marshal_leg l) as [j|e] eqn:E.
  - exists (j :: js). cbn. rewrite E. cbn. rewrite Hjs. split; [done|by constructor].
  - exfalso. destruct Hl as (_ & Ht & _). unfold marshal_leg in E. by rewrite Ht in E.
Qed.

Lemma resent_wf l : wf_leg l -> unmarked l -> wf_leg (resent l) /\ unmarked (resent l).
Proof. by intros [] ?. Qed.

(** The document of a state with the legs of the whole file. *)
Lemma document_ok s r : good s -> length (gs_ledger s) = 105%nat -> head (gs_rail s) = Some r ->
  length (gs_rail s) = 94%nat ->
  let legs := gs_ledger s ++ gs_rail s ++ [resent r] in
  exists js, document s = Ok (JObj [("description", JStr (description 200 105 95)); ("legs", JArr js)]) /\
    Forall wf_leg legs /\ Forall2 (fun l j => marshal_leg l = Ok j) legs js.
Proof.
  intros Hs Hl Hr HlR legs. assert (r ∈ gs_rail s) as Hin by (by destruct (gs_rail s); [|injection Hr as ->; left]).
  pose proof (gd_wf _ Hs) as Hwf. pose proof (gd_unmarked _ Hs) as Hun. rewrite Forall_app in Hwf, Hun.
  destruct Hwf as [HwL HwR], Hun as [HuL HuR].
  destruct (resent_wf r) as [Hwr Hur]; [by eapply Forall_forall in HwR|by eapply Forall_forall in HuR|].
  assert (Forall wf_leg legs /\ Forall unmarked legs) as [Hwf Hun].
  { split; apply Forall_app; (split; [done|]); apply Forall_app; (split; [done|]); by apply Forall_singleton. }
  destruct (marshal_legs_ok legs Hun) as (js & Hjs & Hall). exists js. split; [|done].
  assert (ordered s = legs) as Ho by (unfold ordered; by rewrite ordered_good, Hr).
  unfold document. rewrite Ho, check_legs_ok by done. cbn [res_bind]. rewrite Hjs. cbn [res_bind].
  assert (length legs = 200%nat) as -> by (subst legs; rewrite !length_app, Hl, HlR; done).
  by rewrite Hl, HlR.
Qed.

(** Rail legs are as many as groups that are settled. *)
Definition settlements (k : kind) : nat := match k with Unsettled => 0%nat | _ => 1%nat end.

Lemma made_settlements ks L R : made ks L R -> length R = sum_list_with settlements ks.
Proof. induction 1 as [|k L R ks L' R' Hg _ IH]; [done|]. cbn. rewrite length_app, IH. by destruct Hg. Qed.

(** [main] over a fair source, from some fuel on. *)
Lemma main_ends src WriteFile path : fair_source src -> exists f0 s L R r js,
  let doc := JObj [("description", JStr (description 200 105 95)); ("legs", JArr js)] in
  (forall fuel, (f0 <= fuel)%nat ->
     main src WriteFile path fuel no_legs =
     Some ((match WriteFile path doc with Some _ => 1 | None => 0 end, Some doc), s)) /\
  head R = Some r /\ made kinds L R /\
  Forall2 (fun l j => marshal_leg l = Ok j) (L ++ R ++ [resent r]) js /\
  Forall wf_leg (L ++ R ++ [resent r]) /\ NoDup (AmountMinor <$> L) /\
  TxnRef <$> L = (fun k => ref_text (Z.of_nat k)) <$> seq 1 105.
Proof.
  intros Hsrc. destruct (adds_sections src Hsrc no_legs good_start) as (f0 & [] & s & Hrun & Hs & L & R & HL & HR & Hm);
    [by vm_compute; lia|].
  cbn in HL, HR. pose proof (made_postings _ _ _ Hm) as HlL. pose proof (made_settlements _ _ _ Hm) as HlR.
  change (sum_list_with postings kinds) with 105%nat in HlL. change (sum_list_with settlements kinds) with 94%nat in HlR.
  destruct R as [|r R']; [done|]. subst L.
  destruct (document_ok s r Hs) as (js & Hdoc & Hwf & Hall); [done|by rewrite HR|by rewrite HR|].
  rewrite HR in Hwf, Hall. exists f0, s, (gs_ledger s), (r :: R'), r, js. cbv zeta. split_and!; try done.
  - intros fuel Hf. unfold main, gbind. rewrite Hrun by done. by rewrite Hdoc.
  - apply Hs.
  - rewrite (gd_refs _ Hs), HlL. done.
Qed.
