(* ===== verification/Sample.v ===== *)
(** * The sample file

    examples/legs.json, leg by leg, and some draws of math/rand from which the
    generator writes exactly this file. (Its real draws come from the seed, by an
    algorithm of the standard library; draws that the generator rejected leave no
    trace in the file.) *)

From S2P Require Export Gen.

Local Open Scope gen_scope.

(** ** examples/legs.json *)

(** A leg of the file, as its JSON object. *)
Definition row (source txn_ref : string) (amount_minor : Z) (currency value_date direction counterparty : string)
    (attrs : list (string * string)) : json :=
  JObj [("source", JStr source); ("txn_ref", JStr txn_ref); ("amount_minor", JInt amount_minor);
        ("currency", JStr currency); ("value_date", JStr value_date); ("direction", JStr direction);
        ("counterparty", JStr counterparty); ("attrs", JObj ((fun '(k, v) => (k, JStr v)) <$> attrs))].

Definition sample_legs : list json :=
  [row "ledger" "TXN-240001" 38002 "GBP" "2026-09-15" "debit" "MASTERCARD"
     [("account", "1200-SETTLEMENT-MASTERCARD"); ("channel", "card_present"); ("merchant_id", "M-3391")];
   row "ledger" "TXN-240002" 24463 "USD" "2026-09-14" "debit" "VISA"
     [("account", "1200-SETTLEMENT-VISA"); ("channel", "card_present"); ("merchant_id", "M-6688")];
   row "ledger" "TXN-240003" 49231 "USD" "2026-09-15" "debit" "VISA"
     [("account", "1200-SETTLEMENT-VISA"); ("channel", "card_present"); ("merchant_id", "M-4457")];
   row "ledger" "TXN-240004" 208851 "GBP" "2026-09-14" "debit" "MASTERCARD"
     [("account", "1200-SETTLEMENT-MASTERCARD"); ("channel", "card_present"); ("merchant_id", "M-2210")];
   row "ledger" "TXN-240005" 234256 "USD" "2026-09-15" "debit" "VISA"
     [("account", "1200-SETTLEMENT-VISA"); ("channel", "card_present"); ("merchant_id", "M-4457")];
   row "ledger" "TXN-240006" 6802 "USD" "2026-09-14" "debit" "VISA"
     [("account", "1200-SETTLEMENT-VISA"); ("channel", "card_present"); ("merchant_id", "M-6688")];
   row "ledger" "TXN-240007" 249711 "GBP" "2026-09-15" "debit" "MASTERCARD"
     [("account", "1200-SETTLEMENT-MASTERCARD"); ("channel", "card_present"); ("merchant_id", "M-5120")];
   row "ledger" "TXN-240008" 193852 "USD" "2026-09-14" "debit" "VISA"
     [("account", "1200-SETTLEMENT-VISA"); ("channel", "card_present"); ("merchant_id", "M-6688")];
   row "ledger" "TXN-240009" 129749 "USD" "2026-09-15" "debit" "VISA"
     [("account", "1200-SETTLEMENT-VISA"); ("channel", "card_present"); ("merchant_id", "M-2210")];
   row "ledger" "TXN-240010" 82033 "GBP" "2026-09-14" "debit" "MASTERCARD"
     [("account", "1200-SETTLEMENT-MASTERCARD"); ("channel", "card_present"); ("merchant_id", "M-3391")];
   row "ledger" "TXN-240011" 189557 "USD" "2026-09-15" "debit" "VISA"
     [("account", "1200-SETTLEMENT-VISA"); ("channel", "card_present"); ("merchant_id", "M-8891")];
   row "ledger" "TXN-240012" 126954 "USD" "2026-09-14" "debit" "VISA"
     [("account", "1200-SETTLEMENT-VISA"); ("channel", "card_present"); ("merchant_id", "M-7014")];
   row "ledger" "TXN-240013" 181379 "GBP" "2026-09-15" "debit" "MASTERCARD"
     [("account", "1200-SETTLEMENT-MASTERCARD"); ("channel", "card_present"); ("merchant_id", "M-7014")];
   row "ledger" "TXN-240014" 86923 "USD" "2026-09-14" "debit" "VISA"
     [("account", "1200-SETTLEMENT-VISA"); ("channel", "card_present"); ("merchant_id", "M-2210")];
   row "ledger" "TXN-240015" 244310 "USD" "2026-09-15" "debit" "VISA"
     [("account", "1200-SETTLEMENT-VISA"); ("channel", "card_present"); ("merchant_id", "M-8891")];
   row "ledger" "TXN-240016" 104575 "GBP" "2026-09-14" "debit" "MASTERCARD"
     [("account", "1200-SETTLEMENT-MASTERCARD"); ("channel", "card_present"); ("merchant_id", "M-6688")];
   row "ledger" "TXN-240017" 87174 "USD" "2026-09-15" "debit" "VISA"
     [("account", "1200-SETTLEMENT-VISA"); ("channel", "card_present"); ("merchant_id", "M-4457")];
   row "ledger" "TXN-240018" 14517 "USD" "2026-09-14" "debit" "VISA"
     [("account", "1200-SETTLEMENT-VISA"); ("channel", "card_present"); ("merchant_id", "M-8891")];
   row "ledger" "TXN-240019" 98869 "GBP" "2026-09-15" "debit" "MASTERCARD"
     [("account", "1200-SETTLEMENT-MASTERCARD"); ("channel", "card_present"); ("merchant_id", "M-4457")];
   row "ledger" "TXN-240020" 241347 "USD" "2026-09-14" "debit" "VISA"
     [("account", "1200-SETTLEMENT-VISA"); ("channel", "card_present"); ("merchant_id", "M-8891")];
   row "ledger" "TXN-240021" 114704 "USD" "2026-09-15" "debit" "VISA"
     [("account", "1200-SETTLEMENT-VISA"); ("channel", "card_present"); ("merchant_id", "M-7014")];
   row "ledger" "TXN-240022" 99752 "GBP" "2026-09-14" "debit" "MASTERCARD"
     [("account", "1200-SETTLEMENT-MASTERCARD"); ("channel", "card_present"); ("merchant_id", "M-2210")];
   row "ledger" "TXN-240023" 60016 "USD" "2026-09-15" "debit" "VISA"
     [("account", "1200-SETTLEMENT-VISA"); ("channel", "card_present"); ("merchant_id", "M-4457")];
   row "ledger" "TXN-240024" 6765 "USD" "2026-09-14" "debit" "VISA"
     [("account", "1200-SETTLEMENT-VISA"); ("channel", "card_present"); ("merchant_id", "M-6688")];
   row "ledger" "TXN-240025" 216485 "GBP" "2026-09-15" "debit" "MASTERCARD"
     [("account", "1200-SETTLEMENT-MASTERCARD"); ("channel", "card_present"); ("merchant_id", "M-3391")];
   row "ledger" "TXN-240026" 106148 "USD" "2026-09-14" "debit" "VISA"
     [("account", "1200-SETTLEMENT-VISA"); ("channel", "card_present"); ("merchant_id", "M-6688")];
   row "ledger" "TXN-240027" 229397 "USD" "2026-09-15" "debit" "VISA"
     [("account", "1200-SETTLEMENT-VISA"); ("channel", "card_present"); ("merchant_id", "M-3391")];
   row "ledger" "TXN-240028" 87748 "GBP" "2026-09-14" "debit" "MASTERCARD"
     [("account", "1200-SETTLEMENT-MASTERCARD"); ("channel", "card_present"); ("merchant_id", "M-4457")];
   row "ledger" "TXN-240029" 214887 "USD" "2026-09-15" "debit" "VISA"
     [("account", "1200-SETTLEMENT-VISA"); ("channel", "card_present"); ("merchant_id", "M-3391")];
   row "ledger" "TXN-240030" 64896 "USD" "2026-09-14" "debit" "VISA"
     [("account", "1200-SETTLEMENT-VISA"); ("channel", "card_present"); ("merchant_id", "M-4457")];
   row "ledger" "TXN-240031" 30379 "GBP" "2026-09-15" "debit" "MASTERCARD"
     [("account", "1200-SETTLEMENT-MASTERCARD"); ("channel", "card_present"); ("merchant_id", "M-4457")];
   row "ledger" "TXN-240032" 227515 "USD" "2026-09-14" "debit" "VISA"
     [("account", "1200-SETTLEMENT-VISA"); ("channel", "card_present"); ("merchant_id", "M-8891")];
   row "ledger" "TXN-240033" 222377 "USD" "2026-09-15" "debit" "VISA"
     [("account", "1200-SETTLEMENT-VISA"); ("channel", "card_present"); ("merchant_id", "M-1023")];
   row "ledger" "TXN-240034" 191871 "GBP" "2026-09-14" "debit" "MASTERCARD"
     [("account", "1200-SETTLEMENT-MASTERCARD"); ("channel", "card_present"); ("merchant_id", "M-7014")];
   row "ledger" "TXN-240035" 248409 "USD" "2026-09-15" "debit" "VISA"
     [("account", "1200-SETTLEMENT-VISA"); ("channel", "card_present"); ("merchant_id", "M-6688")];
   row "ledger" "TXN-240036" 39667 "USD" "2026-09-14" "debit" "VISA"
     [("account", "1200-SETTLEMENT-VISA"); ("channel", "card_present"); ("merchant_id", "M-3391")];
   row "ledger" "TXN-240037" 195656 "GBP" "2026-09-15" "debit" "MASTERCARD"
     [("account", "1200-SETTLEMENT-MASTERCARD"); ("channel", "card_present"); ("merchant_id", "M-1023")];
   row "ledger" "TXN-240038" 66592 "USD" "2026-09-14" "debit" "VISA"
     [("account", "1200-SETTLEMENT-VISA"); ("channel", "card_present"); ("merchant_id", "M-5120")];
   row "ledger" "TXN-240039" 51465 "USD" "2026-09-15" "debit" "VISA"
     [("account", "1200-SETTLEMENT-VISA"); ("channel", "card_present"); ("merchant_id", "M-3391")];
   row "ledger" "TXN-240040" 83154 "GBP" "2026-09-14" "debit" "MASTERCARD"
     [("account", "1200-SETTLEMENT-MASTERCARD"); ("channel", "card_present"); ("merchant_id", "M-7014")];
   row "ledger" "TXN-240041" 15239 "USD" "2026-09-15" "debit" "VISA"
     [("account", "1200-SETTLEMENT-VISA"); ("channel", "card_present"); ("merchant_id", "M-3391")];
   row "ledger" "TXN-240042" 210518 "USD" "2026-09-14" "debit" "VISA"
     [("account", "1200-SETTLEMENT-VISA"); ("channel", "card_present"); ("merchant_id", "M-3391")];
   row "ledger" "TXN-240043" 15526 "GBP" "2026-09-15" "debit" "MASTERCARD"
     [("account", "1200-SETTLEMENT-MASTERCARD"); ("channel", "card_present"); ("merchant_id", "M-4457")];
   row "ledger" "TXN-240044" 176748 "USD" "2026-09-14" "debit" "VISA"
     [("account", "1200-SETTLEMENT-VISA"); ("channel", "card_present"); ("merchant_id", "M-1023")];
   row "ledger" "TXN-240045" 20860 "USD" "2026-09-15" "debit" "VISA"
     [("account", "1200-SETTLEMENT-VISA"); ("channel", "card_present"); ("merchant_id", "M-2210")];
   row "ledger" "TXN-240046" 124906 "GBP" "2026-09-14" "debit" "MASTERCARD"
     [("account", "1200-SETTLEMENT-MASTERCARD"); ("channel", "card_present"); ("merchant_id", "M-2210")];
   row "ledger" "TXN-240047" 16107 "USD" "2026-09-15" "debit" "VISA"
     [("account", "1200-SETTLEMENT-VISA"); ("channel", "card_present"); ("merchant_id", "M-4457")];
   row "ledger" "TXN-240048" 54004 "USD" "2026-09-14" "debit" "VISA"
     [("account", "1200-SETTLEMENT-VISA"); ("channel", "card_present"); ("merchant_id", "M-2210")];
   row "ledger" "TXN-240049" 158481 "GBP" "2026-09-15" "debit" "MASTERCARD"
     [("account", "1200-SETTLEMENT-MASTERCARD"); ("channel", "card_present"); ("merchant_id", "M-1023")];
   row "ledger" "TXN-240050" 162658 "USD" "2026-09-14" "debit" "VISA"
     [("account", "1200-SETTLEMENT-VISA"); ("channel", "card_present"); ("merchant_id", "M-8891")];
   row "ledger" "TXN-240051" 212753 "USD" "2026-09-15" "debit" "VISA"
     [("account", "1200-SETTLEMENT-VISA"); ("channel", "card_present"); ("merchant_id", "M-1023")];
   row "ledger" "TXN-240052" 160739 "GBP" "2026-09-14" "debit" "MASTERCARD"
     [("account", "1200-SETTLEMENT-MASTERCARD"); ("channel", "card_present"); ("merchant_id", "M-8891")];
   row "ledger" "TXN-240053" 118343 "USD" "2026-09-15" "debit" "VISA"
     [("account", "1200-SETTLEMENT-VISA"); ("channel", "card_present"); ("merchant_id", "M-5120")];
   row "ledger" "TXN-240054" 249664 "USD" "2026-09-14" "debit" "VISA"
     [("account", "1200-SETTLEMENT-VISA"); ("channel", "card_present"); ("merchant_id", "M-4457")];
   row "ledger" "TXN-240055" 196416 "GBP" "2026-09-15" "debit" "MASTERCARD"
     [("account", "1200-SETTLEMENT-MASTERCARD"); ("channel", "card_present"); ("merchant_id", "M-8891")];
   row "ledger" "TXN-240056" 54388 "USD" "2026-09-14" "debit" "VISA"
     [("account", "1200-SETTLEMENT-VISA"); ("channel", "card_present"); ("merchant_id", "M-3391")];
   row "ledger" "TXN-240057" 206976 "USD" "2026-09-15" "debit" "VISA"
     [("account", "1200-SETTLEMENT-VISA"); ("channel", "card_present"); ("merchant_id", "M-2210")];
   row "ledger" "TXN-240058" 247557 "GBP" "2026-09-14" "debit" "MASTERCARD"
     [("account", "1200-SETTLEMENT-MASTERCARD"); ("channel", "card_present"); ("merchant_id", "M-1023")];
   row "ledger" "TXN-240059" 135626 "USD" "2026-09-15" "debit" "VISA"
     [("account", "1200-SETTLEMENT-VISA"); ("channel", "card_present"); ("merchant_id", "M-6688")];
   row "ledger" "TXN-240060" 22326 "USD" "2026-09-14" "debit" "VISA"
     [("account", "1200-SETTLEMENT-VISA"); ("channel", "card_present"); ("merchant_id", "M-4457")];
   row "ledger" "TXN-240061" 213482 "GBP" "2026-09-15" "debit" "MASTERCARD"
     [("account", "1200-SETTLEMENT-MASTERCARD"); ("channel", "card_present"); ("merchant_id", "M-5120")];
   row "ledger" "TXN-240062" 114840 "USD" "2026-09-14" "debit" "VISA"
     [("account", "1200-SETTLEMENT-VISA"); ("channel", "card_present"); ("merchant_id", "M-8891")];
   row "ledger" "TXN-240063" 169449 "USD" "2026-09-15" "debit" "VISA"
     [("account", "1200-SETTLEMENT-VISA"); ("channel", "card_present"); ("merchant_id", "M-2210")];
   row "ledger" "TXN-240064" 84968 "GBP" "2026-09-14" "debit" "MASTERCARD"
     [("account", "1200-SETTLEMENT-MASTERCARD"); ("channel", "card_present"); ("merchant_id", "M-7014")];
   row "ledger" "TXN-240065" 228339 "USD" "2026-09-15" "debit" "VISA"
     [("account", "1200-SETTLEMENT-VISA"); ("channel", "card_present"); ("merchant_id", "M-1023")];
   row "ledger" "TXN-240066" 60286 "USD" "2026-09-14" "debit" "VISA"
     [("account", "1200-SETTLEMENT-VISA"); ("channel", "card_present"); ("merchant_id", "M-7014")];
   row "ledger" "TXN-240067" 142184 "GBP" "2026-09-15" "debit" "MASTERCARD"
     [("account", "1200-SETTLEMENT-MASTERCARD"); ("channel", "card_present"); ("merchant_id", "M-2210")];
   row "ledger" "TXN-240068" 215922 "USD" "2026-09-14" "debit" "VISA"
     [("account", "1200-SETTLEMENT-VISA"); ("channel", "card_present"); ("merchant_id", "M-7014")];
   row "ledger" "TXN-240069" 11256 "USD" "2026-09-15" "debit" "VISA"
     [("account", "1200-SETTLEMENT-VISA"); ("channel", "card_present"); ("merchant_id", "M-1023")];
   row "ledger" "TXN-240070" 89203 "GBP" "2026-09-14" "debit" "MASTERCARD"
     [("account", "1200-SETTLEMENT-MASTERCARD"); ("channel", "card_present"); ("merchant_id", "M-8891")];
   row "ledger" "TXN-240071" 5751 "USD" "2026-09-15" "debit" "VISA"
     [("account", "1200-SETTLEMENT-VISA"); ("channel", "card_present"); ("merchant_id", "M-3391")];
   row "ledger" "TXN-240072" 43450 "USD" "2026-09-14" "debit" "VISA"
     [("account", "1200-SETTLEMENT-VISA"); ("channel", "card_present"); ("merchant_id", "M-8891")];
   row "ledger" "TXN-240073" 1330 "GBP" "2026-09-15" "debit" "MASTERCARD"
     [("account", "1200-SETTLEMENT-MASTERCARD"); ("channel", "card_present"); ("merchant_id", "M-6688")];
   row "ledger" "TXN-240074" 201291 "USD" "2026-09-14" "debit" "VISA"
     [("account", "1200-SETTLEMENT-VISA"); ("channel", "card_present"); ("merchant_id", "M-3391")];
   row "ledger" "TXN-240075" 68682 "USD" "2026-09-15" "debit" "VISA"
     [("account", "1200-SETTLEMENT-VISA"); ("channel", "card_present"); ("merchant_id", "M-2210")];
   row "ledger" "TXN-240076" 78803 "GBP" "2026-09-14" "debit" "MASTERCARD"
     [("account", "1200-SETTLEMENT-MASTERCARD"); ("channel", "card_present"); ("merchant_id", "M-5120")];
   row "ledger" "TXN-240077" 158784 "GBP" "2026-09-15" "debit" "MASTERCARD"
     [("account", "1200-SETTLEMENT-MASTERCARD"); ("channel", "card_present"); ("merchant_id", "M-7014")];
   row "ledger" "TXN-240078" 47591 "USD" "2026-09-15" "debit" "VISA"
     [("account", "1200-SETTLEMENT-VISA"); ("channel", "card_present"); ("merchant_id", "M-7014")];
   row "ledger" "TXN-240079" 244997 "USD" "2026-09-15" "debit" "VISA"
     [("account", "1200-SETTLEMENT-VISA"); ("channel", "card_present"); ("merchant_id", "M-1023")];
   row "ledger" "TXN-240080" 291444 "GBP" "2026-09-15" "debit" "MASTERCARD"
     [("account", "1200-SETTLEMENT-MASTERCARD"); ("channel", "card_present"); ("merchant_id", "M-5120")];
   row "ledger" "TXN-240081" 386682 "USD" "2026-09-15" "debit" "VISA"
     [("account", "1200-SETTLEMENT-VISA"); ("channel", "card_present"); ("merchant_id", "M-3391")];
   row "ledger" "TXN-240082" 136931 "USD" "2026-09-15" "debit" "VISA"
     [("account", "1200-SETTLEMENT-VISA"); ("channel", "card_present"); ("merchant_id", "M-3391")];
   row "ledger" "TXN-240083" 256953 "GBP" "2026-09-15" "debit" "MASTERCARD"
     [("account", "1200-SETTLEMENT-MASTERCARD"); ("channel", "card_present"); ("merchant_id", "M-4457")];
   row "ledger" "TXN-240084" 318054 "USD" "2026-09-15" "debit" "VISA"
     [("account", "1200-SETTLEMENT-VISA"); ("channel", "card_present"); ("merchant_id", "M-5120")];
   row "ledger" "TXN-240085" 364774 "USD" "2026-09-15" "debit" "VISA"
     [("account", "1200-SETTLEMENT-VISA"); ("channel", "card_present"); ("merchant_id", "M-8891")];
   row "ledger" "TXN-240086" 18772 "USD" "2026-09-15" "debit" "VISA"
     [("account", "1200-SETTLEMENT-VISA"); ("batch_ref", "VISA-BATCH-20260915-01"); ("channel", "card_present"); ("merchant_id", "M-6688")];
   row "ledger" "TXN-240087" 57178 "USD" "2026-09-15" "debit" "VISA"
     [("account", "1200-SETTLEMENT-VISA"); ("batch_ref", "VISA-BATCH-20260915-01"); ("channel", "card_present"); ("merchant_id", "M-7014")];
   row "ledger" "TXN-240088" 82093 "USD" "2026-09-15" "debit" "VISA"
     [("account", "1200-SETTLEMENT-VISA"); ("batch_ref", "VISA-BATCH-20260915-01"); ("channel", "card_present"); ("merchant_id", "M-6688")];
   row "ledger" "TXN-240089" 85671 "USD" "2026-09-15" "debit" "VISA"
     [("account", "1200-SETTLEMENT-VISA"); ("batch_ref", "VISA-BATCH-20260915-02"); ("channel", "card_present"); ("merchant_id", "M-4457")];
   row "ledger" "TXN-240090" 70939 "USD" "2026-09-15" "debit" "VISA"
     [("account", "1200-SETTLEMENT-VISA"); ("batch_ref", "VISA-BATCH-20260915-02"); ("channel", "card_present"); ("merchant_id", "M-8891")];
   row "ledger" "TXN-240091" 1954 "USD" "2026-09-15" "debit" "VISA"
     [("account", "1200-SETTLEMENT-VISA"); ("batch_ref", "VISA-BATCH-20260915-02"); ("channel", "card_present"); ("merchant_id", "M-7014")];
   row "ledger" "TXN-240092" 77886 "USD" "2026-09-15" "debit" "VISA"
     [("account", "1200-SETTLEMENT-VISA"); ("batch_ref", "VISA-BATCH-20260915-03"); ("channel", "card_present"); ("merchant_id", "M-7014")];
   row "ledger" "TXN-240093" 61377 "USD" "2026-09-15" "debit" "VISA"
     [("account", "1200-SETTLEMENT-VISA"); ("batch_ref", "VISA-BATCH-20260915-03"); ("channel", "card_present"); ("merchant_id", "M-1023")];
   row "ledger" "TXN-240094" 21377 "USD" "2026-09-15" "debit" "VISA"
     [("account", "1200-SETTLEMENT-VISA"); ("batch_ref", "VISA-BATCH-20260915-03"); ("channel", "card_present"); ("merchant_id", "M-2210")];
   row "ledger" "TXN-240095" 80827 "USD" "2026-09-15" "debit" "VISA"
     [("account", "1200-SETTLEMENT-VISA"); ("batch_ref", "VISA-BATCH-20260915-04"); ("channel", "card_present"); ("merchant_id", "M-8891")];
   row "ledger" "TXN-240096" 23151 "USD" "2026-09-15" "debit" "VISA"
     [("account", "1200-SETTLEMENT-VISA"); ("batch_ref", "VISA-BATCH-20260915-04"); ("channel", "card_present"); ("merchant_id", "M-3391")];
   row "ledger" "TXN-240097" 30755 "USD" "2026-09-15" "debit" "VISA"
     [("account", "1200-SETTLEMENT-VISA"); ("batch_ref", "VISA-BATCH-20260915-04"); ("channel", "card_present"); ("merchant_id", "M-1023")];
   row "ledger" "TXN-240098" 19491 "USD" "2026-09-15" "debit" "VISA"
     [("account", "1200-SETTLEMENT-VISA"); ("batch_ref", "VISA-BATCH-20260915-04"); ("channel", "card_present"); ("merchant_id", "M-8891")];
   row "ledger" "TXN-240099" 761266 "USD" "2026-09-15" "debit" "VISA"
     [("account", "1200-SETTLEMENT-VISA"); ("channel", "card_present"); ("merchant_id", "M-6688"); ("note", "ref not echoed by network")];
   row "ledger" "TXN-240100" 375316 "USD" "2026-09-15" "debit" "VISA"
     [("account", "1200-SETTLEMENT-VISA"); ("channel", "card_present"); ("merchant_id", "M-7014"); ("note", "ref not echoed by network")];
   row "ledger" "TXN-240101" 152815 "USD" "2026-09-15" "debit" "VISA"
     [("account", "1200-SETTLEMENT-VISA"); ("channel", "card_present"); ("merchant_id", "M-5120")];
   row "ledger" "TXN-240102" 117747 "USD" "2026-09-15" "debit" "VISA"
     [("account", "1200-SETTLEMENT-VISA"); ("channel", "card_present"); ("merchant_id", "M-2210"); ("original_currency", "EUR")];
   row "ledger" "TXN-240103" 35121 "GBP" "2026-09-14" "debit" "MASTERCARD"
     [("account", "1200-SETTLEMENT-MASTERCARD"); ("channel", "card_present"); ("merchant_id", "M-5120")];
   row "ledger" "TXN-240104" 18172 "USD" "2026-09-15" "debit" "VISA"
     [("account", "1200-SETTLEMENT-VISA"); ("channel", "card_present"); ("merchant_id", "M-8891"); ("note", "authorised, never presented")];
   row "ledger" "TXN-240105" 30072 "GBP" "2026-09-15" "debit" "MASTERCARD"
     [("account", "1200-SETTLEMENT-MASTERCARD"); ("channel", "card_present"); ("merchant_id", "M-7014"); ("note", "authorised, never presented")];
   row "card_network" "TXN-240001" 38002 "GBP" "2026-09-16" "credit" "MASTERCARD"
     [("arn", "74510000826038967094079"); ("settlement_file", "MASTERCARD-STL-20260916-01")];
   row "card_network" "TXN-240002" 24463 "USD" "2026-09-16" "credit" "VISA"
     [("arn", "74510000279873767526366"); ("settlement_file", "VISA-STL-20260916-01")];
   row "card_network" "TXN-240003" 49231 "USD" "2026-09-16" "credit" "VISA"
     [("arn", "74510000204005334718586"); ("settlement_file", "VISA-STL-20260916-01")];
   row "card_network" "TXN-240004" 208851 "GBP" "2026-09-16" "credit" "MASTERCARD"
     [("arn", "74510000619800984279357"); ("settlement_file", "MASTERCARD-STL-20260916-01")];
   row "card_network" "TXN-240005" 234256 "USD" "2026-09-16" "credit" "VISA"
     [("arn", "74510000134737989320096"); ("settlement_file", "VISA-STL-20260916-01")];
   row "card_network" "TXN-240006" 6802 "USD" "2026-09-16" "credit" "VISA"
     [("arn", "74510000493941878176395"); ("settlement_file", "VISA-STL-20260916-01")];
   row "card_network" "TXN-240007" 249711 "GBP" "2026-09-16" "credit" "MASTERCARD"
     [("arn", "74510000395016238582601"); ("settlement_file", "MASTERCARD-STL-20260916-01")];
   row "card_network" "TXN-240008" 193852 "USD" "2026-09-16" "credit" "VISA"
     [("arn", "74510000876392542518255"); ("settlement_file", "VISA-STL-20260916-01")];
   row "card_network" "TXN-240009" 129749 "USD" "2026-09-16" "credit" "VISA"
     [("arn", "74510000348757013634968"); ("settlement_file", "VISA-STL-20260916-01")];
   row "card_network" "TXN-240010" 82033 "GBP" "2026-09-16" "credit" "MASTERCARD"
     [("arn", "74510000787946165496895"); ("settlement_file", "MASTERCARD-STL-20260916-01")];
   row "card_network" "TXN-240011" 189557 "USD" "2026-09-16" "credit" "VISA"
     [("arn", "74510000486935647023780"); ("settlement_file", "VISA-STL-20260916-01")];
   row "card_network" "TXN-240012" 126954 "USD" "2026-09-16" "credit" "VISA"
     [("arn", "74510000342305573442951"); ("settlement_file", "VISA-STL-20260916-01")];
   row "card_network" "TXN-240013" 181379 "GBP" "2026-09-16" "credit" "MASTERCARD"
     [("arn", "74510000144591776886961"); ("settlement_file", "MASTERCARD-STL-20260916-01")];
   row "card_network" "TXN-240014" 86923 "USD" "2026-09-16" "credit" "VISA"
     [("arn", "74510000706470390195122"); ("settlement_file", "VISA-STL-20260916-01")];
   row "card_network" "TXN-240015" 244310 "USD" "2026-09-16" "credit" "VISA"
     [("arn", "74510000850235623546206"); ("settlement_file", "VISA-STL-20260916-01")];
   row "card_network" "TXN-240016" 104575 "GBP" "2026-09-16" "credit" "MASTERCARD"
     [("arn", "74510000487186733150763"); ("settlement_file", "MASTERCARD-STL-20260916-01")];
   row "card_network" "TXN-240017" 87174 "USD" "2026-09-16" "credit" "VISA"
     [("arn", "74510000767795944600117"); ("settlement_file", "VISA-STL-20260916-01")];
   row "card_network" "TXN-240018" 14517 "USD" "2026-09-16" "credit" "VISA"
     [("arn", "74510000287609399820142"); ("settlement_file", "VISA-STL-20260916-01")];
   row "card_network" "TXN-240019" 98869 "GBP" "2026-09-16" "credit" "MASTERCARD"
     [("arn", "74510000943256460742500"); ("settlement_file", "MASTERCARD-STL-20260916-01")];
   row "card_network" "TXN-240020" 241347 "USD" "2026-09-16" "credit" "VISA"
     [("arn", "74510000534945330001365"); ("settlement_file", "VISA-STL-20260916-01")];
   row "card_network" "TXN-240021" 114704 "USD" "2026-09-16" "credit" "VISA"
     [("arn", "74510000482424457646080"); ("settlement_file", "VISA-STL-20260916-01")];
   row "card_network" "TXN-240022" 99752 "GBP" "2026-09-16" "credit" "MASTERCARD"
     [("arn", "74510000277033161524716"); ("settlement_file", "MASTERCARD-STL-20260916-01")];
   row "card_network" "TXN-240023" 60016 "USD" "2026-09-16" "credit" "VISA"
     [("arn", "74510000450753780033958"); ("settlement_file", "VISA-STL-20260916-01")];
   row "card_network" "TXN-240024" 6765 "USD" "2026-09-16" "credit" "VISA"
     [("arn", "74510000985530406899877"); ("settlement_file", "VISA-STL-20260916-01")];
   row "card_network" "TXN-240025" 216485 "GBP" "2026-09-16" "credit" "MASTERCARD"
     [("arn", "74510000206204834847617"); ("settlement_file", "MASTERCARD-STL-20260916-01")];
   row "card_network" "TXN-240026" 106148 "USD" "2026-09-16" "credit" "VISA"
     [("arn", "74510000439631723407518"); ("settlement_file", "VISA-STL-20260916-01")];
   row "card_network" "TXN-240027" 229397 "USD" "2026-09-16" "credit" "VISA"
     [("arn", "74510000936939615921011"); ("settlement_file", "VISA-STL-20260916-01")];
   row "card_network" "TXN-240028" 87748 "GBP" "2026-09-16" "credit" "MASTERCARD"
     [("arn", "74510000249199913638899"); ("settlement_file", "MASTERCARD-STL-20260916-01")];
   row "card_network" "TXN-240029" 214887 "USD" "2026-09-16" "credit" "VISA"
     [("arn", "74510000595437638658860"); ("settlement_file", "VISA-STL-20260916-01")];
   row "card_network" "TXN-240030" 64896 "USD" "2026-09-16" "credit" "VISA"
     [("arn", "74510000309231885285733"); ("settlement_file", "VISA-STL-20260916-01")];
   row "card_network" "TXN-240031" 30379 "GBP" "2026-09-16" "credit" "MASTERCARD"
     [("arn", "74510000187174535789320"); ("settlement_file", "MASTERCARD-STL-20260916-01")];
   row "card_network" "TXN-240032" 227515 "USD" "2026-09-16" "credit" "VISA"
     [("arn", "74510000491727477985505"); ("settlement_file", "VISA-STL-20260916-01")];
   row "card_network" "TXN-240033" 222377 "USD" "2026-09-16" "credit" "VISA"
     [("arn", "74510000103981233484068"); ("settlement_file", "VISA-STL-20260916-01")];
   row "card_network" "TXN-240034" 191871 "GBP" "2026-09-16" "credit" "MASTERCARD"
     [("arn", "74510000211404945355433"); ("settlement_file", "MASTERCARD-STL-20260916-01")];
   row "card_network" "TXN-240035" 248409 "USD" "2026-09-16" "credit" "VISA"
     [("arn", "74510000318152319261441"); ("settlement_file", "VISA-STL-20260916-01")];
   row "card_network" "TXN-240036" 39667 "USD" "2026-09-16" "credit" "VISA"
     [("arn", "74510000304641587432242"); ("settlement_file", "VISA-STL-20260916-01")];
   row "card_network" "TXN-240037" 195656 "GBP" "2026-09-16" "credit" "MASTERCARD"
     [("arn", "74510000202234257264991"); ("settlement_file", "MASTERCARD-STL-20260916-01")];
   row "card_network" "TXN-240038" 66592 "USD" "2026-09-16" "credit" "VISA"
     [("arn", "74510000843006469714156"); ("settlement_file", "VISA-STL-20260916-01")];
   row "card_network" "TXN-240039" 51465 "USD" "2026-09-16" "credit" "VISA"
     [("arn", "74510000726353828726468"); ("settlement_file", "VISA-STL-20260916-01")];
   row "card_network" "TXN-240040" 83154 "GBP" "2026-09-16" "credit" "MASTERCARD"
     [("arn", "74510000958464318298327"); ("settlement_file", "MASTERCARD-STL-20260916-01")];
   row "card_network" "TXN-240041" 15239 "USD" "2026-09-16" "credit" "VISA"
     [("arn", "74510000501586687366953"); ("settlement_file", "VISA-STL-20260916-01")];
   row "card_network" "TXN-240042" 210518 "USD" "2026-09-16" "credit" "VISA"
     [("arn", "74510000008672752091956"); ("settlement_file", "VISA-STL-20260916-01")];
   row "card_network" "TXN-240043" 15526 "GBP" "2026-09-16" "credit" "MASTERCARD"
     [("arn", "74510000722460065341887"); ("settlement_file", "MASTERCARD-STL-20260916-01")];
   row "card_network" "TXN-240044" 176748 "USD" "2026-09-16" "credit" "VISA"
     [("arn", "74510000051800170294123"); ("settlement_file", "VISA-STL-20260916-01")];
   row "card_network" "TXN-240045" 20860 "USD" "2026-09-16" "credit" "VISA"
     [("arn", "74510000976916128220775"); ("settlement_file", "VISA-STL-20260916-01")];
   row "card_network" "TXN-240046" 124906 "GBP" "2026-09-16" "credit" "MASTERCARD"
     [("arn", "74510000317485151594125"); ("settlement_file", "MASTERCARD-STL-20260916-01")];
   row "card_network" "TXN-240047" 16107 "USD" "2026-09-16" "credit" "VISA"
     [("arn", "74510000294349010542864"); ("settlement_file", "VISA-STL-20260916-01")];
   row "card_network" "TXN-240048" 54004 "USD" "2026-09-16" "credit" "VISA"
     [("arn", "74510000673839266479357"); ("settlement_file", "VISA-STL-20260916-01")];
   row "card_network" "TXN-240049" 158481 "GBP" "2026-09-16" "credit" "MASTERCARD"
     [("arn", "74510000453291079528833"); ("settlement_file", "MASTERCARD-STL-20260916-01")];
   row "card_network" "TXN-240050" 162658 "USD" "2026-09-16" "credit" "VISA"
     [("arn", "74510000091576863056638"); ("settlement_file", "VISA-STL-20260916-01")];
   row "card_network" "TXN-240051" 212753 "USD" "2026-09-16" "credit" "VISA"
     [("arn", "74510000505708570027487"); ("settlement_file", "VISA-STL-20260916-01")];
   row "card_network" "TXN-240052" 160739 "GBP" "2026-09-16" "credit" "MASTERCARD"
     [("arn", "74510000439237001667694"); ("settlement_file", "MASTERCARD-STL-20260916-01")];
   row "card_network" "TXN-240053" 118343 "USD" "2026-09-16" "credit" "VISA"
     [("arn", "74510000999834525793975"); ("settlement_file", "VISA-STL-20260916-01")];
   row "card_network" "TXN-240054" 249664 "USD" "2026-09-16" "credit" "VISA"
     [("arn", "74510000428860754134639"); ("settlement_file", "VISA-STL-20260916-01")];
   row "card_network" "TXN-240055" 196416 "GBP" "2026-09-16" "credit" "MASTERCARD"
     [("arn", "74510000941058456154134"); ("settlement_file", "MASTERCARD-STL-20260916-01")];
   row "card_network" "TXN-240056" 54388 "USD" "2026-09-16" "credit" "VISA"
     [("arn", "74510000157041193454566"); ("settlement_file", "VISA-STL-20260916-01")];
   row "card_network" "TXN-240057" 206976 "USD" "2026-09-16" "credit" "VISA"
     [("arn", "74510000514875542712103"); ("settlement_file", "VISA-STL-20260916-01")];
   row "card_network" "TXN-240058" 247557 "GBP" "2026-09-16" "credit" "MASTERCARD"
     [("arn", "74510000748915048281042"); ("settlement_file", "MASTERCARD-STL-20260916-01")];
   row "card_network" "TXN-240059" 135626 "USD" "2026-09-16" "credit" "VISA"
     [("arn", "74510000201557247421560"); ("settlement_file", "VISA-STL-20260916-01")];
   row "card_network" "TXN-240060" 22326 "USD" "2026-09-16" "credit" "VISA"
     [("arn", "74510000479379733840663"); ("settlement_file", "VISA-STL-20260916-01")];
   row "card_network" "TXN-240061" 213482 "GBP" "2026-09-16" "credit" "MASTERCARD"
     [("arn", "74510000495859095729200"); ("settlement_file", "MASTERCARD-STL-20260916-01")];
   row "card_network" "TXN-240062" 114840 "USD" "2026-09-16" "credit" "VISA"
     [("arn", "74510000591346468914966"); ("settlement_file", "VISA-STL-20260916-01")];
   row "card_network" "TXN-240063" 169449 "USD" "2026-09-16" "credit" "VISA"
     [("arn", "74510000853564366467264"); ("settlement_file", "VISA-STL-20260916-01")];
   row "card_network" "TXN-240064" 84968 "GBP" "2026-09-16" "credit" "MASTERCARD"
     [("arn", "74510000397723962061580"); ("settlement_file", "MASTERCARD-STL-20260916-01")];
   row "card_network" "TXN-240065" 228339 "USD" "2026-09-16" "credit" "VISA"
     [("arn", "74510000139736039137354"); ("settlement_file", "VISA-STL-20260916-01")];
   row "card_network" "TXN-240066" 60286 "USD" "2026-09-16" "credit" "VISA"
     [("arn", "74510000443529819217836"); ("settlement_file", "VISA-STL-20260916-01")];
   row "card_network" "TXN-240067" 142184 "GBP" "2026-09-16" "credit" "MASTERCARD"
     [("arn", "74510000796534579421372"); ("settlement_file", "MASTERCARD-STL-20260916-01")];
   row "card_network" "TXN-240068" 215922 "USD" "2026-09-16" "credit" "VISA"
     [("arn", "74510000833959305899684"); ("settlement_file", "VISA-STL-20260916-01")];
   row "card_network" "TXN-240069" 11256 "USD" "2026-09-16" "credit" "VISA"
     [("arn", "74510000389928801993989"); ("settlement_file", "VISA-STL-20260916-01")];
   row "card_network" "TXN-240070" 89203 "GBP" "2026-09-16" "credit" "MASTERCARD"
     [("arn", "74510000602939492305930"); ("settlement_file", "MASTERCARD-STL-20260916-01")];
   row "card_network" "TXN-240071" 5751 "USD" "2026-09-16" "credit" "VISA"
     [("arn", "74510000325114645557773"); ("settlement_file", "VISA-STL-20260916-01")];
   row "card_network" "TXN-240072" 43450 "USD" "2026-09-16" "credit" "VISA"
     [("arn", "74510000066765148044369"); ("settlement_file", "VISA-STL-20260916-01")];
   row "card_network" "TXN-240073" 1330 "GBP" "2026-09-16" "credit" "MASTERCARD"
     [("arn", "74510000551662031330033"); ("settlement_file", "MASTERCARD-STL-20260916-01")];
   row "card_network" "TXN-240074" 201291 "USD" "2026-09-16" "credit" "VISA"
     [("arn", "74510000657856335439518"); ("settlement_file", "VISA-STL-20260916-01")];
   row "card_network" "TXN-240075" 68682 "USD" "2026-09-16" "credit" "VISA"
     [("arn", "74510000355627336939175"); ("settlement_file", "VISA-STL-20260916-01")];
   row "card_network" "TXN-240076" 78803 "GBP" "2026-09-16" "credit" "MASTERCARD"
     [("arn", "74510000367920348241253"); ("settlement_file", "MASTERCARD-STL-20260916-01")];
   row "card_network" "TXN-240077" 158782 "GBP" "2026-09-16" "credit" "MASTERCARD"
     [("arn", "74510000402317344186056"); ("rounding", "scheme"); ("settlement_file", "MASTERCARD-STL-20260916-01")];
   row "card_network" "TXN-240078" 47592 "USD" "2026-09-16" "credit" "VISA"
     [("arn", "74510000741644786441363"); ("rounding", "scheme"); ("settlement_file", "VISA-STL-20260916-01")];
   row "card_network" "TXN-240079" 244996 "USD" "2026-09-16" "credit" "VISA"
     [("arn", "74510000539600974625863"); ("rounding", "scheme"); ("settlement_file", "VISA-STL-20260916-01")];
   row "card_network" "TXN-240080" 291445 "GBP" "2026-09-16" "credit" "MASTERCARD"
     [("arn", "74510000044900015263495"); ("rounding", "scheme"); ("settlement_file", "MASTERCARD-STL-20260916-01")];
   row "card_network" "TXN-240081" 386681 "USD" "2026-09-16" "credit" "VISA"
     [("arn", "74510000031326825090410"); ("rounding", "scheme"); ("settlement_file", "VISA-STL-20260916-01")];
   row "card_network" "TXN-240082" 136933 "USD" "2026-09-16" "credit" "VISA"
     [("arn", "74510000251257992587820"); ("rounding", "scheme"); ("settlement_file", "VISA-STL-20260916-01")];
   row "card_network" "TXN-240083" 256951 "GBP" "2026-09-16" "credit" "MASTERCARD"
     [("arn", "74510000703950769427993"); ("rounding", "scheme"); ("settlement_file", "MASTERCARD-STL-20260916-01")];
   row "card_network" "TXN-240084" 318056 "USD" "2026-09-16" "credit" "VISA"
     [("arn", "74510000183858388915893"); ("rounding", "scheme"); ("settlement_file", "VISA-STL-20260916-01")];
   row "card_network" "TXN-240085" 364773 "USD" "2026-09-16" "credit" "VISA"
     [("arn", "74510000418105174766404"); ("rounding", "scheme"); ("settlement_file", "VISA-STL-20260916-01")];
   row "card_network" "VISA-BATCH-20260915-01" 158043 "USD" "2026-09-16" "credit" "VISA"
     [("arn", "74510000513195166314241"); ("record_type", "batch_settlement"); ("settlement_file", "VISA-STL-20260916-01")];
   row "card_network" "VISA-BATCH-20260915-02" 158564 "USD" "2026-09-16" "credit" "VISA"
     [("arn", "74510000833069036332724"); ("record_type", "batch_settlement"); ("settlement_file", "VISA-STL-20260916-01")];
   row "card_network" "VISA-BATCH-20260915-03" 160640 "USD" "2026-09-16" "credit" "VISA"
     [("arn", "74510000307998464210864"); ("record_type", "batch_settlement"); ("settlement_file", "VISA-STL-20260916-01")];
   row "card_network" "VISA-BATCH-20260915-04" 154224 "USD" "2026-09-16" "credit" "VISA"
     [("arn", "74510000942214845315955"); ("record_type", "batch_settlement"); ("settlement_file", "VISA-STL-20260916-01")];
   row "card_network" "ARN-745100003424" 761266 "USD" "2026-09-16" "credit" "VISA"
     [("arn", "74510000494956405194552"); ("settlement_file", "VISA-STL-20260916-01")];
   row "card_network" "ARN-745100001548" 375316 "USD" "2026-09-16" "credit" "VISA"
     [("arn", "74510000848980739797429"); ("settlement_file", "VISA-STL-20260916-01")];
   row "card_network" "TXN-240101" 148995 "USD" "2026-09-16" "credit" "VISA"
     [("arn", "74510000487992896813928"); ("interchange_minor", "3820"); ("record_type", "net_settlement"); ("settlement_file", "VISA-STL-20260916-01")];
   row "card_network" "TXN-240102" 108127 "EUR" "2026-09-16" "credit" "VISA"
     [("arn", "74510000300084278887819"); ("fx_rate", "0.9183"); ("settlement_currency", "EUR"); ("settlement_file", "VISA-STL-20260916-01")];
   row "card_network" "TXN-240103" 35121 "GBP" "2026-09-20" "credit" "MASTERCARD"
     [("arn", "74510000820146463832587"); ("settlement_file", "MASTERCARD-STL-20260920-01")];
   row "card_network" "TXN-240001" 38002 "GBP" "2026-09-16" "credit" "MASTERCARD"
     [("arn", "74510000826038967094079"); ("resend", "true"); ("settlement_file", "MASTERCARD-STL-20260917-01")]].

Definition sample_file : json :=
  JObj [("description", JStr (description 200 105 95)); ("legs", JArr sample_legs)].

(** ** The draws *)

Definition sample_draws : list Z :=
  [37502; 8589934592; 826038967094079; 23963; 21474836480; 279873767526366; 48731; 12884901888;
   204005334718586; 208351; 4294967296; 619800984279357; 233756; 12884901888; 134737989320096; 6302;
   21474836480; 493941878176395; 249211; 17179869184; 395016238582601; 193352; 21474836480; 876392542518255;
   129249; 4294967296; 348757013634968; 81533; 8589934592; 787946165496895; 189057; 30064771072;
   486935647023780; 126454; 25769803776; 342305573442951; 180879; 25769803776; 144591776886961; 86423;
   4294967296; 706470390195122; 243810; 30064771072; 850235623546206; 104075; 21474836480; 487186733150763;
   86674; 12884901888; 767795944600117; 14017; 30064771072; 287609399820142; 98369; 12884901888;
   943256460742500; 240847; 30064771072; 534945330001365; 114204; 25769803776; 482424457646080; 99252;
   4294967296; 277033161524716; 59516; 12884901888; 450753780033958; 6265; 21474836480; 985530406899877;
   215985; 8589934592; 206204834847617; 105648; 21474836480; 439631723407518; 228897; 8589934592;
   936939615921011; 87248; 12884901888; 249199913638899; 214387; 8589934592; 595437638658860; 64396;
   12884901888; 309231885285733; 29879; 12884901888; 187174535789320; 227015; 30064771072; 491727477985505;
   221877; 0; 103981233484068; 191371; 25769803776; 211404945355433; 247909; 21474836480; 318152319261441;
   39167; 8589934592; 304641587432242; 195156; 0; 202234257264991; 66092; 17179869184; 843006469714156; 50965;
   8589934592; 726353828726468; 82654; 25769803776; 958464318298327; 14739; 8589934592; 501586687366953;
   210018; 8589934592; 8672752091956; 15026; 12884901888; 722460065341887; 176248; 0; 51800170294123; 20360;
   4294967296; 976916128220775; 124406; 4294967296; 317485151594125; 15607; 12884901888; 294349010542864;
   53504; 4294967296; 673839266479357; 157981; 0; 453291079528833; 162158; 30064771072; 91576863056638;
   212253; 0; 505708570027487; 160239; 30064771072; 439237001667694; 117843; 17179869184; 999834525793975;
   249164; 12884901888; 428860754134639; 195916; 30064771072; 941058456154134; 53888; 8589934592;
   157041193454566; 206476; 4294967296; 514875542712103; 247057; 0; 748915048281042; 135126; 21474836480;
   201557247421560; 21826; 12884901888; 479379733840663; 212982; 17179869184; 495859095729200; 114340;
   30064771072; 591346468914966; 168949; 4294967296; 853564366467264; 84468; 25769803776; 397723962061580;
   227839; 0; 139736039137354; 59786; 25769803776; 443529819217836; 141684; 4294967296; 796534579421372;
   215422; 25769803776; 833959305899684; 10756; 0; 389928801993989; 88703; 30064771072; 602939492305930; 5251;
   8589934592; 325114645557773; 42950; 30064771072; 66765148044369; 830; 21474836480; 551662031330033; 200791;
   8589934592; 657856335439518; 68182; 4294967296; 355627336939175; 78303; 17179869184; 367920348241253;
   138784; 4294967296; 25769803776; 402317344186056; 27591; 0; 25769803776; 741644786441363; 224997; 0; 0;
   539600974625863; 271444; 0; 17179869184; 44900015263495; 366682; 0; 8589934592; 31326825090410; 116931;
   4294967296; 8589934592; 251257992587820; 236953; 4294967296; 12884901888; 703950769427993; 298054;
   4294967296; 17179869184; 183858388915893; 344774; 0; 30064771072; 418105174766404; 17772; 21474836480;
   56178; 25769803776; 81093; 21474836480; 513195166314241; 84671; 12884901888; 69939; 30064771072; 954;
   25769803776; 833069036332724; 76886; 25769803776; 60377; 0; 20377; 4294967296; 307998464210864; 79827;
   30064771072; 22151; 8589934592; 29755; 0; 18491; 30064771072; 942214845315955; 461266; 21474836480;
   342400000000000; 494956405194552; 75316; 25769803776; 154800000000000; 848980739797429; 52815; 17179869184;
   487992896813928; 67747; 4294967296; 300084278887819; 25121; 17179869184; 820146463832587; 13172;
   30064771072; 25072; 25769803776].

(** The generator, run on these draws, writes the file and reads no further. *)
Definition generated : option (Z * option json * nat) :=
  match main (fun n => nth n sample_draws 0) (fun _ _ => None) "examples/legs.json" 2%nat no_legs with
  | Some (out, s) => Some (out, gs_pos s)
  | None => None
  end.
Example sample_is_generated : generated = Some (0, Some sample_file, length sample_draws).
Proof. vm_cast_no_check (eq_refl generated). Qed.
