(* ===== verification/Kafka.v ===== *)
(** * The Kafka consumer

    internal/adapters/kafka/source.go. The client library is a parameter (class
    [KafkaClient]); what the loop relies on is stated of it in [KafkaLaws]. A
    record's value is the JSON value its text parses to, or the parser's error.
    Logging is left out. *)

From S2P Require Export Event.

Local Open Scope recon_scope.

(** ** Records and the client *)

Record KRecord : Type := mkKRecord {
  r_Topic : string;
  r_Key : string;
  r_Value : result json;
  r_Timestamp : Time
}.

(** What a poll returns: whether the client is closed, the partition errors
    (which are only logged) and the records in [EachRecord] order. *)
Record Fetches : Type := mkFetches { f_Closed : bool; f_Records : list KRecord }.

Class KafkaClient (C : Type) : Type := {
  PollRecords : Z -> C -> Fetches * C;
  AllowRebalance : C -> C;
  CommitUncommittedOffsets : C -> option error * C
}.

(** The group's progress: [committed] are the records it will not be given
    again; [uncommitted] those handed out by polls since, which the next commit
    covers. Unless it fails, a commit covers everything uncommitted. Allowing a
    rebalance may give partitions away, with their uncommitted records. *)
Class KafkaLaws (C : Type) `{KafkaClient C} : Type := {
  committed : C -> list KRecord;
  uncommitted : C -> list KRecord;
  Poll_law n c f c' : PollRecords n c = (f, c') ->
    committed c' = committed c /\ uncommitted c' = uncommitted c ++ f_Records f;
  Rebalance_law c : committed (AllowRebalance c) = committed c /\
    uncommitted (AllowRebalance c) ⊆ uncommitted c;
  Commit_law c e c' : CommitUncommittedOffsets c = (e, c') ->
    match e with
    | None => committed c' = committed c ++ uncommitted c /\ uncommitted c' = []
    | Some _ => committed c' = committed c /\ uncommitted c' = uncommitted c
    end
}.

(** ** The source *)

Record KafkaConfig : Type := mkKafkaConfig {
  Brokers : list string;
  Group : string;
  Topics : list string;
  MaxPollRecords : Z
}.

(** The default source name: the topic up to its first dot. *)
Fixpoint topicSource (topic : string) : string :=
  match topic with
  | EmptyString => EmptyString
  | String c t => if bool_decide (c = byte 46) then EmptyString else String c (topicSource t)
  end.

Definition source_map (topics : list string) : gmap string string :=
  foldl (fun m t => <[t := topicSource t]> m) ∅ topics.

(** [New]: [connect] is [kgo.NewClient] on the settings it is given. The poll
    limit is filled in and not used again. *)
Definition New {C} (connect : KafkaConfig -> result C) (cfg : KafkaConfig)
    : result (C * gmap string string) :=
  if bool_decide (length (Brokers cfg) = 0%nat) || bool_decide (length (Topics cfg) = 0%nat) ||
     bool_decide (Group cfg = "")
  then Err (ErrText "kafka: brokers, topics and group are required")
  else
    let cfg := if MaxPollRecords cfg <=? 0
               then mkKafkaConfig (Brokers cfg) (Group cfg) (Topics cfg) 1000 else cfg in
    match connect cfg with
    | Err e => Err (ErrWrap "kafka client: " e "")
    | Ok cl => Ok (cl, source_map (Topics cfg))
    end.

Definition set_Source (s : string) (l : Leg) : Leg :=
  mkLeg (ID l) s (TxnRef l) (AmountMinor l) (Currency l) (ValueDate l) (Dir l) (Counterparty l)
        (Attrs l) (IngestedAt l) (Status l) (MatchID l) (BreakID l).
Definition set_TxnRef (r : string) (l : Leg) : Leg :=
  mkLeg (ID l) (Source l) r (AmountMinor l) (Currency l) (ValueDate l) (Dir l) (Counterparty l)
        (Attrs l) (IngestedAt l) (Status l) (MatchID l) (BreakID l).

(** The defaults a record gives its leg. *)
Definition fill_defaults (r : KRecord) (defaultSource : string) (l : Leg) : Leg :=
  let l := if bool_decide (Source l = "") then set_Source defaultSource l else l in
  let l := if bool_decide (TxnRef l = "") && bool_decide (r_Key r <> "")
           then set_TxnRef (r_Key r) l else l in
  if IsZero (IngestedAt l) && negb (IsZero (r_Timestamp r))
  then set_IngestedAt (r_Timestamp r) l else l.

Definition decode (r : KRecord) (defaultSource : string) : result Leg :=
  match res_bind (r_Value r) (dec_leg zero_leg) with
  | Err e => Err (ErrWrap "decode leg: " e "")
  | Ok l => match Validate (fill_defaults r defaultSource l) with
            | (_, Err e) => Err e
            | (l', Ok _) => Ok l'
            end
  end.

(** ** The consumer loop *)

(** The loop's state: the client, the handler's own state, the readings of the
    context so far and the calls of [onCommit]. *)
Record Consumer (C H : Type) : Type := mkConsumer {
  k_client : C;
  k_state : H;
  k_polls : nat;
  k_commits : list bool
}.
Arguments mkConsumer {C H} _ _ _ _.
Arguments k_client {C H} _.
Arguments k_state {C H} _.
Arguments k_polls {C H} _.
Arguments k_commits {C H} _.

(** How a turn of the loop ends: it returns, with the records it had not got
    through the handler; nothing was fetched; the handler failed on the records;
    or they were handled, and a commit was tried. *)
Inductive Turn : Type :=
  | TurnReturn (recs : list KRecord) (err : option error)
  | TurnIdle
  | TurnFailed (recs : list KRecord)
  | TurnDone (recs : list KRecord) (ok : bool).

Section Run.
Context {C H : Type} `{KafkaClient C} (sourceOf : gmap string string).
(** The context, and the handler the source is run with. *)
Context (ctx_err : nat -> option error) (handle : list Leg -> M H unit).

Abbreviation K := (Consumer C H).

Definition source_of (r : KRecord) : string := default "" (sourceOf !! r_Topic r).

(** The legs of the records that decode, and the number of the others. *)
Definition decode_all (recs : list KRecord) : list Leg * nat :=
  foldl (fun '(legs, bad) r => match decode r (source_of r) with
                               | Ok l => (legs ++ [l], bad)
                               | Err _ => (legs, S bad)
                               end) ([], 0%nat) recs.

Definition k_poll_ctx : M K (option error) := fun k =>
  (Ok (ctx_err (k_polls k)), mkConsumer (k_client k) (k_state k) (S (k_polls k)) (k_commits k)).
Definition k_fetch (n : Z) : M K Fetches := fun k =>
  let '(f, c) := PollRecords n (k_client k) in
  (Ok f, mkConsumer c (k_state k) (k_polls k) (k_commits k)).
Definition k_allow : M K unit :=
  mmodify (fun k => mkConsumer (AllowRebalance (k_client k)) (k_state k) (k_polls k) (k_commits k)).
Definition k_commit : M K (option error) := fun k =>
  let '(e, c) := CommitUncommittedOffsets (k_client k) in
  (Ok e, mkConsumer c (k_state k) (k_polls k) (k_commits k)).
Definition k_onCommit (ok : bool) : M K unit :=
  mmodify (fun k => mkConsumer (k_client k) (k_state k) (k_polls k) (k_commits k ++ [ok])).
(** The handler's error is inspected, not returned. *)
Definition k_handle (legs : list Leg) : M K (result unit) := fun k =>
  let '(r, h) := handle legs (k_state k) in
  (Ok r, mkConsumer (k_client k) h (k_polls k) (k_commits k)).

(** One turn of the loop in [Run]. *)
Definition run_turn : M K Turn :=
  let! cancelled := k_poll_ctx in
  match cancelled with
  | Some e => mret (TurnReturn [] (Some e))
  | None =>
      let! fetches := k_fetch 1000 in
      if f_Closed fetches then mret (TurnReturn [] (Some (ErrText "kafka client closed")))
      else
        let! cancelled := k_poll_ctx in
        match cancelled with
        | Some e => mret (TurnReturn (f_Records fetches) (Some e))
        | None =>
            let '(legs, bad) := decode_all (f_Records fetches) in
            if bool_decide (length legs = 0%nat) && bool_decide (bad = 0%nat)
            then k_allow ;;! mret TurnIdle
            else
              let! handled := if bool_decide (0 < length legs)%nat then k_handle legs else mret (Ok tt) in
              match handled with
              | Err _ =>
                  k_allow ;;!
                  let! cancelled := k_poll_ctx in
                  match cancelled with
                  | Some _ => let! e := k_poll_ctx in mret (TurnReturn (f_Records fetches) e)
                  | None => mret (TurnFailed (f_Records fetches))
                  end
              | Ok _ =>
                  let! e := k_commit in
                  k_onCommit (if e then false else true) ;;!
                  k_allow ;;!
                  mret (TurnDone (f_Records fetches) (if e then false else true))
              end
        end
  end.

(** [Run], for at most [n] turns. *)
Fixpoint run_turns (n : nat) : M K (list Turn) :=
  match n with
  | O => mret []
  | S n =>
      let! t := run_turn in
      match t with
      | TurnReturn _ _ => mret [t]
      | _ => let! ts := run_turns n in mret (t :: ts)
      end
  end.
End Run.

(** ** What a turn does *)

Section Facts.
Context {C H : Type} `{KafkaLaws C} (sourceOf : gmap string string).
Context (ctx_err : nat -> option error) (handle : list Leg -> M H unit).

Abbreviation K := (Consumer C H).
Abbreviation legs_of recs := ((decode_all sourceOf recs).1).

Lemma decode_all_snoc recs r : decode_all sourceOf (recs ++ [r]) =
  match decode r (source_of sourceOf r) with
  | Ok l => (legs_of recs ++ [l], (decode_all sourceOf recs).2)
  | Err _ => (legs_of recs, S (decode_all sourceOf recs).2)
  end.
Proof. unfold decode_all. rewrite foldl_snoc. by destruct (foldl _ _ recs). Qed.

(** The handler gets exactly the legs of the records that decode. *)
Lemma elem_of_legs_of recs l : l ∈ legs_of recs <-> exists r, r ∈ recs /\ decode r (source_of sourceOf r) = Ok l.
Proof.
  induction recs as [|r recs IH] using rev_ind.
  { cbn. split; [by intros ?%not_elem_of_nil|]. by intros (r & Hr%not_elem_of_nil & _). }
  rewrite decode_all_snoc. setoid_rewrite elem_of_app. setoid_rewrite list_elem_of_singleton.
  destruct (decode r _) as [l1|e] eqn:E; cbn [fst].
  - rewrite elem_of_app, list_elem_of_singleton, IH. split.
    + intros [(r' & ? & ?)| ->]; eauto.
    + intros (r' & [?| ->] & Hd); [eauto|]. right. congruence.
  - rewrite IH. split; [intros (r' & ? & ?); eauto|].
    intros (r' & [?| ->] & Hd); [eauto|congruence].
Qed.

Lemma decode_all_none recs : decode_all sourceOf recs = ([], 0%nat) -> recs = [].
Proof.
  destruct recs as [|r recs] using rev_ind; [done|]. rewrite decode_all_snoc.
  destruct (decode r _); [|done]. intros [= Happ _]. by destruct (legs_of recs).
Qed.

(** The progress a turn makes, and what became of the handler's state. *)
Definition turn_effect (k : K) (t : Turn) (k' : K) : Prop :=
  let done := committed (k_client k) in
  let waiting := uncommitted (k_client k) in
  match t with
  | TurnReturn recs _ => committed (k_client k') = done /\
      (k_state k' = k_state k \/ exists e, handle (legs_of recs) (k_state k) = (Err e, k_state k'))
  | TurnIdle => committed (k_client k') = done /\ uncommitted (k_client k') ⊆ waiting /\ k_state k' = k_state k
  | TurnFailed recs =>
      committed (k_client k') = done /\ uncommitted (k_client k') ⊆ waiting ++ recs /\
      exists e, handle (legs_of recs) (k_state k) = (Err e, k_state k')
  | TurnDone recs ok =>
      committed (k_client k') = (if ok then done ++ waiting ++ recs else done) /\
      uncommitted (k_client k') ⊆ (if ok then [] else waiting ++ recs) /\
      (legs_of recs = [] /\ k_state k' = k_state k \/
       handle (legs_of recs) (k_state k) = (Ok tt, k_state k'))
  end.

Lemma run_turn_effect k : exists t k', run_turn sourceOf ctx_err handle k = (Ok t, k') /\ turn_effect k t k'.
Proof.
  unfold run_turn, mbind at 1, k_poll_ctx at 1. destruct (ctx_err (k_polls k)) as [e|].
  { do 2 eexists. split; [reflexivity|]. cbn. auto. }
  unfold mbind at 1, k_fetch. cbn [k_client k_state k_polls k_commits].
  destruct (PollRecords 1000 (k_client k)) as [f c1] eqn:Ef.
  destruct (Poll_law _ _ _ _ Ef) as [Hc1 Hp1]. destruct (f_Closed f).
  { do 2 eexists. split; [reflexivity|]. cbn. rewrite Hc1. auto. }
  unfold mbind at 1, k_poll_ctx at 1. cbn [k_client k_state k_polls k_commits].
  destruct (ctx_err _) as [e|].
  { do 2 eexists. split; [reflexivity|]. cbn. rewrite Hc1. auto. }
  destruct (decode_all sourceOf (f_Records f)) as [legs bad] eqn:Ed.
  assert (legs_of (f_Records f) = legs) as Hlegs by (by rewrite Ed).
  destruct (bool_decide (length legs = 0%nat) && bool_decide (bad = 0%nat)) eqn:Ez.
  { apply andb_true_iff in Ez as [Hl%bool_decide_eq_true Hb%bool_decide_eq_true].
    apply nil_length_inv in Hl. rewrite Hl, Hb in Ed. apply decode_all_none in Ed. rewrite Ed, app_nil_r in Hp1.
    destruct (Rebalance_law c1) as [Hc2 Hp2]. do 2 eexists. split; [reflexivity|].
    cbn. rewrite Hc2, Hc1, <- Hp1. by split_and!. }
  clear Ez. unfold mbind at 1. rewrite <- Hlegs in *. set (recs := f_Records f) in *.
  set (k1 := mkConsumer c1 (k_state k) _ _). assert (exists hr h, (if bool_decide (0 < length (legs_of recs))%nat
      then k_handle handle (legs_of recs) else mret (Ok tt)) k1 = (Ok hr, mkConsumer c1 h (k_polls k1) (k_commits k1)) /\
    match hr with
    | Ok _ => legs_of recs = [] /\ h = k_state k \/ handle (legs_of recs) (k_state k) = (Ok tt, h)
    | Err e => handle (legs_of recs) (k_state k) = (Err e, h)
    end) as (hr & h & -> & Hh).
  { case_bool_decide as Hlen.
    - unfold k_handle. cbn [k_state k1]. destruct (handle _ (k_state k)) as [[[]|e] h] eqn:Eh; do 2 eexists; split; [reflexivity|by right|reflexivity|done].
    - exists (Ok tt), (k_state k). split; [done|]. left. split; [|done]. destruct (legs_of recs); [done|cbn in Hlen; lia]. }
  clear Ed. cbv beta iota. destruct hr as [u|e].
  - unfold mbind at 1, k_commit. cbn [k_client k_state]. destruct (CommitUncommittedOffsets c1) as [ce c2] eqn:Ec.
    pose proof (Commit_law _ _ _ Ec) as Hcm. destruct (Rebalance_law c2) as [Hc3 Hp3].
    do 2 eexists. split; [reflexivity|]. cbn [turn_effect k_client k_state].
    destruct ce as [ce|]; destruct Hcm as [Hcm Hpm]; rewrite Hc3, Hcm, Hc1; rewrite Hpm, Hp1 in Hp3 || rewrite Hpm in Hp3; rewrite ?Hp1; by split_and!.
  - unfold mbind at 1, k_allow, mmodify, mbind at 1, k_poll_ctx. cbn [k_client k_state k_polls].
    destruct (Rebalance_law c1) as [Hc2 Hp2]. destruct (ctx_err _).
    + do 2 eexists. split; [reflexivity|]. cbn. rewrite Hc2, Hc1. eauto.
    + do 2 eexists. split; [reflexivity|]. cbn. rewrite Hc2, Hc1, <- Hp1. by split_and!; [| |eexists].
Qed.

(** ** The records of a run *)

(** The records of the turns that failed: they are not committed with their
    turn. *)
Definition failed_records (ts : list Turn) : list KRecord :=
  ts ≫= (fun t => match t with TurnFailed recs => recs | _ => [] end).

Lemma failed_records_cons t ts : failed_records (t :: ts) = failed_records [t] ++ failed_records ts.
Proof. unfold failed_records. cbn. by rewrite app_nil_r. Qed.

(** The records a turn polled. *)
Definition turn_records (t : Turn) : list KRecord :=
  match t with TurnReturn recs _ | TurnFailed recs | TurnDone recs _ => recs | TurnIdle => [] end.
End Facts.
