(* ===== verification/Source.v ===== *)
(** * The in-memory leg source

    internal/adapters/memory/source.go: a channel of batches between publishers
    and one running consumer, as a step relation. A step is one communication of
    the channel, or one branch of a [select]; when several are ready, any of them
    may be taken; Go's own queues are one of the orders allowed. *)

From S2P Require Export Leg.

Local Open Scope recon_scope.

Section Source.
Context {W : Type} (h : list Leg -> M W unit).

(** The channel: what its buffer holds, how much it can hold, whether it is closed. *)
Record Source : Type := mkSource { ch_buffer : list (list Leg); ch_cap : nat; ch_closed : bool }.
Definition NewSource (buffer : nat) : Source := mkSource [] buffer false.

(** [Run]: in its loop, or returned. *)
Inductive running : Type :=
  | Running
  | Returned (e : error).

(** A [Publish] that has returned, or has panicked. *)
Inductive published : Type :=
  | Sent
  | NotSent (e : error)
  | Panicked.

(** The source, the batches of the [Publish] calls that are blocked, what has
    come of the others, the consumer and the handler's state. [accepted] and
    [handed] record the batches sent on the channel and those given to the
    handler, in order. *)
Record State : Type := mkState {
  st_source : Source;
  st_waiting : list (list Leg);
  st_results : list (list Leg * published);
  st_run : running;
  st_world : W;
  st_accepted : list (list Leg);
  st_handed : list (list Leg)
}.

Definition source_closed : error := ErrText "memory source closed".

(** [h(ctx, batch)]: an error ends [Run]. *)
Definition hand (b : list Leg) (s : State) : running * W :=
  match h b (st_world s) with
  | (Ok _, w) => (Running, w)
  | (Err e, w) => (Returned e, w)
  end.

Inductive label : Type :=
  | Call (b : list Leg)
  | Send (i : nat)
  | Meet (i : nat)
  | SendPanics (i : nat)
  | PublishCancelled (i : nat) (e : error)
  | Receive
  | RunCancelled (e : error)
  | RunClosed
  | CloseSource.

(** Steps of the consumer's goroutine. *)
Definition by_consumer (l : label) : bool :=
  match l with Meet _ | Receive | RunCancelled _ | RunClosed => true | _ => false end.

Inductive source_step : label -> State -> State -> Prop :=
  (** [Publish] is called and reaches its [select]. *)
  | step_call b s :
      source_step (Call b) s (mkState (st_source s) (st_waiting s ++ [b]) (st_results s) (st_run s) (st_world s)
                         (st_accepted s) (st_handed s))
  (** [s.ch <- legs] into the buffer. *)
  | step_send i b s : st_waiting s !! i = Some b -> ch_closed (st_source s) = false ->
      (length (ch_buffer (st_source s)) < ch_cap (st_source s))%nat ->
      source_step (Send i) s
        (mkState (mkSource (ch_buffer (st_source s) ++ [b]) (ch_cap (st_source s)) false)
           (delete i (st_waiting s)) (st_results s ++ [(b, Sent)]) (st_run s) (st_world s)
           (st_accepted s ++ [b]) (st_handed s))
  (** [s.ch <- legs] to a consumer that waits at an empty buffer. *)
  | step_meet i b s r w : st_waiting s !! i = Some b -> ch_closed (st_source s) = false ->
      ch_buffer (st_source s) = [] -> st_run s = Running -> hand b s = (r, w) ->
      source_step (Meet i) s
        (mkState (st_source s) (delete i (st_waiting s)) (st_results s ++ [(b, Sent)]) r w
           (st_accepted s ++ [b]) (st_handed s ++ [b]))
  (** A send on a closed channel. *)
  | step_send_panics i b s : st_waiting s !! i = Some b -> ch_closed (st_source s) = true ->
      source_step (SendPanics i) s
        (mkState (st_source s) (delete i (st_waiting s)) (st_results s ++ [(b, Panicked)]) (st_run s) (st_world s)
           (st_accepted s) (st_handed s))
  (** [<-ctx.Done()] in [Publish]. *)
  | step_publish_cancelled i b e s : st_waiting s !! i = Some b ->
      source_step (PublishCancelled i e) s
        (mkState (st_source s) (delete i (st_waiting s)) (st_results s ++ [(b, NotSent e)]) (st_run s) (st_world s)
           (st_accepted s) (st_handed s))
  (** [batch, ok := <-s.ch], and the handler's call. *)
  | step_receive b bs s r w : ch_buffer (st_source s) = b :: bs -> st_run s = Running -> hand b s = (r, w) ->
      source_step Receive s
        (mkState (mkSource bs (ch_cap (st_source s)) (ch_closed (st_source s))) (st_waiting s) (st_results s) r w
           (st_accepted s) (st_handed s ++ [b]))
  (** [<-ctx.Done()] in [Run]. *)
  | step_run_cancelled e s : st_run s = Running ->
      source_step (RunCancelled e) s
        (mkState (st_source s) (st_waiting s) (st_results s) (Returned e) (st_world s) (st_accepted s) (st_handed s))
  (** [!ok]: closed and empty. *)
  | step_run_closed s : st_run s = Running -> ch_closed (st_source s) = true -> ch_buffer (st_source s) = [] ->
      source_step RunClosed s
        (mkState (st_source s) (st_waiting s) (st_results s) (Returned source_closed) (st_world s)
           (st_accepted s) (st_handed s))
  (** [close(s.ch)]; a second one is a panic of its caller. *)
  | step_close s : ch_closed (st_source s) = false ->
      source_step CloseSource s
        (mkState (mkSource (ch_buffer (st_source s)) (ch_cap (st_source s)) true) (st_waiting s) (st_results s)
           (st_run s) (st_world s) (st_accepted s) (st_handed s)).

(** A run: the labels of its steps. *)
Inductive source_steps : list label -> State -> State -> Prop :=
  | steps_nil s : source_steps [] s s
  | steps_cons l ls s s' s'' : source_step l s s' -> source_steps ls s' s'' -> source_steps (l :: ls) s s''.

Definition start_source (buffer : nat) (w : W) : State := mkState (NewSource buffer) [] [] Running w [] [].

(** ** Order *)

Definition was_sent (r : list Leg * published) : bool := match r.2 with Sent => true | _ => false end.

(** What was sent is what was handed over, then what is buffered, in order; the
    buffer is bounded; the handler ran on the batches handed to it; and the
    results say what was sent. *)
Record source_inv (cap : nat) (w0 : W) (s : State) : Prop := {
  si_order : st_accepted s = st_handed s ++ ch_buffer (st_source s);
  si_cap : ch_cap (st_source s) = cap;
  si_bound : (length (ch_buffer (st_source s)) <= cap)%nat;
  si_world : st_world s = foldl (fun w b => (h b w).2) w0 (st_handed s);
  si_results : (filter was_sent (st_results s)).*1 = st_accepted s
}.

Lemma start_inv cap w : source_inv cap w (start_source cap w).
Proof. constructor; cbn; try done; lia. Qed.

Lemma hand_world b s r w : hand b s = (r, w) -> w = (h b (st_world s)).2.
Proof. unfold hand. destruct (h b (st_world s)) as [[]]; by intros [= <- <-]. Qed.

Lemma step_inv cap w0 l s s' : source_step l s s' -> source_inv cap w0 s -> source_inv cap w0 s'.
Proof.
  intros Hs [Ho Hc Hb Hw Hr].
  inversion Hs; subst; clear Hs; cbn in *; constructor; cbn; rewrite ?filter_app, ?fmap_app, ?foldl_app, ?length_app;
    cbn; rewrite ?app_nil_r; try done; try lia; try congruence.
  all: try match goal with E : hand _ _ = _ |- _ => apply hand_world in E end.
  all: try match goal with E : ch_buffer _ = _ |- _ => rewrite E in * end.
  all: cbn in *; rewrite ?Ho, ?app_nil_r, <- ?app_assoc; try done; try lia; try congruence.
  all: rewrite decide_True by done; rewrite Hr, Ho, ?app_nil_r; cbn; by rewrite <- ?app_assoc.
Qed.

Lemma steps_source_inv cap w0 ls s s' : source_steps ls s s' -> source_inv cap w0 s -> source_inv cap w0 s'.
Proof. induction 1 as [|l ls s s1 s2 H1 _ IH]; [done|]. intros Hi. apply IH. by eapply step_inv. Qed.
(** ** Termination and liveness *)

(** Batches the consumer may still take, and its return. *)
Definition source_work (s : State) : nat :=
  match st_run s with Running => S (length (ch_buffer (st_source s))) | Returned _ => 0 end.

(** Once the channel is closed, every step of the consumer uses up some of its
    work and no other step adds any. *)
Lemma closed_step l s s' : source_step l s s' -> ch_closed (st_source s) = true ->
  ch_closed (st_source s') = true /\ (source_work s' + (if by_consumer l then 1 else 0) <= source_work s)%nat.
Proof.
  intros Hs Hc. unfold source_work.
  inversion Hs; subst; clear Hs; cbn; try congruence; (split; [done|]);
    repeat match goal with E : st_run _ = _ |- _ => rewrite E end; try lia.
  match goal with E : ch_buffer _ = _ |- _ => rewrite E end. cbn.
  match goal with |- context [match ?x with Running => _ | Returned _ => _ end] => destruct x end; lia.
Qed.

Definition consumer_steps (ls : list label) : nat := length (filter by_consumer ls).

Lemma closed_steps ls s s' : source_steps ls s s' -> ch_closed (st_source s) = true ->
  ch_closed (st_source s') = true /\ (source_work s' + consumer_steps ls <= source_work s)%nat.
Proof.
  induction 1 as [s|l ls s s1 s2 H1 _ IH]; intros Hc; [unfold consumer_steps; cbn; split; [done|lia]|].
  destruct (closed_step _ _ _ H1 Hc) as [Hc1 Hw1]. destruct (IH Hc1) as [Hc2 Hw2]. split; [done|].
  unfold consumer_steps in *. rewrite filter_bool_cons. destruct (by_consumer l); cbn in *; lia.
Qed.

(** The consumer never waits for nothing: with a batch in the buffer, with a
    batch offered on an open channel, or with the channel closed, it can step. *)
Lemma consumer_progress s : st_run s = Running ->
  ch_buffer (st_source s) <> [] \/ ch_closed (st_source s) = true \/ st_waiting s <> [] ->
  exists l s', by_consumer l = true /\ (forall e, l <> RunCancelled e) /\ source_step l s s'.
Proof.
  intros Hr Hs. destruct (ch_buffer (st_source s)) as [|b bs] eqn:Eb.
  - destruct (ch_closed (st_source s)) eqn:Ec.
    + eexists RunClosed, _. split; [done|]. split; [done|]. by apply step_run_closed.
    + destruct (st_waiting s) as [|b bs] eqn:Ew; [naive_solver|]. destruct (hand b s) as [r w] eqn:Eh.
      eexists (Meet 0), _. split; [done|]. split; [done|]. eapply step_meet; try done. by rewrite Ew.
  - destruct (hand b s) as [r w] eqn:Eh. eexists Receive, _. split; [done|]. split; [done|]. by eapply step_receive.
Qed.

Lemma returned_step l s s' e : source_step l s s' -> st_run s = Returned e -> st_run s' = Returned e /\
  (ch_closed (st_source s) = true -> ch_buffer (st_source s) = [] ->
   ch_closed (st_source s') = true /\ ch_buffer (st_source s') = []).
Proof. intros Hs. inversion Hs; subst; cbn in *; intros; split; try congruence; intros; split; congruence. Qed.

Lemma returned_steps ls s s' e : source_steps ls s s' -> st_run s = Returned e -> st_run s' = Returned e /\
  (ch_closed (st_source s) = true -> ch_buffer (st_source s) = [] ->
   ch_closed (st_source s') = true /\ ch_buffer (st_source s') = []).
Proof.
  induction 1 as [|l ls s s1 s2 H1 _ IH]; [done|]. intros Hr. destruct (returned_step _ _ _ _ H1 Hr) as [Hr1 Hc1].
  destruct (IH Hr1) as [Hr2 Hc2]. split; [done|]. intros Hc Hb. destruct (Hc1 Hc Hb). auto.
Qed.

(** How [Run] returns: its context was cancelled, the handler failed, or the
    source was closed and everything had been taken. *)
Definition stopped_by (l : label) (e : error) : Prop := l = RunCancelled e.
Definition handler_failed (e : error) : Prop := exists b w w', h b w = (Err e, w').

Lemma returning_step l s s' e : source_step l s s' -> st_run s = Running -> st_run s' = Returned e ->
  stopped_by l e \/ handler_failed e \/
  (e = source_closed /\ ch_closed (st_source s') = true /\ ch_buffer (st_source s') = []).
Proof.
  intros Hs Hr He. inversion Hs; subst; cbn in *; try congruence.
  1,2: right; left; subst; unfold hand in *; destruct (h b (st_world s)) as [[]] eqn:E; simplify_eq; by do 3 eexists.
  - injection He as ->. by left.
  - injection He as <-. by right; right.
Qed.

Lemma run_returned ls s s' e : source_steps ls s s' -> st_run s = Running -> st_run s' = Returned e ->
  RunCancelled e ∈ ls \/ handler_failed e \/
  (e = source_closed /\ ch_closed (st_source s') = true /\ ch_buffer (st_source s') = []).
Proof.
  induction 1 as [s|l ls s s1 s2 H1 Hrest IH]; intros Hr He; [congruence|].
  destruct (st_run s1) as [|e1] eqn:E1.
  - destruct (IH eq_refl He) as [?|?]; [left; by right|by right].
  - destruct (returned_steps _ _ _ _ Hrest E1) as [E2 Hc]. rewrite He in E2. injection E2 as <-.
    destruct (returning_step _ _ _ _ H1 Hr E1) as [->|[Hh|(-> & Hcl & Hb)]]; [left; by left|by right; left|].
    right; right. by destruct (Hc Hcl Hb).
Qed.
End Source.
