(* ===== verification/Index.v ===== *)
(** * The open-leg index

    internal/domain/recon/index.go. The Go maps hold pointers to one private
    copy of each leg that nothing writes through, so the model's maps hold the
    legs themselves. A nil inner map and a missing one behave alike. *)

From S2P Require Export Event.

Record Index : Type := mkIndex {
  ttl : Duration;
  byKey : gmap WindowKey (gmap string (gmap string Leg));
  byRef : gmap string (gmap string Leg);
  byBatch : gmap string (gmap string Leg);
  byID : gmap string Leg
}.

Definition NewIndex (t : Duration) : Index := mkIndex t ∅ ∅ ∅ ∅.

Definition Len (ix : Index) : nat := size (byID ix).

(** [m[k]] for a map of maps: a missing entry reads as an empty map. *)
Definition inner {K A} `{Countable K} (m : gmap K (gmap string A)) (k : K) : gmap string A :=
  default ∅ (m !! k).

Definition put (m : gmap string (gmap string Leg)) (key : string) (l : Leg) :
    gmap string (gmap string Leg) :=
  <[key := <[ID l := l]> (inner m key)]> m.

(** Store an inner map, or drop the entry when it has become empty. *)
Definition store_or_drop {K A} `{Countable K} (k : K) (i : gmap string A)
    (m : gmap K (gmap string A)) : gmap K (gmap string A) :=
  if bool_decide (size i = 0%nat) then delete k m else <[k := i]> m.

Definition del (m : gmap string (gmap string Leg)) (key id : string) :
    gmap string (gmap string Leg) :=
  store_or_drop key (delete id (inner m key)) m.

(** [ix.Add]. *)
Definition ix_Add (ix : Index) (l : Leg) : Index :=
  match byID ix !! ID l with
  | Some _ => ix
  | None =>
      let k := Key l in
      let bySrc := inner (byKey ix) k in
      mkIndex (ttl ix)
        (<[k := <[Source l := <[ID l := l]> (inner bySrc (Source l))]> bySrc]> (byKey ix))
        (put (byRef ix) (TxnRef l) l)
        (let b := attr l AttrBatchRef in
         if bool_decide (b <> "") then put (byBatch ix) b l else byBatch ix)
        (<[ID l := l]> (byID ix))
  end.

(** One iteration of [ix.Remove]'s loop. *)
Definition remove_one (ix : Index) (id : string) : Index :=
  match byID ix !! id with
  | None => ix
  | Some l =>
      let k := Key l in
      let bySrc := inner (byKey ix) k in
      mkIndex (ttl ix)
        (store_or_drop k (store_or_drop (Source l) (delete id (inner bySrc (Source l))) bySrc)
           (byKey ix))
        (del (byRef ix) (TxnRef l) id)
        (let b := attr l AttrBatchRef in
         if bool_decide (b <> "") then del (byBatch ix) b id else byBatch ix)
        (delete id (byID ix))
  end.

Definition ix_Remove (ix : Index) (ids : list string) : Index := foldl remove_one ix ids.

(** [ix.Get]. *)
Definition ix_Get (ix : Index) (id : string) : option Leg := byID ix !! id.

(** ** Order *)

(** [sortLegs]: by value date, then txn_ref, then ID. *)
Definition leg_le (a b : Leg) : Prop :=
  ValueDate a < ValueDate b \/
  (ValueDate a = ValueDate b /\
   (TxnRef a <> TxnRef b /\ String.le (TxnRef a) (TxnRef b) \/
    TxnRef a = TxnRef b /\ String.le (ID a) (ID b))).

#[export] Instance leg_le_dec : RelDecision leg_le.
Proof. intros a b. unfold leg_le. apply _. Defined.

Definition sortLegs (ls : list Leg) : list Leg := merge_sort leg_le ls.

(** ** Queries *)

(** The values of a Go map, in some iteration order. *)
Definition values (m : gmap string Leg) : list Leg := (map_to_list m).*2.

Definition collect (m : gmap string Leg) (keep : Leg -> bool) : list Leg :=
  sortLegs (filter (fun c => keep c = true) (values m)).

Definition Candidates (ix : Index) (l : Leg) : list Leg :=
  sortLegs ('(src, m) ← map_to_list (inner (byKey ix) (Key l));
            if bool_decide (src = Source l) then [] else values m).

Definition CandidatesByRef (ix : Index) (l : Leg) : list Leg :=
  collect (inner (byRef ix) (TxnRef l))
          (fun c => bool_decide (Source c <> Source l) && bool_decide (Key c = Key l)).

Definition SameSourceInWindow (ix : Index) (l : Leg) : list Leg :=
  collect (inner (inner (byKey ix) (Key l)) (Source l)) (fun c => bool_decide (ID c <> ID l)).

Definition ByRef (ix : Index) (l : Leg) : list Leg :=
  collect (inner (byRef ix) (TxnRef l)) (fun c => bool_decide (ID c <> ID l)).

Definition RefLegs (ix : Index) (txnRef : string) : list Leg :=
  collect (inner (byRef ix) txnRef) (fun _ => true).

Definition ByBatch (ix : Index) (l : Leg) (batch : string) : list Leg :=
  collect (inner (byBatch ix) batch)
          (fun c => bool_decide (ID c <> ID l) && bool_decide (Key c = Key l)).

Definition Expired (ix : Index) (now : Time) (olderThan : Duration) : list Leg :=
  let cutoff := if 0 <=? olderThan then Add now (- olderThan) else Add now (- ttl ix) in
  collect (byID ix) (fun c => negb (After (IngestedAt c) cutoff)).

Definition ix_All (ix : Index) : list Leg := collect (byID ix) (fun _ => true).
