(* ===== verification/IndexFacts.v ===== *)
(** * The open-leg index: theorems

    The index keeps four maps in step. The abstract index is just the map of
    open legs by ID; [ix_wf] ties the secondary maps to it, every operation
    preserves it, and under it each query equals a scan of all open legs. *)

From S2P Require Export Index.

(** ** The order *)

#[export] Instance leg_le_total : Total leg_le.
Proof.
  intros a b. unfold leg_le.
  destruct (Z.lt_trichotomy (ValueDate a) (ValueDate b)) as [?|[?|?]]; [by left; left| |by right; left].
  destruct (decide (TxnRef a = TxnRef b)) as [E|E].
  - destruct (total String.le (ID a) (ID b)); naive_solver.
  - destruct (total String.le (TxnRef a) (TxnRef b)); naive_solver.
Qed.

#[export] Instance leg_le_trans : Transitive leg_le.
Proof.
  intros a b c [H1|[E1 H1]] [H2|[E2 H2]]; unfold leg_le; [left; lia..|].
  right. split; [congruence|].
  destruct H1 as [[N1 L1]|[F1 L1]], H2 as [[N2 L2]|[F2 L2]].
  - left. split; [|by trans (TxnRef b)]. intros E. apply N2.
    apply (anti_symm String.le); [done|]. by rewrite <- E.
  - left. rewrite <- F2. by split.
  - left. rewrite F1. by split.
  - right. split; [congruence|by trans (ID b)].
Qed.

Lemma leg_le_antisym a b : leg_le a b -> leg_le b a -> ID a = ID b.
Proof.
  intros [H1|[E1 H1]] [H2|[E2 H2]]; [lia..|].
  destruct H1 as [[N1 L1]|[F1 L1]], H2 as [[N2 L2]|[F2 L2]]; try congruence.
  - exfalso. apply N1. by apply (anti_symm String.le).
  - by apply (anti_symm String.le).
Qed.

(** Distinct legs of the list have distinct IDs. *)
Definition ids_distinct (ls : list Leg) : Prop :=
  forall a b, a ∈ ls -> b ∈ ls -> ID a = ID b -> a = b.

Lemma sortLegs_Permutation ls : sortLegs ls ≡ₚ ls.
Proof. apply merge_sort_Permutation. Qed.

Lemma elem_of_sortLegs l ls : l ∈ sortLegs ls <-> l ∈ ls.
Proof. by rewrite sortLegs_Permutation. Qed.

Lemma sortLegs_sorted ls : StronglySorted leg_le (sortLegs ls).
Proof. apply (StronglySorted_merge_sort leg_le). Qed.

(** The sorted list is canonical: whatever order the map iteration produced,
    and whatever the sorting algorithm. *)
Lemma sortLegs_canonical ls ls' :
  ids_distinct ls -> ls ≡ₚ ls' -> StronglySorted leg_le ls' -> sortLegs ls = ls'.
Proof.
  intros Hd Hp Hs. apply merge_sort_unique; [apply _..| |done|done].
  intros x y Hx Hy H1 H2. apply Hd; [done..|]. by apply leg_le_antisym.
Qed.

Lemma sortLegs_ext ls ls' : ids_distinct ls -> ls ≡ₚ ls' -> sortLegs ls = sortLegs ls'.
Proof.
  intros Hd Hp. apply sortLegs_canonical; [done| |apply sortLegs_sorted].
  by rewrite sortLegs_Permutation.
Qed.

(** ** Maps of legs *)

Definition keyed (m : gmap string Leg) : Prop := forall id l, m !! id = Some l -> ID l = id.

Lemma elem_of_values m l : l ∈ values m <-> exists id, m !! id = Some l.
Proof.
  unfold values. rewrite list_elem_of_fmap. split.
  - intros ([id l'] & -> & H). exists id. by apply elem_of_map_to_list.
  - intros [id H]. exists (id, l). split; [done|]. by apply elem_of_map_to_list.
Qed.

Lemma elem_of_values_keyed m l : keyed m -> l ∈ values m <-> m !! ID l = Some l.
Proof.
  intros Hk. rewrite elem_of_values. split; [|eauto].
  intros [id H]. by rewrite (Hk _ _ H).
Qed.

Lemma NoDup_values m : keyed m -> NoDup (values m).
Proof.
  intros Hk. unfold values. apply NoDup_fmap_2_strong; [|apply NoDup_map_to_list].
  intros [i x] [j y] Hx%elem_of_map_to_list Hy%elem_of_map_to_list Heq. cbn in *. subst.
  by rewrite <- (Hk _ _ Hx), <- (Hk _ _ Hy).
Qed.

Lemma ids_distinct_values m : keyed m -> ids_distinct (values m).
Proof.
  intros Hk a b Ha%elem_of_values_keyed Hb%elem_of_values_keyed E; [|done..].
  rewrite E in Ha. congruence.
Qed.

Lemma ids_distinct_sub ls ls' : ids_distinct ls -> (forall l, l ∈ ls' -> l ∈ ls) -> ids_distinct ls'.
Proof. intros H Hs a b Ha Hb. apply H; auto. Qed.

(** ** The invariant *)

Lemma inner_insert {K A} `{Countable K} (m : gmap K (gmap string A)) k i k' :
  inner (<[k := i]> m) k' = if decide (k = k') then i else inner m k'.
Proof.
  unfold inner. destruct (decide (k = k')) as [->|Hne].
  - by rewrite lookup_insert_eq.
  - by rewrite lookup_insert_ne.
Qed.

Lemma inner_store_or_drop {K A} `{Countable K} (m : gmap K (gmap string A)) k i k' :
  inner (store_or_drop k i m) k' = if decide (k = k') then i else inner m k'.
Proof.
  unfold store_or_drop. case_bool_decide as Hs; [|apply inner_insert].
  apply map_size_empty_inv in Hs as ->. unfold inner. destruct (decide (k = k')) as [->|Hne].
  - by rewrite lookup_delete_eq.
  - by rewrite lookup_delete_ne.
Qed.

Lemma lookup_insert_iff (m : gmap string Leg) id l id' l' : m !! id = None ->
  <[id := l]> m !! id' = Some l' <-> (id' = id /\ l' = l) \/ (m !! id' = Some l').
Proof.
  intros Hn. destruct (decide (id = id')) as [->|Hne].
  - rewrite lookup_insert_eq. naive_solver.
  - rewrite lookup_insert_ne by done. naive_solver.
Qed.

Lemma lookup_delete_iff (m : gmap string Leg) id id' l' :
  delete id m !! id' = Some l' <-> id' <> id /\ m !! id' = Some l'.
Proof. rewrite lookup_delete_Some. naive_solver. Qed.

Definition batch_of (l : Leg) : string := attr l AttrBatchRef.

Record ix_wf (ix : Index) : Prop := {
  wf_keyed : keyed (byID ix);
  wf_byRef : forall r id l,
    inner (byRef ix) r !! id = Some l <-> byID ix !! id = Some l /\ TxnRef l = r;
  wf_byBatch : forall b id l,
    inner (byBatch ix) b !! id = Some l <-> byID ix !! id = Some l /\ batch_of l = b /\ b <> "";
  wf_byKey : forall k s id l,
    inner (inner (byKey ix) k) s !! id = Some l <->
    byID ix !! id = Some l /\ Key l = k /\ Source l = s;
  (* no empty entry is left behind *)
  wf_byRef_ne : forall r m, byRef ix !! r = Some m -> m <> ∅;
  wf_byBatch_ne : forall b m, byBatch ix !! b = Some m -> m <> ∅;
  wf_byKey_ne : forall k m, byKey ix !! k = Some m -> m <> ∅ /\ forall s m', m !! s = Some m' -> m' <> ∅
}.

Lemma NewIndex_wf t : ix_wf (NewIndex t).
Proof. constructor; unfold keyed, inner; cbn; intros; simplify_map_eq; naive_solver. Qed.

Lemma put_ne m key l : (forall r i, m !! r = Some i -> i <> ∅) ->
  forall r i, put m key l !! r = Some i -> i <> ∅.
Proof.
  intros Hm r i. unfold put. rewrite lookup_insert_Some.
  intros [[-> <-]|[_ H]]; [apply insert_non_empty|by eapply Hm].
Qed.

Lemma store_or_drop_ne {K A} `{Countable K} (m : gmap K (gmap string A)) k i :
  (forall r j, m !! r = Some j -> j <> ∅) ->
  forall r j, store_or_drop k i m !! r = Some j -> j <> ∅.
Proof.
  intros Hm r j. unfold store_or_drop. case_bool_decide as Hs.
  - rewrite lookup_delete_Some. intros [_ Hj]. by eapply Hm.
  - rewrite lookup_insert_Some. intros [[-> <-]|[_ Hj]]; [|by eapply Hm].
    intros ->. by rewrite map_size_empty in Hs.
Qed.

(** ** The operations preserve the invariant *)

Definition fresh (ix : Index) (l : Leg) : Prop := byID ix !! ID l = None.

Lemma ix_Add_byID ix l : fresh ix l -> byID (ix_Add ix l) = <[ID l := l]> (byID ix).
Proof. unfold fresh, ix_Add. by intros ->. Qed.

Lemma ix_Add_known ix l : ~ fresh ix l -> ix_Add ix l = ix.
Proof. unfold fresh, ix_Add. by destruct (byID ix !! ID l). Qed.

Lemma ix_Add_ttl ix l : ttl (ix_Add ix l) = ttl ix.
Proof. unfold ix_Add. by destruct (byID ix !! ID l). Qed.

Lemma inner_put m key l k :
  inner (put m key l) k = if decide (key = k) then <[ID l := l]> (inner m key) else inner m k.
Proof. apply inner_insert. Qed.

Lemma inner_del m key id k :
  inner (del m key id) k = if decide (key = k) then delete id (inner m key) else inner m k.
Proof. apply inner_store_or_drop. Qed.

(** One secondary map indexing by [f] stays in step when a leg is added. *)
Lemma index_insert {K} `{EqDecision K} (m : gmap string Leg) (i i' : K -> gmap string Leg)
    (f : Leg -> K) (ok : K -> Prop) l :
  m !! ID l = None -> ok (f l) ->
  (forall k id x, i k !! id = Some x <-> m !! id = Some x /\ f x = k /\ ok k) ->
  (forall k, i' k = if decide (f l = k) then <[ID l := l]> (i (f l)) else i k) ->
  forall k id x, i' k !! id = Some x <-> <[ID l := l]> m !! id = Some x /\ f x = k /\ ok k.
Proof.
  intros Hn Hok Hi Hi' k id x. rewrite Hi', lookup_insert_iff by done.
  destruct (decide (f l = k)) as [<-|Hne].
  - rewrite lookup_insert_iff; [rewrite Hi; naive_solver|].
    destruct (i (f l) !! ID l) as [y|] eqn:E; [|done]. apply Hi in E. naive_solver.
  - rewrite Hi. naive_solver.
Qed.

(** ... and when one is removed. *)
Lemma index_delete {K} `{EqDecision K} (m : gmap string Leg) (i i' : K -> gmap string Leg)
    (f : Leg -> K) (ok : K -> Prop) id0 l :
  m !! id0 = Some l ->
  (forall k id x, i k !! id = Some x <-> m !! id = Some x /\ f x = k /\ ok k) ->
  (forall k, i' k = if decide (f l = k) then delete id0 (i (f l)) else i k) ->
  forall k id x, i' k !! id = Some x <-> delete id0 m !! id = Some x /\ f x = k /\ ok k.
Proof.
  intros Hl Hi Hi' k id x. rewrite Hi', lookup_delete_iff.
  destruct (decide (f l = k)) as [<-|Hne].
  - rewrite lookup_delete_iff, Hi. naive_solver.
  - rewrite Hi. split; [|naive_solver]. intros (H1 & H2 & H3). split; [|done].
    split; [|done]. intros ->. congruence.
Qed.

(** The secondary index by window and source, seen as one map on pairs. *)
Definition by_win (ix : Index) (p : WindowKey * string) : gmap string Leg :=
  inner (inner (byKey ix) p.1) p.2.

Lemma wf_by_win ix : ix_wf ix -> forall p id l,
  by_win ix p !! id = Some l <-> byID ix !! id = Some l /\ (Key l, Source l) = p /\ True.
Proof. intros Hwf [k s] id l. unfold by_win. rewrite (wf_byKey _ Hwf). naive_solver. Qed.

Lemma ix_Add_wf ix l : ix_wf ix -> ix_wf (ix_Add ix l).
Proof.
  intros Hwf. destruct (byID ix !! ID l) eqn:Hn; [by rewrite ix_Add_known by (by unfold fresh; rewrite Hn)|].
  unfold ix_Add. rewrite Hn. constructor; cbn [byID byRef byBatch byKey].
  - intros id x [[-> ->]|H]%lookup_insert_iff; [done| |done]. by apply (wf_keyed _ Hwf).
  - intros r id x.
    rewrite (index_insert (byID ix) (inner (byRef ix)) _ TxnRef (fun _ => True) l); try done.
    + naive_solver.
    + intros. rewrite (wf_byRef _ Hwf). naive_solver.
    + intros k. apply inner_put.
  - intros b id x. case_bool_decide as Hb.
    + apply (index_insert (byID ix) (inner (byBatch ix)) _ batch_of (fun b => b <> "") l); try done.
      * apply (wf_byBatch _ Hwf).
      * intros k. apply inner_put.
    + rewrite (wf_byBatch _ Hwf), lookup_insert_iff by done. unfold batch_of. naive_solver.
  - intros k s id x.
    change (inner (inner ?m k) s) with ((fun p => inner (inner m p.1) p.2) (k, s)).
    rewrite (index_insert (byID ix) (by_win ix) _ (fun l => (Key l, Source l)) (fun _ => True) l);
      try done; [naive_solver|apply (wf_by_win _ Hwf)|].
    intros [k' s']. unfold by_win. cbn. rewrite inner_insert.
    destruct (decide (Key l = k')) as [<-|Hne]; [rewrite inner_insert|];
      repeat case_decide; naive_solver.
  - apply put_ne, (wf_byRef_ne _ Hwf).
  - case_bool_decide; [apply put_ne|]; apply (wf_byBatch_ne _ Hwf).
  - intros k m. rewrite lookup_insert_Some. intros [[<- <-]|[_ H]]; [|by eapply (wf_byKey_ne _ Hwf)].
    split; [apply insert_non_empty|]. intros s m'. rewrite lookup_insert_Some.
    intros [[<- <-]|[_ H]]; [apply insert_non_empty|].
    unfold inner in H. destruct (byKey ix !! Key l) as [j|] eqn:E; [|done].
    by eapply (wf_byKey_ne _ Hwf).
Qed.

Lemma remove_one_byID ix id : byID (remove_one ix id) = delete id (byID ix).
Proof.
  unfold remove_one. destruct (byID ix !! id) eqn:E; [done|]. by rewrite delete_id.
Qed.

Lemma remove_one_ttl ix id : ttl (remove_one ix id) = ttl ix.
Proof. unfold remove_one. by destruct (byID ix !! id). Qed.

Lemma remove_one_wf ix id : ix_wf ix -> ix_wf (remove_one ix id).
Proof.
  intros Hwf. unfold remove_one. destruct (byID ix !! id) as [l|] eqn:Hl; [|done].
  constructor; cbn [byID byRef byBatch byKey].
  - intros id' x [_ H]%lookup_delete_iff. by apply (wf_keyed _ Hwf).
  - intros r id' x.
    rewrite (index_delete (byID ix) (inner (byRef ix)) _ TxnRef (fun _ => True) id l); try done.
    + naive_solver.
    + intros. rewrite (wf_byRef _ Hwf). naive_solver.
    + intros k. apply inner_del.
  - intros b id' x. case_bool_decide as Hb.
    + apply (index_delete (byID ix) (inner (byBatch ix)) _ batch_of (fun b => b <> "") id l); try done.
      * apply (wf_byBatch _ Hwf).
      * intros k. apply inner_del.
    + rewrite (wf_byBatch _ Hwf), lookup_delete_iff. unfold batch_of in *. naive_solver.
  - intros k s id' x.
    change (inner (inner ?m k) s) with ((fun p => inner (inner m p.1) p.2) (k, s)).
    rewrite (index_delete (byID ix) (by_win ix) _ (fun l => (Key l, Source l)) (fun _ => True) id l);
      try done; [naive_solver|apply (wf_by_win _ Hwf)|].
    intros [k' s']. unfold by_win. cbn. rewrite inner_store_or_drop.
    destruct (decide (Key l = k')) as [<-|Hne]; [rewrite inner_store_or_drop|];
      repeat case_decide; naive_solver.
  - apply store_or_drop_ne, (wf_byRef_ne _ Hwf).
  - case_bool_decide; [apply store_or_drop_ne|]; apply (wf_byBatch_ne _ Hwf).
  - intros k m Hk. split.
    + revert Hk. apply store_or_drop_ne. intros k' m' H. by eapply (wf_byKey_ne _ Hwf).
    + assert (forall s m', inner (byKey ix) (Key l) !! s = Some m' -> m' <> ∅) as Hin.
      { intros s m' H'. unfold inner in H'. destruct (byKey ix !! Key l) as [j|] eqn:E; [|done].
        by eapply (wf_byKey_ne _ Hwf). }
      revert Hk. unfold store_or_drop at 1. case_bool_decide.
      * intros [_ H']%lookup_delete_Some. by eapply (wf_byKey_ne _ Hwf).
      * rewrite lookup_insert_Some. intros [[_ <-]|[_ H']]; [|by eapply (wf_byKey_ne _ Hwf)].
        by apply store_or_drop_ne.
Qed.

Lemma ix_Remove_wf ix ids : ix_wf ix -> ix_wf (ix_Remove ix ids).
Proof.
  unfold ix_Remove. revert ix. induction ids as [|id ids IH]; intros ix Hwf; cbn; [done|].
  by apply IH, remove_one_wf.
Qed.

Lemma ix_Remove_ttl ix ids : ttl (ix_Remove ix ids) = ttl ix.
Proof.
  unfold ix_Remove. revert ix. induction ids as [|id ids IH]; intros ix; cbn; [done|].
  by rewrite IH, remove_one_ttl.
Qed.

Lemma ix_Remove_lookup ix ids id :
  byID (ix_Remove ix ids) !! id = if decide (id ∈ ids) then None else byID ix !! id.
Proof.
  unfold ix_Remove. revert ix. induction ids as [|i ids IH]; intros ix; cbn [foldl].
  - by rewrite decide_False by apply not_elem_of_nil.
  - rewrite IH, remove_one_byID. destruct (decide (id ∈ ids)) as [H|H].
    + by rewrite decide_True by (by right).
    + destruct (decide (id = i)) as [->|Hne].
      * rewrite lookup_delete_eq, decide_True by left. done.
      * rewrite lookup_delete_ne by done. rewrite decide_False; [done|].
        by intros [?|?]%elem_of_cons.
Qed.

(** ** The index is determined by its open legs *)

Lemma inner_ext {K A} `{Countable K} (m1 m2 : gmap K (gmap string A)) :
  (forall k i, m1 !! k = Some i -> i <> ∅) -> (forall k i, m2 !! k = Some i -> i <> ∅) ->
  (forall k, inner m1 k = inner m2 k) -> m1 = m2.
Proof.
  intros H1 H2 Heq. apply map_eq. intros k. specialize (Heq k). unfold inner in Heq.
  destruct (m1 !! k) as [i1|] eqn:E1, (m2 !! k) as [i2|] eqn:E2; cbn in Heq; subst; try done.
  - by apply H1 in E1.
  - by apply H2 in E2.
Qed.

Lemma map_eq_iff (m1 m2 : gmap string Leg) :
  (forall id l, m1 !! id = Some l <-> m2 !! id = Some l) -> m1 = m2.
Proof.
  intros H. apply map_eq. intros id. apply option_eq. intros l. apply H.
Qed.

Lemma inner_byKey_ne ix k : ix_wf ix -> forall s m, inner (byKey ix) k !! s = Some m -> m <> ∅.
Proof.
  intros Hwf s m. unfold inner. destruct (byKey ix !! k) as [j|] eqn:E; [|done].
  by eapply (wf_byKey_ne _ Hwf).
Qed.

(** Two well-formed indexes over the same open legs are the same index. *)
Lemma ix_wf_ext ix1 ix2 : ix_wf ix1 -> ix_wf ix2 -> ttl ix1 = ttl ix2 -> byID ix1 = byID ix2 ->
  ix1 = ix2.
Proof.
  intros H1 H2 Ht Hb. destruct ix1 as [t1 k1 r1 b1 i1] eqn:E1, ix2 as [t2 k2 r2 b2 i2] eqn:E2.
  cbn in Ht, Hb. subst t2 i2. f_equal.
  - apply inner_ext; [apply (wf_byKey_ne _ H1)|apply (wf_byKey_ne _ H2)|].
    intros k. apply inner_ext; [apply (inner_byKey_ne _ k H1)|apply (inner_byKey_ne _ k H2)|].
    intros s. apply map_eq_iff. intros id l.
    rewrite (wf_byKey _ H1 k s), (wf_byKey _ H2 k s). done.
  - apply inner_ext; [apply (wf_byRef_ne _ H1)|apply (wf_byRef_ne _ H2)|].
    intros k. apply map_eq_iff. intros id l. rewrite (wf_byRef _ H1 k), (wf_byRef _ H2 k). done.
  - apply inner_ext; [apply (wf_byBatch_ne _ H1)|apply (wf_byBatch_ne _ H2)|].
    intros k. apply map_eq_iff. intros id l. rewrite (wf_byBatch _ H1 k), (wf_byBatch _ H2 k). done.
Qed.

Lemma ix_Remove_Add_aux ix l : ix_wf ix -> fresh ix l -> ix_Remove (ix_Add ix l) [ID l] = ix.
Proof.
  intros Hwf Hf. apply ix_wf_ext; [by apply ix_Remove_wf, ix_Add_wf|done| |].
  - by rewrite ix_Remove_ttl, ix_Add_ttl.
  - cbn. rewrite remove_one_byID, ix_Add_byID by done. by apply delete_insert_id.
Qed.

(** ** Queries are scans of the open legs *)

Lemma elem_of_collect m keep l : l ∈ collect m keep <-> l ∈ values m /\ keep l = true.
Proof. unfold collect. rewrite elem_of_sortLegs, list_elem_of_filter. tauto. Qed.

Lemma collect_scan (m all : gmap string Leg) keep keep' :
  keyed all -> keyed m ->
  (forall l, m !! ID l = Some l /\ keep l = true <-> all !! ID l = Some l /\ keep' l = true) ->
  collect m keep = collect all keep'.
Proof.
  intros Ha Hm Heq. unfold collect. apply sortLegs_ext.
  - eapply ids_distinct_sub; [by apply (ids_distinct_values m)|].
    intros l [_ H]%list_elem_of_filter. done.
  - apply NoDup_Permutation; [by apply NoDup_filter, NoDup_values..|].
    intros l. rewrite !list_elem_of_filter, !elem_of_values_keyed by done.
    rewrite (and_comm (keep l = true)), (and_comm (keep' l = true)). apply Heq.
Qed.

Section Queries.
Context (ix : Index) (Hwf : ix_wf ix).

Lemma keyed_sub (m : gmap string Leg) :
  (forall id l, m !! id = Some l -> byID ix !! id = Some l) -> keyed m.
Proof. intros H id l Hl. by apply (wf_keyed _ Hwf), H. Qed.

Lemma CandidatesByRef_scan l :
  CandidatesByRef ix l = collect (byID ix) (fun c =>
    bool_decide (TxnRef c = TxnRef l) && (bool_decide (Source c <> Source l) && bool_decide (Key c = Key l))).
Proof.
  apply collect_scan; [apply (wf_keyed _ Hwf)| |].
  - apply keyed_sub. intros id c. rewrite (wf_byRef _ Hwf). naive_solver.
  - intros c. rewrite (wf_byRef _ Hwf), (andb_true_iff (bool_decide (TxnRef c = _))), bool_decide_eq_true.
    tauto.
Qed.

Lemma RefLegs_scan r :
  RefLegs ix r = collect (byID ix) (fun c => bool_decide (TxnRef c = r)).
Proof.
  apply collect_scan; [apply (wf_keyed _ Hwf)| |].
  - apply keyed_sub. intros id c. rewrite (wf_byRef _ Hwf). naive_solver.
  - intros c. rewrite (wf_byRef _ Hwf), bool_decide_eq_true. tauto.
Qed.

Lemma ByRef_scan l :
  ByRef ix l = collect (byID ix) (fun c =>
    bool_decide (TxnRef c = TxnRef l) && bool_decide (ID c <> ID l)).
Proof.
  apply collect_scan; [apply (wf_keyed _ Hwf)| |].
  - apply keyed_sub. intros id c. rewrite (wf_byRef _ Hwf). naive_solver.
  - intros c. rewrite (wf_byRef _ Hwf), andb_true_iff, !bool_decide_eq_true. tauto.
Qed.

Lemma ByBatch_scan l b :
  ByBatch ix l b = collect (byID ix) (fun c =>
    bool_decide (batch_of c = b /\ b <> "") && (bool_decide (ID c <> ID l) && bool_decide (Key c = Key l))).
Proof.
  apply collect_scan; [apply (wf_keyed _ Hwf)| |].
  - apply keyed_sub. intros id c. rewrite (wf_byBatch _ Hwf). naive_solver.
  - intros c. rewrite (wf_byBatch _ Hwf), (andb_true_iff (bool_decide (_ /\ _))), bool_decide_eq_true.
    tauto.
Qed.

Lemma SameSourceInWindow_scan l :
  SameSourceInWindow ix l = collect (byID ix) (fun c =>
    bool_decide (Key c = Key l /\ Source c = Source l) && bool_decide (ID c <> ID l)).
Proof.
  apply collect_scan; [apply (wf_keyed _ Hwf)| |].
  - apply keyed_sub. intros id c. rewrite (wf_byKey _ Hwf). naive_solver.
  - intros c. rewrite (wf_byKey _ Hwf), andb_true_iff, !bool_decide_eq_true. tauto.
Qed.

Lemma elem_of_Candidates l c :
  c ∈ Candidates ix l <-> byID ix !! ID c = Some c /\ Key c = Key l /\ Source c <> Source l.
Proof.
  unfold Candidates. rewrite elem_of_sortLegs, list_elem_of_bind. split.
  - intros ([src m] & Hc & Hm%elem_of_map_to_list). case_bool_decide as Hs.
    { by apply not_elem_of_nil in Hc. }
    apply elem_of_values in Hc as [id Hid].
    assert (inner (inner (byKey ix) (Key l)) src !! id = Some c) as H
      by (unfold inner at 1; by rewrite Hm).
    apply (wf_byKey _ Hwf) in H as (Hb & Hk & <-). split; [|done].
    by rewrite (wf_keyed _ Hwf _ _ Hb).
  - intros (Hb & Hk & Hs).
    assert (inner (inner (byKey ix) (Key l)) (Source c) !! ID c = Some c) as H
      by (by apply (wf_byKey _ Hwf)).
    unfold inner at 1 in H. destruct (inner (byKey ix) (Key l) !! Source c) as [m|] eqn:E; [|done].
    exists (Source c, m). rewrite bool_decide_eq_false_2 by done. split.
    + apply elem_of_values. by exists (ID c).
    + by apply elem_of_map_to_list.
Qed.

Lemma NoDup_window k src :
  NoDup ('(s, m) ← map_to_list (inner (byKey ix) k);
         if bool_decide (s = src) then [] else values m).
Proof.
  assert (forall s m, (s, m) ∈ map_to_list (inner (byKey ix) k) ->
    forall id c, m !! id = Some c -> byID ix !! id = Some c /\ Key c = k /\ Source c = s) as Hm.
  { intros s m H%elem_of_map_to_list id c Hc. apply (wf_byKey _ Hwf). unfold inner at 1. by rewrite H. }
  pose proof (NoDup_fst_map_to_list (inner (byKey ix) k)) as Hnd. revert Hm Hnd.
  generalize (map_to_list (inner (byKey ix) k)) as ps. induction ps as [|[s m] ps IH]; intros Hm Hnd.
  { constructor. }
  cbn in Hnd |- *. apply NoDup_cons in Hnd as [Hs Hnd].
  assert (forall s' m', (s', m') ∈ ps -> (s', m') ∈ (s, m) :: ps) as Hfur by (intros; by right).
  case_bool_decide; cbn; [by eauto|]. apply NoDup_app. split_and!.
  - apply NoDup_values, keyed_sub. intros id c Hc. eapply Hm; [by left|done].
  - intros c [id Hc]%elem_of_values ([s' m'] & Hc' & Hin)%list_elem_of_bind.
    case_bool_decide; [by apply not_elem_of_nil in Hc'|].
    apply elem_of_values in Hc' as [id' Hc'].
    apply Hs. apply list_elem_of_fmap. exists (s', m'). split; [|done]. cbn.
    destruct (Hm s m (list_elem_of_here _ _) _ _ Hc) as (_ & _ & <-).
    by destruct (Hm s' m' (Hfur _ _ Hin) _ _ Hc') as (_ & _ & <-).
  - by eauto.
Qed.

Lemma Candidates_scan l :
  Candidates ix l = collect (byID ix) (fun c =>
    bool_decide (Key c = Key l) && bool_decide (Source c <> Source l)).
Proof.
  assert (forall c, c ∈ Candidates ix l <->
    c ∈ filter (fun c => bool_decide (Key c = Key l) && bool_decide (Source c <> Source l) = true)
               (values (byID ix))) as Hin.
  { intros c. rewrite elem_of_Candidates, list_elem_of_filter, andb_true_iff, !bool_decide_eq_true.
    rewrite elem_of_values_keyed by apply (wf_keyed _ Hwf). tauto. }
  unfold Candidates, collect in *. symmetry. apply sortLegs_ext.
  - eapply ids_distinct_sub; [apply (ids_distinct_values (byID ix)), (wf_keyed _ Hwf)|].
    intros c [_ H]%list_elem_of_filter. done.
  - apply NoDup_Permutation.
    + apply NoDup_filter, NoDup_values, (wf_keyed _ Hwf).
    + apply NoDup_window.
    + intros c. by rewrite <- Hin, elem_of_sortLegs.
Qed.

(** Expiry, against the TTL or an override. *)
Lemma elem_of_Expired now older c :
  c ∈ Expired ix now older <->
  byID ix !! ID c = Some c /\ IngestedAt c <= now - (if 0 <=? older then older else ttl ix).
Proof.
  unfold Expired. rewrite elem_of_collect, elem_of_values_keyed by apply (wf_keyed _ Hwf).
  unfold After, Add. destruct (0 <=? older); rewrite negb_true_iff, Z.ltb_ge;
    apply and_iff_compat_aux_l; intros _; lia.
Qed.

Lemma elem_of_All c : c ∈ ix_All ix <-> byID ix !! ID c = Some c.
Proof.
  unfold ix_All. rewrite elem_of_collect, elem_of_values_keyed by apply (wf_keyed _ Hwf). tauto.
Qed.
End Queries.

(** Every query returns a strictly increasing list of distinct legs, so its
    result is a function of the open legs alone. *)
Lemma collect_NoDup m keep : keyed m -> NoDup (collect m keep).
Proof.
  intros Hk. unfold collect. rewrite sortLegs_Permutation. by apply NoDup_filter, NoDup_values.
Qed.

(** ** The index after a sequence of operations *)

Inductive ix_op : Type := OpAdd (l : Leg) | OpRemove (ids : list string).

Definition ix_step (ix : Index) (o : ix_op) : Index :=
  match o with OpAdd l => ix_Add ix l | OpRemove ids => ix_Remove ix ids end.

Lemma ix_step_wf ix o : ix_wf ix -> ix_wf (ix_step ix o).
Proof. destruct o; [apply ix_Add_wf|apply ix_Remove_wf]. Qed.

Lemma ix_run_wf t ops : ix_wf (foldl ix_step (NewIndex t) ops).
Proof.
  generalize (NewIndex_wf t). generalize (NewIndex t). induction ops as [|o ops IH]; intros ix H; cbn; [done|].
  by apply IH, ix_step_wf.
Qed.

(** The open legs after the operations: the specification of the index. *)
Definition open_step (m : gmap string Leg) (o : ix_op) : gmap string Leg :=
  match o with
  | OpAdd l => match m !! ID l with Some _ => m | None => <[ID l := l]> m end
  | OpRemove ids => foldl (fun m id => delete id m) m ids
  end.

Lemma ix_Remove_byID ix ids : byID (ix_Remove ix ids) = foldl (fun m id => delete id m) (byID ix) ids.
Proof.
  unfold ix_Remove. revert ix. induction ids as [|id ids IH]; intros ix; cbn; [done|].
  by rewrite IH, remove_one_byID.
Qed.

Lemma ix_step_open ix o : byID (ix_step ix o) = open_step (byID ix) o.
Proof.
  destruct o as [l|ids]; cbn; [|apply ix_Remove_byID].
  unfold ix_Add. by destruct (byID ix !! ID l).
Qed.

Lemma ix_run_open t ops : byID (foldl ix_step (NewIndex t) ops) = foldl open_step ∅ ops.
Proof.
  assert (forall ix m, byID ix = m -> byID (foldl ix_step ix ops) = foldl open_step m ops) as H.
  { induction ops as [|o ops IH]; intros ix m Hm; cbn; [done|]. apply IH. by rewrite ix_step_open, Hm. }
  by apply H.
Qed.
