(* ===== verification/SubsetSum.v ===== *)
(** * Bounded subset sum

    [subsetSum] of internal/domain/recon/matcher.go: the depth-first search
    behind tier 3, its node budget included, and its equivalence with the
    first hit of a plain enumeration. *)

From S2P Require Export IndexFacts.

Definition abs64 (x : Z) : Z := if x <? 0 then neg64 x else x.

(** [sorted[i].AmountMinor > sorted[j].AmountMinor], as a stable sort's order. *)
Definition amount_ge (a b : Leg) : Prop := AmountMinor b <= AmountMinor a.
#[export] Instance amount_ge_dec : RelDecision amount_ge.
Proof. intros a b. unfold amount_ge. apply _. Defined.
#[export] Instance amount_ge_trans : Transitive amount_ge.
Proof. intros a b c. unfold amount_ge. lia. Qed.
#[export] Instance amount_ge_total : Total amount_ge.
Proof. intros a b. unfold amount_ge. lia. Qed.

(** The hard cap on explored nodes. *)
Definition node_budget : Z := 200000.

Section Search.
Context (tol minSize maxSize : Z).

(** The closure's variables: the result, the stack [out] and the budget. *)
Definition search_state : Type := bool * list Leg * Z.

(** The body of [dfs] up to its loop, which is the argument [loop]. *)
Definition visit (loop : Z -> Z -> list Leg -> Z -> search_state)
    (remaining depth : Z) (out : list Leg) (budget : Z) : search_state :=
  if budget <=? 0 then (false, out, budget)
  else
    let budget := budget - 1 in
    if (minSize <=? depth) && (abs64 remaining <=? tol) then (true, out, budget)
    else if depth =? maxSize then (false, out, budget)
    else loop remaining depth out budget.

(** The loop of [dfs] over [sorted[i:]]; the recursive call searches the
    legs after the chosen one. *)
Fixpoint dfs_loop (rest : list Leg) (remaining depth : Z) (out : list Leg) (budget : Z)
    : search_state :=
  match rest with
  | [] => (false, out, budget)
  | c :: rest' =>
      let a := AmountMinor c in
      if add64 remaining tol <? a then dfs_loop rest' remaining depth out budget
      else
        let '(found, out', budget') :=
          visit (dfs_loop rest') (sub64 remaining a) (depth + 1) (out ++ [c]) budget in
        if found then (true, out', budget')
        else dfs_loop rest' remaining depth (take (length out' - 1) out') budget'
  end.

Definition dfs (rest : list Leg) : Z -> Z -> list Leg -> Z -> search_state :=
  visit (dfs_loop rest).
End Search.

Definition subsetSum (pool : list Leg) (target tol minSize maxSize : Z) : option (list Leg) :=
  if (maxSize <=? 0) || bool_decide (length pool = 0%nat) then None
  else
    let sorted := stable_sort amount_ge pool in
    match dfs tol minSize maxSize sorted target 0 [] node_budget with
    | (true, out, _) => Some out
    | (false, _, _) => None
    end.

(** ** The reference: the first hit of an enumeration *)

(** The non-empty sublists of at most [d] elements, depth first. *)
Fixpoint preorder (d : nat) (l : list Leg) : list (list Leg) :=
  match l with
  | [] => []
  | c :: l' =>
      match d with
      | O => []
      | S d' => (cons c <$> [] :: preorder d' l') ++ preorder d l'
      end
  end.

Fixpoint sum_amounts (ls : list Leg) : Z :=
  match ls with [] => 0 | l :: ls' => AmountMinor l + sum_amounts ls' end.

Definition hit (tol minSize remaining depth : Z) (s : list Leg) : bool :=
  (minSize <=? depth + Z.of_nat (length s)) && (Z.abs (remaining - sum_amounts s) <=? tol).

Definition first_hit (pool : list Leg) (target tol minSize maxSize : Z) : option (list Leg) :=
  if (maxSize <=? 0) || bool_decide (length pool = 0%nat) then None
  else List.find (hit tol minSize target 0)
         ([] :: preorder (Z.to_nat maxSize) (stable_sort amount_ge pool)).

(** The size of the search tree below a loop over [n] legs with [d] levels to
    go: the sum of [n choose j] for [j] from 1 to [d]. *)
Fixpoint nodes (d n : nat) : Z :=
  match n with
  | O => 0
  | S n' => match d with
            | O => 0
            | S d' => 1 + nodes d' n' + nodes d n'
            end
  end.

Definition positive_amounts (ls : list Leg) : Prop := Forall (fun l => 0 < AmountMinor l) ls.

(** ** Facts about the enumeration *)

Lemma preorder_O l : preorder 0 l = [].
Proof. by destruct l. Qed.

Lemma preorder_length d l : Z.of_nat (length (preorder d l)) = nodes d (length l).
Proof.
  revert d. induction l as [|c l IH]; intros d; [done|].
  destruct d as [|d]; [done|]. cbn [preorder nodes length].
  rewrite length_app, length_fmap. cbn [length]. rewrite <- !IH. lia.
Qed.

Lemma nodes_nonneg d n : 0 <= nodes d n.
Proof.
  revert d. induction n as [|n IH]; intros [|d]; cbn; [lia..|].
  pose proof (IH d). pose proof (IH (S d)). lia.
Qed.

Lemma nodes_mono d d' n n' : (d <= d')%nat -> (n <= n')%nat -> nodes d n <= nodes d' n'.
Proof.
  revert d d' n'. induction n as [|n IH]; intros d d' n' Hd Hn; [apply nodes_nonneg|].
  destruct n' as [|n']; [lia|]. destruct d as [|d]; [apply nodes_nonneg|].
  destruct d' as [|d']; [lia|]. cbn [nodes].
  pose proof (IH d d' n'). pose proof (IH (S d) (S d') n'). lia.
Qed.

(** The enumeration holds exactly the non-empty sublists of bounded size. *)
Lemma elem_of_preorder d l s :
  s ∈ preorder d l <-> s <> [] /\ sublist s l /\ (length s <= d)%nat.
Proof.
  revert d s. induction l as [|c l IH]; intros d s.
  - cbn. rewrite elem_of_nil. split; [done|]. intros (Hs & Hsub%sublist_nil_r & _). done.
  - destruct d as [|d]; cbn [preorder].
    { rewrite elem_of_nil. split; [done|]. intros (Hs & _ & Hl). by destruct s; cbn in *; [|lia]. }
    rewrite elem_of_app, list_elem_of_fmap, IH. split.
    + intros [(s' & -> & [->|Hin]%elem_of_cons)|(? & ? & ?)].
      * split; [done|]. split; [|cbn; lia]. apply sublist_skip, sublist_nil_l.
      * apply IH in Hin as (_ & Hsub & Hl). split; [done|]. split; [by apply sublist_skip|cbn; lia].
      * split; [done|]. split; [by apply sublist_cons|done].
    + intros (Hne & Hsub & Hl). inversion Hsub as [|x s' l' Hs'|x s' l' Hs']; subst.
      * left. exists s'. split; [done|]. destruct s' as [|y s']; [left|]. right. apply IH.
        split; [done|]. split; [done|cbn in *; lia].
      * by right.
Qed.

Lemma find_Some_elem {A} (f : A -> bool) l x : List.find f l = Some x -> x ∈ l /\ f x = true.
Proof. intros [H1 H2]%find_some. by rewrite list_elem_of_In. Qed.

Lemma find_None_elem {A} (f : A -> bool) l x : List.find f l = None -> x ∈ l -> f x = false.
Proof. intros H Hx. apply (find_none _ _ H). by apply list_elem_of_In. Qed.

Lemma find_app {A} (f : A -> bool) l1 l2 :
  List.find f (l1 ++ l2) = match List.find f l1 with Some x => Some x | None => List.find f l2 end.
Proof. induction l1 as [|x l1 IH]; cbn; [done|]. by destruct (f x). Qed.

Lemma find_map {A B} (g : A -> B) (f : B -> bool) l :
  List.find f (g <$> l) = g <$> List.find (fun x => f (g x)) l.
Proof. induction l as [|x l IH]; cbn; [done|]. by destruct (f (g x)). Qed.

Lemma find_ext {A} (f g : A -> bool) l : (forall x, f x = g x) -> List.find f l = List.find g l.
Proof. intros H. induction l as [|x l IH]; cbn; [done|]. by rewrite H, IH. Qed.

Lemma find_none_iff {A} (f : A -> bool) l : (forall x, x ∈ l -> f x = false) -> List.find f l = None.
Proof.
  induction l as [|x l IH]; intros H; cbn; [done|]. rewrite H by left. apply IH.
  intros y Hy. apply H. by right.
Qed.

Lemma sum_amounts_nonneg ls : positive_amounts ls -> 0 <= sum_amounts ls.
Proof. induction 1; cbn in *; lia. Qed.

Lemma sublist_positive s l : sublist s l -> positive_amounts l -> positive_amounts s.
Proof.
  unfold positive_amounts. rewrite !Forall_forall. intros Hs H x Hx. apply H.
  by apply (sublist_subseteq _ _ Hs).
Qed.

(** ** The search is the enumeration's first hit *)

Section Correct.
Context (tol minSize : Z) (maxSize : nat) (T : Z).
Context (Htol : 0 <= tol < 2 ^ 63) (Hrange : T + tol < 2 ^ 63).

Lemma abs64_abs x : - 2 ^ 63 < x < 2 ^ 63 -> abs64 x = Z.abs x.
Proof. intros H. unfold abs64. destruct (Z.ltb_spec x 0); unwrap64; lia. Qed.

(** What is left to reach: above [-tol] because of the pruning. *)
Definition rem_ok (remaining : Z) : Prop := - tol <= remaining <= T.

(** The search below a loop answers like [find] on the enumeration, provided
    the budget covers it, and uses at most one unit of budget per node. *)
Definition loop_spec (rest : list Leg) : Prop := forall d remaining out budget,
  (d < maxSize)%nat -> rem_ok remaining -> nodes (maxSize - d) (length rest) <= budget ->
  match List.find (hit tol minSize remaining (Z.of_nat d)) (preorder (maxSize - d) rest) with
  | Some s => exists b, dfs_loop tol minSize (Z.of_nat maxSize) rest remaining (Z.of_nat d) out budget
                        = (true, out ++ s, b)
  | None => exists b, dfs_loop tol minSize (Z.of_nat maxSize) rest remaining (Z.of_nat d) out budget
                      = (false, out, b) /\ budget - nodes (maxSize - d) (length rest) <= b
  end.

Definition visit_spec (rest : list Leg) : Prop := forall d remaining out budget,
  (d <= maxSize)%nat -> rem_ok remaining -> 1 + nodes (maxSize - d) (length rest) <= budget ->
  match List.find (hit tol minSize remaining (Z.of_nat d)) ([] :: preorder (maxSize - d) rest) with
  | Some s => exists b, dfs tol minSize (Z.of_nat maxSize) rest remaining (Z.of_nat d) out budget
                        = (true, out ++ s, b)
  | None => exists b, dfs tol minSize (Z.of_nat maxSize) rest remaining (Z.of_nat d) out budget
                      = (false, out, b) /\ budget - (1 + nodes (maxSize - d) (length rest)) <= b
  end.

Lemma visit_correct rest : loop_spec rest -> visit_spec rest.
Proof.
  intros Hloop d remaining out budget Hd Hrem Hb. unfold dfs, visit. cbn [List.find].
  pose proof (nodes_nonneg (maxSize - d) (length rest)).
  rewrite (proj2 (Z.leb_gt budget 0)) by lia. cbv zeta.
  unfold rem_ok in Hrem. rewrite abs64_abs by lia. unfold hit at 1. cbn [sum_amounts length].
  replace (Z.of_nat d + Z.of_nat 0) with (Z.of_nat d) by lia. rewrite Z.sub_0_r.
  destruct ((minSize <=? Z.of_nat d) && (Z.abs remaining <=? tol)).
  { eexists. by rewrite app_nil_r. }
  destruct (Z.eqb_spec (Z.of_nat d) (Z.of_nat maxSize)) as [Heq|Hne].
  { replace (maxSize - d)%nat with 0%nat in * by lia. rewrite preorder_O. cbn.
    eexists. split; [done|]. pose proof (nodes_nonneg 0 (length rest)). lia. }
  specialize (Hloop d remaining out (budget - 1)). destruct (List.find _ _).
  - apply Hloop; [lia|done|lia].
  - destruct Hloop as (b & -> & Hb'); [lia|done|lia|]. eexists. split; [done|]. lia.
Qed.

(** Pruning loses nothing: every sublist starting with a leg larger than
    [remaining + tol] misses the target. *)
Lemma prune_miss c s remaining d : 0 < AmountMinor c -> positive_amounts s ->
  remaining + tol < AmountMinor c -> hit tol minSize remaining d (c :: s) = false.
Proof.
  intros Hc Hs Hlt. unfold hit. apply andb_false_iff. right. apply Z.leb_gt.
  pose proof (sum_amounts_nonneg s Hs). cbn [sum_amounts]. lia.
Qed.

Lemma hit_cons c s remaining d :
  hit tol minSize remaining d (c :: s) = hit tol minSize (remaining - AmountMinor c) (d + 1) s.
Proof.
  unfold hit. cbn [sum_amounts length]. f_equal; f_equal; lia.
Qed.

Lemma loop_correct rest : positive_amounts rest -> loop_spec rest.
Proof.
  induction 1 as [|c rest Hc Hpos IH]; intros d remaining out budget Hd Hrem Hb.
  { cbn. eexists. split; [done|]. lia. }
  unfold rem_ok in Hrem. cbn [dfs_loop]. unwrap64. cbn [length] in Hb |- *.
  destruct (maxSize - d)%nat as [|k] eqn:Ek; [lia|].
  cbn [preorder nodes] in *. rewrite find_app, find_map.
  rewrite (find_ext _ (hit tol minSize (remaining - AmountMinor c) (Z.of_nat (S d))))
    by (intros s; rewrite hit_cons; f_equal; lia).
  pose proof (nodes_nonneg k (length rest)). pose proof (nodes_nonneg (S k) (length rest)).
  pose proof (visit_correct rest IH (S d) (remaining - AmountMinor c) (out ++ [c]) budget) as Hv.
  specialize (IH d remaining out). rewrite Ek in IH.
  replace (maxSize - S d)%nat with k in Hv by lia.
  replace (Z.of_nat d + 1) with (Z.of_nat (S d)) by lia.
  destruct (Z.ltb_spec (remaining + tol) (AmountMinor c)) as [Hlt|Hge].
  { rewrite find_none_iff; cbn [fmap option_fmap option_map].
    { specialize (IH budget Hd Hrem). destruct (List.find _ _).
      - apply IH. lia.
      - destruct IH as (b & -> & Hb'); [lia|]. eexists. split; [done|]. lia. }
    intros s Hs. replace (Z.of_nat (S d)) with (Z.of_nat d + 1) by lia.
    rewrite <- hit_cons. apply prune_miss; [done| |done].
    apply elem_of_cons in Hs as [->|(_ & Hsub & _)%elem_of_preorder]; [constructor|].
    by eapply sublist_positive. }
  unfold dfs in Hv. rewrite sub64_id by (unfold in64; lia).
  destruct (List.find _ ([] :: _)) as [s|]; cbn [fmap option_fmap option_map].
  - destruct Hv as [b ->]; [lia|unfold rem_ok; lia|lia|]. exists b. by rewrite <- app_assoc.
  - destruct Hv as (b & -> & Hb'); [lia|unfold rem_ok; lia|lia|].
    rewrite length_app, Nat.add_sub, take_app_length.
    specialize (IH b Hd Hrem). destruct (List.find _ _).
    + apply IH. lia.
    + destruct IH as (b' & -> & Hb''); [lia|]. eexists. split; [done|]. lia.
Qed.
End Correct.

Lemma positive_sorted pool : positive_amounts pool -> positive_amounts (stable_sort amount_ge pool).
Proof. unfold positive_amounts. by rewrite stable_sort_Permutation. Qed.

(** With a budget that covers the search tree, [subsetSum] is [first_hit]. *)
Lemma subsetSum_first_hit pool target tol minSize maxSize :
  positive_amounts pool -> 0 <= tol < 2 ^ 63 -> - tol <= target -> target + tol < 2 ^ 63 ->
  1 + nodes (Z.to_nat maxSize) (length pool) <= node_budget ->
  subsetSum pool target tol minSize maxSize = first_hit pool target tol minSize maxSize.
Proof.
  intros Hpos Htol Hlo Hhi Hb. unfold subsetSum, first_hit.
  destruct (Z.leb_spec maxSize 0) as [|Hm]; [done|]. cbn [orb].
  case_bool_decide; [done|]. set (sorted := stable_sort amount_ge pool).
  assert (length sorted = length pool) as Hlen by (unfold sorted; by rewrite stable_sort_Permutation).
  pose proof (visit_correct tol minSize (Z.to_nat maxSize) target Htol Hhi sorted
    (loop_correct tol minSize _ target Htol Hhi sorted (positive_sorted pool Hpos))
    0%nat target [] node_budget) as Hv.
  rewrite Nat.sub_0_r, Hlen, Z2Nat.id in Hv by lia. cbv zeta.
  change (Z.of_nat 0) with 0 in Hv.
  destruct (List.find _ _).
  - destruct Hv as [b ->]; [lia|unfold rem_ok; lia|lia|]. done.
  - destruct Hv as (b & -> & _); [lia|unfold rem_ok; lia|lia|]. done.
Qed.

(** ** Soundness whatever the budget *)

Section Sound.
Context (tol minSize : Z) (maxSize : nat) (T : Z).
Context (Htol : 0 <= tol < 2 ^ 63) (Hrange : T + tol < 2 ^ 63).

Definition loop_sound (rest : list Leg) : Prop := forall d remaining out budget out' b,
  (d < maxSize)%nat -> rem_ok tol T remaining ->
  forall found, dfs_loop tol minSize (Z.of_nat maxSize) rest remaining (Z.of_nat d) out budget
    = (found, out', b) ->
  if found then exists s, out' = out ++ s /\ s ∈ preorder (maxSize - d) rest /\
                          hit tol minSize remaining (Z.of_nat d) s = true
  else out' = out.

Lemma visit_sound rest : loop_sound rest -> forall d remaining out budget out' b found,
  (d <= maxSize)%nat -> rem_ok tol T remaining ->
  dfs tol minSize (Z.of_nat maxSize) rest remaining (Z.of_nat d) out budget = (found, out', b) ->
  if found then exists s, out' = out ++ s /\ s ∈ [] :: preorder (maxSize - d) rest /\
                          hit tol minSize remaining (Z.of_nat d) s = true
  else out' = out.
Proof.
  intros Hloop d remaining out budget out' b found Hd Hrem. unfold dfs, visit.
  destruct (budget <=? 0); [by intros [= <- <- <-]|]. cbv zeta.
  unfold rem_ok in Hrem. rewrite abs64_abs by lia.
  destruct ((minSize <=? Z.of_nat d) && (Z.abs remaining <=? tol)) eqn:E.
  { intros [= <- <- <-]. exists []. split; [by rewrite app_nil_r|]. split; [by left|].
    unfold hit. cbn [sum_amounts length]. rewrite Z.sub_0_r, Z.add_0_r. done. }
  destruct (Z.eqb_spec (Z.of_nat d) (Z.of_nat maxSize)) as [Heq|Hne]; [by intros [= <- <- <-]|].
  intros Hl. apply Hloop in Hl; [|lia|done]. destruct found; [|done].
  destruct Hl as (s & -> & Hs & Hhit). exists s. split; [done|]. split; [by right|done].
Qed.

Lemma loop_is_sound rest : positive_amounts rest -> loop_sound rest.
Proof.
  induction 1 as [|c rest Hc Hpos IH]; intros d remaining out budget out' b Hd Hrem found.
  { by intros [= <- <- <-]. }
  unfold rem_ok in Hrem. cbn [dfs_loop]. rewrite add64_id by (unfold in64; lia). cbv zeta.
  destruct (maxSize - d)%nat as [|k] eqn:Ek; [lia|].
  destruct (Z.ltb_spec (remaining + tol) (AmountMinor c)) as [Hlt|Hge].
  { intros Hl. apply IH in Hl; [|lia|done]. destruct found; [|done].
    destruct Hl as (s & -> & Hs & Hhit). exists s. split; [done|]. split; [|done].
    cbn [preorder]. apply elem_of_app. right. by rewrite <- Ek. }
  rewrite sub64_id by (unfold in64; lia).
  replace (Z.of_nat d + 1) with (Z.of_nat (S d)) by lia.
  fold (dfs tol minSize (Z.of_nat maxSize) rest).
  destruct (dfs _ _ _ _ _ _ _ _) as [[f o] b1] eqn:E.
  apply (visit_sound rest IH) in E; [|lia|unfold rem_ok; lia].
  replace (maxSize - S d)%nat with k in E by lia. destruct f.
  - intros [= <- <- <-]. destruct E as (s & -> & Hs & Hhit). exists (c :: s).
    split; [by rewrite <- app_assoc|]. split.
    + cbn [preorder]. apply elem_of_app. left. apply list_elem_of_fmap. by exists s.
    + rewrite hit_cons. by replace (Z.of_nat d + 1) with (Z.of_nat (S d)) by lia.
  - subst o. rewrite length_app, Nat.add_sub, take_app_length.
    intros Hl. apply IH in Hl; [|lia|done]. destruct found; [|done].
    destruct Hl as (s & -> & Hs & Hhit). exists s. split; [done|]. split; [|done].
    cbn [preorder]. apply elem_of_app. right. by rewrite <- Ek.
Qed.
End Sound.

(** What a subset returned by [subsetSum] satisfies. *)
Record subset_ok (pool : list Leg) (target tol minSize maxSize : Z) (s : list Leg) : Prop := {
  so_sub : sublist s (stable_sort amount_ge pool);
  so_size : minSize <= Z.of_nat (length s) <= maxSize;
  so_sum : Z.abs (sum_amounts s - target) <= tol
}.

Lemma subset_hit pool target tol minSize maxSize s :
  0 < minSize -> 0 <= maxSize ->
  subset_ok pool target tol minSize maxSize s <->
  s ∈ preorder (Z.to_nat maxSize) (stable_sort amount_ge pool) /\ hit tol minSize target 0 s = true.
Proof.
  intros Hm HM. rewrite elem_of_preorder. unfold hit. rewrite andb_true_iff, !Z.leb_le. split.
  - intros [H1 H2 H3]. repeat split; [|done|lia..]. intros ->. cbn in H2. lia.
  - intros [(H1 & H2 & H3) [H4 H5]]. constructor; [done|lia..].
Qed.

Lemma subsetSum_ok pool target tol minSize maxSize s :
  positive_amounts pool -> 0 <= tol < 2 ^ 63 -> - tol <= target -> target + tol < 2 ^ 63 -> 0 < minSize ->
  subsetSum pool target tol minSize maxSize = Some s ->
  subset_ok pool target tol minSize maxSize s.
Proof.
  intros Hpos Htol Hlo Hhi Hm. unfold subsetSum.
  destruct (Z.leb_spec maxSize 0) as [|HM]; [done|]. cbn [orb].
  case_bool_decide; [done|]. cbv zeta.
  destruct (dfs _ _ _ _ _ _ _ _) as [[f o] b] eqn:E. destruct f; [|done]. intros [= <-].
  rewrite <- (Z2Nat.id maxSize) in E by lia. change 0 with (Z.of_nat 0) in E.
  apply (visit_sound tol minSize _ target Htol Hhi _
    (loop_is_sound tol minSize _ target Htol Hhi _ (positive_sorted pool Hpos))) in E;
    [|lia|unfold rem_ok; lia].
  destruct E as (s & -> & Hs & Hhit). rewrite Nat.sub_0_r in Hs. apply subset_hit; [lia..|].
  cbn [app]. split; [|done]. apply elem_of_cons in Hs as [->|?]; [|done].
  apply andb_true_iff in Hhit as [Hhit _]. apply Z.leb_le in Hhit. cbn in Hhit. lia.
Qed.

(** The default caps: the tree over 24 legs, six levels deep, has 190051
    nodes, so the budget never runs out under them. *)
Lemma default_nodes : 1 + nodes 6 24 = 190051.
Proof. vm_compute. reflexivity. Qed.

Lemma default_budget (pool : list Leg) maxSize : (length pool <= 24)%nat -> maxSize <= 6 ->
  1 + nodes (Z.to_nat maxSize) (length pool) <= node_budget.
Proof.
  intros Hp Hm. pose proof (nodes_mono (Z.to_nat maxSize) 6 (length pool) 24) as H.
  pose proof default_nodes. unfold node_budget. lia.
Qed.

(** ** In terms of the pool *)

Lemma sum_amounts_perm l1 l2 : l1 ≡ₚ l2 -> sum_amounts l1 = sum_amounts l2.
Proof. induction 1; cbn; lia. Qed.

#[export] Instance sum_amounts_proper : Proper ((≡ₚ) ==> eq) sum_amounts.
Proof. intros l1 l2. apply sum_amounts_perm. Qed.

Lemma submseteq_sorted s pool : s ⊆+ pool ->
  exists s', s ≡ₚ s' /\ sublist s' (stable_sort amount_ge pool).
Proof.
  intros Hs. apply submseteq_sublist_r. by rewrite stable_sort_Permutation.
Qed.

Lemma subset_ok_submseteq pool target tol minSize maxSize s :
  subset_ok pool target tol minSize maxSize s -> s ⊆+ pool.
Proof.
  intros [Hs _ _]. apply sublist_submseteq in Hs. by rewrite stable_sort_Permutation in Hs.
Qed.

(** With enough budget, giving up means that no choice of legs works. *)
Lemma subsetSum_none pool target tol minSize maxSize s :
  positive_amounts pool -> 0 <= tol < 2 ^ 63 -> - tol <= target -> target + tol < 2 ^ 63 ->
  0 < minSize -> 1 + nodes (Z.to_nat maxSize) (length pool) <= node_budget ->
  subsetSum pool target tol minSize maxSize = None ->
  s ⊆+ pool -> minSize <= Z.of_nat (length s) <= maxSize ->
  tol < Z.abs (sum_amounts s - target).
Proof.
  intros Hpos Htol Hlo Hhi Hm Hb. rewrite subsetSum_first_hit by (done || lia). unfold first_hit.
  intros Hn Hs Hsize. destruct (Z.leb_spec maxSize 0) as [|HM]; [lia|]. cbn [orb] in Hn.
  destruct (submseteq_sorted s pool Hs) as (s' & Hp & Hsub).
  case_bool_decide as Hlen.
  { apply nil_length_inv in Hlen as ->. apply submseteq_nil_r in Hs as ->. cbn in *. lia. }
  assert (~ subset_ok pool target tol minSize maxSize s') as Hnot.
  { intros [Hin Hhit]%subset_hit; [|lia..].
    rewrite (find_None_elem _ _ _ Hn) in Hhit; [done|]. by right. }
  apply Z.lt_nge. intros Hle. apply Hnot. constructor; [done| |]; by rewrite <- Hp.
Qed.
