(* ===== verification/Matcher.v ===== *)
(** * The matcher

    internal/domain/recon/matcher.go: the ordered tiers over the open-leg
    index. The matcher reads the index and never changes it; the one effect is
    the call back into the store, [refExists], so [find] is a computation over
    the store's state. *)

From S2P Require Export SubsetSum.

(** [refExists]: asks the store; it never fails. *)
Definition refExists (S : Type) : Type := string -> string -> M S bool.

Section Matcher.
Context `{Sha256}.
Context (rules : Rules).

Local Open Scope recon_scope.

Definition filterLegs (ls : list Leg) (keep : Leg -> bool) : list Leg :=
  filter (fun l => keep l = true) ls.

Definition inWindow (l : Leg) (cands : list Leg) : list Leg :=
  filterLegs cands (fun c => WithinDateWindow rules (ValueDate c) (ValueDate l)).

(** [groupBySource]: the groups keep the order of the list. *)
Definition groupBySource (ls : list Leg) : gmap string (list Leg) :=
  foldl (fun g l => <[Source l := default [] (g !! Source l) ++ [l]]> g) ∅ ls.

Definition sortedKeys (m : gmap string (list Leg)) : list string :=
  sort_Strings ((map_to_list m).*1).

Definition capCandidates (ls : list Leg) (n : Z) : list Leg :=
  if Z.of_nat (length ls) <=? n then ls else take (Z.to_nat n) ls.

Definition settlementKey (l : Leg) : string :=
  let b := attr l AttrBatchRef in
  if bool_decide (b <> "") then b else TxnRef l.

Definition pair (l c : Leg) (tier : Tier) (rule : string) (conf : float64) : Match :=
  let ids := sort_Strings [ID l; ID c] in
  mkMatch (DeriveID "m" ids) ids tier rule conf (sub64 (AmountMinor c) (AmountMinor l))
          (Currency l) 0.

(** [sum += x.AmountMinor] over the legs. *)
Definition sum64 (ls : list Leg) : Z := foldl (fun acc x => add64 acc (AmountMinor x)) 0 ls.

Definition many (anchor : Leg) (many : list Leg) (tier : Tier) (rule : string) (tol : Z) : Match :=
  let ids := sort_Strings (ID anchor :: (ID <$> many)) in
  let residual := sub64 (sum64 many) (AmountMinor anchor) in
  let conf := fsub (tolerantConfidence residual tol) (fconst (10 # 100)) in
  mkMatch (DeriveID "m" ids) ids tier rule conf residual (Currency anchor) 0.

Definition tier1 (l : Leg) (cands : list Leg) : option Match :=
  match List.find (fun c => bool_decide (TxnRef c = TxnRef l) && (AmountMinor c =? AmountMinor l)) cands with
  | Some c => Some (pair l c TierExact RuleT1Exact 1%Q)
  | None => None
  end.

(** The loop of [tier2Ref]: the best candidate so far and its difference. *)
Definition tier2Ref_step (l : Leg) (best : option (Leg * Z)) (c : Leg) : option (Leg * Z) :=
  if negb (bool_decide (TxnRef c = TxnRef l)) ||
     negb (WithinTolerance rules (AmountMinor l) (AmountMinor c))
  then best
  else
    let d := abs64 (sub64 (AmountMinor c) (AmountMinor l)) in
    match best with
    | None => Some (c, d)
    | Some (_, bestDiff) => if d <? bestDiff then Some (c, d) else best
    end.

Definition tier2Ref (l : Leg) (cands : list Leg) : option Match :=
  match foldl (tier2Ref_step l) None cands with
  | None => None
  | Some (best, bestDiff) =>
      let conf := tolerantConfidence bestDiff (Tolerance rules (AmountMinor l)) in
      Some (pair l best TierTolerant RuleT2Tolerant conf)
  end.

Definition tier2AmountDate {S} (l : Leg) (scan : list Leg) (ix : Index)
    (exists_ : option (refExists S)) : M S (option Match) :=
  match filterLegs scan (fun c => AmountMinor c =? AmountMinor l) with
  | [hit] =>
      if existsb (fun s => (AmountMinor s =? AmountMinor l) &&
                           WithinDateWindow rules (ValueDate s) (ValueDate hit))
                 (SameSourceInWindow ix l)
      then mret None
      else
        let m := Some (pair l hit TierTolerant RuleT2AmountDate (fconst (75 # 100))) in
        match exists_ with
        | None => mret m
        | Some ex =>
            let! a := ex (TxnRef hit) (Source l) in
            if a then mret None
            else let! b := ex (TxnRef l) (Source hit) in
                 if b then mret None else mret m
        end
  | _ => mret None
  end.

(** Orientation (a): [l] is the settlement leg. *)
Definition tier3_pool (l : Leg) (scan : list Leg) (ix : Index) : list Leg :=
  if T3RequireBatchHint rules
  then inWindow l (filterLegs (ByBatch ix l (settlementKey l))
                              (fun c => bool_decide (Source c <> Source l)))
  else scan.

Fixpoint tier3_one (l : Leg) (bySource : gmap string (list Leg)) (srcs : list string) : option Match :=
  match srcs with
  | [] => None
  | src :: srcs' =>
      let p := capCandidates (default [] (bySource !! src)) (T3MaxCandidates rules) in
      let tol := Tolerance rules (AmountMinor l) in
      match subsetSum p (AmountMinor l) tol 2 (T3MaxSubset rules) with
      | Some subset => Some (many l subset TierManyToOne RuleT3Subset tol)
      | None => tier3_one l bySource srcs'
      end
  end.

(** Orientation (b): [l] completes an opposite settlement leg. *)
Definition tier3_settlements (l : Leg) (scan : list Leg) (ix : Index) : list Leg :=
  let myBatch := attr l AttrBatchRef in
  if T3RequireBatchHint rules
  then sortLegs
         (filterLegs (RefLegs ix myBatch)
                     (fun s => bool_decide (Source s <> Source l) && bool_decide (Key s = Key l)) ++
          filterLegs (ByBatch ix l myBatch) (fun s => bool_decide (Source s <> Source l)))
  else scan.

Definition tier3_same (l : Leg) (ix : Index) : list Leg :=
  if T3RequireBatchHint rules
  then filterLegs (ByBatch ix l (attr l AttrBatchRef)) (fun o => bool_decide (Source o = Source l))
  else SameSourceInWindow ix l.

(** The legs that may complete [s] together with [l]. *)
Definition tier3_rest (same : list Leg) (s : Leg) : list Leg :=
  capCandidates
    (filterLegs same (fun o => WithinDateWindow rules (ValueDate o) (ValueDate s) &&
                               (AmountMinor o <? AmountMinor s)))
    (T3MaxCandidates rules).

Fixpoint tier3_part (l : Leg) (same settlements : list Leg) : option Match :=
  match settlements with
  | [] => None
  | s :: settlements' =>
      if (AmountMinor s <=? AmountMinor l) ||
         negb (WithinDateWindow rules (ValueDate s) (ValueDate l))
      then tier3_part l same settlements'
      else
        let tol := Tolerance rules (AmountMinor s) in
        match subsetSum (tier3_rest same s) (sub64 (AmountMinor s) (AmountMinor l)) tol 1
                        (sub64 (T3MaxSubset rules) 1) with
        | None => tier3_part l same settlements'
        | Some rest => Some (many s (l :: rest) TierManyToOne RuleT3Subset tol)
        end
  end.

Definition tier3 (l : Leg) (scan : list Leg) (ix : Index) : option Match :=
  let bySource := groupBySource (tier3_pool l scan ix) in
  match tier3_one l bySource (sortedKeys bySource) with
  | Some m => Some m
  | None =>
      if T3RequireBatchHint rules && bool_decide (attr l AttrBatchRef = "") then None
      else tier3_part l (tier3_same l ix) (tier3_settlements l scan ix)
  end.

(** [find]: the first tier that yields a match wins. *)
Definition find {S} (l : Leg) (ix : Index) (exists_ : option (refExists S)) : M S (option Match) :=
  let byRef := inWindow l (CandidatesByRef ix l) in
  match tier1 l byRef with
  | Some m => mret (Some m)
  | None =>
      match tier2Ref l byRef with
      | Some m => mret (Some m)
      | None =>
          let scan := inWindow l (Candidates ix l) in
          let! mt := tier2AmountDate l scan ix exists_ in
          match mt with
          | Some m => mret (Some m)
          | None => mret (tier3 l scan ix)
          end
      end
  end.
End Matcher.
