(* ===== verification/MatcherFacts.v ===== *)
(** * The matcher: theorems

    What each tier's match is, declaratively, that [find] returns nothing else
    and misses nothing, and what follows for the legs of a match. *)

From S2P Require Export Matcher.

Section Spec.
Context `{Sha256} (rules : Rules) (ix : Index) (l : Leg).

(** An open leg of the same window and another source, dated close enough. *)
Definition partner (c : Leg) : Prop :=
  byID ix !! ID c = Some c /\ Key c = Key l /\ Source c <> Source l /\
  WithinDateWindow rules (ValueDate c) (ValueDate l) = true.

(** The distance between the amounts of [l] and [c]. *)
Definition gap (c : Leg) : Z := Z.abs (AmountMinor c - AmountMinor l).

(** The legs orientation (a) of tier 3 chooses from. *)
Definition t3_pool (c : Leg) : Prop :=
  partner c /\ (T3RequireBatchHint rules = true -> batch_of c = settlementKey l).

(** The legs that may be on [l]'s side of a settlement [s]. *)
Definition t3_mate (s c : Leg) : Prop :=
  byID ix !! ID c = Some c /\ Key c = Key l /\ Source c = Source l /\ ID c <> ID l /\
  WithinDateWindow rules (ValueDate c) (ValueDate s) = true /\ AmountMinor c < AmountMinor s /\
  (T3RequireBatchHint rules = true -> batch_of c = batch_of l).

(** A settlement leg [l] may be a part of. *)
Definition t3_settlement (s : Leg) : Prop :=
  byID ix !! ID s = Some s /\ Key s = Key l /\ Source s <> Source l /\
  AmountMinor l < AmountMinor s /\ WithinDateWindow rules (ValueDate s) (ValueDate l) = true /\
  (T3RequireBatchHint rules = true ->
   batch_of l <> "" /\ (TxnRef s = batch_of l \/ batch_of s = batch_of l)).

(** The matches the rules allow for [l]. *)
Inductive rule_match : Match -> Prop :=
  | match_T1 c : partner c -> TxnRef c = TxnRef l -> AmountMinor c = AmountMinor l ->
      (forall c', partner c' -> TxnRef c' = TxnRef l -> AmountMinor c' = AmountMinor l -> leg_le c c') ->
      rule_match (pair l c TierExact RuleT1Exact 1%Q)
  | match_T2 c : partner c -> TxnRef c = TxnRef l ->
      0 < gap c <= Tolerance rules (AmountMinor l) ->
      (forall c', partner c' -> TxnRef c' = TxnRef l ->
         gap c < gap c' \/ gap c = gap c' /\ leg_le c c') ->
      rule_match (pair l c TierTolerant RuleT2Tolerant
                       (tolerantConfidence (gap c) (Tolerance rules (AmountMinor l))))
  | match_amount_date c : partner c -> TxnRef c <> TxnRef l -> AmountMinor c = AmountMinor l ->
      (forall c', partner c' -> AmountMinor c' = AmountMinor l -> c' = c) ->
      (forall s, byID ix !! ID s = Some s -> Key s = Key l -> Source s = Source l ->
         ID s <> ID l -> AmountMinor s = AmountMinor l ->
         WithinDateWindow rules (ValueDate s) (ValueDate c) = false) ->
      rule_match (pair l c TierTolerant RuleT2AmountDate (fconst (75 # 100)))
  | match_T3_one src subset :
      Forall (fun c => t3_pool c /\ Source c = src) subset -> NoDup (ID <$> subset) ->
      2 <= Z.of_nat (length subset) <= T3MaxSubset rules ->
      Z.abs (sum_amounts subset - AmountMinor l) <= Tolerance rules (AmountMinor l) ->
      rule_match (many l subset TierManyToOne RuleT3Subset (Tolerance rules (AmountMinor l)))
  | match_T3_part s rest :
      t3_settlement s -> Forall (t3_mate s) rest -> NoDup (ID <$> rest) ->
      1 <= Z.of_nat (length rest) <= T3MaxSubset rules - 1 ->
      Z.abs (sum_amounts (l :: rest) - AmountMinor s) <= Tolerance rules (AmountMinor s) ->
      rule_match (many s (l :: rest) TierManyToOne RuleT3Subset (Tolerance rules (AmountMinor s))).
End Spec.

(** Rules whose tolerances stay far from the ends of [int64]. *)
Record sane_rules (r : Rules) : Prop := {
  sane_wf : wf_rules r;
  sane_abs : ToleranceAbsMinor r <= 2 ^ 62
}.

(** Every open leg has an amount in the supported range. *)
Definition amounts_ok (ix : Index) : Prop :=
  forall id l, byID ix !! id = Some l -> amount_ok (AmountMinor l).

Lemma elem_of_filterLegs c ls keep : c ∈ filterLegs ls keep <-> c ∈ ls /\ keep c = true.
Proof. unfold filterLegs. rewrite list_elem_of_filter. tauto. Qed.

Lemma NoDup_filterLegs ls keep : NoDup ls -> NoDup (filterLegs ls keep).
Proof. apply NoDup_filter. Qed.

Lemma groupBySource_go ls g src :
  default [] (foldl (fun (g : gmap string (list Leg)) l =>
                <[Source l := default [] (g !! Source l) ++ [l]]> g) g ls !! src) =
  default [] (g !! src) ++ filter (fun l => Source l = src) ls.
Proof.
  revert g. induction ls as [|l ls IH]; intros g; cbn [foldl]; [by rewrite app_nil_r|].
  rewrite IH. destruct (decide (Source l = src)) as [Heq|Hne].
  - rewrite filter_cons_True, Heq, lookup_insert_eq by done. cbn. by rewrite <- app_assoc.
  - rewrite filter_cons_False, lookup_insert_ne by done. done.
Qed.

(** A group holds the legs of its source, in order. *)
Lemma groupBySource_lookup ls src :
  default [] (groupBySource ls !! src) = filter (fun l => Source l = src) ls.
Proof. unfold groupBySource. rewrite groupBySource_go. by rewrite lookup_empty. Qed.

Lemma elem_of_sortedKeys ls src :
  (exists l, l ∈ ls /\ Source l = src) -> src ∈ sortedKeys (groupBySource ls).
Proof.
  intros (l & Hl & Hs). unfold sortedKeys. rewrite elem_of_sort_Strings, list_elem_of_fmap.
  assert (l ∈ default [] (groupBySource ls !! src)) as Hin
    by (rewrite groupBySource_lookup; by apply list_elem_of_filter).
  destruct (groupBySource ls !! src) as [g|] eqn:E; [|by apply not_elem_of_nil in Hin].
  exists (src, g). split; [done|]. by apply elem_of_map_to_list.
Qed.

Lemma elem_of_cap c ls n : c ∈ capCandidates ls n -> c ∈ ls.
Proof.
  unfold capCandidates. destruct (_ <=? n); [done|]. apply subseteq_take.
Qed.

Lemma NoDup_cap ls n : NoDup ls -> NoDup (capCandidates ls n).
Proof.
  unfold capCandidates. destruct (_ <=? n); [done|]. intros. eapply sublist_NoDup; [done|].
  apply sublist_take.
Qed.

Lemma cap_length ls n : 0 <= n -> Z.of_nat (length (capCandidates ls n)) <= n.
Proof.
  intros Hn. unfold capCandidates. destruct (Z.leb_spec (Z.of_nat (length ls)) n); [done|].
  rewrite length_take. lia.
Qed.

Lemma sum64_go ls acc : positive_amounts ls -> 0 <= acc -> acc + sum_amounts ls < 2 ^ 63 ->
  foldl (fun acc x => add64 acc (AmountMinor x)) acc ls = acc + sum_amounts ls.
Proof.
  intros Hpos. revert acc. induction Hpos as [|l ls Hl Hpos IH]; intros acc Ha Hb; cbn in *; [lia|].
  pose proof (sum_amounts_nonneg ls Hpos). rewrite add64_id by (unfold in64; lia).
  rewrite IH by lia. lia.
Qed.

Lemma sum64_exact ls : positive_amounts ls -> sum_amounts ls < 2 ^ 63 -> sum64 ls = sum_amounts ls.
Proof. intros Hp Hb. unfold sum64. rewrite sum64_go by (done || lia). lia. Qed.

Lemma StronglySorted_filter {A} (R : relation A) (P : A -> Prop) `{!forall x, Decision (P x)} l :
  StronglySorted R l -> StronglySorted R (filter P l).
Proof.
  induction 1 as [|x l Hl IH Hx]; [constructor|]. destruct (decide (P x)).
  - rewrite filter_cons_True by done. constructor; [done|].
    apply Forall_forall. intros y [_ Hy]%list_elem_of_filter. by eapply Forall_forall in Hx.
  - by rewrite filter_cons_False.
Qed.

Lemma StronglySorted_snoc {A} (R : relation A) l x : StronglySorted R (l ++ [x]) ->
  StronglySorted R l /\ forall y, y ∈ l -> R y x.
Proof.
  induction l as [|z l IH]; cbn; intros Hs.
  - split; [constructor|]. intros y Hy. by apply not_elem_of_nil in Hy.
  - apply StronglySorted_inv in Hs as [Hs Hz]. destruct (IH Hs) as [IH1 IH2].
    apply Forall_app in Hz as [Hz1 Hz2]. split; [by constructor|].
    intros y [->|Hy]%elem_of_cons; [by inversion Hz2|by apply IH2].
Qed.

Lemma collect_sorted m keep : StronglySorted leg_le (collect m keep).
Proof. apply sortLegs_sorted. Qed.

(** The first hit of a sorted list is its least hit. *)
Lemma find_least (f : Leg -> bool) ls c : StronglySorted leg_le ls -> List.find f ls = Some c ->
  forall c', c' ∈ ls -> f c' = true -> leg_le c c'.
Proof.
  induction 1 as [|x ls Hs IH Hx]; cbn; [done|]. destruct (f x) eqn:E.
  - intros [= <-] c' [->|Hc']%elem_of_cons _.
    + by destruct (total leg_le x x).
    + by eapply Forall_forall in Hx.
  - intros Hf c' [->|Hc']%elem_of_cons Hfc; [congruence|]. by apply IH.
Qed.

Lemma submseteq_NoDup {A} (l1 l2 : list A) : l1 ⊆+ l2 -> NoDup l2 -> NoDup l1.
Proof.
  intros (l3 & Hp & Hs)%submseteq_sublist_l Hn. eapply sublist_NoDup; [|done]. by rewrite Hs.
Qed.

(** ** The candidates of each tier *)

Section Tiers.
Context `{Sha256} (rules : Rules) (ix : Index) (l : Leg).
Context (Hwf : ix_wf ix) (Hsane : sane_rules rules).
Context (Hix : amounts_ok ix) (Hl : amount_ok (AmountMinor l)).

Let byRef := inWindow rules l (CandidatesByRef ix l).
Let scan := inWindow rules l (Candidates ix l).

Lemma elem_of_byRef c : c ∈ byRef <-> partner rules ix l c /\ TxnRef c = TxnRef l.
Proof.
  unfold byRef, inWindow. rewrite elem_of_filterLegs, CandidatesByRef_scan by done.
  rewrite elem_of_collect, elem_of_values_keyed by apply (wf_keyed _ Hwf).
  rewrite !andb_true_iff, !bool_decide_eq_true. unfold partner. tauto.
Qed.

Lemma elem_of_scan c : c ∈ scan <-> partner rules ix l c.
Proof.
  unfold scan, inWindow. rewrite elem_of_filterLegs, elem_of_Candidates by done.
  unfold partner. tauto.
Qed.

Lemma byRef_sorted : StronglySorted leg_le byRef.
Proof. apply StronglySorted_filter, sortLegs_sorted. Qed.

Lemma scan_NoDup : NoDup scan.
Proof.
  unfold scan. apply NoDup_filterLegs. rewrite Candidates_scan by done.
  apply collect_NoDup, (wf_keyed _ Hwf).
Qed.

Lemma partner_amount c : partner rules ix l c -> amount_ok (AmountMinor c).
Proof. intros (Hc & _). by eapply Hix. Qed.

Lemma within_gap c : partner rules ix l c ->
  WithinTolerance rules (AmountMinor l) (AmountMinor c) = true <->
  gap l c <= Tolerance rules (AmountMinor l).
Proof.
  intros Hc. rewrite WithinTolerance_iff by (done || by apply partner_amount). unfold gap.
  replace (AmountMinor c - AmountMinor l) with (- (AmountMinor l - AmountMinor c)) by lia.
  by rewrite Z.abs_opp.
Qed.

Lemma gap_abs64 c : amount_ok (AmountMinor c) ->
  abs64 (sub64 (AmountMinor c) (AmountMinor l)) = gap l c.
Proof.
  unfold amount_ok in *. intros Hc. unwrap64. rewrite abs64_abs by lia. done.
Qed.

(** ** Tier 1 *)

Lemma tier1_spec :
  match tier1 l byRef with
  | Some m => rule_match rules ix l m
  | None => forall c, partner rules ix l c -> TxnRef c = TxnRef l -> AmountMinor c <> AmountMinor l
  end.
Proof.
  unfold tier1. destruct (List.find _ byRef) as [c|] eqn:E.
  - pose proof (find_least _ _ _ byRef_sorted E) as Hleast.
    apply find_Some_elem in E as [Hc He]. apply andb_true_iff in He as [Hr Ha].
    apply bool_decide_eq_true in Hr. apply Z.eqb_eq in Ha. apply elem_of_byRef in Hc as [Hp _].
    apply match_T1; [done..|]. intros c' Hc' Hr' Ha'. apply Hleast; [by apply elem_of_byRef|].
    apply andb_true_iff. split; [by apply bool_decide_eq_true|by apply Z.eqb_eq].
  - intros c Hp Hr Ha.
    pose proof (find_None_elem _ _ c E (proj2 (elem_of_byRef c) (conj Hp Hr))) as Hf.
    cbv beta in Hf. by rewrite bool_decide_eq_true_2, (proj2 (Z.eqb_eq _ _)) in Hf.
Qed.

(** ** Tier 2, by reference *)

(** The loop's best candidate: the least gap, the first in the list of those. *)
Definition best_of (ls : list Leg) (o : option (Leg * Z)) : Prop :=
  match o with
  | Some (c, d) => c ∈ ls /\ d = gap l c /\ d <= Tolerance rules (AmountMinor l) /\
      forall c', c' ∈ ls -> d < gap l c' \/ d = gap l c' /\ leg_le c c'
  | None => forall c', c' ∈ ls -> Tolerance rules (AmountMinor l) < gap l c'
  end.

Lemma tier2Ref_loop ls : StronglySorted leg_le ls -> (forall c, c ∈ ls -> c ∈ byRef) ->
  best_of ls (foldl (tier2Ref_step rules l) None ls).
Proof.
  induction ls as [|c ls IH] using rev_ind; intros Hs Hsub.
  { intros c Hc. by apply not_elem_of_nil in Hc. }
  rewrite foldl_app. cbn [foldl].
  apply StronglySorted_snoc in Hs as [Hs' Hle].
  specialize (IH Hs' (fun x Hx => Hsub x (proj2 (elem_of_app _ _ _) (or_introl Hx)))).
  assert (c ∈ byRef) as [Hp Hr]%elem_of_byRef by (apply Hsub, elem_of_app; right; by left).
  unfold tier2Ref_step at 1. rewrite bool_decide_eq_true_2 by done. cbn [negb orb].
  pose proof (within_gap c Hp) as Hw. rewrite gap_abs64 by by apply partner_amount.
  destruct (WithinTolerance _ _ _); cbn [negb].
  - assert (gap l c <= Tolerance rules (AmountMinor l)) as Hg by (by apply Hw).
    destruct (foldl _ None ls) as [[b d]|]; cbn [best_of] in *.
    + destruct IH as (Hb & Hd & Hdt & Hmin). destruct (Z.ltb_spec (gap l c) d) as [Hlt|Hge].
      * cbn. split; [apply elem_of_app; right; by left|]. split; [done|]. split; [done|].
        intros c' [Hc'|Hc'%list_elem_of_singleton]%elem_of_app.
        -- left. destruct (Hmin c' Hc') as [|[]]; lia.
        -- subst. right. split; [done|]. by destruct (total leg_le c c).
      * cbn. split; [apply elem_of_app; by left|]. split; [done|]. split; [done|].
        intros c' [Hc'|Hc'%list_elem_of_singleton]%elem_of_app; [by apply Hmin|]. subst c'.
        destruct (Z.lt_trichotomy d (gap l c)) as [|[|]]; [by left| |lia].
        right. split; [done|]. by apply Hle.
    + split; [apply elem_of_app; right; by left|]. split; [done|]. split; [done|].
      intros c' [Hc'|Hc'%list_elem_of_singleton]%elem_of_app.
      * left. specialize (IH c' Hc'). lia.
      * subst. right. split; [done|]. by destruct (total leg_le c c).
  - assert (Tolerance rules (AmountMinor l) < gap l c) as Hg.
    { apply Z.lt_nge. intros Hle'. by apply Hw in Hle'. }
    destruct (foldl _ None ls) as [[b d]|]; cbn [best_of] in *.
    + destruct IH as (Hb & Hd & Hdt & Hmin). split; [apply elem_of_app; by left|].
      split; [done|]. split; [done|].
      intros c' [Hc'|Hc'%list_elem_of_singleton]%elem_of_app; [by apply Hmin|]. subst. left. lia.
    + intros c' [Hc'|Hc'%list_elem_of_singleton]%elem_of_app; [by apply IH|]. by subst.
Qed.

Lemma tier2Ref_spec :
  (forall c, partner rules ix l c -> TxnRef c = TxnRef l -> AmountMinor c <> AmountMinor l) ->
  match tier2Ref rules l byRef with
  | Some m => rule_match rules ix l m
  | None => forall c, partner rules ix l c -> TxnRef c = TxnRef l ->
              Tolerance rules (AmountMinor l) < gap l c
  end.
Proof.
  intros Hne. unfold tier2Ref. pose proof (tier2Ref_loop byRef byRef_sorted (fun c Hc => Hc)) as Hb.
  destruct (foldl _ None byRef) as [[c d]|]; cbn [best_of] in Hb.
  - destruct Hb as (Hc & -> & Ht & Hmin). apply elem_of_byRef in Hc as [Hp Hr].
    apply match_T2; [done|done| |].
    + specialize (Hne c Hp Hr). unfold gap in *. lia.
    + intros c' Hp' Hr'. apply Hmin. by apply elem_of_byRef.
  - intros c Hp Hr. apply Hb. by apply elem_of_byRef.
Qed.

(** ** Tier 2, by amount and date *)

Lemma filter_singleton ls (f : Leg -> bool) c : filterLegs ls f = [c] ->
  c ∈ ls /\ f c = true /\ forall c', c' ∈ ls -> f c' = true -> c' = c.
Proof.
  intros Hf. assert (c ∈ filterLegs ls f) as [Hc Hfc]%elem_of_filterLegs by (rewrite Hf; by left).
  split; [done|]. split; [done|]. intros c' Hc' Hfc'.
  assert (c' ∈ filterLegs ls f) as Hin by (by apply elem_of_filterLegs).
  rewrite Hf in Hin. by apply list_elem_of_singleton in Hin.
Qed.

Lemma existsb_false {A} (f : A -> bool) ls x : existsb f ls = false -> x ∈ ls -> f x = false.
Proof.
  intros He Hx. destruct (f x) eqn:E; [|done].
  assert (existsb f ls = true) by (apply existsb_exists; exists x; by rewrite <- list_elem_of_In).
  congruence.
Qed.

Lemma elem_of_same c : c ∈ SameSourceInWindow ix l <->
  byID ix !! ID c = Some c /\ Key c = Key l /\ Source c = Source l /\ ID c <> ID l.
Proof.
  rewrite SameSourceInWindow_scan, elem_of_collect, elem_of_values_keyed by
    (done || apply (wf_keyed _ Hwf)).
  rewrite andb_true_iff, !bool_decide_eq_true. tauto.
Qed.

Lemma tier2AmountDate_sound {S} (ex : option (refExists S)) s s' m :
  (forall c, partner rules ix l c -> TxnRef c = TxnRef l -> AmountMinor c <> AmountMinor l) ->
  tier2AmountDate rules l scan ix ex s = (Ok (Some m), s') -> rule_match rules ix l m.
Proof.
  intros Hne. unfold tier2AmountDate. destruct (filterLegs scan _) as [|c [|]] eqn:E; [done| |done].
  apply filter_singleton in E as (Hc & Ha & Huniq). apply Z.eqb_eq in Ha.
  apply elem_of_scan in Hc.
  destruct (existsb _ (SameSourceInWindow ix l)) eqn:Hs; [done|].
  assert (rule_match rules ix l (pair l c TierTolerant RuleT2AmountDate (fconst (75 # 100)))) as Hm.
  { apply match_amount_date; [done| |done| |].
    - intros Hr. by apply (Hne c).
    - intros c' Hp' Ha'. apply Huniq; [by apply elem_of_scan|by apply Z.eqb_eq].
    - intros o Ho Hk Hsrc Hid Hao.
      pose proof (existsb_false _ _ o Hs (proj2 (elem_of_same o) (conj Ho (conj Hk (conj Hsrc Hid))))) as Hf.
      cbv beta in Hf. rewrite (proj2 (Z.eqb_eq _ _) Hao) in Hf.
      apply andb_false_iff in Hf as [Hf|Hf]; [discriminate|exact Hf]. }
  destruct ex as [ex|]; [|by intros [= <- <-]].
  unfold mbind. destruct (ex (TxnRef c) (Source l) s) as [[[]|] s1]; [done| |done].
  destruct (ex (TxnRef l) (Source c) s1) as [[[]|] s2]; [done| |done]. by intros [= <- <-].
Qed.

(** ** Tier 3 *)

Lemma elem_of_batch c b : c ∈ ByBatch ix l b <->
  byID ix !! ID c = Some c /\ batch_of c = b /\ b <> "" /\ ID c <> ID l /\ Key c = Key l.
Proof.
  rewrite ByBatch_scan, elem_of_collect, elem_of_values_keyed by
    (done || apply (wf_keyed _ Hwf)).
  rewrite !andb_true_iff, !bool_decide_eq_true. tauto.
Qed.

(** [l] is not in the index yet, and every leg with a batch hint carries a
    non-empty one. *)
Context (Hfresh : byID ix !! ID l = None) (Href : settlementKey l <> "").

Lemma open_ne c : byID ix !! ID c = Some c -> ID c <> ID l.
Proof. congruence. Qed.

Lemma elem_of_pool c : c ∈ tier3_pool rules l scan ix <-> t3_pool rules ix l c.
Proof.
  unfold tier3_pool, t3_pool. destruct (T3RequireBatchHint rules).
  - unfold inWindow. rewrite !elem_of_filterLegs, elem_of_batch, bool_decide_eq_true.
    unfold partner. pose proof (open_ne c).
    split; [tauto|]. intros [Hp Hb]. specialize (Hb eq_refl). tauto.
  - rewrite elem_of_scan. split; [by split|tauto].
Qed.

Lemma pool_NoDup : NoDup (tier3_pool rules l scan ix).
Proof.
  unfold tier3_pool. destruct (T3RequireBatchHint rules); [|apply scan_NoDup].
  unfold inWindow. apply NoDup_filterLegs, NoDup_filterLegs. rewrite ByBatch_scan by done.
  apply collect_NoDup, (wf_keyed _ Hwf).
Qed.

Lemma open_NoDup ls : (forall c, c ∈ ls -> byID ix !! ID c = Some c) -> NoDup ls -> NoDup (ID <$> ls).
Proof.
  intros Ho Hn. apply NoDup_fmap_2_strong; [|done]. intros x y Hx Hy Heq.
  apply Ho in Hx, Hy. rewrite Heq in Hx. congruence.
Qed.

Lemma open_positive ls : (forall c, c ∈ ls -> byID ix !! ID c = Some c) -> positive_amounts ls.
Proof.
  intros Ho. apply Forall_forall. intros c Hc. specialize (Hix _ _ (Ho c Hc)). unfold amount_ok in *. lia.
Qed.

Lemma tolerance_range a : amount_ok a -> 0 <= Tolerance rules a <= 2 ^ 62.
Proof.
  unfold amount_ok. intros. apply Tolerance_bound; [apply Hsane|lia|apply Hsane].
Qed.

Lemma tier3_one_sound g srcs m :
  (forall src, default [] (g !! src) = filter (fun c => Source c = src) (tier3_pool rules l scan ix)) ->
  tier3_one rules l g srcs = Some m -> rule_match rules ix l m.
Proof.
  intros Hg. induction srcs as [|src srcs IH]; [done|]. cbn [tier3_one]. cbv zeta.
  rewrite Hg. set (p := capCandidates _ _).
  destruct (subsetSum p _ _ _ _) as [s|] eqn:E; [|done]. intros [= <-].
  assert (forall c, c ∈ p -> t3_pool rules ix l c /\ Source c = src) as Hp.
  { intros c Hc%elem_of_cap. apply list_elem_of_filter in Hc as [? Hc]. by rewrite elem_of_pool in Hc. }
  assert (forall c, c ∈ p -> byID ix !! ID c = Some c) as Ho by (intros c Hc; apply (Hp c Hc)).
  pose proof (tolerance_range _ Hl). unfold amount_ok in Hl.
  apply subsetSum_ok in E; [|by apply open_positive|lia..].
  pose proof (subset_ok_submseteq _ _ _ _ _ _ E) as Hsub. destruct E as [_ Hsize Hsum].
  assert (NoDup p) by (apply NoDup_cap, NoDup_filter, pool_NoDup).
  apply (match_T3_one _ _ _ src); [| |done|done].
  - apply Forall_forall. intros c Hc. apply Hp. by eapply elem_of_submseteq.
  - apply open_NoDup; [|by eapply submseteq_NoDup].
    intros c Hc. apply Ho. by eapply elem_of_submseteq.
Qed.

Lemma elem_of_settlements s :
  s ∈ tier3_settlements rules l scan ix ->
  (T3RequireBatchHint rules = true -> attr l AttrBatchRef <> "") ->
  AmountMinor l < AmountMinor s -> WithinDateWindow rules (ValueDate s) (ValueDate l) = true ->
  t3_settlement rules ix l s.
Proof.
  unfold tier3_settlements, t3_settlement. destruct (T3RequireBatchHint rules).
  - rewrite elem_of_sortLegs, elem_of_app, !elem_of_filterLegs, elem_of_batch, andb_true_iff,
      !bool_decide_eq_true.
    rewrite RefLegs_scan, elem_of_collect, elem_of_values_keyed, bool_decide_eq_true
      by (done || apply (wf_keyed _ Hwf)).
    unfold batch_of. intros Hs Hb. specialize (Hb eq_refl). tauto.
  - rewrite elem_of_scan. unfold partner. intros Hs _ ? ?. split_and!; try tauto. done.
Qed.

Lemma elem_of_rest s c : c ∈ tier3_rest rules (tier3_same rules l ix) s -> t3_mate rules ix l s c.
Proof.
  unfold tier3_rest, tier3_same, t3_mate. intros Hc%elem_of_cap. revert Hc.
  rewrite elem_of_filterLegs, andb_true_iff, Z.ltb_lt. destruct (T3RequireBatchHint rules).
  - rewrite elem_of_filterLegs, elem_of_batch, bool_decide_eq_true. unfold batch_of. tauto.
  - rewrite elem_of_same. intros Hs. split_and!; try tauto. done.
Qed.

Lemma rest_NoDup s : NoDup (tier3_rest rules (tier3_same rules l ix) s).
Proof.
  unfold tier3_rest, tier3_same. apply NoDup_cap, NoDup_filterLegs.
  destruct (T3RequireBatchHint rules).
  - apply NoDup_filterLegs. rewrite ByBatch_scan by done. apply collect_NoDup, (wf_keyed _ Hwf).
  - rewrite SameSourceInWindow_scan by done. apply collect_NoDup, (wf_keyed _ Hwf).
Qed.

Lemma tier3_part_sound settlements m :
  (forall s, s ∈ settlements -> s ∈ tier3_settlements rules l scan ix) ->
  (T3RequireBatchHint rules = true -> attr l AttrBatchRef <> "") ->
  tier3_part rules l (tier3_same rules l ix) settlements = Some m -> rule_match rules ix l m.
Proof.
  intros Hin Hb. induction settlements as [|s settlements IH]; [done|]. cbn [tier3_part].
  assert (forall x, x ∈ settlements -> x ∈ tier3_settlements rules l scan ix) as Hin'
    by (intros; apply Hin; by right).
  destruct (Z.leb_spec (AmountMinor s) (AmountMinor l)) as [|Hlt]; cbn [orb]; [by apply IH|].
  destruct (WithinDateWindow rules (ValueDate s) (ValueDate l)) eqn:Hw; cbn [negb]; [|by apply IH].
  cbv zeta. set (p := tier3_rest _ _ _).
  destruct (subsetSum p _ _ _ _) as [rest|] eqn:E; [|by apply IH]. intros [= <-].
  assert (t3_settlement rules ix l s) as Hs by (apply elem_of_settlements; [apply Hin; by left|done..]).
  assert (forall c, c ∈ p -> t3_mate rules ix l s c) as Hp by apply elem_of_rest.
  assert (amount_ok (AmountMinor s)) as Has by (eapply Hix, Hs).
  pose proof (tolerance_range _ Has). pose proof (wf_subset _ (sane_wf _ Hsane)).
  unfold amount_ok in *. rewrite !sub64_id in E by (unfold in64; lia).
  assert (positive_amounts p) by (apply open_positive; intros c Hc; apply (Hp c Hc)).
  apply subsetSum_ok in E; [|done|lia..].
  pose proof (subset_ok_submseteq _ _ _ _ _ _ E) as Hsub. destruct E as [_ Hsize Hsum].
  apply match_T3_part; [done| | |done|cbn [sum_amounts]; lia].
  - apply Forall_forall. intros c Hc. apply Hp. by eapply elem_of_submseteq.
  - apply open_NoDup; [intros c Hc; apply (Hp c); by eapply elem_of_submseteq|].
    eapply submseteq_NoDup; [done|]. apply rest_NoDup.
Qed.

Lemma tier3_sound m : tier3 rules l scan ix = Some m -> rule_match rules ix l m.
Proof.
  unfold tier3. cbv zeta. destruct (tier3_one _ _ _ _) as [m'|] eqn:E.
  - intros [= <-]. eapply tier3_one_sound; [|done]. intros src. apply groupBySource_lookup.
  - destruct (T3RequireBatchHint rules && bool_decide (attr l AttrBatchRef = "")) eqn:Eb; [done|].
    apply tier3_part_sound; [done|]. intros Hh. rewrite Hh in Eb. cbn in Eb.
    by apply bool_decide_eq_false in Eb.
Qed.

(** ** All tiers *)

Lemma find_rule_match {S} (ex : option (refExists S)) s s' m :
  find rules l ix ex s = (Ok (Some m), s') -> rule_match rules ix l m.
Proof.
  unfold find. pose proof tier1_spec as H1. fold byRef. destruct (tier1 l byRef) as [m1|].
  { by intros [= <- <-]. }
  pose proof (tier2Ref_spec H1) as H2. destruct (tier2Ref rules l byRef) as [m2|].
  { by intros [= <- <-]. }
  cbv zeta. fold scan. unfold mbind.
  destruct (tier2AmountDate _ _ _ _ _ _) as [[[m3|]|] s3] eqn:E3; [| |done].
  - intros [= <- <-]. by apply tier2AmountDate_sound in E3.
  - destruct (tier3 rules l scan ix) as [m4|] eqn:E4; [|done]. intros [= <- <-].
    by apply tier3_sound.
Qed.
(** ** The order of the tiers *)

Lemma tier1_rule m : tier1 l byRef = Some m -> m_RuleID m = RuleT1Exact.
Proof. unfold tier1. destruct (List.find _ _); [|done]. by intros [= <-]. Qed.

Lemma tier2Ref_rule m : tier2Ref rules l byRef = Some m -> m_RuleID m = RuleT2Tolerant.
Proof. unfold tier2Ref. destruct (foldl _ _ _) as [[]|]; [|done]. by intros [= <-]. Qed.

(** The exact rule answers first, then the tolerant one; neither asks the store. *)
Lemma find_ordered {S} (ex : option (refExists S)) s c :
  partner rules ix l c -> TxnRef c = TxnRef l -> gap l c <= Tolerance rules (AmountMinor l) ->
  exists m, find rules l ix ex s = (Ok (Some m), s) /\
    (m_RuleID m = RuleT1Exact /\ (exists c', partner rules ix l c' /\ TxnRef c' = TxnRef l /\ AmountMinor c' = AmountMinor l)
     \/ m_RuleID m = RuleT2Tolerant /\
        forall c', partner rules ix l c' -> TxnRef c' = TxnRef l -> AmountMinor c' <> AmountMinor l).
Proof.
  intros Hp Hr Hg. unfold find. fold byRef. pose proof tier1_spec as H1.
  destruct (tier1 l byRef) as [m|] eqn:E1.
  - exists m. split; [done|]. left. split; [by apply tier1_rule|].
    unfold tier1 in E1. destruct (List.find _ byRef) as [x|] eqn:E; [|done].
    apply find_Some_elem in E as [Hx [Hxr%bool_decide_eq_true Hxa%Z.eqb_eq]%andb_true_iff].
    apply elem_of_byRef in Hx as [Hxp _]. by exists x.
  - pose proof (tier2Ref_spec H1) as H2. destruct (tier2Ref rules l byRef) as [m|] eqn:E2.
    + exists m. split; [done|]. right. split; [by apply tier2Ref_rule|done].
    + specialize (H2 c Hp Hr). lia.
Qed.

(** ** Completeness *)

(** Nothing the amount-and-date rule would have paired [l] with, unless the
    store answered that a reference is known on the other side. *)
Definition no_amount_date {S} (ex : option (refExists S)) (s : S) : Prop :=
  forall c, partner rules ix l c -> AmountMinor c = AmountMinor l ->
    (forall c', partner rules ix l c' -> AmountMinor c' = AmountMinor l -> c' = c) ->
    (forall o, byID ix !! ID o = Some o -> Key o = Key l -> Source o = Source l ->
       ID o <> ID l -> AmountMinor o = AmountMinor l ->
       WithinDateWindow rules (ValueDate o) (ValueDate c) = false) ->
    exists e, ex = Some e /\
      ((exists s1, e (TxnRef c) (Source l) s = (Ok true, s1)) \/
       exists s1 s2, e (TxnRef c) (Source l) s = (Ok false, s1) /\
                     e (TxnRef l) (Source c) s1 = (Ok true, s2)).

(** No admissible subset on either side, wherever the pool was not capped. *)
Definition no_subset : Prop :=
  (forall src pool, NoDup pool -> (forall c, c ∈ pool <-> t3_pool rules ix l c /\ Source c = src) ->
     Z.of_nat (length pool) <= T3MaxCandidates rules ->
     forall subset, subset ⊆+ pool -> 2 <= Z.of_nat (length subset) <= T3MaxSubset rules ->
     Tolerance rules (AmountMinor l) < Z.abs (sum_amounts subset - AmountMinor l)) /\
  (forall s mates, t3_settlement rules ix l s -> NoDup mates ->
     (forall c, c ∈ mates <-> t3_mate rules ix l s c) ->
     Z.of_nat (length mates) <= T3MaxCandidates rules ->
     forall rest, rest ⊆+ mates -> 1 <= Z.of_nat (length rest) <= T3MaxSubset rules - 1 ->
     Tolerance rules (AmountMinor s) < Z.abs (sum_amounts (l :: rest) - AmountMinor s)).

Lemma filter_unique ls (f : Leg -> bool) c : NoDup ls -> c ∈ ls -> f c = true ->
  (forall c', c' ∈ ls -> f c' = true -> c' = c) -> filterLegs ls f = [c].
Proof.
  intros Hn Hc Hf Hu. apply Permutation_singleton_r. apply NoDup_Permutation.
  - by apply NoDup_filterLegs.
  - apply NoDup_singleton.
  - intros x. rewrite elem_of_filterLegs, list_elem_of_singleton.
    split; [intros []; by apply Hu|by intros ->].
Qed.

Lemma tier2AmountDate_none {S} (ex : option (refExists S)) s s' :
  tier2AmountDate rules l scan ix ex s = (Ok None, s') -> no_amount_date ex s.
Proof.
  intros Ht c Hp Ha Hu Hs. unfold tier2AmountDate in Ht.
  rewrite (filter_unique scan _ c) in Ht; [|apply scan_NoDup|by apply elem_of_scan|by apply Z.eqb_eq|].
  2: { intros c' Hc' Ha'%Z.eqb_eq. apply Hu; [by apply elem_of_scan|done]. }
  destruct (existsb _ (SameSourceInWindow ix l)) eqn:Hex.
  { exfalso. apply existsb_exists in Hex as (o & Ho & Hao). apply list_elem_of_In, elem_of_same in Ho.
    apply andb_true_iff in Hao as [Hao%Z.eqb_eq Hw]. destruct Ho as (Ho1 & Ho2 & Ho3 & Ho4).
    rewrite Hs in Hw by done. discriminate. }
  destruct ex as [e|]; [|done]. exists e. split; [done|]. unfold mbind in Ht.
  destruct (e (TxnRef c) (Source l) s) as [[[]|] s1] eqn:E1; [left; by exists s1| |done].
  destruct (e (TxnRef l) (Source c) s1) as [[[]|] s2] eqn:E2; [|done|done].
  right. by exists s1, s2.
Qed.

Lemma find_none_ref {S} (ex : option (refExists S)) s s' :
  find rules l ix ex s = (Ok None, s') ->
  forall c, partner rules ix l c -> TxnRef c = TxnRef l -> Tolerance rules (AmountMinor l) < gap l c.
Proof.
  unfold find. pose proof tier1_spec as H1. fold byRef. destruct (tier1 l byRef) as [m1|]; [done|].
  pose proof (tier2Ref_spec H1) as H2. by destruct (tier2Ref rules l byRef) as [m2|].
Qed.

Lemma cap_all ls n : Z.of_nat (length ls) <= n -> capCandidates ls n = ls.
Proof. intros Hn. unfold capCandidates. by rewrite (proj2 (Z.leb_le _ _)). Qed.

Context (Hcaps : T3MaxCandidates rules <= 24 /\ T3MaxSubset rules <= 6).

(** Within the default caps the node budget covers the search. *)
Lemma caps_budget (p : list Leg) k : Z.of_nat (length p) <= T3MaxCandidates rules ->
  k <= T3MaxSubset rules -> 1 + nodes (Z.to_nat k) (length p) <= node_budget.
Proof. intros. apply default_budget; lia. Qed.

Lemma tier3_one_none g srcs src :
  (forall src, default [] (g !! src) = filter (fun c => Source c = src) (tier3_pool rules l scan ix)) ->
  tier3_one rules l g srcs = None -> src ∈ srcs ->
  subsetSum (capCandidates (filter (fun c => Source c = src) (tier3_pool rules l scan ix))
              (T3MaxCandidates rules))
    (AmountMinor l) (Tolerance rules (AmountMinor l)) 2 (T3MaxSubset rules) = None.
Proof.
  intros Hg. induction srcs as [|x srcs IH]; cbn [tier3_one]; cbv zeta.
  { intros _ Hin. by apply not_elem_of_nil in Hin. }
  intros Hn Hin. rewrite (Hg x) in Hn.
  destruct (subsetSum (capCandidates _ _) _ _ _ _) eqn:E in Hn; [done|].
  apply elem_of_cons in Hin as [->|Hin]; [exact E|by apply IH].
Qed.

Lemma tier3_one_complete g :
  g = groupBySource (tier3_pool rules l scan ix) -> tier3_one rules l g (sortedKeys g) = None ->
  forall src pool, NoDup pool -> (forall c, c ∈ pool <-> t3_pool rules ix l c /\ Source c = src) ->
     Z.of_nat (length pool) <= T3MaxCandidates rules ->
     forall subset, subset ⊆+ pool -> 2 <= Z.of_nat (length subset) <= T3MaxSubset rules ->
     Tolerance rules (AmountMinor l) < Z.abs (sum_amounts subset - AmountMinor l).
Proof.
  intros -> Hn src pool Hnd Hpool Hlen subset Hsub Hsize.
  assert (filter (fun c => Source c = src) (tier3_pool rules l scan ix) ≡ₚ pool) as Hp.
  { apply NoDup_Permutation; [apply NoDup_filter, pool_NoDup|done|].
    intros c. rewrite list_elem_of_filter, elem_of_pool, Hpool. tauto. }
  destruct subset as [|c0 subset]; [cbn in Hsize; lia|].
  assert (c0 ∈ filter (fun c => Source c = src) (tier3_pool rules l scan ix)) as Hc0.
  { rewrite Hp. eapply elem_of_submseteq; [by left|done]. }
  apply list_elem_of_filter in Hc0 as [Hsrc Hc0].
  apply (tier3_one_none _ _ src) in Hn;
    [|apply groupBySource_lookup|apply elem_of_sortedKeys; by exists c0].
  rewrite cap_all in Hn by (by rewrite Hp).
  pose proof (tolerance_range _ Hl). unfold amount_ok in Hl.
  eapply subsetSum_none; [..|exact Hn| |done]; [|lia..| |].
  - apply open_positive. intros c Hc. rewrite Hp in Hc. by apply Hpool in Hc as [[[]] _].
  - rewrite Hp. apply caps_budget; lia.
  - by rewrite Hp.
Qed.

Lemma tier3_part_none same settlements s :
  tier3_part rules l same settlements = None -> s ∈ settlements ->
  AmountMinor l < AmountMinor s -> WithinDateWindow rules (ValueDate s) (ValueDate l) = true ->
  subsetSum (tier3_rest rules same s) (sub64 (AmountMinor s) (AmountMinor l))
    (Tolerance rules (AmountMinor s)) 1 (sub64 (T3MaxSubset rules) 1) = None.
Proof.
  intros Hn Hin Hlt Hw. revert Hn. induction settlements as [|x settlements IH].
  { by apply not_elem_of_nil in Hin. }
  cbn [tier3_part]. apply elem_of_cons in Hin as [<-|Hin].
  - rewrite (proj2 (Z.leb_gt _ _) Hlt), Hw. cbn [orb negb]. cbv zeta. intros Hn.
    by destruct (subsetSum _ _ _ _ _) in Hn |- *.
  - destruct (_ || _); [by apply IH|]. cbv zeta. intros Hn.
    destruct (subsetSum _ _ _ _ _) in Hn; [done|by apply IH].
Qed.

Lemma settlement_listed s : t3_settlement rules ix l s -> s ∈ tier3_settlements rules l scan ix.
Proof.
  unfold tier3_settlements, t3_settlement. destruct (T3RequireBatchHint rules).
  - rewrite elem_of_sortLegs, elem_of_app, !elem_of_filterLegs, elem_of_batch, andb_true_iff,
      !bool_decide_eq_true.
    rewrite RefLegs_scan, elem_of_collect, elem_of_values_keyed, bool_decide_eq_true
      by (done || apply (wf_keyed _ Hwf)).
    pose proof (open_ne s). unfold batch_of. intros (? & ? & ? & ? & ? & Hb).
    specialize (Hb eq_refl). tauto.
  - rewrite elem_of_scan. unfold partner. tauto.
Qed.

Lemma elem_of_mates s c :
  c ∈ filterLegs (tier3_same rules l ix) (fun o => WithinDateWindow rules (ValueDate o) (ValueDate s) &&
                                             (AmountMinor o <? AmountMinor s)) <->
  t3_mate rules ix l s c /\ (T3RequireBatchHint rules = true -> batch_of l <> "").
Proof.
  unfold tier3_same, t3_mate. rewrite elem_of_filterLegs, andb_true_iff, Z.ltb_lt.
  destruct (T3RequireBatchHint rules).
  - rewrite elem_of_filterLegs, elem_of_batch, bool_decide_eq_true. unfold batch_of.
    split; [tauto|]. intros [(? & ? & ? & ? & ? & ? & Hb) Hb']. specialize (Hb eq_refl).
    specialize (Hb' eq_refl). tauto.
  - rewrite elem_of_same. split; [|tauto]. intros. split_and!; try tauto; done.
Qed.

Lemma tier3_part_complete :
  tier3_part rules l (tier3_same rules l ix) (tier3_settlements rules l scan ix) = None ->
  forall s mates, t3_settlement rules ix l s -> NoDup mates ->
     (forall c, c ∈ mates <-> t3_mate rules ix l s c) ->
     Z.of_nat (length mates) <= T3MaxCandidates rules ->
     forall rest, rest ⊆+ mates -> 1 <= Z.of_nat (length rest) <= T3MaxSubset rules - 1 ->
     Tolerance rules (AmountMinor s) < Z.abs (sum_amounts (l :: rest) - AmountMinor s).
Proof.
  intros Hn s mates Hs Hnd Hmates Hlen rest Hsub Hsize.
  pose proof (settlement_listed s Hs) as Hin.
  pose proof Hs as (Hopen & Hk & Hsrc & Hlt & Hw & Hb).
  apply (tier3_part_none _ _ s) in Hn; [|done..].
  assert (amount_ok (AmountMinor s)) as Has by (by eapply Hix).
  pose proof (tolerance_range _ Has). pose proof (wf_subset _ (sane_wf _ Hsane)).
  unfold amount_ok in *. rewrite !sub64_id in Hn by (unfold in64; lia).
  unfold tier3_rest in Hn. set (p := filterLegs _ _) in Hn.
  assert (p ≡ₚ mates) as Hp.
  { apply NoDup_Permutation; [|done|].
    - apply NoDup_filterLegs. unfold tier3_same. destruct (T3RequireBatchHint rules).
      + apply NoDup_filterLegs. rewrite ByBatch_scan by done. apply collect_NoDup, (wf_keyed _ Hwf).
      + rewrite SameSourceInWindow_scan by done. apply collect_NoDup, (wf_keyed _ Hwf).
    - intros c. unfold p. rewrite elem_of_mates, Hmates. split; [tauto|]. intros Hc.
      split; [done|]. intros Hh. by apply Hb. }
  rewrite cap_all in Hn by (by rewrite Hp). cbn [sum_amounts].
  replace (AmountMinor l + sum_amounts rest - AmountMinor s)
    with (sum_amounts rest - (AmountMinor s - AmountMinor l)) by lia.
  eapply subsetSum_none; [..|exact Hn| |done]; [|lia..| |].
  - apply open_positive. intros c Hc. rewrite Hp in Hc. apply Hmates in Hc. apply Hc.
  - rewrite Hp. apply caps_budget; lia.
  - by rewrite Hp.
Qed.

Lemma tier3_none : tier3 rules l scan ix = None -> no_subset.
Proof.
  unfold tier3. cbv zeta. destruct (tier3_one _ _ _ _) eqn:E; [done|]. intros Hn.
  split; [by eapply tier3_one_complete|].
  destruct (T3RequireBatchHint rules && bool_decide (attr l AttrBatchRef = "")) eqn:Eb.
  - apply andb_true_iff in Eb as [Hh Hb%bool_decide_eq_true].
    intros s mates (_ & _ & _ & _ & _ & Hbat) _ _ _ rest _ _. by destruct (Hbat Hh) as [].
  - by apply tier3_part_complete.
Qed.

Lemma find_none_complete {S} (ex : option (refExists S)) s s' :
  find rules l ix ex s = (Ok None, s') ->
  (forall c, partner rules ix l c -> TxnRef c = TxnRef l -> Tolerance rules (AmountMinor l) < gap l c) /\
  no_amount_date ex s /\ no_subset.
Proof.
  intros Hf. split; [by eapply find_none_ref|]. revert Hf. unfold find. fold byRef.
  destruct (tier1 l byRef) as [m1|]; [done|]. destruct (tier2Ref rules l byRef) as [m2|]; [done|].
  cbv zeta. fold scan. unfold mbind.
  destruct (tier2AmountDate _ _ _ _ _ _) as [[[m3|]|] s3] eqn:E3; [done| |done].
  destruct (tier3 rules l scan ix) as [m4|] eqn:E4; [done|]. intros _. split; [by eapply tier2AmountDate_none|by apply tier3_none].
Qed.
End Tiers.

(** ** What a match is worth *)

(** A match puts an anchor leg against a group of legs of one other source, all
    of one window, their sum within the anchor's tolerance; one of its legs is
    [l] and the others are open. *)
Record reconciles `{Sha256} (rules : Rules) (ix : Index) (l : Leg) (m : Match)
    (anchor : Leg) (group partners : list Leg) : Prop := {
  rc_legs : anchor :: group ≡ₚ l :: partners;
  rc_partners : partners <> [];
  rc_open : forall c, c ∈ partners -> byID ix !! ID c = Some c;
  rc_window : forall c, c ∈ partners -> Key c = Key l;
  rc_sources : exists src, Source anchor <> src /\ forall c, c ∈ group -> Source c = src;
  rc_nodup : NoDup (m_LegIDs m);
  rc_ids : m_LegIDs m = sort_Strings (ID <$> anchor :: group);
  rc_id : m_ID m = DeriveID "m" (m_LegIDs m);
  rc_currency : m_Currency m = Currency l;
  rc_residual : m_ResidualMinor m = sum_amounts group - AmountMinor anchor;
  rc_tolerance : Z.abs (m_ResidualMinor m) <= Tolerance rules (AmountMinor anchor)
}.

Section Reconciles.
Context `{Sha256} (rules : Rules) (ix : Index) (l : Leg).
Context (Hsane : sane_rules rules) (Hix : amounts_ok ix) (Hl : amount_ok (AmountMinor l)).
Context (Hfresh : byID ix !! ID l = None).

Lemma pair_reconciles c tier rule conf : partner rules ix l c ->
  gap l c <= Tolerance rules (AmountMinor l) ->
  reconciles rules ix l (pair l c tier rule conf) l [c] [c].
Proof.
  intros Hp Hg. pose proof (partner_amount rules ix l Hix c Hp) as Hc. unfold amount_ok in *.
  pose proof Hp as (Ho & Hk & Hs & _).
  assert (sub64 (AmountMinor c) (AmountMinor l) = AmountMinor c - AmountMinor l) as Hsub
    by (by unwrap64).
  constructor; cbn [pair m_LegIDs m_ID m_Currency m_ResidualMinor sum_amounts]; try done.
  - by intros x ->%list_elem_of_singleton.
  - by intros x ->%list_elem_of_singleton.
  - exists (Source c). split; [done|]. by intros x ->%list_elem_of_singleton.
  - apply NoDup_sort_Strings, NoDup_cons. split; [|apply NoDup_singleton].
    intros Heq%list_elem_of_singleton. congruence.
  - rewrite Hsub. lia.
  - rewrite Hsub. done.
Qed.

Lemma many_residual anchor group tol : amount_ok (AmountMinor anchor) -> 0 <= tol <= 2 ^ 62 ->
  positive_amounts group -> Z.abs (sum_amounts group - AmountMinor anchor) <= tol ->
  m_ResidualMinor (many anchor group TierManyToOne RuleT3Subset tol)
    = sum_amounts group - AmountMinor anchor.
Proof.
  unfold amount_ok. intros Ha Ht Hpos Hsum. unfold many; cbv zeta; cbn [m_ResidualMinor].
  rewrite sum64_exact by (done || lia). rewrite sub64_id by (unfold in64; lia). done.
Qed.

Lemma fresh_ne c : byID ix !! ID c = Some c -> ID c <> ID l.
Proof. congruence. Qed.

Lemma rule_match_reconciles m : rule_match rules ix l m ->
  exists anchor group partners, reconciles rules ix l m anchor group partners.
Proof.
  intros [c Hp Hr Ha _|c Hp Hr Hg _|c Hp Hr Ha _ _|src s Hs Hnd Hsize Hsum|s rest Hset Hm Hnd Hsize Hsum].
  - exists l, [c], [c]. apply pair_reconciles; [done|]. unfold gap. rewrite Ha, Z.sub_diag.
    apply Tolerance_nonneg, Hsane.
  - exists l, [c], [c]. apply pair_reconciles; [done|lia].
  - exists l, [c], [c]. apply pair_reconciles; [done|]. unfold gap. rewrite Ha, Z.sub_diag.
    apply Tolerance_nonneg, Hsane.
  - exists l, s, s. rewrite Forall_forall in Hs.
    assert (forall c, c ∈ s -> partner rules ix l c) as Hp by (intros c Hc; apply (Hs c Hc)).
    assert (positive_amounts s) by (apply (open_positive ix Hix); intros c Hc; apply (Hp c Hc)).
    pose proof (many_residual l s _ Hl (tolerance_range rules Hsane _ Hl) ltac:(done) Hsum) as Hres.
    constructor; try done.
    + intros ->. cbn in Hsize. lia.
    + intros c Hc. apply (Hp c Hc).
    + intros c Hc. apply (Hp c Hc).
    + destruct s as [|c0 s]; [cbn in Hsize; lia|]. exists src. split.
      * destruct (Hs c0) as [[[_ (_ & Hne & _)] _] Heq]; [by left|]. congruence.
      * intros c Hc. apply (Hs c Hc).
    + change (NoDup (sort_Strings (ID l :: (ID <$> s)))). apply NoDup_sort_Strings, NoDup_cons.
      split; [|done].
      rewrite list_elem_of_fmap. intros (c & Heq & Hc). apply (fresh_ne c); [apply (Hp c Hc)|done].
    + by rewrite Hres.
  - exists s, (l :: rest), (s :: rest). rewrite Forall_forall in Hm.
    pose proof Hset as (Ho & Hk & Hsrc & Hlt & Hw & _).
    assert (amount_ok (AmountMinor s)) as Has by (by eapply Hix).
    assert (positive_amounts (l :: rest)) as Hpos.
    { constructor; [unfold amount_ok in Hl; lia|].
      apply (open_positive ix Hix). intros c Hc. apply (Hm c Hc). }
    pose proof (many_residual s (l :: rest) _ Has (tolerance_range rules Hsane _ Has) Hpos Hsum) as Hres.
    constructor; try done.
    + apply Permutation_swap.
    + intros c [->|Hc]%elem_of_cons; [done|apply (Hm c Hc)].
    + intros c [->|Hc]%elem_of_cons; [done|apply (Hm c Hc)].
    + exists (Source l). split; [done|]. intros c [->|Hc]%elem_of_cons; [done|apply (Hm c Hc)].
    + change (NoDup (sort_Strings (ID s :: ID l :: (ID <$> rest)))). apply NoDup_sort_Strings.
      repeat (apply NoDup_cons; split); [| |done].
      * rewrite elem_of_cons, list_elem_of_fmap. intros [Heq|(c & Heq & Hc)].
        -- by apply (fresh_ne s).
        -- destruct (Hm c Hc) as (Hco & _ & Hcs & _). rewrite Heq in Ho. congruence.
      * rewrite list_elem_of_fmap. intros (c & Heq & Hc).
        apply (fresh_ne c); [apply (Hm c Hc)|done].
    + cbn. unfold Key in Hk. congruence.
    + by rewrite Hres.
Qed.

Lemma confidence_pair res tol : in64 (Z.abs res) ->
  (fconst (70 # 100) <= tolerantConfidence res tol <= 1)%Q /\
  (fconst (70 # 100) <= fsub (tolerantConfidence res tol) (fconst (10 # 100)) <= 1)%Q.
Proof.
  intros Hr. destruct (tolerantConfidence_range res tol Hr) as [H1 H2].
  revert H1 H2. generalize (tolerantConfidence res tol). intros q H1 H2.
  assert (fconst (70 # 100) <= fconst (80 # 100))%Q by (by apply Qle_bool_iff).
  assert (fconst (95 # 100) <= 1)%Q by (by apply Qle_bool_iff).
  split; [lra|]. unfold fsub. split.
  - eapply Qle_trans; [|apply rnd_mono; apply Qplus_le_compat; [exact H1|apply Qle_refl]].
    apply Qle_bool_iff. vm_compute. reflexivity.
  - eapply Qle_trans; [apply rnd_mono; apply Qplus_le_compat; [exact H2|apply Qle_refl]|].
    apply Qle_bool_iff. vm_compute. reflexivity.
Qed.

Lemma rule_match_confidence m : rule_match rules ix l m ->
  (fconst (70 # 100) <= m_Confidence m <= 1)%Q.
Proof.
  assert (fconst (70 # 100) <= 1 <= 1)%Q as H1 by (split; by apply Qle_bool_iff).
  assert (fconst (70 # 100) <= fconst (75 # 100) <= 1)%Q as H2 by (split; by apply Qle_bool_iff).
  pose proof (tolerance_range rules Hsane _ Hl) as Htol.
  intros [c Hp Hr Ha _|c Hp Hr Hg _|c Hp Hr Ha _ _|src s Hs Hnd Hsize Hsum|s rest Hset Hm Hnd Hsize Hsum].
  - exact H1.
  - cbn [pair m_Confidence].
    refine (proj1 (confidence_pair (gap l c) (Tolerance rules (AmountMinor l)) _)).
    unfold in64. lia.
  - exact H2.
  - rewrite Forall_forall in Hs.
    change (m_Confidence _) with
      (fsub (tolerantConfidence (m_ResidualMinor (many l s TierManyToOne RuleT3Subset
         (Tolerance rules (AmountMinor l)))) (Tolerance rules (AmountMinor l))) (fconst (10 # 100))).
    rewrite many_residual; [|done|done| |done].
    + apply confidence_pair. unfold in64. lia.
    + apply (open_positive ix Hix). intros c Hc. apply (Hs c Hc).
  - rewrite Forall_forall in Hm. pose proof Hset as (Ho & _).
    assert (amount_ok (AmountMinor s)) as Has by (by eapply Hix).
    pose proof (tolerance_range rules Hsane _ Has).
    change (m_Confidence _) with
      (fsub (tolerantConfidence (m_ResidualMinor (many s (l :: rest) TierManyToOne RuleT3Subset
         (Tolerance rules (AmountMinor s)))) (Tolerance rules (AmountMinor s))) (fconst (10 # 100))).
    rewrite many_residual; [|done|done| |done].
    + apply confidence_pair. unfold in64. lia.
    + constructor; [unfold amount_ok in Hl; lia|].
      apply (open_positive ix Hix). intros c Hc. apply (Hm c Hc).
Qed.
End Reconciles.
