(* ===== verification/Heuristic.v ===== *)
(** * The heuristic classifier

    internal/domain/classify/heuristic.go: the classifier the service installs
    in the engine. The evidence is a sentence for a human reader; the formatter
    is a parameter, and the model fixes which format is applied to which values. *)

From S2P Require Export MatcherFacts.

(** ** [fmt.Sprintf] *)

Inductive fmt_arg : Type :=
  | AStr (s : string)
  | AInt (z : Z)
  | AFloat (q : float64)
  | ADate (d : Date).

Class Formatting := Sprintf : string -> list fmt_arg -> string.

(** ** The classifier *)

Definition HeuristicID : string := "heuristic@v1".

Record Heuristic : Type := mkHeuristic {
  FeeMinBps : float64;
  FeeMaxBps : float64;
  FeeAttrKeys : list string;
  FXAttrKeys : list string
}.

Definition NewHeuristic : Heuristic :=
  mkHeuristic (of_int 20) (of_int 400)
    ["fee_minor"; "fee"; "interchange_minor"; "scheme_fee_minor"]
    ["fx_rate"; "original_currency"; "settlement_currency"].

Definition opposite (primary : Leg) (legs : list Leg) : option Leg :=
  List.find (fun l => bool_decide (Source l <> Source primary)) legs.

(** The first key, leg by leg, with a value that is not blank. *)
Fixpoint anyAttr (keys : list string) (legs : list Leg) : option string :=
  match legs with
  | [] => None
  | l :: legs' =>
      match List.find (fun k => bool_decide (TrimSpace (attr l k) <> "")) keys with
      | Some k => Some k
      | None => anyAttr keys legs'
      end
  end.

Definition clamp (v lo hi : float64) : float64 := fmin hi (fmax lo v).

Definition round3 (v : float64) : float64 := fdiv (math_Round (fmul v (of_int 1000))) (of_int 1000).

Section Classify.
Context `{Formatting} (h : Heuristic).

Definition out (cat : Category) (conf : float64) (evidence : string) : Classification :=
  mkClassification cat (round3 conf) HeuristicID evidence.

(** The difference of two amounts in basis points of the larger one. *)
Definition diff_bps (diff : Z) (base : float64) : float64 :=
  fmul (fdiv (of_int diff) base) (of_int 10000).

(** The score of a difference in the fee band, best around 1.5%. *)
Definition fee_confidence (bps : float64) : float64 :=
  clamp (fsub (fconst (80 # 100))
              (fdiv (fmul (fconst (10 # 100)) (fabs (fsub bps (of_int 150)))) (of_int 250)))
        (fconst (60 # 100)) (fconst (80 # 100)).

(** The rules for a leg and the leg of another source it disagrees with. *)
Definition classify_pair (rules : Rules) (primary partner : Leg) : Classification :=
  if bool_decide (Currency partner <> Currency primary) then
    out CatFXDrift (fconst (92 # 100))
      (Sprintf "currency mismatch %s vs %s on txn_ref %q"
         [AStr (Currency primary); AStr (Currency partner); AStr (TxnRef primary)])
  else
    match anyAttr (FXAttrKeys h) [primary; partner] with
    | Some k =>
        out CatFXDrift (fconst (88 # 100))
          (Sprintf "fx attribute %q present; amounts %d vs %d"
             [AStr k; AInt (AmountMinor primary); AInt (AmountMinor partner)])
    | None =>
        let diff := abs64 (sub64 (AmountMinor primary) (AmountMinor partner)) in
        if WithinTolerance rules (AmountMinor primary) (AmountMinor partner) &&
           negb (WithinDateWindow rules (ValueDate primary) (ValueDate partner)) then
          out CatTiming (fconst (90 # 100))
            (Sprintf "amounts agree, value dates %s vs %s exceed ±%dd window"
               [ADate (ValueDate primary); ADate (ValueDate partner); AInt (ValueDateWindowDays rules)])
        else
          match anyAttr (FeeAttrKeys h) [primary; partner] with
          | Some k =>
              out CatFee (fconst (95 # 100))
                (Sprintf "fee attribute %q present; amount difference %d" [AStr k; AInt diff])
          | None =>
              let base := fmax (of_int (AmountMinor primary)) (of_int (AmountMinor partner)) in
              let bps := diff_bps diff base in
              if flt 0%Q base && (fle (FeeMinBps h) bps && fle bps (FeeMaxBps h)) then
                out CatFee (fee_confidence bps)
                  (Sprintf "amount difference %d minor = %.1f bps, inside fee band [%.0f,%.0f] bps"
                     [AInt diff; AFloat bps; AFloat (FeeMinBps h); AFloat (FeeMaxBps h)])
              else
                out CatUnclassified (fconst (40 # 100))
                  (Sprintf "same ref, amount difference %d minor outside every known pattern" [AInt diff])
          end
    end.

(** The rules for a leg without a counterparty. *)
Definition classify_single (trigger : string) (primary : Leg) : Classification :=
  if bool_decide (trigger = TriggerWindowExpired) then
    out CatMissingCounterparty
      (if bool_decide (Source primary = "ledger") then fconst (80 # 100) else fconst (75 # 100))
      (Sprintf "no leg with txn_ref %q from any other source within the window" [AStr (TxnRef primary)])
  else out CatUnclassified (fconst (30 # 100)) "no counterparty and no recognisable pattern".

(** The leg of the same source that re-used the reference. *)
Definition reuser (primary : Leg) (related : list Leg) : option Leg :=
  List.find (fun r => bool_decide (Source r = Source primary) && bool_decide (ID r <> ID primary)) related.

Definition Heuristic_Classify (i : ClassifyInput) : Classification :=
  match ci_Legs i with
  | [] => out CatUnclassified 0%Q "no legs"
  | primary :: others =>
      match reuser primary (ci_Related i) with
      | Some r =>
          out CatDuplicate (fconst (95 # 100))
            (Sprintf "same source %q re-used txn_ref %q (existing leg %s)"
               [AStr (Source primary); AStr (TxnRef primary); AStr (ID r)])
      | None =>
          let partner :=
            match opposite primary others with
            | Some l => Some l
            | None => opposite primary (ci_Related i)
            end in
          match partner with
          | Some partner => classify_pair (ci_Rules i) primary partner
          | None => classify_single (ci_Trigger i) primary
          end
      end
  end.

Definition heuristic_classifier : BreakClassifier := Heuristic_Classify.
End Classify.

(** ** What each category means *)

(** A leg carries one of the attributes, with a value that is not blank. *)
Definition has_attr (keys : list string) (legs : list Leg) : Prop :=
  exists l k, l ∈ legs /\ k ∈ keys /\ TrimSpace (attr l k) <> "".

Lemma List_find_Some {A} (f : A -> bool) l x : List.find f l = Some x -> x ∈ l /\ f x = true.
Proof. intros [Hx Hf]%List.find_some. by rewrite list_elem_of_In. Qed.

Lemma List_find_None {A} (f : A -> bool) l : List.find f l = None <-> forall x, x ∈ l -> f x = false.
Proof.
  split.
  - intros Hn x Hx. apply list_elem_of_In in Hx. by eapply List.find_none.
  - intros Hn. destruct (List.find f l) as [x|] eqn:E; [|done].
    apply List_find_Some in E as [Hx Hf]. rewrite Hn in Hf; done.
Qed.

Lemma anyAttr_spec keys legs :
  match anyAttr keys legs with Some _ => has_attr keys legs | None => ~ has_attr keys legs end.
Proof.
  induction legs as [|l legs IH]; cbn.
  { intros (l & k & Hl & _). by apply not_elem_of_nil in Hl. }
  destruct (List.find _ keys) as [k|] eqn:E.
  - apply List_find_Some in E as [Hk Hv]. apply bool_decide_eq_true in Hv.
    exists l, k. split; [by left|done].
  - destruct (anyAttr keys legs) as [k|].
    + destruct IH as (x & k' & Hx & Hr). exists x, k'. split; [by right|done].
    + intros (x & k' & Hx & Hk' & Hv). apply elem_of_cons in Hx as [->|Hx]; [|by apply IH; exists x, k'].
      pose proof (proj1 (List_find_None _ _) E _ Hk') as Hf. by apply bool_decide_eq_false in Hf.
Qed.

Section Meaning.
Context `{Formatting} (h : Heuristic) (i : ClassifyInput).

Definition in_fee_band (p q : Leg) : Prop :=
  let base := fmax (of_int (AmountMinor p)) (of_int (AmountMinor q)) in
  let bps := diff_bps (abs64 (sub64 (AmountMinor p) (AmountMinor q))) base in
  flt 0%Q base = true /\ fle (FeeMinBps h) bps = true /\ fle bps (FeeMaxBps h) = true.

Definition looks_fx (p q : Leg) : Prop := Currency q <> Currency p \/ has_attr (FXAttrKeys h) [p; q].

(** The amounts agree but the dates do not. *)
Definition looks_timing (p q : Leg) : Prop :=
  WithinTolerance (ci_Rules i) (AmountMinor p) (AmountMinor q) = true /\
  WithinDateWindow (ci_Rules i) (ValueDate p) (ValueDate q) = false.

Definition looks_fee (p q : Leg) : Prop := has_attr (FeeAttrKeys h) [p; q] \/ in_fee_band p q.

Definition reused (p : Leg) : Prop :=
  exists r, r ∈ ci_Related i /\ Source r = Source p /\ ID r <> ID p.

(** The counterparty leg: of the break, else of the related legs. *)
Definition counterpart (p : Leg) (others : list Leg) : option Leg :=
  match opposite p others with Some l => Some l | None => opposite p (ci_Related i) end.

(** The patterns a break is labelled with, each excluding the ones before it. *)
Inductive explains : Category -> Prop :=
  | ex_no_legs : ci_Legs i = [] -> explains CatUnclassified
  | ex_duplicate p others : ci_Legs i = p :: others -> reused p -> explains CatDuplicate
  | ex_fx p others q : ci_Legs i = p :: others -> ~ reused p -> counterpart p others = Some q ->
      looks_fx p q -> explains CatFXDrift
  | ex_timing p others q : ci_Legs i = p :: others -> ~ reused p -> counterpart p others = Some q ->
      ~ looks_fx p q -> looks_timing p q -> explains CatTiming
  | ex_fee p others q : ci_Legs i = p :: others -> ~ reused p -> counterpart p others = Some q ->
      ~ looks_fx p q -> ~ looks_timing p q -> looks_fee p q -> explains CatFee
  | ex_no_pattern p others q : ci_Legs i = p :: others -> ~ reused p -> counterpart p others = Some q ->
      ~ looks_fx p q -> ~ looks_timing p q -> ~ looks_fee p q -> explains CatUnclassified
  | ex_missing p others : ci_Legs i = p :: others -> ~ reused p -> counterpart p others = None ->
      ci_Trigger i = TriggerWindowExpired -> explains CatMissingCounterparty
  | ex_alone p others : ci_Legs i = p :: others -> ~ reused p -> counterpart p others = None ->
      ci_Trigger i <> TriggerWindowExpired -> explains CatUnclassified.

Lemma reuser_spec p :
  match reuser p (ci_Related i) with Some _ => reused p | None => ~ reused p end.
Proof.
  unfold reuser. destruct (List.find _ _) as [r|] eqn:E.
  - apply List_find_Some in E as [Hr Hf]. apply andb_true_iff in Hf as [H1%bool_decide_eq_true H2%bool_decide_eq_true].
    by exists r.
  - intros (r & Hr & Hs & Hi). pose proof (proj1 (List_find_None _ _) E _ Hr) as Hf. cbn in Hf.
    by rewrite !bool_decide_eq_true_2 in Hf.
Qed.

Lemma classify_pair_spec p others q : ci_Legs i = p :: others -> ~ reused p ->
  counterpart p others = Some q -> explains (c_Category (classify_pair h (ci_Rules i) p q)).
Proof.
  intros Hl Hr Hq. unfold classify_pair. case_bool_decide as Hc.
  { eapply ex_fx; [done..|by left]. }
  pose proof (anyAttr_spec (FXAttrKeys h) [p; q]) as Hfx. destruct (anyAttr (FXAttrKeys h) _).
  { eapply ex_fx; [done..|by right]. }
  assert (~ looks_fx p q) as Hnfx by (by intros [|]).
  destruct (WithinTolerance _ _ _ && negb _) eqn:Et.
  { apply andb_true_iff in Et as [Ht1 Ht2%negb_true_iff]. by eapply ex_timing. }
  assert (~ looks_timing p q) as Hnt.
  { intros [Ht1 Ht2]. by rewrite Ht1, Ht2 in Et. }
  pose proof (anyAttr_spec (FeeAttrKeys h) [p; q]) as Hfee. destruct (anyAttr (FeeAttrKeys h) _).
  { eapply ex_fee; [done..|by left]. }
  cbv zeta. destruct (flt 0%Q _ && _) eqn:Eb.
  - apply andb_true_iff in Eb as [Hb1 Hb2]. apply andb_true_iff in Hb2 as [Hb2 Hb3].
    eapply ex_fee; [done..|by right].
  - eapply ex_no_pattern; [done..|]. intros [|(Hb1 & Hb2 & Hb3)]; [done|]. by rewrite Hb1, Hb2, Hb3 in Eb.
Qed.

Lemma Classify_explains : explains (c_Category (Heuristic_Classify h i)).
Proof.
  unfold Heuristic_Classify. destruct (ci_Legs i) as [|p others] eqn:El; [by apply ex_no_legs|].
  pose proof (reuser_spec p) as Hr. destruct (reuser p _); [by eapply ex_duplicate|].
  cbv zeta. fold (counterpart p others). destruct (counterpart p others) as [q|] eqn:Eq.
  - by apply (classify_pair_spec p others).
  - unfold classify_single. case_bool_decide; [by eapply ex_missing|by eapply ex_alone].
Qed.

Lemma explains_unique c1 c2 : explains c1 -> explains c2 -> c1 = c2.
Proof. intros [] []; congruence || by destruct_and?; simplify_eq; exfalso; auto. Qed.

(** ** Confidence *)

Lemma round3_mono x y : (0 <= x)%Q -> (x <= y)%Q -> (round3 x <= round3 y)%Q.
Proof.
  intros Hx Hxy. unfold round3. apply fdiv_mono; [by vm_compute|]. unfold math_Round.
  rewrite <- Zle_Qle. assert (0 <= of_int 1000)%Q as H1000 by (by apply Qle_bool_iff).
  apply round_half_away_mono; [|by apply fmul_mono_l].
  apply rnd_nonneg. by apply Qmult_le_0_compat.
Qed.

Lemma flt_spec (x y : float64) : if flt x y then (x < y)%Q else (y <= x)%Q.
Proof.
  unfold flt. destruct (Qle_bool y x) eqn:E; cbn [negb]; [by apply Qle_bool_iff|].
  apply Qnot_le_lt. intros ?%Qle_bool_iff. congruence.
Qed.

Lemma clamp_range v lo hi : (lo <= hi)%Q -> (lo <= clamp v lo hi <= hi)%Q.
Proof.
  intros Hle. unfold clamp, fmin, fmax. pose proof (flt_spec lo v) as H1.
  destruct (flt lo v).
  - pose proof (flt_spec v hi) as H2. destruct (flt v hi); split; lra.
  - pose proof (flt_spec lo hi) as H2. destruct (flt lo hi); split; lra.
Qed.

Lemma fee_confidence_range bps :
  (fconst (60 # 100) <= round3 (fee_confidence bps) <= fconst (80 # 100))%Q.
Proof.
  unfold fee_confidence.
  match goal with |- context [clamp ?v ?lo ?hi] =>
    destruct (clamp_range v lo hi) as [Hlo Hhi]; [by apply Qle_bool_iff|];
    revert Hlo Hhi; generalize (clamp v lo hi)
  end.
  intros x Hlo Hhi. assert (0 <= fconst (60 # 100))%Q as H0 by (by apply Qle_bool_iff). split.
  - eapply Qle_trans; [|apply (round3_mono (fconst (60 # 100))); done].
    apply Qle_bool_iff. vm_compute. reflexivity.
  - eapply Qle_trans; [apply (round3_mono x (fconst (80 # 100))); [lra|done]|].
    apply Qle_bool_iff. vm_compute. reflexivity.
Qed.

(** A verdict carries the classifier's identifier and a probability. *)
Definition auditable (c : Classification) : Prop :=
  c_ClassifierID c = HeuristicID /\ (0 <= c_Confidence c <= fconst (95 # 100))%Q.

Lemma out_auditable cat conf e : (0 <= round3 conf <= fconst (95 # 100))%Q -> auditable (out cat conf e).
Proof. done. Qed.

Lemma Classify_auditable_aux : auditable (Heuristic_Classify h i).
Proof.
  assert (forall cat conf e, Qle_bool 0 (round3 conf) && Qle_bool (round3 conf) (fconst (95 # 100)) = true ->
    auditable (out cat conf e)) as Hconst.
  { intros cat conf e [H1 H2]%andb_true_iff. apply out_auditable.
    split; by apply Qle_bool_iff. }
  unfold Heuristic_Classify. destruct (ci_Legs i) as [|p others]; [by apply Hconst|].
  destruct (reuser p _); [by apply Hconst|]. cbv zeta. fold (counterpart p others).
  destruct (counterpart p others) as [q|].
  - unfold classify_pair. case_bool_decide; [by apply Hconst|].
    destruct (anyAttr _ _); [by apply Hconst|]. destruct (_ && _); [by apply Hconst|].
    destruct (anyAttr _ _); [by apply Hconst|]. destruct (_ && _); [|by apply Hconst].
    apply out_auditable. destruct (fee_confidence_range
      (diff_bps (abs64 (sub64 (AmountMinor p) (AmountMinor q)))
         (fmax (of_int (AmountMinor p)) (of_int (AmountMinor q))))) as [Hlo Hhi]. split.
    + eapply Qle_trans; [|exact Hlo]. by apply Qle_bool_iff.
    + eapply Qle_trans; [exact Hhi|]. by apply Qle_bool_iff.
  - unfold classify_single. case_bool_decide; [|by apply Hconst]. case_bool_decide; by apply Hconst.
Qed.
End Meaning.
