(* ===== verification/Repository.v ===== *)
(** * The repository interface

    [Repository] of internal/domain/recon/engine.go (the part of ports.Store
    the engine uses), as a class of operations over the store's state, and the
    contract its comments state, as a class of laws over an abstract view. The
    engine's theorems are proved against the laws; MemoryStore.v discharges
    them. *)

From S2P Require Export MatcherFacts.

Class Repository (S : Type) : Type := {
  Apply : ChangeSet -> M S unit;
  HasLeg : string -> M S bool;
  LegsByTxnRef : string -> M S (list Leg);
  OpenLegs : M S (list Leg);
  GetBreak : string -> M S Break;
  EventsFrom : Z -> Z -> M S (list Event);
  LastSeq : M S Z;
  ResetProjections : M S unit
}.

(** ** The abstract store: three projections and the log *)

Record View : Type := mkView {
  v_legs : gmap string Leg;
  v_matches : gmap string Match;
  v_breaks : gmap string Break;
  v_events : list Event
}.

Definition put_legs (ls : list Leg) (m : gmap string Leg) : gmap string Leg :=
  foldl (fun m l => <[ID l := l]> m) m ls.
Definition put_matches (ms : list Match) (m : gmap string Match) : gmap string Match :=
  foldl (fun m x => <[m_ID x := x]> m) m ms.
Definition put_breaks (bs : list Break) (m : gmap string Break) : gmap string Break :=
  foldl (fun m b => <[b_ID b := b]> m) m bs.

Definition ev_lt (a b : Event) : Prop := ev_Seq a < ev_Seq b.

(** Sequence numbers are positive and strictly increasing; they need not be
    contiguous. *)
Record log_wf (evs : list Event) : Prop := {
  log_sorted : StronglySorted ev_lt evs;
  log_positive : Forall (fun e => 1 <= ev_Seq e) evs
}.

(** ** What a store keeps

    A store may keep times to a precision of its own ([exact_time]: those it
    keeps as they are), attributes as JSON ([exact_attrs]: those it keeps as
    they are, among them all that were read from JSON) and payloads in a form
    of its own ([kept]), as long as what is decoded from them is the same. *)
Class Fidelity : Type := {
  exact_time : Time -> Prop;
  exact_attrs : gmap string string -> Prop;
  exact_coerced a : exact_attrs (coerce_attrs a);
  kept : json -> json;
  kept_leg l j : in64 (AmountMinor l) -> wf_date_range (ValueDate l) -> exact_attrs (Attrs l) ->
    marshal_leg l = Ok j -> dec_leg zero_leg (kept j) = Ok (coerce_leg l);
  kept_resolution p j : marshal_resolution p = Ok j -> dec_resolution (kept j) = Ok (coerce_resolution p)
}.

Section Changes.
Context `{Fidelity}.

(** The entry [e] as it is logged, with sequence number [n]. *)
Definition logged (n : Z) (e : Event) : Event :=
  mkEvent n (ev_Type e) (ev_At e) (ev_AggregateID e) (kept (ev_Payload e)).

(** [new] is [evs] as logged, with sequence numbers assigned. *)
Definition stamped (evs new : list Event) : Prop :=
  Forall2 (fun e e' => e' = logged (ev_Seq e') e) evs new.

(** What an applied change set does: everything lands. *)
Record applied (cs : ChangeSet) (v v' : View) : Prop := {
  ap_legs : v_legs v' = put_legs (cs_Legs cs) (v_legs v);
  ap_matches : v_matches v' = put_matches (cs_Matches cs) (v_matches v);
  ap_breaks : v_breaks v' = put_breaks (cs_Breaks cs) (v_breaks v);
  ap_events : exists new, v_events v' = v_events v ++ new /\ stamped (cs_Events cs) new
}.

(** ** What the engine promises of the change sets it applies *)

(** A row of its own: every column can hold it. *)
Record leg_fits (l : Leg) : Prop := {
  lf_currency : iso_currency (Currency l);
  lf_amount : in64 (AmountMinor l);
  lf_date : wf_date_range (ValueDate l);
  lf_time : exact_time (IngestedAt l);
  lf_attrs : exact_attrs (Attrs l)
}.
Record match_fits (m : Match) : Prop := {
  mf_currency : iso_currency (m_Currency m);
  mf_tier : TierExact <= m_Tier m <= TierManyToOne;
  mf_time : exact_time (m_MatchedAt m)
}.
Record break_fits (b : Break) : Prop := {
  bf_currency : iso_currency (b_Currency b);
  bf_opened : exact_time (b_OpenedAt b);
  bf_unresolved : b_ResolvedAt b = None;
  bf_age : b_AgeSeconds b = 0
}.

(** A stored leg or break that changes keeps everything but its state. *)
Definition leg_kept (l0 l : Leg) : Prop := l = set_state (Status l) (MatchID l) (BreakID l) l0.
Definition break_kept (b0 b : Break) : Prop :=
  exists t reason actor, b = resolve t reason actor b0 /\ exact_time t.

(** A new leg, match or break fits its row; a match is always new. *)
Record cs_ok (v : View) (cs : ChangeSet) : Prop := {
  ck_legs : NoDup (ID <$> cs_Legs cs);
  ck_leg l : l ∈ cs_Legs cs -> match v_legs v !! ID l with Some l0 => leg_kept l0 l | None => leg_fits l end;
  ck_matches : NoDup (m_ID <$> cs_Matches cs);
  ck_match m : m ∈ cs_Matches cs -> v_matches v !! m_ID m = None /\ match_fits m;
  ck_breaks : NoDup (b_ID <$> cs_Breaks cs);
  ck_break b : b ∈ cs_Breaks cs -> match v_breaks v !! b_ID b with Some b0 => break_kept b0 b | None => break_fits b end;
  ck_events : Forall (fun e => exact_time (ev_At e)) (cs_Events cs)
}.
End Changes.

Definition keyed_matches (m : gmap string Match) : Prop := forall id x, m !! id = Some x -> m_ID x = id.
Definition keyed_breaks (m : gmap string Break) : Prop := forall id b, m !! id = Some b -> b_ID b = id.

Record view_wf (v : View) : Prop := {
  vw_legs : keyed (v_legs v);
  vw_matches : keyed_matches (v_matches v);
  vw_breaks : keyed_breaks (v_breaks v);
  vw_log : log_wf (v_events v)
}.

Definition last_seq (evs : list Event) : Z := default 0 (ev_Seq <$> last evs).

(** A read leaves the view alone; its answer satisfies [P]. *)
Class RepositoryLaws (S : Type) `{Repository S} : Type := {
  fidelity :: Fidelity;
  view : S -> View;
  repo_ok : S -> Prop;
  view_is_wf s : repo_ok s -> view_wf (view s);
  Apply_law cs s r s' : repo_ok s -> cs_ok (view s) cs -> Apply cs s = (r, s') ->
    repo_ok s' /\ match r with
                  | Ok _ => applied cs (view s) (view s')
                  | Err _ => view s' = view s
                  end;
  HasLeg_law id s r s' : repo_ok s -> HasLeg id s = (r, s') ->
    repo_ok s' /\ view s' = view s /\
    forall b, r = Ok b -> b = bool_decide (is_Some (v_legs (view s) !! id));
  LegsByTxnRef_law ref s r s' : repo_ok s -> LegsByTxnRef ref s = (r, s') ->
    repo_ok s' /\ view s' = view s /\
    forall ls, r = Ok ls -> ls ≡ₚ filter (fun l => TxnRef l = ref) (values (v_legs (view s)));
  OpenLegs_law s r s' : repo_ok s -> OpenLegs s = (r, s') ->
    repo_ok s' /\ view s' = view s /\
    forall ls, r = Ok ls -> ls ≡ₚ filter (fun l => Status l = LegOpen) (values (v_legs (view s)));
  GetBreak_law id s r s' : repo_ok s -> GetBreak id s = (r, s') ->
    repo_ok s' /\ view s' = view s /\
    forall b, r = Ok b -> v_breaks (view s) !! id = Some b;
  EventsFrom_law from limit s r s' : repo_ok s -> 0 < limit -> EventsFrom from limit s = (r, s') ->
    repo_ok s' /\ view s' = view s /\
    forall evs, r = Ok evs ->
      evs = take (Z.to_nat limit) (filter (fun e => from <= ev_Seq e) (v_events (view s)));
  LastSeq_law s r s' : repo_ok s -> LastSeq s = (r, s') ->
    repo_ok s' /\ view s' = view s /\ forall n, r = Ok n -> n = last_seq (v_events (view s));
  ResetProjections_law s r s' : repo_ok s -> ResetProjections s = (r, s') ->
    repo_ok s' /\ match r with
                  | Ok _ => view s' = mkView ∅ ∅ ∅ (v_events (view s))
                  | Err _ => view s' = view s
                  end
}.

(** ** Facts about the view *)

(** What is stored under an identifier, after items of different identifiers
    were. *)
Lemma put_lookup {A} (key : A -> string) xs (m : gmap string A) id x : NoDup (key <$> xs) ->
  foldl (fun m x => <[key x := x]> m) m xs !! id = Some x <->
  (x ∈ xs /\ key x = id) \/ (id ∉ (key <$> xs) /\ m !! id = Some x).
Proof.
  revert m. induction xs as [|y xs IH]; intros m Hnd.
  { cbn. rewrite elem_of_nil. pose proof (not_elem_of_nil id). tauto. }
  apply NoDup_cons in Hnd as [Hx Hnd]. cbn [foldl].
  rewrite IH by done. rewrite fmap_cons, !not_elem_of_cons, elem_of_cons.
  destruct (decide (key y = id)) as [<-|Hne].
  - rewrite lookup_insert_eq. split.
    + intros [[H1 H2]|[H1 [= <-]]]; [by left; auto|]. left. auto.
    + intros [[[->|H1] H2]|[[H1 _] _]]; [by right|by left|done].
  - rewrite lookup_insert_ne by done. naive_solver.
Qed.

Lemma put_legs_lookup ls m id l : NoDup (ID <$> ls) ->
  put_legs ls m !! id = Some l <->
  (l ∈ ls /\ ID l = id) \/ (id ∉ (ID <$> ls) /\ m !! id = Some l).
Proof. apply put_lookup. Qed.

(** Under its identifier, an item that was put is found and no other. *)
Lemma put_found {A} (key : A -> string) xs (m : gmap string A) a x : NoDup (key <$> xs) -> a ∈ xs ->
  foldl (fun m x => <[key x := x]> m) m xs !! key a = Some x -> x = a.
Proof.
  intros Hnd Ha Hx. assert (foldl (fun m x => <[key x := x]> m) m xs !! key a = Some a) as Ha'; [|congruence].
  apply put_lookup; [done|]. by left.
Qed.

Lemma put_legs_keyed ls m : keyed m -> keyed (put_legs ls m).
Proof.
  unfold put_legs. revert m. induction ls as [|x ls IH]; intros m Hm; cbn; [done|]. apply IH.
  intros id l [[<- <-]|[_ H]]%lookup_insert_Some; [done|by apply Hm].
Qed.

Lemma put_matches_keyed ms m : keyed_matches m -> keyed_matches (put_matches ms m).
Proof.
  unfold put_matches. revert m. induction ms as [|x ms IH]; intros m Hm; cbn; [done|]. apply IH.
  intros id l [[<- <-]|[_ H]]%lookup_insert_Some; [done|by apply Hm].
Qed.

Lemma put_breaks_keyed bs m : keyed_breaks m -> keyed_breaks (put_breaks bs m).
Proof.
  unfold put_breaks. revert m. induction bs as [|x bs IH]; intros m Hm; cbn; [done|]. apply IH.
  intros id l [[<- <-]|[_ H]]%lookup_insert_Some; [done|by apply Hm].
Qed.

(** Appending events with growing sequence numbers keeps the log in order. *)
Lemma log_wf_app evs new :
  log_wf evs -> log_wf new -> (forall e e', e ∈ evs -> e' ∈ new -> ev_lt e e') -> log_wf (evs ++ new).
Proof.
  intros [H1 H2] [H3 H4] H5. constructor; [|by apply Forall_app].
  induction H1 as [|e evs Hs IH He]; cbn; [done|]. constructor.
  - apply IH; [by inversion H2|]. intros x y ??. apply H5; [by right|done].
  - apply Forall_app. split; [done|]. apply Forall_forall. intros y Hy. apply H5; [by left|done].
Qed.
