(* ===== verification/Ports.v ===== *)
(** * The store's port

    internal/ports/store.go: what the HTTP API reads from the store beyond what
    the engine uses (Repository.v), and the part of its contract that the API
    relies on: a read changes nothing, and says "not found" only of what is not
    there. *)

From S2P Require Export Repository.

(** [ports.BreakFilter]. *)
Record BreakFilter : Type := mkBreakFilter {
  f_Status : BreakStatus;
  f_Category : Category;
  f_Currency : string;
  f_Counterparty : string;
  f_MinAge : Duration;
  f_Limit : Z;
  f_Offset : Z
}.

(** [ports.Stats]. *)
Record Stats : Type := mkStats {
  st_LegsTotal : Z;
  st_LegsOpen : Z;
  st_LegsMatched : Z;
  st_LegsInBreak : Z;
  st_MatchesTotal : Z;
  st_MatchesByTier : gmap string Z;
  st_MatchesByRule : gmap string Z;
  st_BreaksOpen : Z;
  st_BreaksResolved : Z;
  st_BreaksByCat : gmap string Z;
  st_EventsTotal : Z;
  st_AutoMatchRate : float64;
  st_LegsBySource : gmap string Z;
  st_OldestOpenBreak : option Time
}.

Definition zero_stats : Stats := mkStats 0 0 0 0 0 ∅ ∅ 0 0 ∅ 0 0%Q ∅ None.

(** The earliest of some times. *)
Definition min_time (ts : list Time) : option Time :=
  match ts with [] => None | t :: ts' => Some (foldl Z.min t ts') end.

Class StoreReads (S : Type) : Type := {
  GetLeg : string -> M S Leg;
  GetMatch : string -> M S Match;
  ListBreaks : BreakFilter -> M S (list Break);
  ReadStats : M S Stats;
  Ping : M S unit
}.

Class StoreReadsLaws (S : Type) `{RepositoryLaws S} `{StoreReads S} : Type := {
  GetLeg_law id s r s' : repo_ok s -> GetLeg id s = (r, s') ->
    repo_ok s' /\ view s' = view s /\
    match r with
    | Ok l => v_legs (view s) !! id = Some l
    | Err e => errors_Is e ErrNotFound = true -> v_legs (view s) !! id = None
    end;
  GetMatch_law id s r s' : repo_ok s -> GetMatch id s = (r, s') ->
    repo_ok s' /\ view s' = view s /\
    match r with
    | Ok m => v_matches (view s) !! id = Some m
    | Err e => errors_Is e ErrNotFound = true -> v_matches (view s) !! id = None
    end;
  GetBreak_missing id s e s' : repo_ok s -> GetBreak id s = (Err e, s') ->
    errors_Is e ErrNotFound = true -> v_breaks (view s) !! id = None;
  ListBreaks_law f s r s' : repo_ok s -> ListBreaks f s = (r, s') -> repo_ok s' /\ view s' = view s;
  ReadStats_law s r s' : repo_ok s -> ReadStats s = (r, s') -> repo_ok s' /\ view s' = view s;
  Ping_law s r s' : repo_ok s -> Ping s = (r, s') -> repo_ok s' /\ view s' = view s
}.
