(* ===== verification/MemoryStore.v ===== *)
(** * The in-memory store

    internal/adapters/memory/store.go. The mutex makes every method atomic, so
    each is one state transformer. *)

From S2P Require Export Ports.

Record Store : Type := mkStore {
  legs : gmap string Leg;
  byTxnRef : gmap string (list string);
  matches : gmap string Match;
  breaks : gmap string Break;
  events : list Event
}.

Definition NewStore : Store := mkStore ∅ ∅ ∅ ∅ [].

(** One iteration of [Apply]'s first loop: a new leg is also listed under its
    reference. *)
Definition apply_leg (s : Store) (l : Leg) : Store :=
  mkStore (<[ID l := l]> (legs s))
          (match legs s !! ID l with
           | Some _ => byTxnRef s
           | None => <[TxnRef l := default [] (byTxnRef s !! TxnRef l) ++ [ID l]]> (byTxnRef s)
           end)
          (matches s) (breaks s) (events s).

Definition apply_match (s : Store) (m : Match) : Store :=
  mkStore (legs s) (byTxnRef s) (<[m_ID m := m]> (matches s)) (breaks s) (events s).
Definition apply_break (s : Store) (b : Break) : Store :=
  mkStore (legs s) (byTxnRef s) (matches s) (<[b_ID b := b]> (breaks s)) (events s).
Definition apply_event (s : Store) (ev : Event) : Store :=
  mkStore (legs s) (byTxnRef s) (matches s) (breaks s)
          (events s ++ [set_Seq (Z.of_nat (length (events s)) + 1) ev]).

Definition mem_Apply (cs : ChangeSet) : M Store unit := fun s =>
  (Ok tt,
   foldl apply_event
     (foldl apply_break
        (foldl apply_match (foldl apply_leg s (cs_Legs cs)) (cs_Matches cs))
        (cs_Breaks cs))
     (cs_Events cs)).

Definition mem_HasLeg (id : string) : M Store bool := fun s =>
  (Ok (bool_decide (is_Some (legs s !! id))), s).

Definition mem_lookup {A} (m : gmap string A) (id : string) : result A :=
  match m !! id with Some x => Ok x | None => Err (ErrSentinel ErrNotFound) end.

Definition mem_GetLeg (id : string) : M Store Leg := fun s => (mem_lookup (legs s) id, s).

Definition mem_LegsByTxnRef (txnRef : string) : M Store (list Leg) := fun s =>
  (Ok ((fun id => default zero_leg (legs s !! id)) <$> default [] (byTxnRef s !! txnRef)), s).

(** [out[i].ID < out[j].ID] *)
Definition id_le (a b : Leg) : Prop := String.le (ID a) (ID b).
#[export] Instance id_le_dec : RelDecision id_le.
Proof. intros a b. unfold id_le. apply _. Defined.

Definition mem_OpenLegs : M Store (list Leg) := fun s =>
  (Ok (merge_sort id_le (filter (fun l => Status l = LegOpen) (values (legs s)))), s).

Definition mem_GetMatch (id : string) : M Store Match := fun s => (mem_lookup (matches s) id, s).
Definition mem_GetBreak (id : string) : M Store Break := fun s => (mem_lookup (breaks s) id, s).

Definition mem_EventsFrom (from limit : Z) : M Store (list Event) := fun s =>
  let from := if from <? 1 then 1 else from in
  if Z.of_nat (length (events s)) <? from then (Ok [], s)
  else
    let out := drop (Z.to_nat (from - 1)) (events s) in
    (Ok (if (0 <? limit) && (limit <? Z.of_nat (length out)) then take (Z.to_nat limit) out else out), s).

Definition mem_LastSeq : M Store Z := fun s => (Ok (Z.of_nat (length (events s))), s).

Definition mem_ResetProjections : M Store unit := fun s => (Ok tt, mkStore ∅ ∅ ∅ ∅ (events s)).

#[export] Instance memory_repository : Repository Store := {|
  Apply := mem_Apply;
  HasLeg := mem_HasLeg;
  LegsByTxnRef := mem_LegsByTxnRef;
  OpenLegs := mem_OpenLegs;
  GetBreak := mem_GetBreak;
  EventsFrom := mem_EventsFrom;
  LastSeq := mem_LastSeq;
  ResetProjections := mem_ResetProjections
|}.

(** ** Listing breaks *)

(** A filter field left empty selects everything. *)
Definition unset_or (want got : string) : bool := bool_decide (want = "") || bool_decide (got = want).

Definition break_selected (f : BreakFilter) (now : Time) (b : Break) : bool :=
  unset_or (f_Status f) (b_Status b) && unset_or (f_Category f) (b_Category b) &&
  unset_or (f_Currency f) (b_Currency b) && unset_or (f_Counterparty f) (b_Counterparty b) &&
  negb ((0 <? f_MinAge f) && (Age b now <? f_MinAge f)).

Definition break_le (a b : Break) : Prop :=
  b_OpenedAt a < b_OpenedAt b \/ b_OpenedAt a = b_OpenedAt b /\ String.le (b_ID a) (b_ID b).
#[export] Instance break_le_dec : RelDecision break_le.
Proof. intros a b. unfold break_le. apply _. Defined.

(** [out[f.Offset:]], then [out[:f.Limit]]. *)
Definition page_of (offset limit : Z) (out : list Break) : list Break :=
  if (0 <? offset) && (Z.of_nat (length out) <=? offset) then []
  else
    let out := if 0 <? offset then drop (Z.to_nat offset) out else out in
    if (0 <? limit) && (limit <? Z.of_nat (length out)) then take (Z.to_nat limit) out else out.

Definition mem_ListBreaks (now : Time) (f : BreakFilter) : M Store (list Break) := fun s =>
  (Ok (page_of (f_Offset f) (f_Limit f)
         (merge_sort break_le
            (filter (fun b => break_selected f now b = true) ((map_to_list (breaks s)).*2)))), s).

(** ** Statistics *)

Definition tierName (t : Tier) : string :=
  if t =? TierExact then "T1" else if t =? TierTolerant then "T2"
  else if t =? TierManyToOne then "T3" else "unknown".

(** [m[k]++] *)
Definition incr (m : gmap string Z) (k : string) : gmap string Z := <[k := default 0 (m !! k) + 1]> m.

Definition stats_leg (st : Stats) (l : Leg) : Stats :=
  let '(mkStats lt lo lm lb mt mbt mbr bo br bbc et rate lbs old) := st in
  mkStats (lt + 1)
          (if bool_decide (Status l = LegOpen) then lo + 1 else lo)
          (if bool_decide (Status l = LegMatched) then lm + 1 else lm)
          (if bool_decide (Status l = LegBroken) then lb + 1 else lb)
          mt mbt mbr bo br bbc et rate (incr lbs (Source l)) old.

Definition stats_match (st : Stats) (m : Match) : Stats :=
  let '(mkStats lt lo lm lb mt mbt mbr bo br bbc et rate lbs old) := st in
  mkStats lt lo lm lb (mt + 1) (incr mbt (tierName (m_Tier m))) (incr mbr (m_RuleID m))
          bo br bbc et rate lbs old.

Definition stats_break (st : Stats) (b : Break) : Stats :=
  let '(mkStats lt lo lm lb mt mbt mbr bo br bbc et rate lbs old) := st in
  if bool_decide (b_Status b = BreakOpen)
  then mkStats lt lo lm lb mt mbt mbr (bo + 1) br (incr bbc (b_Category b)) et rate lbs
         (match old with
          | None => Some (b_OpenedAt b)
          | Some t => if Before (b_OpenedAt b) t then Some (b_OpenedAt b) else old
          end)
  else mkStats lt lo lm lb mt mbt mbr bo (br + 1) bbc et rate lbs old.

Definition stats_close (n : Z) (st : Stats) : Stats :=
  let '(mkStats lt lo lm lb mt mbt mbr bo br bbc et rate lbs old) := st in
  let den := lm + lb in
  mkStats lt lo lm lb mt mbt mbr bo br bbc n
          (if 0 <? den then fdiv (of_int lm) (of_int den) else rate) lbs old.

Definition mem_Stats : M Store Stats := fun s =>
  (Ok (stats_close (Z.of_nat (length (events s)))
         (foldl stats_break
            (foldl stats_match
               (foldl stats_leg zero_stats (values (legs s)))
               ((map_to_list (matches s)).*2))
            ((map_to_list (breaks s)).*2))), s).

(** ** The contract *)

(** Everything is kept as it is given. *)
#[local] Instance memory_fidelity : Fidelity.
Proof.
  refine {| exact_time := fun _ => True; exact_attrs := fun _ => True; kept := fun j => j |};
    [done|intros l j Ha Hd _; by apply dec_leg_marshal|apply dec_resolution_marshal].
Defined.

(** No leg is moved to another reference. *)
Definition refs_kept (s : Store) (ls : list Leg) : Prop :=
  NoDup (ID <$> ls) /\ forall l l0, l ∈ ls -> legs s !! ID l = Some l0 -> TxnRef l0 = TxnRef l.

Lemma cs_ok_refs s v cs : v_legs v = legs s -> cs_ok v cs -> refs_kept s (cs_Legs cs).
Proof.
  intros Hv Hc. split; [apply (ck_legs _ _ Hc)|]. intros l l0 Hl Hl0. pose proof (ck_leg _ _ Hc l Hl) as Hk.
  rewrite Hv, Hl0 in Hk. by rewrite Hk.
Qed.

Definition mem_view (s : Store) : View := mkView (legs s) (matches s) (breaks s) (events s).

Record mem_ok (s : Store) : Prop := {
  mo_legs : keyed (legs s);
  mo_matches : keyed_matches (matches s);
  mo_breaks : keyed_breaks (breaks s);
  mo_ref_nodup : forall r ids, byTxnRef s !! r = Some ids -> NoDup ids;
  mo_ref : forall r id, id ∈ default [] (byTxnRef s !! r) <->
                        exists l, legs s !! id = Some l /\ TxnRef l = r;
  mo_events : ev_Seq <$> events s = (fun n => Z.of_nat n + 1) <$> seq 0 (length (events s))
}.

Lemma NewStore_ok : mem_ok NewStore.
Proof.
  constructor; cbn; unfold keyed, keyed_matches, keyed_breaks; intros; simplify_map_eq; try done.
  rewrite elem_of_nil. naive_solver.
Qed.

Lemma apply_leg_ok s l :
  mem_ok s -> (forall l0, legs s !! ID l = Some l0 -> TxnRef l0 = TxnRef l) -> mem_ok (apply_leg s l).
Proof.
  intros [H1 H2 H3 H4 H5 H6] Hl.
  assert (keyed (<[ID l := l]> (legs s))) as Hk.
  { intros id x [[<- <-]|[_ H]]%lookup_insert_Some; [done|by apply H1]. }
  destruct (legs s !! ID l) as [l0|] eqn:E; unfold apply_leg; rewrite E; constructor; cbn; try done.
  - intros r id. rewrite H5. destruct (decide (id = ID l)) as [->|Hne].
    + rewrite lookup_insert_eq, E. specialize (Hl l0 eq_refl). naive_solver.
    + by rewrite lookup_insert_ne.
  - intros r ids [[<- <-]|[_ H]]%lookup_insert_Some; [|by eapply H4].
    apply NoDup_snoc.
    + destruct (byTxnRef s !! TxnRef l) eqn:E2; cbn; [by eapply H4|constructor].
    + rewrite H5. intros (x & Hx & _). congruence.
  - intros r id. destruct (decide (TxnRef l = r)) as [<-|Hr].
    + rewrite lookup_insert_eq. cbn. rewrite elem_of_app, list_elem_of_singleton, H5.
      destruct (decide (id = ID l)) as [->|Hne].
      * rewrite lookup_insert_eq. naive_solver.
      * rewrite lookup_insert_ne by done. naive_solver.
    + rewrite lookup_insert_ne, H5 by done. destruct (decide (id = ID l)) as [->|Hne].
      * rewrite lookup_insert_eq, E. naive_solver.
      * by rewrite lookup_insert_ne.
Qed.

Lemma apply_legs_ok ls s :
  mem_ok s -> NoDup (ID <$> ls) ->
  (forall l l0, l ∈ ls -> legs s !! ID l = Some l0 -> TxnRef l0 = TxnRef l) ->
  mem_ok (foldl apply_leg s ls) /\
  mem_view (foldl apply_leg s ls) =
    mkView (put_legs ls (legs s)) (matches s) (breaks s) (events s).
Proof.
  revert s. induction ls as [|l ls IH]; intros s Hs Hnd Hc; [done|]. cbn [foldl].
  apply NoDup_cons in Hnd as [Hx Hnd]. apply (IH (apply_leg s l)); [|done|].
  - apply apply_leg_ok; [done|]. intros l0. apply Hc. by left.
  - intros x x0 Hin. cbn [apply_leg legs]. rewrite lookup_insert_ne.
    + apply Hc. by right.
    + intros Heq. apply Hx. rewrite Heq. apply list_elem_of_fmap. by exists x.
Qed.

Lemma apply_matches_ok ms s : mem_ok s ->
  mem_ok (foldl apply_match s ms) /\
  mem_view (foldl apply_match s ms) = mkView (legs s) (put_matches ms (matches s)) (breaks s) (events s).
Proof.
  revert s. induction ms as [|m ms IH]; intros s Hs; [done|]. apply (IH (apply_match s m)).
  destruct Hs. constructor; cbn; try done. by apply (put_matches_keyed [m]).
Qed.

Lemma apply_breaks_ok bs s : mem_ok s ->
  mem_ok (foldl apply_break s bs) /\
  mem_view (foldl apply_break s bs) = mkView (legs s) (matches s) (put_breaks bs (breaks s)) (events s).
Proof.
  revert s. induction bs as [|b bs IH]; intros s Hs; [done|]. apply (IH (apply_break s b)).
  destruct Hs. constructor; cbn; try done. by apply (put_breaks_keyed [b]).
Qed.

Lemma apply_events_ok es s : mem_ok s ->
  mem_ok (foldl apply_event s es) /\
  exists new, mem_view (foldl apply_event s es) =
                mkView (legs s) (matches s) (breaks s) (events s ++ new) /\ stamped es new.
Proof.
  revert s. induction es as [|e es IH]; intros s Hs.
  { split; [done|]. exists []. split; [by rewrite app_nil_r|constructor]. }
  destruct (IH (apply_event s e)) as (Hok & new & Hv & Hst).
  { destruct Hs. constructor; cbn; try done.
    rewrite fmap_app, mo_events0, length_app. cbn. by rewrite seq_app, fmap_app. }
  split; [done|]. eexists (_ :: new). split.
  - cbn [foldl]. rewrite Hv. cbn. by rewrite <- app_assoc.
  - constructor; [|done]. done.
Qed.

Lemma mem_log_wf s : mem_ok s -> log_wf (events s).
Proof.
  intros Hs. pose proof (mo_events s Hs) as He. revert He. generalize (length (events s)) at 1 as n.
  intros n He. assert (forall k n evs, ev_Seq <$> evs = (fun n => Z.of_nat n + 1) <$> seq k n ->
    log_wf evs /\ Forall (fun e => Z.of_nat k + 1 <= ev_Seq e) evs) as H; [|by eapply H].
  clear. intros k n. revert k. induction n as [|n IH]; intros k [|e evs] He; try done.
  { split; [split; constructor|constructor]. }
  cbn in He. injection He as He Hevs. destruct (IH (S k) evs Hevs) as [[H1 H2] H3].
  assert (Forall (fun e => Z.of_nat k + 1 <= ev_Seq e) evs) as H4.
  { eapply Forall_impl; [exact H3|]. cbn. lia. }
  split; [|constructor; [lia|done]]. constructor.
  - constructor; [done|]. eapply Forall_impl; [exact H3|]. unfold ev_lt. cbn. lia.
  - constructor; [lia|done].
Qed.

Lemma mem_view_wf s : mem_ok s -> view_wf (mem_view s).
Proof. intros Hs. pose proof (mem_log_wf s Hs). by destruct Hs. Qed.

Lemma mem_Apply_ok cs s : mem_ok s -> refs_kept s (cs_Legs cs) ->
  mem_ok (mem_Apply cs s).2 /\ applied cs (mem_view s) (mem_view (mem_Apply cs s).2).
Proof.
  intros Hs [Hnd Hc]. unfold mem_Apply. cbn [snd].
  destruct (apply_legs_ok (cs_Legs cs) s Hs Hnd Hc) as [H1 V1].
  destruct (apply_matches_ok (cs_Matches cs) _ H1) as [H2 V2].
  destruct (apply_breaks_ok (cs_Breaks cs) _ H2) as [H3 V3].
  destruct (apply_events_ok (cs_Events cs) _ H3) as (H4 & new & V4 & Hst).
  injection V1 as V11 V12 V13 V14. injection V2 as V21 V22 V23 V24. injection V3 as V31 V32 V33 V34.
  split; [done|]. rewrite V4.
  constructor; cbn [mem_view v_legs v_matches v_breaks v_events].
  - by rewrite V31, V21, V11.
  - by rewrite V32, V22, V12.
  - by rewrite V33, V23, V13.
  - exists new. split; [|done]. by rewrite V34, V24, V14.
Qed.

Lemma mem_LegsByTxnRef_ok ref s : mem_ok s ->
  ((fun id => default zero_leg (legs s !! id)) <$> default [] (byTxnRef s !! ref))
    ≡ₚ filter (fun l => TxnRef l = ref) (values (legs s)).
Proof.
  intros Hs. set (ids := default [] (byTxnRef s !! ref)).
  assert (NoDup ids) as Hnd.
  { unfold ids. destruct (byTxnRef s !! ref) eqn:E; cbn; [by eapply mo_ref_nodup|constructor]. }
  assert (forall id, id ∈ ids <-> exists l, legs s !! id = Some l /\ TxnRef l = ref) as Hin
    by apply (mo_ref s Hs).
  pose proof (mo_legs s Hs) as Hk. apply NoDup_Permutation.
  - apply NoDup_fmap_2_strong; [|done]. intros x y Hx Hy Heq.
    apply Hin in Hx as (lx & Ex & _), Hy as (ly & Ey & _). rewrite Ex, Ey in Heq. cbn in Heq. subst.
    by rewrite <- (Hk _ _ Ex), <- (Hk _ _ Ey).
  - by apply NoDup_filter, NoDup_values.
  - intros l. rewrite list_elem_of_fmap, list_elem_of_filter, elem_of_values_keyed by done. split.
    + intros (id & -> & Hid). apply Hin in Hid as (l' & E & Hr). rewrite E. cbn.
      by rewrite (Hk _ _ E).
    + intros [Hr Hl]. exists (ID l). rewrite Hl. split; [done|]. apply Hin. by exists l.
Qed.

Lemma filter_from_drop evs from :
  1 <= from -> ev_Seq <$> evs = (fun n => Z.of_nat n + 1) <$> seq 0 (length evs) ->
  filter (fun e => from <= ev_Seq e) evs = drop (Z.to_nat (from - 1)) evs.
Proof.
  intros Hf He. assert (forall k from evs, Z.of_nat k + 1 <= from ->
    ev_Seq <$> evs = (fun n => Z.of_nat n + 1) <$> seq k (length evs) ->
    filter (fun e => from <= ev_Seq e) evs = drop (Z.to_nat (from - Z.of_nat k - 1)) evs) as H.
  { clear. intros k from evs. revert k. induction evs as [|e evs IH]; intros k Hf He.
    { by rewrite drop_nil. }
    cbn in He. injection He as He Hevs. destruct (decide (from <= ev_Seq e)) as [Hle|Hgt].
    - replace (Z.to_nat (from - Z.of_nat k - 1)) with 0%nat by lia. rewrite drop_0.
      clear IH. apply filter_all. constructor; [done|].
      assert (forall j evs, (k <= j)%nat -> ev_Seq <$> evs = (fun n => Z.of_nat n + 1) <$> seq j (length evs) ->
        Forall (fun e => from <= ev_Seq e) evs) as Hall; [|by apply (Hall (S k)); [lia|]].
      intros j l. revert j. induction l as [|x l IH]; intros j Hj Hx; [constructor|].
      cbn in Hx. injection Hx as Hx Hl. constructor; [lia|]. apply (IH (S j)); [lia|done].
    - rewrite filter_cons_False by done.
      replace (Z.to_nat (from - Z.of_nat k - 1)) with (S (Z.to_nat (from - Z.of_nat (S k) - 1))) by lia.
      apply (IH (S k)); [lia|done]. }
  rewrite (H 0%nat); [f_equal; lia|lia|done].
Qed.

Lemma mem_seq_range s e : mem_ok s -> e ∈ events s -> 1 <= ev_Seq e <= Z.of_nat (length (events s)).
Proof.
  intros Hs He. assert (ev_Seq e ∈ ev_Seq <$> events s) as Hin by (apply list_elem_of_fmap; eauto).
  rewrite (mo_events s Hs) in Hin. apply list_elem_of_fmap in Hin as (n & -> & Hn%elem_of_seq). lia.
Qed.

Lemma mem_EventsFrom_ok from limit s evs : mem_ok s -> 0 < limit ->
  (mem_EventsFrom from limit s).1 = Ok evs ->
  evs = take (Z.to_nat limit) (filter (fun e => from <= ev_Seq e) (events s)).
Proof.
  intros Hs Hl. unfold mem_EventsFrom. cbv zeta.
  set (f := if from <? 1 then 1 else from).
  assert (filter (fun e => from <= ev_Seq e) (events s) = filter (fun e => f <= ev_Seq e) (events s)) as ->.
  { apply filter_ext_in. intros e He. pose proof (mem_seq_range s e Hs He).
    unfold f. destruct (Z.ltb_spec from 1); lia. }
  assert (1 <= f) as Hf by (unfold f; destruct (Z.ltb_spec from 1); lia).
  rewrite filter_from_drop; [|done|apply (mo_events s Hs)].
  destruct (Z.ltb_spec (Z.of_nat (length (events s))) f) as [Hlt|Hge]; cbn [fst].
  - intros [= <-]. rewrite drop_ge by lia. by rewrite take_nil.
  - intros [= <-]. rewrite (proj2 (Z.ltb_lt 0 limit)) by done. cbn [andb].
    destruct (Z.ltb_spec limit (Z.of_nat (length (drop (Z.to_nat (f - 1)) (events s))))); [done|].
    rewrite take_ge by lia. done.
Qed.

Lemma mem_last_seq s : mem_ok s -> last_seq (events s) = Z.of_nat (length (events s)).
Proof.
  intros Hs. unfold last_seq. rewrite <- fmap_last, (mo_events s Hs).
  destruct (length (events s)) as [|n]; [done|].
  rewrite seq_S, fmap_app. cbn. rewrite last_snoc. cbn. lia.
Qed.

#[export] Instance memory_laws : RepositoryLaws Store.
Proof.
  refine {| fidelity := memory_fidelity; view := mem_view; repo_ok := mem_ok |}.
  - apply mem_view_wf.
  - intros cs s r s' Hs Hc%(cs_ok_refs s) E; [|done]. destruct (mem_Apply_ok cs s Hs Hc) as [H1 H2].
    change (mem_Apply cs s = (r, s')) in E. rewrite E in H1, H2. split; [done|].
    by destruct r.
  - intros id s r s' Hs [= <- <-]. split_and!; [done..|]. by intros b [= <-].
  - intros ref s r s' Hs [= <- <-]. split_and!; [done..|]. intros ls [= <-].
    by apply mem_LegsByTxnRef_ok.
  - intros s r s' Hs [= <- <-]. split_and!; [done..|]. intros ls [= <-].
    by rewrite merge_sort_Permutation.
  - intros id s r s' Hs [= <- <-]. split_and!; [done..|]. intros b. unfold mem_lookup. cbn.
    destruct (breaks s !! id); [by intros [= <-]|done].
  - intros from limit s r s' Hs Hl E.
    assert (s' = s) as ->.
    { change (mem_EventsFrom from limit s = (r, s')) in E. unfold mem_EventsFrom in E. cbv zeta in E.
      by destruct (_ <? _) in E; injection E. }
    split_and!; [done..|]. intros evs ->. apply (mem_EventsFrom_ok from limit s evs Hs Hl).
    change (mem_EventsFrom from limit s = (Ok evs, s)) in E. by rewrite E.
  - intros s r s' Hs [= <- <-]. split_and!; [done..|]. intros n [= <-]. symmetry. by apply mem_last_seq.
  - intros s r s' Hs [= <- <-]. split; [|done]. destruct Hs. constructor; cbn; try done;
      unfold keyed, keyed_matches, keyed_breaks; intros; simplify_map_eq.
    rewrite elem_of_nil. naive_solver.
Defined.

(** ** The port *)

Definition mem_Ping : M Store unit := mret tt.

(** The store's clock reads [now]. *)
Definition memory_reads (now : Time) : StoreReads Store := {|
  GetLeg := mem_GetLeg; GetMatch := mem_GetMatch; ListBreaks := mem_ListBreaks now;
  ReadStats := mem_Stats; Ping := mem_Ping
|}.

Lemma mem_lookup_found {A} (m : gmap string A) id :
  match mem_lookup m id with
  | Ok x => m !! id = Some x
  | Err e => errors_Is e ErrNotFound = true -> m !! id = None
  end.
Proof. unfold mem_lookup. by destruct (m !! id). Qed.

Lemma memory_reads_laws now : StoreReadsLaws (H1 := memory_reads now) Store.
Proof.
  constructor.
  - intros id s r s' Hs [= <- <-]. split_and!; [done..|]. apply mem_lookup_found.
  - intros id s r s' Hs [= <- <-]. split_and!; [done..|]. apply mem_lookup_found.
  - intros id s e s' Hs [= He <-]. pose proof (mem_lookup_found (breaks s) id) as Hl.
    by rewrite He in Hl.
  - by intros f s r s' Hs [= <- <-].
  - by intros s r s' Hs [= <- <-].
  - by intros s r s' Hs [= <- <-].
Qed.
