(* ===== verification/Database.v ===== *)
(** * The database, as the Postgres store sees it

    PostgreSQL and its driver (pgx) are not part of the program: they are a class
    of operations, parameters of the store of Postgres.v. What the documentation
    promises of them is in Sql.v. *)

From S2P Require Export Jsonb Ports.

Local Open Scope recon_scope.

(** An argument of a statement, or a column of a result: the Go values the store
    passes and scans. [VJson] is JSON text, by its value. *)
Inductive Value : Type :=
  | VNull
  | VBool (b : bool)
  | VInt (z : Z)
  | VFloat (q : float64)
  | VText (s : string)
  | VTexts (l : list string)
  | VTime (t : Time)
  | VInterval (d : Duration)
  | VJson (j : json).

Abbreviation Row := (list Value).
Abbreviation Statement := (string * list Value)%type.

(** The pool ([DB]) and a transaction ([Tx]). A query hands out its rows and
    then says whether reading them failed; [QueryRow] answers [None] where its
    [Scan] gives [pgx.ErrNoRows]; [BeginFunc] runs its function in a
    transaction; a batch is sent, its results are read one by one, and it is
    closed. *)
Class Database (DB Tx : Type) : Type := {
  ParseDSN : string -> result unit;
  PoolNew : string -> M DB unit;
  PoolPing : M DB unit;
  PoolClose : DB -> DB;
  Query : string -> list Value -> M DB (list Row * option error);
  QueryRow : string -> list Value -> M DB (option Row);
  Exec : string -> list Value -> M DB unit;
  BeginFunc : M Tx unit -> M DB unit;
  TxQueryRow : string -> list Value -> M Tx (option Row);
  TxExec : string -> list Value -> M Tx unit;
  TxSendBatch : list Statement -> Tx -> Tx;
  TxBatchExec : M Tx unit;
  TxBatchClose : M Tx unit;
  (* message and code of a [*pgconn.PgError] in the chain *)
  PgError : error -> option (string * string)
}.
