(* ===== verification/Postgres.v ===== *)
(** * The Postgres store

    internal/adapters/postgres/store.go and migrations/migrations.go, as
    computations over the pool of Database.v. The statements are the texts of
    the source. *)

From S2P Require Export Database.

Local Open Scope recon_scope.

(** ** The statements *)

Definition legCols : string :=
  "id, source, txn_ref, amount_minor, currency, value_date, direction, counterparty, attrs, ingested_at, status, COALESCE(match_id,''), COALESCE(break_id,'')".
Definition breakCols : string :=
  "id, leg_ids, currency, counterparty, category, confidence, classifier_id, trigger, status, opened_at, resolved_at, reason, actor".

Definition insert_leg_sql : string :=
  "INSERT INTO legs (id, source, txn_ref, amount_minor, currency, value_date, direction, counterparty, attrs, ingested_at, status, match_id, break_id)
			         VALUES ($1,$2,$3,$4,$5,$6,$7,$8,$9,$10,$11,NULLIF($12,''),NULLIF($13,''))
			         ON CONFLICT (id) DO UPDATE SET status=EXCLUDED.status, match_id=EXCLUDED.match_id, break_id=EXCLUDED.break_id".
Definition insert_match_sql : string :=
  "INSERT INTO matches (id, leg_ids, tier, rule_id, confidence, residual_minor, currency, matched_at)
			         VALUES ($1,$2,$3,$4,$5,$6,$7,$8) ON CONFLICT (id) DO NOTHING".
Definition insert_break_sql : string :=
  "INSERT INTO breaks (id, leg_ids, currency, counterparty, category, confidence, classifier_id, trigger, status, opened_at, resolved_at, reason, actor)
			         VALUES ($1,$2,$3,$4,$5,$6,$7,$8,$9,$10,$11,$12,$13)
			         ON CONFLICT (id) DO UPDATE SET status=EXCLUDED.status, resolved_at=EXCLUDED.resolved_at, reason=EXCLUDED.reason, actor=EXCLUDED.actor".
Definition insert_event_sql : string :=
  "INSERT INTO recon_events (type, at, aggregate_id, payload) VALUES ($1,$2,$3,$4)".

Definition has_leg_sql : string := "SELECT EXISTS(SELECT 1 FROM legs WHERE id=$1)".
Definition get_leg_sql : string := "SELECT " +:+ legCols +:+ " FROM legs WHERE id=$1".
Definition legs_by_ref_sql : string := "SELECT " +:+ legCols +:+ " FROM legs WHERE txn_ref=$1 ORDER BY ingested_at, id".
Definition open_legs_sql : string := "SELECT " +:+ legCols +:+ " FROM legs WHERE status='open' ORDER BY ingested_at, id".
Definition get_match_sql : string :=
  "SELECT id, leg_ids, tier, rule_id, confidence, residual_minor, currency, matched_at FROM matches WHERE id=$1".
Definition get_break_sql : string := "SELECT " +:+ breakCols +:+ " FROM breaks WHERE id=$1".
Definition events_from_sql : string :=
  "SELECT seq, type, at, aggregate_id, payload FROM recon_events WHERE seq >= $1 ORDER BY seq LIMIT $2".
Definition last_seq_sql : string := "SELECT COALESCE(MAX(seq),0) FROM recon_events".
Definition truncate_sql : string := "TRUNCATE legs, matches, breaks".

Definition count_legs_sql : string :=
  "SELECT count(*), count(*) FILTER (WHERE status='open'), count(*) FILTER (WHERE status='matched'), count(*) FILTER (WHERE status='break') FROM legs".
Definition legs_by_source_sql : string := "SELECT source, count(*) FROM legs GROUP BY source".
Definition matches_by_tier_sql : string := "SELECT 'T'||tier::text, count(*) FROM matches GROUP BY tier".
Definition matches_by_rule_sql : string := "SELECT rule_id, count(*) FROM matches GROUP BY rule_id".
Definition breaks_by_category_sql : string :=
  "SELECT category, count(*) FROM breaks WHERE status='open' GROUP BY category".
Definition count_breaks_sql : string :=
  "SELECT count(*) FILTER (WHERE status='open'), count(*) FILTER (WHERE status='resolved'), min(opened_at) FILTER (WHERE status='open') FROM breaks".
Definition count_events_sql : string := "SELECT count(*) FROM recon_events".

Definition version_applied_sql : string := "SELECT EXISTS(SELECT 1 FROM schema_migrations WHERE version=$1)".
Definition insert_version_sql : string := "INSERT INTO schema_migrations(version) VALUES($1) ON CONFLICT DO NOTHING".

(** ** Scanning *)

(** [row.Scan] into destinations of other types, and [pgx.ErrNoRows]. *)
Definition scan_error {A} : result A := Err (ErrText "can't scan into dest").
Definition no_rows : error := ErrText "no rows in result set".

Definition nonNil (m : gmap string string) : gmap string string := m.

Definition tierSmallInt (t : Tier) : Z :=
  if 2 ^ 15 - 1 <? t then 2 ^ 15 - 1 else if t <? - 2 ^ 15 then - 2 ^ 15 else t.

Definition scan_bool (row : Row) : result bool := match row with [VBool b] => Ok b | _ => scan_error end.
Definition scan_int (row : Row) : result Z := match row with [VInt z] => Ok z | _ => scan_error end.
Definition scan_count (row : Row) : result (string * Z) :=
  match row with [VText k; VInt n] => Ok (k, n) | _ => scan_error end.

(** [if len(attrs) > 0 { json.Unmarshal(attrs, &l.Attrs) }] *)
Definition scan_attrs (v : Value) : result (gmap string string) :=
  match v with
  | VNull => Ok ∅
  | VJson j => match dec_attrs ∅ j with Ok a => Ok a | Err e => Err (ErrWrap "decode attrs: " e "") end
  | _ => scan_error
  end.

Definition scanLeg (row : Row) : result Leg :=
  match row with
  | [VText id; VText source; VText ref; VInt amt; VText ccy; VTime vd; VText dir; VText cp; attrs; VTime ing;
     VText status; VText mid; VText bid] =>
      res_bind (scan_attrs attrs) (fun a =>
        Ok (mkLeg id source ref amt (TrimSpace ccy) vd dir cp a ing status mid bid))
  | _ => scan_error
  end.

Definition scanMatch (row : Row) : result Match :=
  match row with
  | [VText id; VTexts ids; VInt tier; VText rule; VFloat conf; VInt res; VText ccy; VTime at_] =>
      Ok (mkMatch id ids tier rule conf res (TrimSpace ccy) at_)
  | _ => scan_error
  end.

(** Scanning into a [*time.Time]. *)
Definition scan_opt_time (v : Value) : result (option Time) :=
  match v with VNull => Ok None | VTime t => Ok (Some t) | _ => scan_error end.

Definition scanBreak (row : Row) : result Break :=
  match row with
  | [VText id; VTexts ids; VText ccy; VText cp; VText cat; VFloat conf; VText cls; VText trig; VText status;
     VTime opened; resolved; VText reason; VText actor] =>
      res_bind (scan_opt_time resolved) (fun r =>
        Ok (mkBreak id ids (TrimSpace ccy) cp cat conf cls trig status opened r reason actor 0))
  | _ => scan_error
  end.

Definition scanEvent (row : Row) : result Event :=
  match row with
  | [VInt seq; VText typ; VTime at_; VText agg; VJson payload] => Ok (mkEvent seq typ at_ agg payload)
  | _ => scan_error
  end.

(** [for rows.Next() { ... scan(rows) ... }], then [rows.Err()]. *)
Fixpoint scan_rows {A} (scan : Row -> result A) (rows : list Row) (rows_Err : option error) : result (list A) :=
  match rows with
  | [] => match rows_Err with None => Ok [] | Some e => Err e end
  | row :: rows' => res_bind (scan row) (fun x => res_bind (scan_rows scan rows' rows_Err) (fun out => Ok (x :: out)))
  end.

Section Store.
Context {DB Tx : Type} `{!Database DB Tx}.

Definition give {A} (r : result A) : M DB A := fun d => (r, d).

(** A query whose rows are all scanned, and one whose row is. *)
Definition query_all {A} (scan : Row -> result A) (sql : string) (args : list Value) : M DB (list A) :=
  let! rs := Query sql args in
  give (scan_rows scan rs.1 rs.2).

Definition query_row {A} (scan : Row -> result A) (missing : error) (sql : string) (args : list Value) : M DB A :=
  let! r := QueryRow sql args in
  match r with
  | None => mfail missing
  | Some row => give (scan row)
  end.

(** ** Applying a change set *)

Definition queue_leg (l : Leg) : Statement :=
  (insert_leg_sql,
   [VText (ID l); VText (Source l); VText (TxnRef l); VInt (AmountMinor l); VText (Currency l); VTime (ValueDate l);
    VText (Dir l); VText (Counterparty l); VJson (marshal_attrs (nonNil (Attrs l))); VTime (IngestedAt l);
    VText (Status l); VText (MatchID l); VText (BreakID l)]).
Definition queue_match (m : Match) : Statement :=
  (insert_match_sql,
   [VText (m_ID m); VTexts (m_LegIDs m); VInt (tierSmallInt (m_Tier m)); VText (m_RuleID m); VFloat (m_Confidence m);
    VInt (m_ResidualMinor m); VText (m_Currency m); VTime (m_MatchedAt m)]).
Definition nullable_time (o : option Time) : Value := match o with None => VNull | Some t => VTime t end.
Definition queue_break (b : Break) : Statement :=
  (insert_break_sql,
   [VText (b_ID b); VTexts (b_LegIDs b); VText (b_Currency b); VText (b_Counterparty b); VText (b_Category b);
    VFloat (b_Confidence b); VText (b_ClassifierID b); VText (b_Trigger b); VText (b_Status b); VTime (b_OpenedAt b);
    nullable_time (b_ResolvedAt b); VText (b_Reason b); VText (b_Actor b)]).
Definition queue_event (ev : Event) : Statement :=
  (insert_event_sql, [VText (ev_Type ev); VTime (ev_At ev); VText (ev_AggregateID ev); VJson (ev_Payload ev)]).

Definition queue (cs : ChangeSet) : list Statement :=
  (queue_leg <$> cs_Legs cs) ++ (queue_match <$> cs_Matches cs) ++ (queue_break <$> cs_Breaks cs) ++
  (queue_event <$> cs_Events cs).

(** [for i := 0; i < b.Len(); i++ { res.Exec() ... }]: [n] results are left to
    read, the next is that of statement [i]. *)
Fixpoint exec_batch (i : Z) (n : nat) : M Tx unit :=
  match n with
  | O => mret tt
  | Datatypes.S n' => fun x =>
      match TxBatchExec x with
      | (Err e, x') => (Err (ErrWrap ("apply change set (stmt " +:+ FormatInt i +:+ "): ") e ""), (TxBatchClose x').2)
      | (Ok _, x') => exec_batch (i + 1) n' x'
      end
  end.

Definition apply_tx (cs : ChangeSet) : M Tx unit :=
  let b := queue cs in
  mmodify (TxSendBatch b) ;;!
  exec_batch 0 (length b) ;;!
  mwrap "close batch: " TxBatchClose.

Definition pg_Apply (cs : ChangeSet) : M DB unit :=
  if cs_Empty cs then mret tt else BeginFunc (apply_tx cs).

(** ** Reading *)

Definition queryLegs (sql : string) (args : list Value) : M DB (list Leg) := query_all scanLeg sql args.

Definition pg_HasLeg (id : string) : M DB bool := query_row scan_bool no_rows has_leg_sql [VText id].
Definition pg_GetLeg (id : string) : M DB Leg :=
  query_row scanLeg (ErrSentinel ErrNotFound) get_leg_sql [VText id].
Definition pg_LegsByTxnRef (txnRef : string) : M DB (list Leg) := queryLegs legs_by_ref_sql [VText txnRef].
Definition pg_OpenLegs : M DB (list Leg) := queryLegs open_legs_sql [].
Definition pg_GetMatch (id : string) : M DB Match :=
  query_row scanMatch (ErrSentinel ErrNotFound) get_match_sql [VText id].
Definition pg_GetBreak (id : string) : M DB Break :=
  query_row scanBreak (ErrSentinel ErrNotFound) get_break_sql [VText id].

(** [where] and [args]; the closure [add] of [ListBreaks], under its [if]. *)
Definition add_clause (cond : bool) (clause : string) (v : Value) (b : list string * list Value)
  : list string * list Value :=
  if cond then
    let args := b.2 ++ [v] in
    (b.1 ++ [clause +:+ FormatInt (Z.of_nat (length args))], args)
  else b.

Definition break_clauses (f : BreakFilter) : list string * list Value :=
  add_clause (0 <? f_MinAge f) "COALESCE(resolved_at, now()) - opened_at >= $" (VInterval (f_MinAge f))
    (add_clause (negb (bool_decide (f_Counterparty f = ""))) "counterparty=$" (VText (f_Counterparty f))
      (add_clause (negb (bool_decide (f_Currency f = ""))) "currency=$" (VText (f_Currency f))
        (add_clause (negb (bool_decide (f_Category f = ""))) "category=$" (VText (f_Category f))
          (add_clause (negb (bool_decide (f_Status f = ""))) "status=$" (VText (f_Status f)) ([], []))))).

(** [LIMIT] and [OFFSET]. *)
Definition add_suffix (word : string) (n : Z) (q : Statement) : Statement :=
  if 0 <? n then
    let args := q.2 ++ [VInt n] in
    (q.1 +:+ word +:+ FormatInt (Z.of_nat (length args)), args)
  else q.

Definition list_breaks_query (f : BreakFilter) : Statement :=
  let '(wh, args) := break_clauses f in
  let sql := "SELECT " +:+ breakCols +:+ " FROM breaks" in
  let sql := if (0 <? length wh)%nat then sql +:+ " WHERE " +:+ strings_Join wh " AND " else sql in
  let sql := sql +:+ " ORDER BY opened_at, id" in
  add_suffix " OFFSET $" (f_Offset f) (add_suffix " LIMIT $" (f_Limit f) (sql, args)).

Definition pg_ListBreaks (f : BreakFilter) : M DB (list Break) :=
  let '(sql, args) := list_breaks_query f in
  query_all scanBreak sql args.

Definition pg_EventsFrom (from limit : Z) : M DB (list Event) :=
  let limit := if limit <=? 0 then 100 else limit in
  query_all scanEvent events_from_sql [VInt from; VInt limit].

Definition pg_LastSeq : M DB Z := query_row scan_int no_rows last_seq_sql [].

Definition pg_ResetProjections : M DB unit := Exec truncate_sql [].

(** ** Statistics *)

(** [into[k] = n], for every row. *)
Definition groupCount (sql : string) (into : gmap string Z) : M DB (gmap string Z) :=
  let! kns := query_all scan_count sql [] in
  mret (foldl (fun m kn => <[kn.1 := kn.2]> m) into kns).

Definition scan_leg_counts (row : Row) : result (Z * Z * Z * Z) :=
  match row with [VInt t; VInt o; VInt m; VInt b] => Ok (t, o, m, b) | _ => scan_error end.
Definition scan_break_counts (row : Row) : result (Z * Z * option Time) :=
  match row with
  | [VInt o; VInt r; old] => res_bind (scan_opt_time old) (fun t => Ok (o, r, t))
  | _ => scan_error
  end.

Definition sum_values (m : gmap string Z) : Z := foldl Z.add 0 (map_to_list m).*2.

Definition pg_Stats : M DB Stats :=
  let! legs := query_row scan_leg_counts no_rows count_legs_sql [] in
  let '(total, open, matched, broken) := legs in
  let! bySource := groupCount legs_by_source_sql ∅ in
  let! byTier := groupCount matches_by_tier_sql ∅ in
  let! byRule := groupCount matches_by_rule_sql ∅ in
  let! byCat := groupCount breaks_by_category_sql ∅ in
  let! brs := query_row scan_break_counts no_rows count_breaks_sql [] in
  let '(bopen, bresolved, oldest) := brs in
  let! n := query_row scan_int no_rows count_events_sql [] in
  let den := matched + broken in
  mret (mkStats total open matched broken (sum_values byTier) byTier byRule bopen bresolved byCat n
          (if 0 <? den then fdiv (of_int matched) (of_int den) else 0%Q) bySource oldest).

(** ** Opening *)

Definition pg_Ping : M DB unit := fun d =>
  match PoolPing d with
  | (Ok _, d') => (Ok tt, d')
  | (Err e, d') =>
      (Err (match PgError e with
            | Some (message, code) => ErrText ("postgres: " +:+ message +:+ " (" +:+ code +:+ ")")
            | None => ErrWrap "postgres: " e ""
            end), d')
  end.

Record Migration : Type := mkMigration { Version : string; SQL : string }.

(** Whether the migration is there; the first creates the table that says so. *)
Definition applied_already (first : string) (m : Migration) : M Tx bool :=
  if bool_decide (Version m = first) then mret false
  else
    let! r := TxQueryRow version_applied_sql [VText (Version m)] in
    match r with
    | None => mfail no_rows
    | Some row => fun x => (scan_bool row, x)
    end.

Definition migrate_tx (first : string) (m : Migration) : M Tx unit :=
  let! applied := applied_already first m in
  if applied then mret tt
  else
    mwrap ("apply " +:+ Version m +:+ ": ") (TxExec (SQL m) []) ;;!
    TxExec insert_version_sql [VText (Version m)].

Fixpoint migrate_loop (first : string) (ms : list Migration) : M DB unit :=
  match ms with
  | [] => mret tt
  | m :: ms' => mwrap "migrate: " (BeginFunc (migrate_tx first m)) ;;! migrate_loop first ms'
  end.

(** [ms] is what [migrations.All] gives. *)
Definition migrate (ms : list Migration) : M DB unit :=
  migrate_loop (default "" (Version <$> head ms)) ms.

(** The clean-up of [Open]: the pool is closed when a step fails. *)
Definition or_close (m : M DB unit) : M DB unit := fun d =>
  match m d with
  | (Ok _, d') => (Ok tt, d')
  | (Err e, d') => (Err e, PoolClose d')
  end.

Definition Open (ms : list Migration) (dsn : string) : M DB unit :=
  mwrap "parse dsn: " (give (ParseDSN dsn)) ;;!
  mwrap "connect: " (PoolNew dsn) ;;!
  or_close pg_Ping ;;!
  or_close (migrate ms).

#[local] Instance postgres_repository : Repository DB := {|
  Apply := pg_Apply;
  HasLeg := pg_HasLeg;
  LegsByTxnRef := pg_LegsByTxnRef;
  OpenLegs := pg_OpenLegs;
  GetBreak := pg_GetBreak;
  EventsFrom := pg_EventsFrom;
  LastSeq := pg_LastSeq;
  ResetProjections := pg_ResetProjections
|}.

Definition postgres_reads : StoreReads DB := {|
  GetLeg := pg_GetLeg; GetMatch := pg_GetMatch; ListBreaks := pg_ListBreaks;
  ReadStats := pg_Stats; Ping := pg_Ping
|}.
End Store.

(** ** migrations.go *)

(** The embedded directory: the entries by name, in its order; a file has a
    content. *)
Abbreviation EmbedFS := (list (string * option string)).

Definition HasSuffix (s suffix : string) : bool := HasPrefix (String.rev s) (String.rev suffix).
Definition TrimSuffix (s suffix : string) : string :=
  if HasSuffix s suffix then str_take (String.length s - String.length suffix) s else s.

Definition version_le (a b : Migration) : Prop := String.le (Version a) (Version b).
#[export] Instance version_le_dec : RelDecision version_le.
Proof. intros a b. unfold version_le. apply _. Defined.

(** [All], before the sort. *)
Definition sql_files (files : EmbedFS) : list Migration :=
  omap (fun e => match e.2 with
                 | Some content =>
                     if HasSuffix e.1 ".sql" then Some (mkMigration (TrimSuffix e.1 ".sql") content) else None
                 | None => None
                 end) files.

Definition All (files : EmbedFS) : list Migration := merge_sort version_le (sql_files files).
