(* ===== verification/Sql.v ===== *)
(** * What the statements of the Postgres store mean

    The tables of migrations/0001_init.sql, what each statement of Postgres.v
    does to them or reads from them, and the laws that say so: what the
    documentation of PostgreSQL and of its driver promises of these texts. *)

From S2P Require Export Postgres.

Local Open Scope recon_scope.

(** ** Tables *)

Record LegRow : Type := mkLegRow {
  lr_id : string;
  lr_source : string;
  lr_txn_ref : string;
  lr_amount_minor : Z;
  lr_currency : string;
  lr_value_date : Z;
  lr_direction : string;
  lr_counterparty : string;
  lr_attrs : json;
  lr_ingested_at : Time;
  lr_status : string;
  lr_match_id : option string;
  lr_break_id : option string
}.

Record MatchRow : Type := mkMatchRow {
  mr_id : string;
  mr_leg_ids : list string;
  mr_tier : Z;
  mr_rule_id : string;
  mr_confidence : float64;
  mr_residual_minor : Z;
  mr_currency : string;
  mr_matched_at : Time
}.

Record BreakRow : Type := mkBreakRow {
  br_id : string;
  br_leg_ids : list string;
  br_currency : string;
  br_counterparty : string;
  br_category : string;
  br_confidence : float64;
  br_classifier_id : string;
  br_trigger : string;
  br_status : string;
  br_opened_at : Time;
  br_resolved_at : option Time;
  br_reason : string;
  br_actor : string
}.

Record EventRow : Type := mkEventRow {
  er_seq : Z;
  er_type : string;
  er_at : Time;
  er_aggregate_id : string;
  er_payload : json
}.

(** The tables by primary key; the log in the order of its sequence numbers. *)
Record Tables : Type := mkTables {
  t_legs : gmap string LegRow;
  t_matches : gmap string MatchRow;
  t_breaks : gmap string BreakRow;
  t_events : list EventRow;
  t_versions : gset string
}.

Definition rows_of {R} (t : gmap string R) : list R := (map_to_list t).*2.

(** A TIMESTAMPTZ has microseconds. *)
Definition Microsecond : Duration := 1000.
Definition timestamptz (t : Time) : Time := t / Microsecond * Microsecond.

(** [NULLIF(x, '')] and [COALESCE(x, '')]. *)
Definition nullif_empty (s : string) : option string := if bool_decide (s = "") then None else Some s.
Definition coalesce_empty (o : option string) : string := default "" o.

Section Rows.
(** The conversion to CHAR(3), which refuses what is too long, and to JSONB. *)
Context (char3 : string -> option string) (jsonb : json -> json).

(** The row an INSERT makes of its arguments, when they have the right types. *)
Definition leg_row (args : list Value) : option LegRow :=
  match args with
  | [VText id; VText src; VText ref; VInt amt; VText ccy; VTime vd; VText dir; VText cp; VJson attrs; VTime ing;
     VText st; VText mid; VText bid] =>
      ccy ← char3 ccy;
      Some (mkLegRow id src ref amt ccy (vd / Day) dir cp (jsonb attrs) (timestamptz ing) st
              (nullif_empty mid) (nullif_empty bid))
  | _ => None
  end.

Definition match_row (args : list Value) : option MatchRow :=
  match args with
  | [VText id; VTexts ids; VInt tier; VText rule; VFloat conf; VInt res; VText ccy; VTime at_] =>
      ccy ← char3 ccy; Some (mkMatchRow id ids tier rule conf res ccy (timestamptz at_))
  | _ => None
  end.

Definition opt_time (v : Value) : option (option Time) :=
  match v with VNull => Some None | VTime t => Some (Some (timestamptz t)) | _ => None end.

Definition break_row (args : list Value) : option BreakRow :=
  match args with
  | [VText id; VTexts ids; VText ccy; VText cp; VText cat; VFloat conf; VText cls; VText trig; VText st; VTime op;
     res; VText reason; VText actor] =>
      ccy ← char3 ccy; res ← opt_time res;
      Some (mkBreakRow id ids ccy cp cat conf cls trig st (timestamptz op) res reason actor)
  | _ => None
  end.

Definition event_row (seq : Z) (args : list Value) : option EventRow :=
  match args with
  | [VText typ; VTime at_; VText agg; VJson j] => Some (mkEventRow seq typ (timestamptz at_) agg (jsonb j))
  | _ => None
  end.
End Rows.

(** What the statements do to the tables. *)
Definition upsert_leg (r : LegRow) (t : Tables) : Tables :=
  mkTables (<[lr_id r := match t_legs t !! lr_id r with
                         | None => r
                         | Some r0 => mkLegRow (lr_id r0) (lr_source r0) (lr_txn_ref r0) (lr_amount_minor r0) (lr_currency r0)
                             (lr_value_date r0) (lr_direction r0) (lr_counterparty r0) (lr_attrs r0) (lr_ingested_at r0)
                             (lr_status r) (lr_match_id r) (lr_break_id r)
                         end]> (t_legs t))
    (t_matches t) (t_breaks t) (t_events t) (t_versions t).
Definition insert_match (r : MatchRow) (t : Tables) : Tables :=
  mkTables (t_legs t)
    (match t_matches t !! mr_id r with None => <[mr_id r := r]> (t_matches t) | Some _ => t_matches t end)
    (t_breaks t) (t_events t) (t_versions t).
Definition upsert_break (r : BreakRow) (t : Tables) : Tables :=
  mkTables (t_legs t) (t_matches t)
    (<[br_id r := match t_breaks t !! br_id r with
                  | None => r
                  | Some r0 => mkBreakRow (br_id r0) (br_leg_ids r0) (br_currency r0) (br_counterparty r0) (br_category r0)
                      (br_confidence r0) (br_classifier_id r0) (br_trigger r0) (br_status r) (br_opened_at r0)
                      (br_resolved_at r) (br_reason r) (br_actor r)
                  end]> (t_breaks t))
    (t_events t) (t_versions t).
Definition append_event (r : EventRow) (t : Tables) : Tables :=
  mkTables (t_legs t) (t_matches t) (t_breaks t) (t_events t ++ [r]) (t_versions t).
Definition truncate_projections (t : Tables) : Tables := mkTables ∅ ∅ ∅ (t_events t) (t_versions t).
Definition add_version (v : string) (t : Tables) : Tables :=
  mkTables (t_legs t) (t_matches t) (t_breaks t) (t_events t) ({[v]} ∪ t_versions t).

(** The columns a SELECT gives, in the order of the column lists of store.go. *)
Definition leg_values (r : LegRow) : Row :=
  [VText (lr_id r); VText (lr_source r); VText (lr_txn_ref r); VInt (lr_amount_minor r); VText (lr_currency r);
   VTime (lr_value_date r * Day); VText (lr_direction r); VText (lr_counterparty r); VJson (lr_attrs r);
   VTime (lr_ingested_at r); VText (lr_status r); VText (coalesce_empty (lr_match_id r));
   VText (coalesce_empty (lr_break_id r))].
Definition match_values (r : MatchRow) : Row :=
  [VText (mr_id r); VTexts (mr_leg_ids r); VInt (mr_tier r); VText (mr_rule_id r); VFloat (mr_confidence r);
   VInt (mr_residual_minor r); VText (mr_currency r); VTime (mr_matched_at r)].
Definition break_values (r : BreakRow) : Row :=
  [VText (br_id r); VTexts (br_leg_ids r); VText (br_currency r); VText (br_counterparty r); VText (br_category r);
   VFloat (br_confidence r); VText (br_classifier_id r); VText (br_trigger r); VText (br_status r);
   VTime (br_opened_at r); nullable_time (br_resolved_at r); VText (br_reason r); VText (br_actor r)].
Definition event_values (r : EventRow) : Row :=
  [VInt (er_seq r); VText (er_type r); VTime (er_at r); VText (er_aggregate_id r); VJson (er_payload r)].


(** ** Statements that write *)

Inductive Command : Set :=
  | InsertLeg
  | InsertMatch
  | InsertBreak
  | InsertEvent
  | InsertVersion
  | TruncateProjections.

Definition command_sql (c : Command) : string :=
  match c with
  | InsertLeg => insert_leg_sql
  | InsertMatch => insert_match_sql
  | InsertBreak => insert_break_sql
  | InsertEvent => insert_event_sql
  | InsertVersion => insert_version_sql
  | TruncateProjections => truncate_sql
  end.

(** ** Statements that read *)

(** The conditions [ListBreaks] puts together. *)
Inductive BreakColumn : Set := ColStatus | ColCategory | ColCurrency | ColCounterparty | ColAge.

#[export] Instance BreakColumn_eq_dec : EqDecision BreakColumn.
Proof. solve_decision. Defined.

Definition column_sql (c : BreakColumn) : string :=
  match c with
  | ColStatus => "status=$"
  | ColCategory => "category=$"
  | ColCurrency => "currency=$"
  | ColCounterparty => "counterparty=$"
  | ColAge => "COALESCE(resolved_at, now()) - opened_at >= $"
  end.

Definition all_columns : list BreakColumn := [ColStatus; ColCategory; ColCurrency; ColCounterparty; ColAge].

(** A listing with the given conditions, with or without a limit and an offset. *)
Record Listing : Type := mkListing { ls_columns : list BreakColumn; ls_limit : bool; ls_offset : bool }.

#[export] Instance Listing_eq_dec : EqDecision Listing.
Proof. solve_decision. Defined.

(** Its text: the placeholders are numbered from left to right. *)
Definition placeholder (i : nat) : string := FormatInt (Z.of_nat (i + 1)).
Definition listing_sql (q : Listing) : string :=
  let clauses := imap (fun i c => column_sql c +:+ placeholder i) (ls_columns q) in
  let k := length clauses in
  "SELECT " +:+ breakCols +:+ " FROM breaks" +:+
  (if bool_decide (clauses = []) then "" else " WHERE " +:+ strings_Join clauses " AND ") +:+
  " ORDER BY opened_at, id" +:+
  (if ls_limit q then " LIMIT $" +:+ placeholder k else "") +:+
  (if ls_offset q then " OFFSET $" +:+ placeholder (if ls_limit q then k + 1 else k)%nat else "").

Inductive Select : Type :=
  | SelHasLeg
  | SelLeg
  | SelLegsByRef
  | SelOpenLegs
  | SelMatch
  | SelBreak
  | SelBreaks (q : Listing)
  | SelEvents
  | SelLastSeq
  | CountLegs
  | CountLegsBySource
  | CountMatchesByTier
  | CountMatchesByRule
  | CountBreaksByCategory
  | CountBreaks
  | CountEvents.

Definition select_sql (s : Select) : string :=
  match s with
  | SelHasLeg => has_leg_sql
  | SelLeg => get_leg_sql
  | SelLegsByRef => legs_by_ref_sql
  | SelOpenLegs => open_legs_sql
  | SelMatch => get_match_sql
  | SelBreak => get_break_sql
  | SelBreaks q => listing_sql q
  | SelEvents => events_from_sql
  | SelLastSeq => last_seq_sql
  | CountLegs => count_legs_sql
  | CountLegsBySource => legs_by_source_sql
  | CountMatchesByTier => matches_by_tier_sql
  | CountMatchesByRule => matches_by_rule_sql
  | CountBreaksByCategory => breaks_by_category_sql
  | CountBreaks => count_breaks_sql
  | CountEvents => count_events_sql
  end.

(** A comparison with a CHAR column ignores trailing blanks. *)
Definition blank : list string := [" "].
Definition char_eq (a b : string) : bool := bool_decide (trim_right blank a = trim_right blank b).

(** A condition on a row, for the value of its placeholder. [now()] is the time
    of the transaction; an interval has microseconds. *)
Definition cond_holds (now : Time) (c : BreakColumn) (v : Value) (r : BreakRow) : bool :=
  match c, v with
  | ColStatus, VText s => bool_decide (br_status r = s)
  | ColCategory, VText s => bool_decide (br_category r = s)
  | ColCurrency, VText s => char_eq (br_currency r) s
  | ColCounterparty, VText s => bool_decide (br_counterparty r = s)
  | ColAge, VInterval d =>
      d / Microsecond * Microsecond <=? default (timestamptz now) (br_resolved_at r) - br_opened_at r
  | _, _ => false
  end.

(** [ORDER BY opened_at, id] and [ORDER BY ingested_at, id], in the order the
    database has for text. *)
Definition leg_row_le (collate : relation string) (a b : LegRow) : Prop :=
  lr_ingested_at a < lr_ingested_at b \/ lr_ingested_at a = lr_ingested_at b /\ collate (lr_id a) (lr_id b).
Definition break_row_le (collate : relation string) (a b : BreakRow) : Prop :=
  br_opened_at a < br_opened_at b \/ br_opened_at a = br_opened_at b /\ collate (br_id a) (br_id b).

(** [out] is [rows], in order. *)
Definition ordered {R} (le : relation R) (rows out : list R) : Prop := out ≡ₚ rows /\ StronglySorted le out.

(** [count( * )] of the rows with a property, and of every group of keys. *)
Definition count_if {R} (P : R -> bool) (rs : list R) : Z := Z.of_nat (length (filter (fun r => P r = true) rs)).
Definition grouped (ks : list string) (gs : list (string * Z)) : Prop :=
  NoDup gs.*1 /\ forall k n, (k, n) ∈ gs <-> k ∈ ks /\ n = Z.of_nat (length (filter (k =.) ks)).
Definition count_values (kn : string * Z) : Row := [VText kn.1; VInt kn.2].

Definition tier_text (t : Z) : string := "T" +:+ FormatInt t.
Definition is_status (s : string) (r : LegRow) : bool := bool_decide (lr_status r = s).
Definition is_break_status (s : string) (r : BreakRow) : bool := bool_decide (br_status r = s).
Definition max_seq (es : list EventRow) : Z := foldl Z.max 0 (er_seq <$> es).

(** ** Meaning *)

Section Meaning.
(** The conversions to CHAR(3) and JSONB, and the order of text. *)
Context (char3 : string -> option string) (jsonb : json -> json) (collate : relation string).

(** A sequence gives growing numbers, starting from 1, not all of which are
    used. *)
Inductive executes : Command -> list Value -> Tables -> Tables -> Prop :=
  | exec_leg args r t : leg_row char3 jsonb args = Some r -> executes InsertLeg args t (upsert_leg r t)
  | exec_match args r t : match_row char3 args = Some r -> executes InsertMatch args t (insert_match r t)
  | exec_break args r t : break_row char3 args = Some r -> executes InsertBreak args t (upsert_break r t)
  | exec_event args n r t : 1 <= n -> Forall (fun e => er_seq e < n) (t_events t) ->
      event_row jsonb n args = Some r -> executes InsertEvent args t (append_event r t)
  | exec_version v t : executes InsertVersion [VText v] t (add_version v t)
  | exec_truncate t : executes TruncateProjections [] t (truncate_projections t).

Fixpoint executes_all (cs : list (Command * list Value)) (t t' : Tables) : Prop :=
  match cs with
  | [] => t' = t
  | (c, args) :: cs' => exists t1, executes c args t t1 /\ executes_all cs' t1 t'
  end.

(** The rows a query gives at the time [now]. *)
Inductive selects (now : Time) (t : Tables) : Select -> list Value -> list Row -> Prop :=
  | sel_has_leg id : selects now t SelHasLeg [VText id] [[VBool (bool_decide (is_Some (t_legs t !! id)))]]
  | sel_leg id : selects now t SelLeg [VText id] (leg_values <$> option_list (t_legs t !! id))
  | sel_legs_by_ref ref out :
      ordered (leg_row_le collate) (filter (fun r => lr_txn_ref r = ref) (rows_of (t_legs t))) out ->
      selects now t SelLegsByRef [VText ref] (leg_values <$> out)
  | sel_open_legs out :
      ordered (leg_row_le collate) (filter (fun r => lr_status r = "open") (rows_of (t_legs t))) out ->
      selects now t SelOpenLegs [] (leg_values <$> out)
  | sel_match id : selects now t SelMatch [VText id] (match_values <$> option_list (t_matches t !! id))
  | sel_break id : selects now t SelBreak [VText id] (break_values <$> option_list (t_breaks t !! id))
  | sel_breaks cols vs limit offset out :
      length vs = length cols ->
      ordered (break_row_le collate)
        (filter (fun r => Forall (fun cv => cond_holds now cv.1 cv.2 r = true) (zip cols vs)) (rows_of (t_breaks t))) out ->
      selects now t (SelBreaks (mkListing cols (bool_decide (is_Some limit)) (bool_decide (is_Some offset))))
        (vs ++ (VInt <$> option_list limit) ++ (VInt <$> option_list offset))
        (break_values <$>
           (match limit with Some n => take (Z.to_nat n) | None => id end)
             (drop (Z.to_nat (default 0 offset)) out))
  | sel_events from limit :
      selects now t SelEvents [VInt from; VInt limit]
        (event_values <$> take (Z.to_nat limit) (filter (fun e => from <= er_seq e) (t_events t)))
  | sel_last_seq : selects now t SelLastSeq [] [[VInt (max_seq (t_events t))]]
  | sel_count_legs : let ls := rows_of (t_legs t) in
      selects now t CountLegs []
        [[VInt (Z.of_nat (length ls)); VInt (count_if (is_status "open") ls); VInt (count_if (is_status "matched") ls);
          VInt (count_if (is_status "break") ls)]]
  | sel_by_source gs : grouped (lr_source <$> rows_of (t_legs t)) gs ->
      selects now t CountLegsBySource [] (count_values <$> gs)
  | sel_by_tier gs : grouped ((fun r => tier_text (mr_tier r)) <$> rows_of (t_matches t)) gs ->
      selects now t CountMatchesByTier [] (count_values <$> gs)
  | sel_by_rule gs : grouped (mr_rule_id <$> rows_of (t_matches t)) gs ->
      selects now t CountMatchesByRule [] (count_values <$> gs)
  | sel_by_category gs :
      grouped (br_category <$> filter (fun r => is_break_status "open" r = true) (rows_of (t_breaks t))) gs ->
      selects now t CountBreaksByCategory [] (count_values <$> gs)
  | sel_count_breaks : let bs := rows_of (t_breaks t) in
      selects now t CountBreaks []
        [[VInt (count_if (is_break_status "open") bs); VInt (count_if (is_break_status "resolved") bs);
          nullable_time (min_time (br_opened_at <$> filter (fun r => is_break_status "open" r = true) bs))]]
  | sel_count_events : selects now t CountEvents [] [[VInt (Z.of_nat (length (t_events t)))]].
End Meaning.

(** The queries the laws speak of: a listing names each condition once, in the
    order of [ListBreaks]. *)
Definition select_ok (s : Select) : Prop :=
  match s with SelBreaks q => ls_columns q `sublist_of` all_columns | _ => True end.

Section Batch.
Context {DB Tx : Type} `{!Database DB Tx}.

(** All results of a batch of [n] statements are read and it is closed. *)
Fixpoint read_results (n : nat) : M Tx unit :=
  match n with
  | O => mret tt
  | Datatypes.S n' => TxBatchExec ;;! read_results n'
  end.
Definition read_batch (n : nat) : M Tx unit := read_results n ;;! TxBatchClose.
End Batch.

Definition statement (c : Command * list Value) : Statement := (command_sql c.1, c.2).

(** What the documentation promises, for a store that is the only writer: a
    transaction that is not committed leaves no trace, a query reads what is
    there, and the program's own sentinel errors are not the driver's. A commit
    that reports an error is taken not to have happened; the commit whose answer
    is lost on the way back is not modelled. *)
Class DatabaseLaws (DB Tx : Type) `{!Database DB Tx} : Type := {
  char3 : string -> option string;
  jsonb : json -> json;
  collate : relation string;
  tables : DB -> Tables;
  tx_tables : Tx -> Tables;
  db_now : DB -> Time;
  ddl : string -> Tables -> Tables;
  char3_law c : iso_currency c -> char3 c = Some c;
  jsonb_law : keeps_json jsonb;
  Query_law s args d r d' : select_ok s -> Query (select_sql s) args d = (r, d') ->
    tables d' = tables d /\
    forall rows, r = Ok (rows, None) -> selects collate (db_now d) (tables d) s args rows;
  QueryRow_law s args d r d' : select_ok s -> QueryRow (select_sql s) args d = (r, d') ->
    tables d' = tables d /\
    match r with
    | Ok row => exists rows, selects collate (db_now d) (tables d) s args rows /\ row = head rows
    | Err e => errors_Is e ErrNotFound = false
    end;
  Exec_law c args d r d' : Exec (command_sql c) args d = (r, d') ->
    match r with
    | Ok _ => executes char3 jsonb c args (tables d) (tables d')
    | Err _ => tables d' = tables d
    end;
  BeginFunc_law f d r d' : BeginFunc f d = (r, d') ->
    match r with
    | Ok _ => exists x x', tx_tables x = tables d /\ f x = (Ok tt, x') /\ tables d' = tx_tables x'
    | Err _ => tables d' = tables d
    end;
  TxExec_law c args x x' : TxExec (command_sql c) args x = (Ok tt, x') ->
    executes char3 jsonb c args (tx_tables x) (tx_tables x');
  TxExec_ddl sql x x' : TxExec sql [] x = (Ok tt, x') -> tx_tables x' = ddl sql (tx_tables x);
  TxQueryRow_law v x r x' : TxQueryRow version_applied_sql [VText v] x = (r, x') ->
    tx_tables x' = tx_tables x /\
    forall row, r = Ok row -> row = Some [VBool (bool_decide (v ∈ t_versions (tx_tables x)))];
  TxBatch_law cs x x' : read_batch (length cs) (TxSendBatch (statement <$> cs) x) = (Ok tt, x') ->
    executes_all char3 jsonb cs (tx_tables x) (tx_tables x');
  PoolPing_law d r d' : PoolPing d = (r, d') -> tables d' = tables d;
  PoolNew_law dsn d r d' : PoolNew dsn d = (r, d') -> tables d' = tables d;
  PoolClose_law d : tables (PoolClose d) = tables d
}.
