(* ===== verification/PostgresFacts.v ===== *)
(** * The Postgres store keeps the repository contract

    What the tables stand for ([pg_view]), that every statement the store sends
    does to this view what the contract asks, and that nothing the store writes
    fails to be read back. *)

From S2P Require Export Sql.

Local Open Scope recon_scope.

#[local] Arguments TrimSpace : simpl never.
#[local] Arguments timestamptz : simpl never.
#[local] Arguments coalesce_empty : simpl never.
#[local] Arguments nullif_empty : simpl never.

(** ** What the rows stand for *)

Definition attrs_of (j : json) : gmap string string := match dec_attrs ∅ j with Ok a => a | Err _ => ∅ end.

Definition row_leg (r : LegRow) : Leg :=
  mkLeg (lr_id r) (lr_source r) (lr_txn_ref r) (lr_amount_minor r) (TrimSpace (lr_currency r)) (lr_value_date r * Day)
    (lr_direction r) (lr_counterparty r) (attrs_of (lr_attrs r)) (lr_ingested_at r) (lr_status r)
    (coalesce_empty (lr_match_id r)) (coalesce_empty (lr_break_id r)).
Definition row_match (r : MatchRow) : Match :=
  mkMatch (mr_id r) (mr_leg_ids r) (mr_tier r) (mr_rule_id r) (mr_confidence r) (mr_residual_minor r)
    (TrimSpace (mr_currency r)) (mr_matched_at r).
Definition row_break (r : BreakRow) : Break :=
  mkBreak (br_id r) (br_leg_ids r) (TrimSpace (br_currency r)) (br_counterparty r) (br_category r) (br_confidence r)
    (br_classifier_id r) (br_trigger r) (br_status r) (br_opened_at r) (br_resolved_at r) (br_reason r) (br_actor r) 0.
Definition row_event (r : EventRow) : Event := mkEvent (er_seq r) (er_type r) (er_at r) (er_aggregate_id r) (er_payload r).

Definition tables_view (t : Tables) : View :=
  mkView (row_leg <$> t_legs t) (row_match <$> t_matches t) (row_break <$> t_breaks t) (row_event <$> t_events t).

(** Times of whole microseconds. *)
Definition exact_us (t : Time) : Prop := timestamptz t = t.

#[export] Instance exact_us_dec t : Decision (exact_us t).
Proof. unfold exact_us. apply _. Defined.

Section Rows.
Context (char3 : string -> option string) (jsonb : json -> json).
Context (Hchar3 : forall c, iso_currency c -> char3 c = Some c) (Hjsonb : keeps_json jsonb).

(** The tables the store can have written. *)
Record tables_ok (t : Tables) : Prop := {
  to_legs id r : t_legs t !! id = Some r -> lr_id r = id /\ exists a, valid_attrs a /\ lr_attrs r = jsonb (marshal_attrs a);
  to_matches id r : t_matches t !! id = Some r -> mr_id r = id /\ TierExact <= mr_tier r <= TierManyToOne;
  to_breaks id r : t_breaks t !! id = Some r -> br_id r = id /\ iso_currency (br_currency r);
  to_sorted : StronglySorted (fun a b => er_seq a < er_seq b) (t_events t);
  to_positive : Forall (fun e => 1 <= er_seq e) (t_events t)
}.

Lemma coalesce_nullif s : coalesce_empty (nullif_empty s) = s.
Proof. unfold nullif_empty. by case_bool_decide. Qed.

(** ** Scanning what is there *)

Lemma scanLeg_values r a : valid_attrs a -> lr_attrs r = jsonb (marshal_attrs a) -> scanLeg (leg_values r) = Ok (row_leg r).
Proof.
  intros Hval Ha. unfold scanLeg, leg_values, row_leg, attrs_of. rewrite Ha. cbn [scan_attrs].
  by rewrite dec_attrs_jsonb by done.
Qed.

Lemma scanMatch_values r : scanMatch (match_values r) = Ok (row_match r).
Proof. done. Qed.

Lemma scanBreak_values r : scanBreak (break_values r) = Ok (row_break r).
Proof. unfold scanBreak, break_values, row_break. by destruct (br_resolved_at r). Qed.

Lemma scanEvent_values r : scanEvent (event_values r) = Ok (row_event r).
Proof. done. Qed.

Lemma scan_rows_all {A R} (scan : Row -> result A) (row : R -> Row) (f : R -> A) rs :
  (forall r, r ∈ rs -> scan (row r) = Ok (f r)) -> scan_rows scan (row <$> rs) None = Ok (f <$> rs).
Proof.
  induction rs as [|r rs IH]; intros Hr; [done|]. cbn. rewrite Hr by left. cbn.
  rewrite IH; [done|]. intros x Hx. apply Hr. by right.
Qed.

Lemma scan_rows_Err {A} (scan : Row -> result A) rows e out : scan_rows scan rows (Some e) <> Ok out.
Proof.
  revert out. induction rows as [|r rows IH]; intros out; [done|]. cbn.
  destruct (scan r); [|done]. cbn. destruct (scan_rows scan rows (Some e)) eqn:E; [by destruct (IH a0)|done].
Qed.

(** ** What is kept of a value *)

#[local] Instance us_fidelity : Fidelity.
Proof.
  refine {| exact_time := exact_us; exact_attrs := valid_attrs; kept := jsonb |}.
  - apply coerce_attrs_valid.
  - by apply dec_leg_jsonb.
  - by apply dec_resolution_jsonb.
Defined.

Lemma char3_iso c c' : iso_currency c -> char3 c = Some c' -> TrimSpace c' = c.
Proof. intros Hc. rewrite Hchar3 by done. intros [= <-]. by apply TrimSpace_iso; apply Hc. Qed.

Lemma tierSmallInt_id t : TierExact <= t <= TierManyToOne -> tierSmallInt t = t.
Proof.
  unfold TierExact, TierManyToOne, tierSmallInt. intros Ht.
  destruct (Z.ltb_spec (2 ^ 15 - 1) t); [lia|]. destruct (Z.ltb_spec t (- 2 ^ 15)); lia.
Qed.

Lemma leg_row_of l r : leg_row char3 jsonb (queue_leg l).2 = Some r ->
  lr_id r = ID l /\ lr_attrs r = jsonb (marshal_attrs (Attrs l)) /\
  (leg_fits l -> row_leg r = l) /\ set_state (Status l) (MatchID l) (BreakID l) (row_leg r) = row_leg r.
Proof.
  cbn. destruct (char3 (Currency l)) as [c|] eqn:Ec; [|done]. cbn. intros [= <-]. split_and!; [done..| |].
  - intros [Hc _ (n & _ & Hd) Ht Hat]. unfold row_leg, attrs_of, exact_time, exact_us in *. cbn in *.
    rewrite dec_attrs_jsonb, !coalesce_nullif, Ht by done. rewrite (char3_iso _ c Hc Ec).
    rewrite Hd. unfold date_of_day, Day. rewrite Z.div_mul by done. by destruct l; cbn in *; subst.
  - unfold row_leg, set_state. cbn. by rewrite !coalesce_nullif.
Qed.

Lemma match_row_of m r : match_row char3 (queue_match m).2 = Some r ->
  mr_id r = m_ID m /\ mr_tier r = tierSmallInt (m_Tier m) /\ (match_fits m -> row_match r = m).
Proof.
  cbn. destruct (char3 (m_Currency m)) as [c|] eqn:Ec; [|done]. cbn. intros [= <-]. split_and!; [done..|].
  intros [Hc Htier Ht]. unfold row_match, exact_time, exact_us in *. cbn in *.
  rewrite tierSmallInt_id, Ht, (char3_iso _ c Hc Ec) by done. by destruct m.
Qed.

Lemma break_row_of b r : break_row char3 (queue_break b).2 = Some r ->
  br_id r = b_ID b /\ br_resolved_at r = (timestamptz <$> b_ResolvedAt b) /\ br_status r = b_Status b /\
  br_reason r = b_Reason b /\ br_actor r = b_Actor b /\
  (break_fits b -> row_break r = b /\ iso_currency (br_currency r)).
Proof.
  cbn. destruct (char3 (b_Currency b)) as [c|] eqn:Ec; [|done]. cbn.
  assert (opt_time (nullable_time (b_ResolvedAt b)) = Some (timestamptz <$> b_ResolvedAt b)) as ->
    by (by destruct (b_ResolvedAt b)).
  cbn. intros [= <-]. split_and!; [done..|]. intros [Hc Ht Hr Ha]. unfold row_break, exact_time, exact_us in *. cbn in *.
  rewrite Hr, Ht, (char3_iso _ c Hc Ec). rewrite Hchar3 in Ec by done. injection Ec as <-.
  split; [|done]. destruct b; cbn in *. by subst.
Qed.

Lemma event_row_of ev n r : event_row jsonb n (queue_event ev).2 = Some r ->
  er_seq r = n /\ (exact_us (ev_At ev) -> row_event r = logged n ev).
Proof.
  cbn. intros [= <-]. split; [done|]. unfold row_event, logged. cbn. unfold exact_us. by intros ->.
Qed.

(** ** Statements, one by one *)

Abbreviation exec := (executes char3 jsonb).

Lemma exec_leg_view l t t' : tables_ok t ->
  match v_legs (tables_view t) !! ID l with Some l0 => leg_kept l0 l | None => leg_fits l end ->
  exec InsertLeg (queue_leg l).2 t t' ->
  tables_ok t' /\ tables_view t' = mkView (put_legs [l] (v_legs (tables_view t))) (v_matches (tables_view t))
                                    (v_breaks (tables_view t)) (v_events (tables_view t)).
Proof.
  intros Hok Hl He. inversion He as [args r t0 Hr| | | | |]; subst. destruct (leg_row_of l r Hr) as (Hid & Ha & Hnew & Hst).
  unfold upsert_leg. rewrite Hid. set (r1 := match _ with None => r | Some _ => _ end).
  assert (lr_id r1 = ID l /\ row_leg r1 = l /\ exists a, valid_attrs a /\ lr_attrs r1 = jsonb (marshal_attrs a)) as (H1 & H2 & H3).
  { unfold r1, tables_view in *. cbn in Hl. rewrite lookup_fmap in Hl.
    destruct (t_legs t !! ID l) as [r0|] eqn:E; cbn in Hl.
    - destruct (to_legs t Hok _ _ E) as [Hid0 Ha0]. split_and!; [done| |done].
      rewrite Hl. unfold row_leg, set_state in *. cbn in *. injection Hst as -> -> ->. done.
    - split_and!; [done|by apply Hnew|by eexists; split; [apply Hl|]]. }
  split.
  - destruct Hok. constructor; cbn; try done.
    intros id x [[<- <-]|[_ Hx]]%lookup_insert_Some; [done|by eapply to_legs0].
  - unfold tables_view, put_legs. cbn. by rewrite fmap_insert, H2.
Qed.

Lemma exec_match_view m t t' : tables_ok t -> v_matches (tables_view t) !! m_ID m = None -> match_fits m ->
  exec InsertMatch (queue_match m).2 t t' ->
  tables_ok t' /\ tables_view t' = mkView (v_legs (tables_view t)) (put_matches [m] (v_matches (tables_view t)))
                                    (v_breaks (tables_view t)) (v_events (tables_view t)).
Proof.
  intros Hok Hn Hf He. inversion He as [|args r t0 Hr| | | |]; subst. destruct (match_row_of m r Hr) as (Hid & Htier & Hnew).
  cbn in Hn. rewrite lookup_fmap in Hn. apply fmap_None in Hn. unfold insert_match. rewrite Hid, Hn. split.
  - destruct Hok. constructor; cbn; try done.
    intros id x [[<- <-]|[_ Hx]]%lookup_insert_Some; [|by eapply to_matches0].
    split; [done|]. rewrite Htier, tierSmallInt_id; apply Hf.
  - unfold tables_view, put_matches. cbn. by rewrite fmap_insert, Hnew.
Qed.

Lemma exec_break_view b t t' : tables_ok t ->
  match v_breaks (tables_view t) !! b_ID b with Some b0 => break_kept b0 b | None => break_fits b end ->
  exec InsertBreak (queue_break b).2 t t' ->
  tables_ok t' /\ tables_view t' = mkView (v_legs (tables_view t)) (v_matches (tables_view t))
                                    (put_breaks [b] (v_breaks (tables_view t))) (v_events (tables_view t)).
Proof.
  intros Hok Hb He. inversion He as [| |args r t0 Hr| | |]; subst.
  destruct (break_row_of b r Hr) as (Hid & Hres & Hst & Hrs & Hac & Hnew).
  unfold upsert_break. rewrite Hid. set (r1 := match _ with None => r | Some _ => _ end).
  assert ((br_id r1 = b_ID b /\ iso_currency (br_currency r1)) /\ row_break r1 = b) as (H1 & H2).
  { unfold r1, tables_view in *. cbn in Hb. rewrite lookup_fmap in Hb.
    destruct (t_breaks t !! b_ID b) as [r0|] eqn:E; cbn in Hb; [|by destruct (Hnew Hb)].
    split; [exact (to_breaks t Hok _ _ E)|]. destruct Hb as (at_ & reason & actor & -> & Hat).
    unfold row_break, resolve, exact_time, exact_us in *. cbn in *. rewrite Hres, Hst, Hrs, Hac. cbn. by rewrite Hat. }
  split.
  - destruct Hok. constructor; cbn; try done.
    intros id x [[<- <-]|[_ Hx]]%lookup_insert_Some; [done|by eapply to_breaks0].
  - unfold tables_view, put_breaks. cbn. by rewrite fmap_insert, H2.
Qed.

Lemma exec_event_view ev t t' : tables_ok t -> exact_us (ev_At ev) -> exec InsertEvent (queue_event ev).2 t t' ->
  tables_ok t' /\ exists n, tables_view t' = mkView (v_legs (tables_view t)) (v_matches (tables_view t))
                                    (v_breaks (tables_view t)) (v_events (tables_view t) ++ [logged n ev]).
Proof.
  intros Hok Ht He. inversion He as [| | |args n r t0 Hn Hlt Hr| |]; subst.
  destruct (event_row_of ev n r Hr) as (Hseq & Hnew). split.
  - destruct Hok as [? ? ? Hs Hp]. constructor; [done..| |]; cbn.
    + clear - Hs Hlt Hseq. induction Hs as [|e es Hs IH He]; cbn; [repeat constructor|].
      apply Forall_cons in Hlt as [H1 H2]. constructor; [by apply IH|]. apply Forall_app. split; [done|].
      constructor; [lia|constructor].
    + apply Forall_app. split; [done|]. constructor; [lia|constructor].
  - exists n. unfold tables_view, append_event. cbn. rewrite fmap_app. cbn. by rewrite Hnew.
Qed.

(** ** Batches *)

Lemma executes_all_app a b t t' :
  executes_all char3 jsonb (a ++ b) t t' <->
  exists t1, executes_all char3 jsonb a t t1 /\ executes_all char3 jsonb b t1 t'.
Proof.
  revert t. induction a as [|[c args] a IH]; intros t; cbn; [naive_solver|]. setoid_rewrite IH. naive_solver.
Qed.

(** Statements that each make a step of the view, for items of different keys. *)
Lemma exec_each {A} (cmd : A -> Command * list Value) (key : A -> string) (P : View -> A -> Prop) (step : A -> View -> View) :
  (forall a t t', tables_ok t -> P (tables_view t) a -> exec (cmd a).1 (cmd a).2 t t' ->
     tables_ok t' /\ tables_view t' = step a (tables_view t)) ->
  (forall v a b, key a <> key b -> P v b -> P (step a v) b) ->
  forall items t t', tables_ok t -> NoDup (key <$> items) -> (forall a, a ∈ items -> P (tables_view t) a) ->
    executes_all char3 jsonb (cmd <$> items) t t' ->
    tables_ok t' /\ tables_view t' = foldl (fun v a => step a v) (tables_view t) items.
Proof.
  intros Hstep Hkeep items. induction items as [|a items IH]; intros t t' Hok Hnd HP; [by intros ->|].
  cbn [fmap list_fmap executes_all]. destruct (cmd a) as [c args] eqn:Ec. intros (t1 & H1 & H2).
  apply NoDup_cons in Hnd as [Ha Hnd].
  destruct (Hstep a t t1 Hok (HP a (list_elem_of_here _ _))) as [Hok1 Hv1]; [by rewrite Ec|].
  cbn [foldl]. rewrite <- Hv1. apply IH; [done|done| |done]. intros b Hb. rewrite Hv1. apply Hkeep.
  - intros Heq. apply Ha. rewrite Heq. apply list_elem_of_fmap. by exists b.
  - apply HP. by right.
Qed.

Definition cmd_leg (l : Leg) : Command * list Value := (InsertLeg, (queue_leg l).2).
Definition cmd_match (m : Match) : Command * list Value := (InsertMatch, (queue_match m).2).
Definition cmd_break (b : Break) : Command * list Value := (InsertBreak, (queue_break b).2).
Definition cmd_event (e : Event) : Command * list Value := (InsertEvent, (queue_event e).2).
Definition commands (cs : ChangeSet) : list (Command * list Value) :=
  (cmd_leg <$> cs_Legs cs) ++ (cmd_match <$> cs_Matches cs) ++ (cmd_break <$> cs_Breaks cs) ++
  (cmd_event <$> cs_Events cs).

Lemma queue_commands cs : queue cs = statement <$> commands cs.
Proof. unfold queue, commands. by rewrite !fmap_app, <- !list_fmap_compose. Qed.

Lemma exec_events_view es t t' : tables_ok t -> Forall (fun e => exact_us (ev_At e)) es ->
  executes_all char3 jsonb (cmd_event <$> es) t t' ->
  tables_ok t' /\ exists new, tables_view t' = mkView (v_legs (tables_view t)) (v_matches (tables_view t))
    (v_breaks (tables_view t)) (v_events (tables_view t) ++ new) /\ stamped es new.
Proof.
  revert t. induction es as [|e es IH]; intros t Hok Ht.
  { intros ->. split; [done|]. exists []. rewrite app_nil_r. split; [done|constructor]. }
  apply Forall_cons in Ht as [He Ht]. intros (t1 & H1 & H2).
  destruct (exec_event_view e t t1 Hok He H1) as (Hok1 & n & Hv1).
  destruct (IH t1 Hok1 Ht H2) as (Hok' & new & Hv & Hst). split; [done|]. exists (logged n e :: new).
  rewrite Hv, Hv1. cbn. split; [by rewrite <- app_assoc|]. by constructor.
Qed.

Lemma exec_legs_view ls t t' : tables_ok t -> NoDup (ID <$> ls) ->
  (forall l, l ∈ ls -> match v_legs (tables_view t) !! ID l with Some l0 => leg_kept l0 l | None => leg_fits l end) ->
  executes_all char3 jsonb (cmd_leg <$> ls) t t' ->
  tables_ok t' /\ tables_view t' = mkView (put_legs ls (v_legs (tables_view t))) (v_matches (tables_view t))
                                    (v_breaks (tables_view t)) (v_events (tables_view t)).
Proof.
  set (step := fun l v => mkView (put_legs [l] (v_legs v)) (v_matches v) (v_breaks v) (v_events v)).
  assert (forall v, foldl (fun v l => step l v) v ls =
    mkView (put_legs ls (v_legs v)) (v_matches v) (v_breaks v) (v_events v)) as <-.
  { induction ls as [|l ls IH]; intros v; [by destruct v|]. cbn [foldl]. by rewrite IH. }
  apply (exec_each cmd_leg ID (fun v l => match v_legs v !! ID l with Some l0 => leg_kept l0 l | None => leg_fits l end)).
  - intros l s s' Hs Hl. by apply exec_leg_view.
  - intros v a b Hne. cbn. by rewrite lookup_insert_ne.
Qed.

Lemma exec_matches_view ms t t' : tables_ok t -> NoDup (m_ID <$> ms) ->
  (forall m, m ∈ ms -> v_matches (tables_view t) !! m_ID m = None /\ match_fits m) ->
  executes_all char3 jsonb (cmd_match <$> ms) t t' ->
  tables_ok t' /\ tables_view t' = mkView (v_legs (tables_view t)) (put_matches ms (v_matches (tables_view t)))
                                    (v_breaks (tables_view t)) (v_events (tables_view t)).
Proof.
  set (step := fun m v => mkView (v_legs v) (put_matches [m] (v_matches v)) (v_breaks v) (v_events v)).
  assert (forall v, foldl (fun v m => step m v) v ms =
    mkView (v_legs v) (put_matches ms (v_matches v)) (v_breaks v) (v_events v)) as <-.
  { induction ms as [|m ms IH]; intros v; [by destruct v|]. cbn [foldl]. by rewrite IH. }
  apply (exec_each cmd_match m_ID (fun v m => v_matches v !! m_ID m = None /\ match_fits m)).
  - intros m s s' Hs [Hn Hf]. by apply exec_match_view.
  - intros v a b Hne. cbn. by rewrite lookup_insert_ne.
Qed.

Lemma exec_breaks_view bs t t' : tables_ok t -> NoDup (b_ID <$> bs) ->
  (forall b, b ∈ bs -> match v_breaks (tables_view t) !! b_ID b with Some b0 => break_kept b0 b | None => break_fits b end) ->
  executes_all char3 jsonb (cmd_break <$> bs) t t' ->
  tables_ok t' /\ tables_view t' = mkView (v_legs (tables_view t)) (v_matches (tables_view t))
                                    (put_breaks bs (v_breaks (tables_view t))) (v_events (tables_view t)).
Proof.
  set (step := fun b v => mkView (v_legs v) (v_matches v) (put_breaks [b] (v_breaks v)) (v_events v)).
  assert (forall v, foldl (fun v b => step b v) v bs =
    mkView (v_legs v) (v_matches v) (put_breaks bs (v_breaks v)) (v_events v)) as <-.
  { induction bs as [|b bs IH]; intros v; [by destruct v|]. cbn [foldl]. by rewrite IH. }
  apply (exec_each cmd_break b_ID (fun v b => match v_breaks v !! b_ID b with Some b0 => break_kept b0 b | None => break_fits b end)).
  - intros b s s' Hs Hb. by apply exec_break_view.
  - intros v a b Hne. cbn. by rewrite lookup_insert_ne.
Qed.

(** The statements of a change set the engine may apply do what the contract
    asks. *)
Lemma exec_commands cs t t' : tables_ok t -> cs_ok (tables_view t) cs ->
  executes_all char3 jsonb (commands cs) t t' -> tables_ok t' /\ applied cs (tables_view t) (tables_view t').
Proof.
  intros Hok Hcs. unfold commands.
  intros (t1 & E1 & (t2 & E2 & (t3 & E3 & E4)%executes_all_app)%executes_all_app)%executes_all_app.
  destruct (exec_legs_view _ _ _ Hok (ck_legs _ _ Hcs) (ck_leg _ _ Hcs) E1) as [Hok1 Hv1].
  destruct (exec_matches_view _ _ t2 Hok1 (ck_matches _ _ Hcs)) as [Hok2 Hv2];
    [rewrite Hv1; apply (ck_match _ _ Hcs)|done|]. rewrite Hv1 in Hv2.
  destruct (exec_breaks_view _ _ t3 Hok2 (ck_breaks _ _ Hcs)) as [Hok3 Hv3];
    [rewrite Hv2; apply (ck_break _ _ Hcs)|done|]. rewrite Hv2 in Hv3.
  destruct (exec_events_view _ t3 t' Hok3 (ck_events _ _ Hcs) E4) as (Hok4 & new & Hv4 & Hst).
  split; [done|]. rewrite Hv4, Hv3. constructor; [done..|]. by exists new.
Qed.
End Rows.

(** ** The queries *)

Lemma mbind_Ok {S A B} (m : M S A) (k : A -> M S B) s b s' :
  mbind m k s = (Ok b, s') -> exists a s1, m s = (Ok a, s1) /\ k a s1 = (Ok b, s').
Proof. unfold mbind. destruct (m s) as [[a|e] s1]; [eauto|done]. Qed.

Lemma rows_of_fmap {A B} (f : A -> B) (m : gmap string A) : (map_to_list (f <$> m)).*2 = f <$> rows_of m.
Proof. unfold rows_of. rewrite map_to_list_fmap, <- !list_fmap_compose. done. Qed.

Lemma filter_fmap {A B} (f : A -> B) (P : B -> Prop) `{!forall x, Decision (P x)} (l : list A) :
  filter P (f <$> l) = f <$> filter (fun x => P (f x)) l.
Proof.
  induction l as [|x l IH]; [done|]. rewrite fmap_cons, !filter_cons.
  destruct (decide (P (f x))); [rewrite fmap_cons|]; by rewrite IH.
Qed.

Lemma last_max es : StronglySorted (fun a b => er_seq a < er_seq b) es -> Forall (fun e => 1 <= er_seq e) es ->
  max_seq es = last_seq (row_event <$> es).
Proof.
  intros Hs Hp. assert (forall n, 0 <= n -> Forall (fun e => n < er_seq e) es ->
    foldl Z.max n (er_seq <$> es) = default n (ev_Seq <$> last (row_event <$> es))) as H.
  { clear Hp. induction Hs as [|e es Hs IH He]; intros n Hn Hall; [done|].
    apply Forall_cons in Hall as [H1 H2]. cbn. rewrite Z.max_r by lia. rewrite IH; [|lia|done].
    destruct es as [|e' es]; [done|]. cbn [fmap list_fmap]. rewrite last_cons_cons.
    by destruct (last (row_event e' :: _)) eqn:E; [|apply last_None in E]. }
  unfold max_seq, last_seq. apply H; [lia|]. eapply Forall_impl; [exact Hp|]. cbn. lia.
Qed.

Section Laws.
Context {DB Tx : Type} `{!Database DB Tx} `{!DatabaseLaws DB Tx}.

Definition pg_ok (d : DB) : Prop := tables_ok jsonb (tables d).
Definition pg_view (d : DB) : View := tables_view (tables d).

Abbreviation answers d := (selects collate (db_now d) (tables d)).

Lemma query_all_spec {A} (scan : Row -> result A) s args d r d' : select_ok s ->
  query_all scan (select_sql s) args d = (r, d') ->
  tables d' = tables d /\ forall out, r = Ok out -> exists rows, answers d s args rows /\ scan_rows scan rows None = Ok out.
Proof.
  intros Hs. unfold query_all, mbind, give. destruct (Query (select_sql s) args d) as [[[rows e]|e] d1] eqn:E;
    intros [= <- <-]; destruct (Query_law s args d _ d1 Hs E) as [Ht Ha]; (split; [exact Ht|]); [|done].
  cbn [fst snd]. intros out Hout. destruct e as [e|]; [by apply scan_rows_Err in Hout|]. exists rows. auto.
Qed.

(** An answer is that of the first row; the error for no row is given only
    where there is none. *)
Lemma query_row_spec {A} (scan : Row -> result A) missing s args d r d' : select_ok s ->
  query_row scan missing (select_sql s) args d = (r, d') ->
  tables d' = tables d /\
  ((exists rows, answers d s args rows /\ r = match head rows with Some row => scan row | None => Err missing end) \/
   exists e, r = Err e /\ errors_Is e ErrNotFound = false).
Proof.
  intros Hs. unfold query_row, mbind, give, mfail.
  destruct (QueryRow (select_sql s) args d) as [[row|e] d1] eqn:E;
    destruct (QueryRow_law s args d _ d1 Hs E) as [Ht Ha].
  - destruct Ha as (rows & Ha & ->). destruct (head rows) as [row|] eqn:Eh; intros [= <- <-];
      (split; [exact Ht|]); left; exists rows; by rewrite Eh.
  - intros [= <- <-]. split; [exact Ht|]. right. by exists e.
Qed.

Lemma pg_kept d d' : tables d' = tables d -> pg_ok d -> pg_ok d' /\ pg_view d' = pg_view d.
Proof. unfold pg_ok, pg_view. by intros ->. Qed.

Lemma rows_of_legs d r : pg_ok d -> r ∈ rows_of (t_legs (tables d)) -> scanLeg (leg_values r) = Ok (row_leg r).
Proof.
  intros Hok Hr. unfold rows_of in Hr. apply list_elem_of_fmap in Hr as ([id r'] & -> & Hin%elem_of_map_to_list).
  destruct (to_legs _ _ Hok _ _ Hin) as (_ & a & Hval & Ha). eapply scanLeg_values; [apply jsonb_law|exact Hval|exact Ha].
Qed.

Lemma values_fmap (m : gmap string LegRow) : values (row_leg <$> m) = row_leg <$> rows_of m.
Proof. unfold values. apply rows_of_fmap. Qed.

(** The legs a query of legs gives. *)
Lemma scan_legs d (P : LegRow -> Prop) `{!forall r, Decision (P r)} le out ls : pg_ok d ->
  ordered le (filter P (rows_of (t_legs (tables d)))) out -> scan_rows scanLeg (leg_values <$> out) None = Ok ls ->
  ls ≡ₚ row_leg <$> filter P (rows_of (t_legs (tables d))).
Proof.
  intros Hok [Hp _]. rewrite (scan_rows_all scanLeg leg_values row_leg); [intros [= <-]; by rewrite Hp|].
  intros r Hr. rewrite Hp in Hr. apply list_elem_of_filter in Hr as [_ Hr]. by apply (rows_of_legs d).
Qed.

(** ** The operations keep the contract *)

Lemma exec_batch_results n i x x' : exec_batch (DB := DB) i n x = (Ok tt, x') -> read_results (DB := DB) n x = (Ok tt, x').
Proof.
  revert i x. induction n as [|n IH]; intros i x; [done|]. cbn. unfold mbind.
  destruct (TxBatchExec x) as [[[]|e] x1]; [apply IH|done].
Qed.

(** A transaction that applies a change set has sent its statements and read
    all their results. *)
Lemma apply_tx_batch cs x x' : apply_tx (DB := DB) cs x = (Ok tt, x') ->
  read_batch (DB := DB) (length (commands cs)) (TxSendBatch (statement <$> commands cs) x) = (Ok tt, x').
Proof.
  unfold apply_tx, read_batch, mbind, mmodify, mwrap. rewrite queue_commands, length_fmap.
  destruct (exec_batch 0 _ _) as [[[]|e] x1] eqn:E; [|done]. rewrite (exec_batch_results _ _ _ _ E).
  by destruct (TxBatchClose x1) as [[[]|e] x2].
Qed.

Lemma pg_Apply_ok cs d r d' : pg_ok d -> cs_ok (H := us_fidelity jsonb jsonb_law) (pg_view d) cs -> pg_Apply cs d = (r, d') ->
  pg_ok d' /\ match r with
              | Ok _ => applied (H := us_fidelity jsonb jsonb_law) cs (pg_view d) (pg_view d')
              | Err _ => pg_view d' = pg_view d
              end.
Proof.
  intros Hok Hcs. unfold pg_Apply. destruct (cs_Empty cs) eqn:Hempty.
  { intros [= <- <-]. split; [done|]. unfold cs_Empty in Hempty.
    destruct cs as [[|] [|] [|] [|]]; try done. constructor; try done. exists []. rewrite app_nil_r. split; [done|constructor]. }
  intros E. pose proof (BeginFunc_law _ _ _ _ E) as Hlaw. destruct r as [u|e].
  - destruct Hlaw as (x & x' & Hx & Htx & Hd'). apply apply_tx_batch, TxBatch_law in Htx.
    unfold pg_ok, pg_view. rewrite Hd'. rewrite Hx in Htx.
    by apply (exec_commands char3 jsonb char3_law jsonb_law cs).
  - by destruct (pg_kept d d' Hlaw Hok).
Qed.

Lemma pg_HasLeg_ok id d r d' : pg_HasLeg id d = (r, d') ->
  tables d' = tables d /\ forall b, r = Ok b -> b = bool_decide (is_Some (v_legs (pg_view d) !! id)).
Proof.
  intros E. destruct (query_row_spec scan_bool no_rows SelHasLeg [VText id] d r d' I E) as [Ht Ha].
  split; [done|]. intros b Hb. destruct Ha as [(rows & Hr & ->)|(e & -> & _)]; [|done].
  inversion Hr; subst. cbn in Hb. injection Hb as <-. unfold pg_view. cbn. rewrite lookup_fmap.
  apply bool_decide_ext. by rewrite fmap_is_Some.
Qed.

(** A lookup by primary key: the row there is, or the answer for no row. *)
Lemma lookup_spec {A R} (scan : Row -> result A) (row : R -> Row) (f : R -> A) (m : gmap string R) s id d r d' :
  select_ok s -> query_row scan (ErrSentinel ErrNotFound) (select_sql s) [VText id] d = (r, d') ->
  (forall rows, answers d s [VText id] rows -> rows = row <$> option_list (m !! id)) ->
  (forall x, m !! id = Some x -> scan (row x) = Ok (f x)) ->
  tables d' = tables d /\ match r with
                          | Ok a => (f <$> m) !! id = Some a
                          | Err e => errors_Is e ErrNotFound = true -> (f <$> m) !! id = None
                          end.
Proof.
  intros Hs E Hrows Hscan. destruct (query_row_spec scan _ s _ d r d' Hs E) as [Ht Ha]. split; [done|].
  rewrite lookup_fmap. destruct Ha as [(rows & Hr%Hrows & ->)|(e & -> & He)]; [|by rewrite He].
  rewrite Hr. destruct (m !! id) as [x|] eqn:Ex; cbn; [by rewrite (Hscan x)|done].
Qed.

Lemma pg_GetLeg_ok id d r d' : pg_ok d -> pg_GetLeg id d = (r, d') ->
  tables d' = tables d /\ match r with
                          | Ok l => v_legs (pg_view d) !! id = Some l
                          | Err e => errors_Is e ErrNotFound = true -> v_legs (pg_view d) !! id = None
                          end.
Proof.
  intros Hok E. eapply (lookup_spec scanLeg leg_values row_leg (t_legs (tables d)) SelLeg); [done|exact E| |].
  - intros rows Hr. by inversion Hr.
  - intros x Hx. destruct (to_legs _ _ Hok _ _ Hx) as (_ & a & Hval & Ha). eapply scanLeg_values; [apply jsonb_law|exact Hval|exact Ha].
Qed.

Lemma pg_GetMatch_ok id d r d' : pg_GetMatch id d = (r, d') ->
  tables d' = tables d /\ match r with
                          | Ok m => v_matches (pg_view d) !! id = Some m
                          | Err e => errors_Is e ErrNotFound = true -> v_matches (pg_view d) !! id = None
                          end.
Proof.
  intros E. eapply (lookup_spec scanMatch match_values row_match (t_matches (tables d)) SelMatch); [done|exact E| |].
  - intros rows Hr. by inversion Hr.
  - intros x _. apply scanMatch_values.
Qed.

Lemma pg_GetBreak_ok id d r d' : pg_GetBreak id d = (r, d') ->
  tables d' = tables d /\ match r with
                          | Ok b => v_breaks (pg_view d) !! id = Some b
                          | Err e => errors_Is e ErrNotFound = true -> v_breaks (pg_view d) !! id = None
                          end.
Proof.
  intros E. eapply (lookup_spec scanBreak break_values row_break (t_breaks (tables d)) SelBreak); [done|exact E| |].
  - intros rows Hr. by inversion Hr.
  - intros x _. apply scanBreak_values.
Qed.

Lemma pg_LegsByTxnRef_ok ref d r d' : pg_ok d -> pg_LegsByTxnRef ref d = (r, d') ->
  tables d' = tables d /\ forall ls, r = Ok ls -> ls ≡ₚ filter (fun l => TxnRef l = ref) (values (v_legs (pg_view d))).
Proof.
  intros Hok E. destruct (query_all_spec scanLeg SelLegsByRef [VText ref] d r d' I E) as [Ht Ha]. split; [done|].
  intros ls Hls. destruct (Ha ls Hls) as (rows & Hr & Hscan). inversion Hr as [| |? out Hout| | | | | | | | | | | | | ]; subst.
  unfold pg_view. cbn [tables_view v_legs]. rewrite values_fmap, filter_fmap. by eapply scan_legs.
Qed.

Lemma pg_OpenLegs_ok d r d' : pg_ok d -> pg_OpenLegs d = (r, d') ->
  tables d' = tables d /\ forall ls, r = Ok ls -> ls ≡ₚ filter (fun l => Status l = LegOpen) (values (v_legs (pg_view d))).
Proof.
  intros Hok E. destruct (query_all_spec scanLeg SelOpenLegs [] d r d' I E) as [Ht Ha]. split; [done|].
  intros ls Hls. destruct (Ha ls Hls) as (rows & Hr & Hscan). inversion Hr as [| | |out Hout| | | | | | | | | | | | ]; subst.
  unfold pg_view. cbn [tables_view v_legs]. rewrite values_fmap, filter_fmap. by eapply scan_legs.
Qed.

(** A page of the log; a limit that is not positive is 100. *)
Lemma pg_EventsFrom_ok from limit d r d' : pg_EventsFrom from limit d = (r, d') ->
  tables d' = tables d /\ forall evs, r = Ok evs ->
    evs = take (Z.to_nat (if limit <=? 0 then 100 else limit)) (filter (fun e => from <= ev_Seq e) (v_events (pg_view d))).
Proof.
  unfold pg_EventsFrom. cbv zeta. set (n := if limit <=? 0 then 100 else limit). intros E.
  destruct (query_all_spec scanEvent SelEvents [VInt from; VInt n] d r d' I E) as [Ht Ha]. split; [done|].
  intros evs Hevs. destruct (Ha evs Hevs) as (rows & Hr & Hscan). inversion Hr; subst.
  rewrite (scan_rows_all scanEvent event_values row_event) in Hscan by (intros; apply scanEvent_values).
  injection Hscan as <-. unfold pg_view. cbn [tables_view v_events]. by rewrite filter_fmap, fmap_take.
Qed.

Lemma pg_LastSeq_ok d r d' : pg_ok d -> pg_LastSeq d = (r, d') ->
  tables d' = tables d /\ forall n, r = Ok n -> n = last_seq (v_events (pg_view d)).
Proof.
  intros Hok E. destruct (query_row_spec scan_int no_rows SelLastSeq [] d r d' I E) as [Ht Ha]. split; [done|].
  intros n Hn. destruct Ha as [(rows & Hr & ->)|(e & -> & _)]; [|done]. inversion Hr; subst. cbn in Hn. injection Hn as <-.
  apply last_max; [apply Hok|apply Hok].
Qed.

Lemma pg_ResetProjections_ok d r d' : pg_ok d -> pg_ResetProjections d = (r, d') ->
  pg_ok d' /\ match r with
              | Ok _ => pg_view d' = mkView ∅ ∅ ∅ (v_events (pg_view d))
              | Err _ => pg_view d' = pg_view d
              end.
Proof.
  intros Hok E. pose proof (Exec_law TruncateProjections [] d r d' E) as Hlaw. destruct r as [u|e].
  - assert (tables d' = truncate_projections (tables d)) as Ht by (by inversion Hlaw).
    unfold pg_ok, pg_view. rewrite Ht. split; [|done].
    destruct Hok. constructor; cbn; try done; intros; simplify_map_eq.
  - by destruct (pg_kept d d' Hlaw Hok).
Qed.

(** ** Listings *)

(** The conditions of a filter, with the values of their placeholders. *)
Definition active (cond : bool) (c : BreakColumn) (v : Value) : list (BreakColumn * Value) :=
  if cond then [(c, v)] else [].
Definition filter_conditions (f : BreakFilter) : list (BreakColumn * Value) :=
  active (negb (bool_decide (f_Status f = ""))) ColStatus (VText (f_Status f)) ++
  active (negb (bool_decide (f_Category f = ""))) ColCategory (VText (f_Category f)) ++
  active (negb (bool_decide (f_Currency f = ""))) ColCurrency (VText (f_Currency f)) ++
  active (negb (bool_decide (f_Counterparty f = ""))) ColCounterparty (VText (f_Counterparty f)) ++
  active (0 <? f_MinAge f) ColAge (VInterval (f_MinAge f)).
Definition positive (n : Z) : option Z := if 0 <? n then Some n else None.
Definition filter_listing (f : BreakFilter) : Listing :=
  mkListing (filter_conditions f).*1 (bool_decide (is_Some (positive (f_Limit f))))
    (bool_decide (is_Some (positive (f_Offset f)))).

Lemma filter_listing_ok f : select_ok (SelBreaks (filter_listing f)).
Proof.
  cbn. unfold filter_conditions, active. do 4 case_bool_decide; destruct (0 <? f_MinAge f); cbn;
    repeat first [apply sublist_nil_l|apply sublist_skip|apply sublist_cons].
Qed.

Definition with_suffix (word : string) (n : option Z) (q : Statement) : Statement :=
  match n with
  | Some n => (q.1 +:+ word +:+ FormatInt (Z.of_nat (length (q.2 ++ [VInt n]))), q.2 ++ [VInt n])
  | None => q
  end.
Lemma add_suffix_positive word n q : add_suffix word n q = with_suffix word (positive n) q.
Proof. unfold add_suffix, with_suffix, positive. by destruct (0 <? n). Qed.

(** The text that is put together is that of the listing, and every placeholder
    gets its own value: for every choice of conditions and values. *)
Definition clause_text (wh : list string) : string :=
  let sql := "SELECT " +:+ breakCols +:+ " FROM breaks" in
  let sql := if (0 <? length wh)%nat then sql +:+ " WHERE " +:+ strings_Join wh " AND " else sql in
  sql +:+ " ORDER BY opened_at, id".

Lemma list_query_text (b1 b2 b3 b4 b5 : bool) (v1 v2 v3 v4 v5 : Value) (l o : option Z) :
  let q := add_clause b5 "COALESCE(resolved_at, now()) - opened_at >= $" v5 (add_clause b4 "counterparty=$" v4
    (add_clause b3 "currency=$" v3 (add_clause b2 "category=$" v2 (add_clause b1 "status=$" v1 ([], []))))) in
  let cs := active b1 ColStatus v1 ++ active b2 ColCategory v2 ++ active b3 ColCurrency v3 ++
    active b4 ColCounterparty v4 ++ active b5 ColAge v5 in
  with_suffix " OFFSET $" o (with_suffix " LIMIT $" l (clause_text q.1, q.2)) =
  (listing_sql (mkListing cs.*1 (bool_decide (is_Some l)) (bool_decide (is_Some o))),
   cs.*2 ++ (VInt <$> option_list l) ++ (VInt <$> option_list o)).
Proof. destruct b1, b2, b3, b4, b5, l, o; vm_compute; reflexivity. Qed.

Lemma list_breaks_query_listing f : list_breaks_query f =
  (listing_sql (filter_listing f),
   (filter_conditions f).*2 ++ (VInt <$> option_list (positive (f_Limit f))) ++ (VInt <$> option_list (positive (f_Offset f)))).
Proof.
  unfold list_breaks_query. pose proof (list_query_text (negb (bool_decide (f_Status f = "")))
    (negb (bool_decide (f_Category f = ""))) (negb (bool_decide (f_Currency f = "")))
    (negb (bool_decide (f_Counterparty f = ""))) (0 <? f_MinAge f) (VText (f_Status f)) (VText (f_Category f))
    (VText (f_Currency f)) (VText (f_Counterparty f)) (VInterval (f_MinAge f)) (positive (f_Limit f)) (positive (f_Offset f))) as H.
  cbv zeta in H. fold (break_clauses f) in H. destruct (break_clauses f) as [wh args]. cbn [fst snd] in H.
  cbv zeta. rewrite !add_suffix_positive. exact H.
Qed.

(** What a listing gives: the breaks of the rows that pass, in order, cut by
    offset and limit. *)
Definition row_selected (f : BreakFilter) (now : Time) (r : BreakRow) : Prop :=
  Forall (fun cv => cond_holds now cv.1 cv.2 r = true) (filter_conditions f).
#[export] Instance row_selected_dec f now r : Decision (row_selected f now r).
Proof. unfold row_selected. apply _. Defined.

Definition cut (f : BreakFilter) {A} (l : list A) : list A :=
  (if 0 <? f_Limit f then take (Z.to_nat (f_Limit f)) else id) (drop (Z.to_nat (f_Offset f)) l).

Lemma cut_fmap f {A B} (g : A -> B) l : g <$> cut f l = cut f (g <$> l).
Proof. unfold cut. destruct (0 <? f_Limit f); unfold id; by rewrite ?fmap_take, fmap_drop. Qed.

Lemma pg_ListBreaks_ok f d r d' : pg_ListBreaks f d = (r, d') ->
  tables d' = tables d /\ forall bs, r = Ok bs -> exists out,
    ordered (break_row_le collate) (filter (row_selected f (db_now d)) (rows_of (t_breaks (tables d)))) out /\
    bs = cut f (row_break <$> out).
Proof.
  unfold pg_ListBreaks. rewrite list_breaks_query_listing. set (args := _ ++ _). intros E.
  destruct (query_all_spec scanBreak (SelBreaks (filter_listing f)) args d r d' (filter_listing_ok f) E) as [Ht Ha].
  split; [done|]. intros bs Hbs. destruct (Ha bs Hbs) as (rows & Hr & Hscan).
  remember (SelBreaks (filter_listing f)) as s eqn:Es. remember args as args0 eqn:Eargs.
  destruct Hr as [| | | | | |cols vs limit offset out Hlen Hout| | | | | | | | |]; try done.
  injection Es as Hcols Hl Ho. unfold args in Eargs.
  assert (vs = (filter_conditions f).*2 /\ limit = positive (f_Limit f) /\ offset = positive (f_Offset f)) as (-> & -> & ->).
  { apply app_inj_1 in Eargs as [-> Etail]; [|by rewrite Hlen, Hcols, !length_fmap].
    split; [done|]. unfold positive in *.
    destruct limit, offset, (0 <? f_Limit f), (0 <? f_Offset f); cbn in Hl, Ho, Etail; try done; by simplify_eq. }
  exists out. split.
  - subst cols. rewrite (filter_ext_in _ (row_selected f (db_now d))) in Hout; [done|].
    intros x _. unfold row_selected. by rewrite zip_fst_snd.
  - rewrite (scan_rows_all scanBreak break_values row_break) in Hscan by (intros; apply scanBreak_values).
    injection Hscan as <-. rewrite <- cut_fmap. f_equal. unfold cut, positive.
    replace (Z.to_nat (default 0 (if 0 <? f_Offset f then Some (f_Offset f) else None))) with (Z.to_nat (f_Offset f))
      by (destruct (Z.ltb_spec 0 (f_Offset f)); cbn; lia).
    by destruct (0 <? f_Limit f).
Qed.

(** ** The instances *)

#[local] Existing Instance postgres_repository.

Lemma pg_view_wf d : pg_ok d -> view_wf (pg_view d).
Proof.
  intros Hok. constructor; unfold pg_view, tables_view; cbn; unfold keyed, keyed_matches, keyed_breaks.
  - intros id l. rewrite lookup_fmap, fmap_Some. intros (r & Hr & ->). by apply (to_legs _ _ Hok).
  - intros id l. rewrite lookup_fmap, fmap_Some. intros (r & Hr & ->). by apply (to_matches _ _ Hok).
  - intros id l. rewrite lookup_fmap, fmap_Some. intros (r & Hr & ->). by apply (to_breaks _ _ Hok).
  - pose proof (to_sorted _ _ Hok) as Hs. pose proof (to_positive _ _ Hok) as Hp. constructor.
    + clear - Hs. induction Hs as [|e es Hs IH He]; cbn; constructor; [done|]. apply Forall_fmap.
      eapply Forall_impl; [exact He|done].
    + apply Forall_fmap. eapply Forall_impl; [exact Hp|done].
Qed.

Definition postgres_laws : RepositoryLaws DB.
Proof.
  refine {| fidelity := us_fidelity jsonb jsonb_law; view := pg_view; repo_ok := pg_ok |}.
  - apply pg_view_wf.
  - intros cs d r d' Hok Hcs E. by apply (pg_Apply_ok cs).
  - intros id d r d' Hok E. destruct (pg_HasLeg_ok _ _ _ _ E) as [Ht Ha]. destruct (pg_kept d d' Ht Hok). auto.
  - intros ref d r d' Hok E. destruct (pg_LegsByTxnRef_ok _ _ _ _ Hok E) as [Ht Ha]. destruct (pg_kept d d' Ht Hok). auto.
  - intros d r d' Hok E. destruct (pg_OpenLegs_ok _ _ _ Hok E) as [Ht Ha]. destruct (pg_kept d d' Ht Hok). auto.
  - intros id d r d' Hok E. destruct (pg_GetBreak_ok _ _ _ _ E) as [Ht Ha]. destruct (pg_kept d d' Ht Hok).
    split_and!; [done..|]. by intros b ->.
  - intros from limit d r d' Hok Hl E. destruct (pg_EventsFrom_ok _ _ _ _ _ E) as [Ht Ha]. destruct (pg_kept d d' Ht Hok).
    split_and!; [done..|]. intros evs Hevs. rewrite (Ha evs Hevs). destruct (Z.leb_spec limit 0); [lia|done].
  - intros d r d' Hok E. destruct (pg_LastSeq_ok _ _ _ Hok E) as [Ht Ha]. destruct (pg_kept d d' Ht Hok). auto.
  - intros d r d' Hok E. by apply pg_ResetProjections_ok.
Defined.

(** The queries of [Stats] and the ping change nothing, whatever they answer. *)
Definition only_reads {A} (m : M DB A) : Prop := forall d, tables (m d).2 = tables d.

Lemma only_reads_bind {A B} (m : M DB A) (k : A -> M DB B) :
  only_reads m -> (forall a, only_reads (k a)) -> only_reads (mbind m k).
Proof.
  intros Hm Hk d. unfold mbind. specialize (Hm d). destruct (m d) as [[a|e] d1]; cbn in Hm; [by rewrite Hk|done].
Qed.
Lemma only_reads_ret {A} (a : A) : only_reads (mret a).
Proof. done. Qed.
Lemma only_reads_row {A} (scan : Row -> result A) missing s args : select_ok s ->
  only_reads (query_row scan missing (select_sql s) args).
Proof.
  intros Hs d. destruct (query_row _ _ _ _ d) as [r d'] eqn:E. by destruct (query_row_spec _ _ _ _ _ _ _ Hs E).
Qed.
Lemma only_reads_group s into : select_ok s -> only_reads (groupCount (select_sql s) into).
Proof.
  intros Hs. apply only_reads_bind; [|intros; apply only_reads_ret]. intros d.
  destruct (query_all _ _ _ d) as [r d'] eqn:E. by destruct (query_all_spec _ _ _ _ _ _ Hs E).
Qed.

Lemma pg_Stats_reads : only_reads pg_Stats.
Proof.
  apply only_reads_bind; [by apply (only_reads_row _ _ CountLegs)|]. intros [[[t o] m] b].
  apply only_reads_bind; [by apply (only_reads_group CountLegsBySource)|]. intros bySource.
  apply only_reads_bind; [by apply (only_reads_group CountMatchesByTier)|]. intros byTier.
  apply only_reads_bind; [by apply (only_reads_group CountMatchesByRule)|]. intros byRule.
  apply only_reads_bind; [by apply (only_reads_group CountBreaksByCategory)|]. intros byCat.
  apply only_reads_bind; [by apply (only_reads_row _ _ CountBreaks)|]. intros [[bo br] old].
  apply only_reads_bind; [by apply (only_reads_row _ _ CountEvents)|]. intros n. apply only_reads_ret.
Qed.

Lemma pg_Ping_reads : only_reads pg_Ping.
Proof.
  intros d. unfold pg_Ping. destruct (PoolPing d) as [[u|e] d'] eqn:E; by apply (PoolPing_law _ _ _ E).
Qed.

Lemma postgres_reads_laws : StoreReadsLaws (H0 := postgres_laws) (H1 := postgres_reads) DB.
Proof.
  constructor.
  - intros id d r d' Hok E. destruct (pg_GetLeg_ok _ _ _ _ Hok E) as [Ht Ha]. by destruct (pg_kept d d' Ht Hok).
  - intros id d r d' Hok E. destruct (pg_GetMatch_ok _ _ _ _ E) as [Ht Ha]. by destruct (pg_kept d d' Ht Hok).
  - intros id d e d' Hok E. by destruct (pg_GetBreak_ok _ _ _ _ E) as [_ Ha].
  - intros f d r d' Hok E. destruct (pg_ListBreaks_ok _ _ _ _ E) as [Ht _]. by apply pg_kept.
  - intros d r d' Hok E. pose proof (pg_Stats_reads d) as Ht. change (pg_Stats d = (r, d')) in E. rewrite E in Ht.
    by apply pg_kept.
  - intros d r d' Hok E. pose proof (pg_Ping_reads d) as Ht. change (pg_Ping d = (r, d')) in E. rewrite E in Ht.
    by apply pg_kept.
Qed.
End Laws.
