(* ===== verification/MigrationFacts.v ===== *)
(** * Migrations

    What opening the Postgres store does to the database: the migrations run in
    order, each in a transaction of its own, and a store that is opened again
    finds its schema. *)

From S2P Require Export PostgresFacts.

Section Migrations.
Context {DB Tx : Type} `{!Database DB Tx} `{!DatabaseLaws DB Tx}.

(** What one migration does: nothing if it is recorded, except for the first,
    which creates the table of records. *)
Definition migrated (first : string) (t : Tables) (m : Migration) : Tables :=
  if bool_decide (Version m <> first /\ Version m ∈ t_versions t) then t
  else add_version (Version m) (ddl (SQL m) t).

Definition first_version (ms : list Migration) : string := default "" (Version <$> head ms).

Lemma migrate_tx_spec first m x x' : migrate_tx (DB := DB) first m x = (Ok tt, x') ->
  tx_tables x' = migrated first (tx_tables x) m.
Proof.
  unfold migrate_tx, applied_already, migrated. intros E. apply mbind_Ok in E as (b & x1 & Eb & E).
  assert (tx_tables x1 = tx_tables x /\ b = bool_decide (Version m <> first /\ Version m ∈ t_versions (tx_tables x))) as [Ht ->].
  { destruct (decide (Version m = first)) as [Hv|Hv];
      [rewrite bool_decide_eq_true_2 in Eb by done|rewrite bool_decide_eq_false_2 in Eb by done].
    { unfold mret in Eb. injection Eb as <- <-. split; [done|]. by rewrite bool_decide_eq_false_2 by tauto. }
    apply mbind_Ok in Eb as (r & x2 & Eq & Eb). destruct (TxQueryRow_law _ _ _ _ Eq) as [Ht Hr].
    rewrite (Hr r eq_refl) in Eb. injection Eb as <- <-. split; [done|]. apply bool_decide_ext. tauto. }
  clear Eb. rewrite <- Ht in *. case_bool_decide; [by unfold mret in E; injection E as <-|].
  apply mbind_Ok in E as (u & x2 & E1 & E2). unfold mwrap in E1.
  destruct (TxExec (SQL m) [] x1) as [[u'|e] x3] eqn:Ex; [|done]. injection E1 as -> ->. destruct u.
  rewrite <- (TxExec_ddl _ _ _ Ex). apply (TxExec_law InsertVersion) in E2. by inversion E2.
Qed.

(** The migrations run one after the other, up to the first that fails. *)
Lemma migrate_loop_spec first ms d r d' : migrate_loop (Tx := Tx) first ms d = (r, d') ->
  exists k, tables d' = foldl (migrated first) (tables d) (take k ms) /\ (r = Ok tt -> k = length ms).
Proof.
  revert d. induction ms as [|m ms IH]; intros d; cbn; [intros [= <- <-]; by exists 0%nat|].
  unfold mbind, mwrap. destruct (BeginFunc (migrate_tx first m) d) as [[u|e] d1] eqn:E;
    pose proof (BeginFunc_law _ _ _ _ E) as Hl.
  - destruct Hl as (x & x' & Hx & Htx%migrate_tx_spec & Hd1). intros H. destruct (IH _ H) as (k & Ht & Hk).
    exists (S k). split; [cbn; by rewrite Ht, Hd1, Htx, Hx|]. intros Hr. by rewrite (Hk Hr).
  - intros [= <- <-]. exists 0%nat. by split.
Qed.

Lemma or_close_spec (m : M DB unit) d r d' : or_close m d = (r, d') ->
  exists d1, m d = (r, d1) /\ tables d' = tables d1.
Proof.
  unfold or_close. destruct (m d) as [[[]|e] d1]; intros [= <- <-]; exists d1; split; try done. apply PoolClose_law.
Qed.

(** Opening changes the tables by migrating them only. *)
Lemma Open_spec ms dsn d r d' : Open ms dsn d = (r, d') ->
  exists k, tables d' = foldl (migrated (first_version ms)) (tables d) (take k ms) /\ (r = Ok tt -> k = length ms).
Proof.
  unfold Open. unfold mbind at 1, mwrap at 1, give. destruct (ParseDSN dsn) as [u|e];
    [|intros [= <- <-]; exists 0%nat; by split].
  unfold mbind at 1, mwrap at 1. destruct (PoolNew dsn d) as [[u1|e] d1] eqn:E1; apply PoolNew_law in E1;
    [|intros [= <- <-]; exists 0%nat; by rewrite E1].
  unfold mbind at 1. destruct (or_close pg_Ping d1) as [r2 d2] eqn:E2. apply or_close_spec in E2 as (d3 & E2 & Ht2).
  pose proof (pg_Ping_reads d1) as Hp. rewrite E2 in Hp. cbn in Hp.
  destruct r2 as [u2|e]; [|intros [= <- <-]; exists 0%nat; by rewrite Ht2, Hp, E1].
  intros E3. apply or_close_spec in E3 as (d4 & E3 & ->). apply migrate_loop_spec in E3 as (k & Hk & Hr).
  exists k. by rewrite Hk, Ht2, Hp, E1.
Qed.

(** ** Opening again *)

Context (ms : list Migration).

(** The statements of the migrations leave the table of records alone, and those
    of the first one (CREATE ... IF NOT EXISTS) everything that is there. *)
Definition keeps_records : Prop := forall m t, m ∈ ms -> t_versions t ⊆ t_versions (ddl (SQL m) t).
Definition first_repeatable : Prop := forall m t, head ms = Some m -> Version m ∈ t_versions t -> ddl (SQL m) t = t.

Definition recorded (t : Tables) : Prop := forall m, m ∈ ms -> Version m ∈ t_versions t.

Lemma migrated_grows t m : keeps_records -> m ∈ ms ->
  t_versions t ⊆ t_versions (migrated (first_version ms) t m) /\
  Version m ∈ t_versions (migrated (first_version ms) t m).
Proof.
  intros Hk Hm. unfold migrated. case_bool_decide as Hb; [naive_solver|]. cbn. specialize (Hk m t Hm). set_solver.
Qed.

Lemma migrated_all_grow t l : keeps_records -> (forall m, m ∈ l -> m ∈ ms) ->
  t_versions t ⊆ t_versions (foldl (migrated (first_version ms)) t l) /\
  forall m, m ∈ l -> Version m ∈ t_versions (foldl (migrated (first_version ms)) t l).
Proof.
  intros Hk. revert t. induction l as [|m l IH]; intros t Hl; [split; [done|intros m Hm; by apply not_elem_of_nil in Hm]|].
  destruct (migrated_grows t m Hk (Hl m (list_elem_of_here _ _))) as [H1 H2]. cbn [foldl].
  destruct (IH (migrated (first_version ms) t m)) as [H3 H4]; [intros x Hx; apply Hl; by right|].
  split; [set_solver|]. intros x [->|Hx]%elem_of_cons; [by apply H3|by apply H4].
Qed.

(** What is recorded is not run again. *)
Lemma migrated_again t l : first_repeatable -> (forall m, m ∈ l -> Version m ∈ t_versions t) ->
  (forall m, m ∈ l -> Version m = first_version ms -> head ms = Some m) ->
  foldl (migrated (first_version ms)) t l = t.
Proof.
  intros Hf Hrec Hhead. induction l as [|m l IH]; [done|]. cbn [foldl].
  assert (migrated (first_version ms) t m = t) as ->.
  { unfold migrated. assert (Version m ∈ t_versions t) as Hv by (apply Hrec; left).
    case_bool_decide as Hb; [done|]. assert (Version m = first_version ms) as Hfirst.
    { destruct (decide (Version m = first_version ms)); [done|]. tauto. }
    rewrite (Hf m t (Hhead m (list_elem_of_here _ _) Hfirst) Hv). unfold add_version. destruct t; cbn in *. f_equal. set_solver. }
  apply IH; intros x Hx; [apply Hrec|apply Hhead]; by right.
Qed.

Lemma elem_of_migrations k m : m ∈ take k ms -> m ∈ ms.
Proof. intros Hm. rewrite <- (take_drop k ms). apply elem_of_app. by left. Qed.

(** Migrating again, from the start, goes on where the first time stopped. *)
Lemma migrated_resumes t k j : keeps_records -> first_repeatable ->
  (forall m, m ∈ ms -> Version m = first_version ms -> head ms = Some m) ->
  foldl (migrated (first_version ms)) (foldl (migrated (first_version ms)) t (take k ms)) (take j ms)
  = foldl (migrated (first_version ms)) t (take (Nat.max k j) ms).
Proof.
  intros Hk Hf Hhead. set (t' := foldl _ t (take k ms)).
  assert (forall i, (i <= k)%nat -> foldl (migrated (first_version ms)) t' (take i ms) = t') as Hdone.
  { intros i Hi. apply migrated_again; [done| |intros m Hm; apply Hhead; by eapply elem_of_migrations].
    intros m Hm. apply (migrated_all_grow t (take k ms)); [done|apply elem_of_migrations|].
    rewrite <- (Nat.min_l i k Hi), <- take_take in Hm. rewrite <- (take_drop i (take k ms)). apply elem_of_app. by left. }
  destruct (decide (j <= k)%nat) as [Hle|Hgt]; [by rewrite Hdone, Nat.max_l|].
  rewrite Nat.max_r by lia. replace j with (k + (j - k))%nat by lia. rewrite <- !take_take_drop, !foldl_app.
  by rewrite Hdone.
Qed.
End Migrations.

(** ** The list of migrations *)

#[export] Instance version_le_trans : Transitive version_le.
Proof. intros a b c. unfold version_le. intros ??. by trans (Version b). Qed.
#[export] Instance version_le_total : Total version_le.
Proof. intros a b. unfold version_le. apply total, _. Qed.

Lemma All_sorted files : StronglySorted version_le (All files) /\ All files ≡ₚ sql_files files.
Proof. split; [by apply (StronglySorted_merge_sort version_le)|apply merge_sort_Permutation]. Qed.

(** A name with the suffix is the rest followed by the suffix. *)
Lemma HasPrefix_app p s : HasPrefix s p = true -> exists t, s = p +:+ t.
Proof.
  unfold HasPrefix. revert s. induction p as [|c p IH]; intros s; [by exists s|]. destruct s as [|c' s]; [done|]. cbn.
  destruct (Ascii.ascii_dec c c') as [<-|]; [|done]. intros [t ->]%IH. by exists t.
Qed.

Lemma str_take_app a b : str_take (String.length a) (a +:+ b) = a.
Proof.
  unfold str_take. induction a as [|c a IH]; [by destruct b|].
  change (String c (String.substring 0 (String.length a) (a +:+ b)) = String c a). by rewrite IH.
Qed.

Lemma TrimSuffix_app s suffix : HasSuffix s suffix = true -> s = TrimSuffix s suffix +:+ suffix.
Proof.
  intros H. unfold TrimSuffix. rewrite H. apply HasPrefix_app in H as [t Ht].
  assert (s = String.rev t +:+ suffix) as ->.
  { apply list_ascii_inj. rewrite chars_app, chars_rev. apply (f_equal chars) in Ht.
    rewrite chars_app, !chars_rev in Ht. rewrite <- (reverse_involutive (chars s)), Ht, reverse_app, reverse_involutive. done. }
  replace (String.length (String.rev t +:+ suffix) - String.length suffix)%nat with (String.length (String.rev t)).
  - by rewrite str_take_app.
  - rewrite !String_length_chars, chars_app, length_app. lia.
Qed.

(** Files of one directory have different names, so no two migrations share a
    version. *)
Lemma versions_distinct files : NoDup files.*1 -> NoDup (Version <$> All files).
Proof.
  intros Hnd. destruct (All_sorted files) as [_ ->]. unfold sql_files.
  induction files as [|[name [content|]] files IH]; [constructor| |]; apply NoDup_cons in Hnd as [Hn Hnd]; cbn [omap list_omap snd fst];
    [|by apply IH]. destruct (HasSuffix name ".sql") eqn:Hs; [|by apply IH].
  rewrite fmap_cons. apply NoDup_cons. split; [|by apply IH]. intros Hin. apply Hn. cbn [Version] in Hin.
  apply list_elem_of_fmap in Hin as (m & Hv & Hm). apply list_elem_of_omap in Hm as ([name' [c'|]] & Hf & Hm); [|done]. cbn [fst snd] in Hm.
  destruct (HasSuffix name' ".sql") eqn:Hs'; [|done]. injection Hm as <-. cbn [Version] in Hv.
  apply list_elem_of_fmap. exists (name', Some c'). split; [|done]. cbn [fst].
  by rewrite (TrimSuffix_app name ".sql" Hs), Hv, <- (TrimSuffix_app name' ".sql" Hs').
Qed.

Lemma first_version_head ms m : NoDup (Version <$> ms) -> m ∈ ms -> Version m = first_version ms -> head ms = Some m.
Proof.
  destruct ms as [|m0 ms]; intros Hnd Hm Hv; [by apply not_elem_of_nil in Hm|]. cbn in *. f_equal.
  apply elem_of_cons in Hm as [->|Hm]; [done|]. apply NoDup_cons in Hnd as [Hn _]. exfalso. apply Hn.
  unfold first_version in Hv. cbn in Hv. rewrite <- Hv. by apply list_elem_of_fmap_2.
Qed.

(** A store that is opened on a migrated database changes nothing. *)
Lemma Open_again {DB Tx : Type} `{!Database DB Tx} `{!DatabaseLaws DB Tx} files dsn (d : DB) r d' :
  NoDup files.*1 -> first_repeatable (DB := DB) (All files) -> recorded (All files) (tables d) ->
  Open (All files) dsn d = (r, d') -> tables d' = tables d.
Proof.
  intros Hnd Hf Hrec E. apply Open_spec in E as (k & -> & _).
  assert (forall m, m ∈ take k (All files) -> m ∈ All files) as Hin.
  { intros m Hm. rewrite <- (take_drop k (All files)). apply elem_of_app. by left. }
  apply (migrated_again (All files)); [done|intros m Hm; by apply Hrec, Hin|].
  intros m Hm. apply first_version_head; [by apply versions_distinct|by apply Hin].
Qed.
