(* ===== verification/StatsFacts.v ===== *)
(** * Listings and statistics

    The order and the pages of a listing; what the statistics of a store say, in
    one definition; the counting loops of
    the in-memory store and the queries of the Postgres store both compute it. *)

From S2P Require Export MemoryStore PostgresFacts.

(** ** Orders *)

(** By a time, then by a name: a total order. *)
Section ByTime.
Context {A : Type} (time : A -> Z) (name : A -> string) (R : relation A).
Context (HR : forall a b, R a b <-> time a < time b \/ time a = time b /\ String.le (name a) (name b)).

Lemma by_time_trans : Transitive R.
Proof.
  intros a b c. rewrite !HR. intros [H1|[E1 H1]] [H2|[E2 H2]]; [left; lia..|].
  right. split; [lia|]. by trans (name b).
Qed.
Lemma by_time_total : Total R.
Proof.
  intros a b. rewrite !HR. destruct (Z.lt_total (time a) (time b)) as [|[Heq|]]; [auto| |auto].
  rewrite Heq. destruct (total String.le (name a) (name b)); auto.
Qed.
End ByTime.

#[export] Instance break_le_trans : Transitive break_le.
Proof. by apply (by_time_trans b_OpenedAt b_ID). Qed.
#[export] Instance break_le_total : Total break_le.
Proof. by apply (by_time_total b_OpenedAt b_ID). Qed.

(** ** Pages *)

(** What is left of [out] after the offset and the limit, zero and negative
    values selecting everything. *)
Lemma page_of_take offset limit out :
  page_of offset limit out =
  (if 0 <? limit then take (Z.to_nat limit) else id) (drop (Z.to_nat offset) out).
Proof.
  unfold page_of. destruct (Z.ltb_spec 0 offset) as [Ho|Ho]; cbn [andb].
  - destruct (Z.leb_spec (Z.of_nat (length out)) offset) as [Hl|Hl].
    + rewrite drop_ge by lia. destruct (0 <? limit); [by rewrite take_nil|done].
    + destruct (Z.ltb_spec 0 limit); cbn [andb]; [|done].
      destruct (Z.ltb_spec limit (Z.of_nat (length (drop (Z.to_nat offset) out)))); [done|].
      by rewrite take_ge by lia.
  - replace (Z.to_nat offset) with 0%nat by lia. rewrite drop_0.
    destruct (Z.ltb_spec 0 limit); cbn [andb]; [|done].
    destruct (Z.ltb_spec limit (Z.of_nat (length out))); [done|]. by rewrite take_ge by lia.
Qed.

(** ** What is counted *)

Definition with_status (s : LegStatus) (ls : list Leg) : list Leg := filter (fun l => Status l = s) ls.
Definition open_breaks (bs : list Break) : list Break := filter (fun b => b_Status b = BreakOpen) bs.
Definition count {A} (l : list A) : Z := Z.of_nat (length l).

(** How often each key occurs. *)
Definition occurrences (ks : list string) : gmap string Z := foldl incr ∅ ks.

(** The share of decided legs that matched. *)
Definition match_rate (matched broken : Z) : float64 :=
  if 0 <? matched + broken then fdiv (of_int matched) (of_int (matched + broken)) else 0%Q.

(** The statistics of a store with these legs, matches and breaks and [n] events. *)
Definition statistics (ls : list Leg) (ms : list Match) (bs : list Break) (n : Z) : Stats :=
  let matched := count (with_status LegMatched ls) in
  let broken := count (with_status LegBroken ls) in
  let open := open_breaks bs in
  mkStats (count ls) (count (with_status LegOpen ls)) matched broken
    (count ms) (occurrences ((fun m => tierName (m_Tier m)) <$> ms)) (occurrences (m_RuleID <$> ms))
    (count open) (count bs - count open) (occurrences (b_Category <$> open)) n
    (match_rate matched broken) (occurrences (Source <$> ls)) (min_time (b_OpenedAt <$> open)).

Lemma match_rate_range m b : 0 <= m -> 0 <= b -> (0 <= match_rate m b <= 1)%Q.
Proof.
  intros Hm Hb. unfold match_rate. destruct (Z.ltb_spec 0 (m + b)) as [Hpos|]; [|split; by apply Qle_bool_iff].
  assert (0 <= of_int m)%Q by (by apply of_int_nonneg).
  assert (of_int m <= of_int (m + b))%Q by (apply of_int_mono; lia).
  assert (0 < of_int (m + b))%Q as H1.
  { eapply Qlt_le_trans; [|apply (of_int_mono 1); lia]. by vm_compute. }
  split.
  - apply rnd_nonneg. apply Qle_shift_div_l; [done|]. lra.
  - change (fdiv (of_int m) (of_int (m + b)) <= of_int 1)%Q. apply rnd_mono. change (inject_Z 1) with 1%Q.
    apply Qle_shift_div_r; [done|]. lra.
Qed.

(** ** Counting *)

Lemma count_cons {A} (P : A -> Prop) `{!forall x, Decision (P x)} x l :
  count (filter P (x :: l)) = (if bool_decide (P x) then 1 else 0) + count (filter P l).
Proof. unfold count. rewrite filter_cons. case_bool_decide; destruct (decide (P x)); try done; cbn [length]; lia. Qed.

Lemma occurrences_lookup_from ks (m : gmap string Z) k : foldl incr m ks !! k =
  if decide (k ∈ ks) then Some (default 0 (m !! k) + count (filter (k =.) ks)) else m !! k.
Proof.
  revert m. induction ks as [|x ks IH]; intros m; [done|]. cbn [foldl]. rewrite IH, count_cons. unfold incr.
  destruct (decide (k = x)) as [->|Hne].
  - rewrite lookup_insert_eq, bool_decide_eq_true_2 by done. rewrite (decide_True (P := x ∈ x :: ks)) by left.
    destruct (decide (x ∈ ks)) as [|Hn]; cbn [default]; unfold id; [f_equal; lia|].
    rewrite filter_none by (by intros y <-). done.
  - rewrite lookup_insert_ne, bool_decide_eq_false_2 by done.
    destruct (decide (k ∈ ks)), (decide (k ∈ x :: ks)) as [Hc|Hc]; try done.
    + by destruct Hc; right.
    + by apply elem_of_cons in Hc as [|].
Qed.

Lemma occurrences_lookup ks k : occurrences ks !! k = if decide (k ∈ ks) then Some (count (filter (k =.) ks)) else None.
Proof. unfold occurrences. rewrite occurrences_lookup_from, lookup_empty. by destruct (decide (k ∈ ks)). Qed.

(** The sum of the values of the occurrences is the number of keys. *)
Lemma foldl_add_acc l n : foldl Z.add n l = n + foldr Z.add 0 l.
Proof. revert n. induction l as [|x l IH]; intros n; cbn; [lia|]. rewrite IH. lia. Qed.
Lemma foldr_add_perm l l' : l ≡ₚ l' -> foldr Z.add 0 l = foldr Z.add 0 l'.
Proof. induction 1; cbn; lia. Qed.

Lemma sum_values_insert (m : gmap string Z) k n : sum_values (<[k := n]> m) = sum_values m - default 0 (m !! k) + n.
Proof.
  unfold sum_values. rewrite !foldl_add_acc. 
  assert (forall (m : gmap string Z) k x, m !! k = None ->
    foldr Z.add 0 (map_to_list (<[k := x]> m)).*2 = x + foldr Z.add 0 (map_to_list m).*2) as Hins.
  { intros m' k' x Hn. rewrite (foldr_add_perm _ (((k', x) :: map_to_list m').*2)); [done|].
    by rewrite map_to_list_insert. }
  destruct (m !! k) as [x|] eqn:E; cbn [default]; [|rewrite Hins by done; lia].
  rewrite <- (insert_id m k x E) at 2. rewrite <- (insert_delete_eq m k n), <- (insert_delete_eq m k x).
  rewrite !Hins by apply lookup_delete_eq. unfold id. lia.
Qed.

Lemma sum_values_occurrences ks : sum_values (occurrences ks) = count ks.
Proof.
  assert (forall m, sum_values (foldl incr m ks) = sum_values m + count ks) as H.
  { induction ks as [|k ks IH]; intros m; cbn [foldl]; [unfold count; cbn; lia|].
    rewrite IH. unfold incr. rewrite sum_values_insert. unfold count. cbn [length]. lia. }
  unfold occurrences. rewrite H. done.
Qed.

(** ** The loops of the in-memory store *)

Lemma stats_legs_fold ls lt lo lm lb mt mbt mbr bo br bbc et rate lbs old :
  foldl stats_leg (mkStats lt lo lm lb mt mbt mbr bo br bbc et rate lbs old) ls =
  mkStats (lt + count ls) (lo + count (with_status LegOpen ls)) (lm + count (with_status LegMatched ls))
    (lb + count (with_status LegBroken ls)) mt mbt mbr bo br bbc et rate (foldl incr lbs (Source <$> ls)) old.
Proof.
  revert lt lo lm lb lbs. induction ls as [|l ls IH]; intros lt lo lm lb lbs.
  { cbn. f_equal; unfold count; cbn; lia. }
  cbn [foldl stats_leg]. rewrite IH. unfold with_status. rewrite !count_cons. cbn [fmap list_fmap foldl].
  f_equal; try (case_bool_decide; lia). unfold count. cbn [length]. lia.
Qed.

Lemma stats_matches_fold ms lt lo lm lb mt mbt mbr bo br bbc et rate lbs old :
  foldl stats_match (mkStats lt lo lm lb mt mbt mbr bo br bbc et rate lbs old) ms =
  mkStats lt lo lm lb (mt + count ms) (foldl incr mbt ((fun m => tierName (m_Tier m)) <$> ms))
    (foldl incr mbr (m_RuleID <$> ms)) bo br bbc et rate lbs old.
Proof.
  revert mt mbt mbr. induction ms as [|m ms IH]; intros mt mbt mbr; [cbn; f_equal; unfold count; cbn; lia|].
  cbn [foldl stats_match]. rewrite IH. cbn [fmap list_fmap foldl]. f_equal. unfold count. cbn [length]. lia.
Qed.

(** The earlier of two times. *)
Definition earlier (old : option Time) (ts : list Time) : option Time :=
  match old with None => min_time ts | Some t => Some (foldl Z.min t ts) end.

Lemma stats_breaks_fold bs lt lo lm lb mt mbt mbr bo br bbc et rate lbs old :
  foldl stats_break (mkStats lt lo lm lb mt mbt mbr bo br bbc et rate lbs old) bs =
  mkStats lt lo lm lb mt mbt mbr (bo + count (open_breaks bs)) (br + (count bs - count (open_breaks bs)))
    (foldl incr bbc (b_Category <$> open_breaks bs)) et rate lbs (earlier old (b_OpenedAt <$> open_breaks bs)).
Proof.
  revert bo br bbc old. induction bs as [|b bs IH]; intros bo br bbc old.
  { cbn. destruct old; f_equal; unfold count; cbn; lia. }
  cbn [foldl stats_break]. assert (count (b :: bs) = 1 + count bs) as Hc by (unfold count; cbn [length]; lia).
  rewrite Hc. unfold open_breaks. rewrite count_cons, filter_cons. fold (open_breaks bs). 
  case_bool_decide as Hb; destruct (decide (b_Status b = BreakOpen)); try done; rewrite IH; [|f_equal; lia].
  f_equal; [lia|lia|]. cbn [fmap list_fmap]. unfold earlier, Before. destruct old as [t|]; [|done]. cbn [foldl].
  destruct (Z.ltb_spec (b_OpenedAt b) t); do 2 f_equal; lia.
Qed.

Lemma mem_Stats_spec s : mem_Stats s =
  (Ok (statistics (values (legs s)) (map_to_list (matches s)).*2 (map_to_list (breaks s)).*2 (count (events s))), s).
Proof.
  unfold mem_Stats, zero_stats. rewrite stats_legs_fold, stats_matches_fold, stats_breaks_fold.
  unfold stats_close, statistics, occurrences, earlier, match_rate. by rewrite !Z.add_0_l.
Qed.

(** ** The queries of the Postgres store *)

Lemma count_if_leg s (m : gmap string LegRow) : count_if (is_status s) (rows_of m) = count (with_status s (values (row_leg <$> m))).
Proof.
  unfold count_if, with_status, count. rewrite values_fmap, filter_fmap, length_fmap. do 2 f_equal.
  apply filter_ext_in. intros r _. unfold is_status. by rewrite bool_decide_eq_true.
Qed.

Lemma open_break_rows (m : gmap string BreakRow) :
  open_breaks (map_to_list (row_break <$> m)).*2 = row_break <$> filter (fun r => is_break_status "open" r = true) (rows_of m).
Proof.
  unfold open_breaks. rewrite rows_of_fmap, filter_fmap. f_equal. apply filter_ext_in.
  intros r _. unfold is_break_status. by rewrite bool_decide_eq_true.
Qed.

Lemma grouped_occurrences ks gs : grouped ks gs -> foldl (fun m kn => <[kn.1 := kn.2]> m) ∅ gs = occurrences ks.
Proof.
  intros [Hnd Hg]. apply map_eq. intros k. rewrite occurrences_lookup.
  assert (forall m : gmap string Z, foldl (fun m kn => <[kn.1 := kn.2]> m) m gs !! k =
    match (list_to_map gs : gmap string Z) !! k with Some n => Some n | None => m !! k end) as ->.
  { clear Hg. induction gs as [|[x n] gs IH]; intros m; [done|]. apply NoDup_cons in Hnd as [Hx Hnd].
    cbn [foldl list_to_map foldr fst snd uncurry]. rewrite IH by done. cbn. destruct (decide (k = x)) as [->|Hne].
    - rewrite !lookup_insert_eq. by rewrite (not_elem_of_list_to_map_1 gs x Hx).
    - by rewrite !lookup_insert_ne. }
  rewrite lookup_empty. destruct ((list_to_map gs : gmap string Z) !! k) as [n|] eqn:E.
  - apply elem_of_list_to_map in E; [|done]. apply Hg in E as [Hk ->]. by rewrite decide_True.
  - rewrite decide_False; [done|]. intros Hk. apply not_elem_of_list_to_map in E. apply E.
    apply list_elem_of_fmap. eexists (k, _). split; [done|]. by apply Hg.
Qed.

Section Postgres.
Context {DB Tx : Type} `{!Database DB Tx} `{!DatabaseLaws DB Tx}.

Lemma groupCount_spec s ks d m d' : select_ok s ->
  (forall now rows, selects collate now (tables d) s [] rows -> exists gs, rows = count_values <$> gs /\ grouped ks gs) ->
  groupCount (select_sql s) ∅ d = (Ok m, d') -> m = occurrences ks /\ tables d' = tables d.
Proof.
  intros Hs Hsel E. apply mbind_Ok in E as (kns & d1 & E & [= <- <-]).
  destruct (query_all_spec scan_count s [] d _ d1 Hs E) as [Ht Ha]. split; [|done].
  destruct (Ha kns eq_refl) as (rows & (gs & -> & Hg)%Hsel & Hscan).
  rewrite (scan_rows_all scan_count count_values id) in Hscan by (by intros [k n]). injection Hscan as <-.
  rewrite list_fmap_id. by apply grouped_occurrences.
Qed.

(** The only row of an aggregate. *)
Lemma aggregate_spec {A} (scan : Row -> result A) s row d a d' : select_ok s ->
  (forall now rows, selects collate now (tables d) s [] rows -> rows = [row]) ->
  query_row scan no_rows (select_sql s) [] d = (Ok a, d') -> scan row = Ok a /\ tables d' = tables d.
Proof.
  intros Hs Hsel E. destruct (query_row_spec scan no_rows s [] d _ d' Hs E) as [Ht [(rows & Hr & Ha)|(e & [=] & _)]].
  split; [|done]. rewrite (Hsel _ _ Hr) in Ha. by symmetry.
Qed.

Lemma tierName_text t : TierExact <= t <= TierManyToOne -> tier_text t = tierName t.
Proof.
  unfold TierExact, TierManyToOne. intros Ht. assert (t = 1 \/ t = 2 \/ t = 3) as [->|[->| ->]] by lia; done.
Qed.

Lemma tier_texts t : tables_ok jsonb t ->
  (fun r => tier_text (mr_tier r)) <$> rows_of (t_matches t) =
  (fun m => tierName (m_Tier m)) <$> (map_to_list (row_match <$> t_matches t)).*2.
Proof.
  intros Hok. rewrite rows_of_fmap, <- list_fmap_compose. apply list_fmap_ext. intros i r Hr. cbn.
  apply tierName_text. apply list_elem_of_lookup_2 in Hr. unfold rows_of in Hr.
  apply list_elem_of_fmap in Hr as ([id r'] & -> & Hin%elem_of_map_to_list). by apply (to_matches _ _ Hok _ _ Hin).
Qed.

Lemma resolved_rows (m : gmap string BreakRow) :
  (forall b, b ∈ (map_to_list (row_break <$> m)).*2 -> b_Status b = BreakOpen \/ b_Status b = BreakResolved) ->
  count_if (is_break_status "resolved") (rows_of m) =
  count (map_to_list (row_break <$> m)).*2 - count (open_breaks (map_to_list (row_break <$> m)).*2).
Proof.
  rewrite open_break_rows, rows_of_fmap. unfold count, count_if. rewrite !length_fmap. generalize (rows_of m). intros rs Hst.
  induction rs as [|r rs IH]; [done|]. 
  assert (b_Status (row_break r) = BreakOpen \/ b_Status (row_break r) = BreakResolved) as Hr by (apply Hst; by left).
  specialize (IH (fun b Hb => Hst b (list_elem_of_further _ _ _ Hb))).
  rewrite !filter_cons. cbn in Hr. unfold is_break_status, BreakOpen, BreakResolved in *.
  destruct Hr as [-> | ->]; cbn [length]; repeat case_decide; try done; cbn [length]; lia.
Qed.

Lemma pg_Stats_spec d st d' : pg_ok d ->
  (forall b, b ∈ (map_to_list (v_breaks (pg_view d))).*2 -> b_Status b = BreakOpen \/ b_Status b = BreakResolved) ->
  pg_Stats d = (Ok st, d') ->
  st = statistics (values (v_legs (pg_view d))) (map_to_list (v_matches (pg_view d))).*2
         (map_to_list (v_breaks (pg_view d))).*2 (count (v_events (pg_view d))).
Proof.
  intros Hok Hst E. unfold pg_Stats in E. unfold pg_view in *. cbn [tables_view v_legs v_matches v_breaks v_events] in *.
  apply mbind_Ok in E as ([[[total open] matched] broken] & d1 & E1 & E).
  eapply (aggregate_spec _ CountLegs) in E1 as [Hs1 Ht1]; [|done|intros ?? Hr; by inversion Hr].
  injection Hs1 as <- <- <- <-.
  apply mbind_Ok in E as (bySource & d2 & E2 & E).
  eapply (groupCount_spec CountLegsBySource) in E2 as [Hs2 Ht2]; [|done|intros ?? Hr; inversion Hr; by eexists].
  apply mbind_Ok in E as (byTier & d3 & E3 & E).
  eapply (groupCount_spec CountMatchesByTier) in E3 as [Hs3 Ht3]; [|done|intros ?? Hr; inversion Hr; by eexists].
  apply mbind_Ok in E as (byRule & d4 & E4 & E).
  eapply (groupCount_spec CountMatchesByRule) in E4 as [Hs4 Ht4]; [|done|intros ?? Hr; inversion Hr; by eexists].
  apply mbind_Ok in E as (byCat & d5 & E5 & E).
  eapply (groupCount_spec CountBreaksByCategory) in E5 as [Hs5 Ht5]; [|done|intros ?? Hr; inversion Hr; by eexists].
  apply mbind_Ok in E as ([[bopen bresolved] oldest] & d6 & E6 & E).
  eapply (aggregate_spec _ CountBreaks) in E6 as [Hs6 Ht6]; [|done|intros ?? Hr; by inversion Hr].
  apply mbind_Ok in E as (n & d7 & E7 & E).
  eapply (aggregate_spec _ CountEvents) in E7 as [Hs7 Ht7]; [|done|intros ?? Hr; by inversion Hr].
  injection Hs7 as <-.
  injection E as <- <-.
  rewrite Ht1 in *. rewrite Ht2 in *. rewrite Ht3 in *. rewrite Ht4 in *. rewrite Ht5 in *. rewrite Ht6 in *.
  cbn [scan_break_counts] in Hs6.
  assert (scan_opt_time (nullable_time (min_time (br_opened_at <$>
    filter (fun r => is_break_status "open" r = true) (rows_of (t_breaks (tables d)))))) =
    Ok (min_time (br_opened_at <$> filter (fun r => is_break_status "open" r = true) (rows_of (t_breaks (tables d))))))
    as Hopt by (by destruct (min_time _)).
  rewrite Hopt in Hs6. injection Hs6 as <- <- <-. subst.
  unfold statistics, match_rate. rewrite !count_if_leg, sum_values_occurrences, tier_texts, resolved_rows, !open_break_rows by done.
  rewrite values_fmap, !rows_of_fmap, <- !list_fmap_compose.
  unfold count, count_if. rewrite !length_fmap. done.
Qed.
End Postgres.
