(* ===== verification/Engine.v ===== *)
(** * The engine

    internal/domain/recon/engine.go. Every method is a computation over a
    [World]: the store, and the engine's own mutable fields. The mutex makes the
    exported methods atomic with respect to each other, so a run of the engine
    is a sequence of them. *)

From S2P Require Export Repository.

Local Open Scope recon_scope.

(** ** Data *)

Abbreviation Outcome := string (only parsing).
Definition OutcomeDuplicate : Outcome := "duplicate".
Definition OutcomeMatched : Outcome := "matched".
Definition OutcomeBreak : Outcome := "break".
Definition OutcomeOpen : Outcome := "open".
Definition OutcomeResolvedBreak : Outcome := "resolved_break".

Record IngestResult : Type := mkIngestResult {
  ir_LegID : string;
  ir_Outcome : Outcome;
  ir_MatchID : string;
  ir_BreakID : string;
  ir_RuleID : string
}.

Record BatchResult : Type := mkBatchResult {
  br_Accepted : Z;
  br_Duplicates : Z;
  br_Matched : Z;
  br_Breaks : Z;
  br_Open : Z;
  br_Results : list IngestResult
}.

Definition zero_batch : BatchResult := mkBatchResult 0 0 0 0 0 [].

Record ReplayResult : Type := mkReplayResult {
  rr_FromSeq : Z;
  rr_ThroughSeq : Z;
  rr_EventsRead : Z;
  rr_LegsReplayed : Z;
  rr_Matched : Z;
  rr_Breaks : Z;
  rr_Open : Z
}.

Definition zero_break : Break := mkBreak "" [] "" "" "" 0%Q "" "" "" 0 None "" "" 0.

(** The callbacks that are set, and what they were called with. *)
Record Hooks : Type := mkHooks { OnLeg : bool; OnMatch : bool; OnBreak : bool; OnOpen : bool }.
Inductive hook_call : Type :=
  | HookLeg (l : Leg) (o : Outcome)
  | HookMatch (m : Match)
  | HookBreak (b : Break)
  | HookOpen (openLegs : nat).

(** What does not change while an engine runs: its rules and callbacks, the
    clock (its value at each reading) and the caller's context (whether each
    poll of [ctx.Err] finds it cancelled). *)
Record Config : Type := mkConfig {
  rules : Rules;
  hooks : Hooks;
  clock : nat -> Time;
  ctx_Err : nat -> option error
}.

Record World (S : Type) : Type := mkWorld {
  store : S;
  ix : Index;
  replaying : bool;
  ticks : nat;
  polls : nat;
  trace : list hook_call
}.
Arguments mkWorld {S} _ _ _ _ _ _.
Arguments store {S} _.
Arguments ix {S} _.
Arguments replaying {S} _.
Arguments ticks {S} _.
Arguments polls {S} _.
Arguments trace {S} _.

Section Engine.
Context `{Sha256} `{BreakClassifier} {S : Type} `{Repository S} (cfg : Config).

Abbreviation W := (World S).

(** ** Primitive steps *)

(** A call of the repository. *)
Definition repo {A} (m : M S A) : M W A := fun w =>
  let '(r, s') := m (store w) in
  (r, mkWorld s' (ix w) (replaying w) (ticks w) (polls w) (trace w)).

Definition lift {A} (r : result A) : M W A := fun w => (r, w).

(** [e.clock().UTC()] *)
Definition now : M W Time := fun w =>
  (Ok (clock cfg (ticks w)),
   mkWorld (store w) (ix w) (replaying w) (1 + ticks w)%nat (polls w) (trace w)).

(** [ctx.Err()] *)
Definition poll : M W (option error) := fun w =>
  (Ok (ctx_Err cfg (polls w)),
   mkWorld (store w) (ix w) (replaying w) (ticks w) (1 + polls w)%nat (trace w)).

Definition set_ix (i : Index) : M W unit :=
  mmodify (fun w => mkWorld (store w) i (replaying w) (ticks w) (polls w) (trace w)).
Definition set_replaying (b : bool) : M W unit :=
  mmodify (fun w => mkWorld (store w) (ix w) b (ticks w) (polls w) (trace w)).

Definition call (set : bool) (h : hook_call) : M W unit :=
  mmodify (fun w => mkWorld (store w) (ix w) (replaying w) (ticks w) (polls w)
                      (if set then trace w ++ [h] else trace w)).

Definition fire (l : Leg) (o : Outcome) : M W unit := call (OnLeg (hooks cfg)) (HookLeg l o).
Definition fire_match (m : Match) : M W unit := call (OnMatch (hooks cfg)) (HookMatch m).
Definition fire_break (b : Break) : M W unit := call (OnBreak (hooks cfg)) (HookBreak b).
Definition notifyOpen : M W unit :=
  let! w := mget in call (OnOpen (hooks cfg)) (HookOpen (Len (ix w))).

(** ** Opening breaks *)

Definition openBreak (cs : ChangeSet) (now : Time) (trigger : string) (related legs : list Leg)
    : result (ChangeSet * Break) :=
  let c := Classify (mkClassifyInput legs related trigger (rules cfg)) in
  let ids := ID <$> legs in
  let first := default zero_leg (head legs) in
  let b := mkBreak (DeriveID "brk" ids) ids (Currency first) (Counterparty first)
             (c_Category c) (c_Confidence c) (c_ClassifierID c) trigger BreakOpen now None
             (c_Evidence c) "" 0 in
  let cs := add_legs ((fun l => set_state LegBroken (MatchID l) (b_ID b) l) <$> legs) cs in
  let cs := add_break b cs in
  res_bind (addEvent EvBreakOpened now (b_ID b) (marshal_break b) cs) (fun cs => Ok (cs, b)).

Definition commit (cs : ChangeSet) (l : Leg) (r : IngestResult) : M W IngestResult :=
  repo (Apply cs) ;;!
  fire l (ir_Outcome r) ;;!
  match last (cs_Breaks cs) with
  | Some b => fire_break b ;;! mret r
  | None => mret r
  end.

(** ** Ingesting one leg *)

(** [exists]: fail closed. *)
Definition exists_ref : refExists S := fun txnRef source s =>
  match LegsByTxnRef txnRef s with
  | (Ok ls, s') => (Ok (existsb (fun x => bool_decide (Source x = source)) ls), s')
  | (Err _, s') => (Ok true, s')
  end.

Definition ingest_duplicate (now : Time) (l : Leg) : M W IngestResult :=
  let! w := mget in
  (if replaying w then mret tt
   else let! cs := lift (addEvent EvLegDuplicate now (ID l) (marshal_leg l) empty_cs) in
        repo (Apply cs)) ;;!
  fire l OutcomeDuplicate ;;!
  mret (mkIngestResult (ID l) OutcomeDuplicate "" "" "").

(** A definite break of [l] alone. *)
Definition ingest_break (cs : ChangeSet) (now : Time) (trigger : string) (related : list Leg)
    (l : Leg) : M W IngestResult :=
  let! cb := lift (openBreak cs now trigger related [l]) in
  commit cb.1 l (mkIngestResult (ID l) OutcomeBreak "" (b_ID cb.2) "").

Definition ingest_match (cs : ChangeSet) (now : Time) (m : Match) (l : Leg) : M W IngestResult :=
  let! w := mget in
  let m := set_MatchedAt now m in
  let matched x := set_state LegMatched (m_ID m) (BreakID x) x in
  let others := filter (fun id => id <> ID l) (m_LegIDs m) in
  let cs := add_legs [matched l] cs in
  let cs := add_legs ((fun id => matched (default zero_leg (ix_Get (ix w) id))) <$> others) cs in
  let cs := add_match m cs in
  let! cs := lift (addEvent EvMatchCreated now (m_ID m) (marshal_match m) cs) in
  repo (Apply cs) ;;!
  set_ix (ix_Remove (ix w) (m_LegIDs m)) ;;!
  fire (matched l) OutcomeMatched ;;!
  fire_match m ;;!
  mret (mkIngestResult (ID l) OutcomeMatched (m_ID m) "" (m_RuleID m)).

Definition ingest_conflict (cs : ChangeSet) (now : Time) (related partners : list Leg) (l : Leg)
    : M W IngestResult :=
  let! w := mget in
  let! cb := lift (openBreak cs now TriggerRefConflict related (l :: partners)) in
  repo (Apply cb.1) ;;!
  set_ix (foldl (fun i p => ix_Remove i [ID p]) (ix w) partners) ;;!
  fire l OutcomeBreak ;;!
  fire_break cb.2 ;;!
  mret (mkIngestResult (ID l) OutcomeBreak "" (b_ID cb.2) "").

(** [l] completes the single-leg break [b] of [r]. *)
Definition heal (cs : ChangeSet) (now : Time) (l r : Leg) (b : Break) : M W IngestResult :=
  let conf := fsub (tolerantConfidence (sub64 (AmountMinor r) (AmountMinor l))
                                       (Tolerance (rules cfg) (AmountMinor l)))
                   (fconst (5 # 100)) in
  let m := set_MatchedAt now (pair l r TierTolerant RuleT2Late conf) in
  let l' := set_state LegMatched (m_ID m) (BreakID l) l in
  let r' := set_state LegMatched (m_ID m) "" r in
  let b' := resolve now ("late arrival matched by " +:+ RuleT2Late) "system" b in
  let cs := add_break b' (add_match m (add_legs [l'; r'] cs)) in
  let! cs := lift (addEvent EvMatchCreated now (m_ID m) (marshal_match m) cs) in
  let! cs := lift (addEvent EvBreakResolved now (b_ID b')
                     (marshal_resolution (mkResolutionPayload (b_ID b') (b_Reason b') (b_Actor b') now (m_ID m)))
                     cs) in
  repo (Apply cs) ;;!
  fire l' OutcomeResolvedBreak ;;!
  fire_match m ;;!
  mret (mkIngestResult (ID l) OutcomeResolvedBreak (m_ID m) (b_ID b') (m_RuleID m)).

Definition late_candidate (l r : Leg) : bool :=
  negb (bool_decide (Source r = Source l) || negb (bool_decide (Status r = LegBroken)) ||
        bool_decide (BreakID r = "")) &&
  negb (negb (WithinTolerance (rules cfg) (AmountMinor l) (AmountMinor r)) ||
        negb (bool_decide (Currency r = Currency l))).

(** The loop of step 4: the first related leg whose break can be healed. *)
Fixpoint ingest_late (cs : ChangeSet) (now : Time) (related : list Leg) (l : Leg)
    : M W (option IngestResult) :=
  match related with
  | [] => mret None
  | r :: related' =>
      if late_candidate l r then
        let! rb := mtry (repo (GetBreak (BreakID r))) in
        match rb with
        | Ok b =>
            if negb (bool_decide (b_Status b = BreakOpen)) ||
               negb (bool_decide (length (b_LegIDs b) = 1%nat))
            then ingest_late cs now related' l
            else let! res := heal cs now l r b in mret (Some res)
        | Err _ => ingest_late cs now related' l
        end
      else ingest_late cs now related' l
  end.

Definition ingest_open (cs : ChangeSet) (l : Leg) : M W IngestResult :=
  let! w := mget in
  let l := set_state LegOpen (MatchID l) (BreakID l) l in
  repo (Apply (add_legs [l] cs)) ;;!
  set_ix (ix_Add (ix w) l) ;;!
  fire l OutcomeOpen ;;!
  mret (mkIngestResult (ID l) OutcomeOpen "" "" "").

(** Steps 1 to 6 for a leg that was not seen before. *)
Definition ingest_new (cs : ChangeSet) (now : Time) (related : list Leg) (l : Leg) : M W IngestResult :=
  if existsb (fun r => bool_decide (Source r = Source l) && bool_decide (ID r <> ID l)) related
  then ingest_break cs now TriggerDuplicate related l
  else
    let! w := mget in
    let! found := repo (find (rules cfg) l (ix w) (Some exists_ref)) in
    match found with
    | Some m => ingest_match cs now m l
    | None =>
        match ByRef (ix w) l with
        | (_ :: _) as partners => ingest_conflict cs now related partners l
        | [] =>
            let! healed := ingest_late cs now related l in
            match healed with
            | Some res => mret res
            | None =>
                if existsb (fun r => bool_decide (Source r <> Source l)) related
                then ingest_break cs now TriggerRefConflict related l
                else ingest_open cs l
            end
        end
    end.

Definition ingestOne (l : Leg) : M W IngestResult :=
  let! t := now in
  let l := if IsZero (IngestedAt l) then set_IngestedAt t l else l in
  let! seen := mwrap "dedupe lookup: " (repo (HasLeg (ID l))) in
  if seen then ingest_duplicate t l
  else
    let! related := mwrap "related lookup: " (repo (LegsByTxnRef (TxnRef l))) in
    let! w := mget in
    let! cs := if replaying w then mret empty_cs
               else lift (addEvent EvLegIngested t (ID l) (marshal_leg l) empty_cs) in
    ingest_new cs t related l.

(** ** Ingesting a batch *)

(** The first loop of [Ingest]: the caller's slice as it leaves it, and the
    error of the first invalid leg. *)
Fixpoint validate_batch (i : Z) (legs : list Leg) : list Leg * option error :=
  match legs with
  | [] => ([], None)
  | l :: legs' =>
      match Validate l with
      | (l', Err e) =>
          (l' :: legs',
           Some (ErrWrap ("leg[" +:+ FormatInt i +:+ "] " +:+ Source l' +:+ "/" +:+ TxnRef l' +:+ ": ") e ""))
      | (l', Ok _) =>
          let '(ls, err) := validate_batch (i + 1) legs' in (AssignID l' :: ls, err)
      end
  end.

Definition tally (r : IngestResult) (b : BatchResult) : BatchResult :=
  let o := ir_Outcome r in
  mkBatchResult (br_Accepted b + 1)
    (if bool_decide (o = OutcomeDuplicate) then br_Duplicates b + 1 else br_Duplicates b)
    (if bool_decide (o = OutcomeMatched) || bool_decide (o = OutcomeResolvedBreak)
     then br_Matched b + 1 else br_Matched b)
    (if bool_decide (o = OutcomeBreak) then br_Breaks b + 1 else br_Breaks b)
    (if bool_decide (o = OutcomeOpen) then br_Open b + 1 else br_Open b)
    (br_Results b ++ [r]).

Fixpoint ingest_loop (legs : list Leg) (res : BatchResult) : M W (BatchResult * option error) :=
  match legs with
  | [] => notifyOpen ;;! mret (res, None)
  | l :: legs' =>
      let! cancelled := poll in
      match cancelled with
      | Some e => mret (res, Some e)
      | None =>
          let! r := mtry (ingestOne l) in
          match r with
          | Err e => mret (res, Some (ErrWrap ("ingest " +:+ ID l +:+ ": ") e ""))
          | Ok r => ingest_loop legs' (tally r res)
          end
      end
  end.

Definition Ingest (legs : list Leg) : M W (BatchResult * option error) :=
  match validate_batch 0 legs with
  | (_, Some e) => mret (zero_batch, Some e)
  | (legs, None) => ingest_loop legs zero_batch
  end.

(** ** Construction and restart *)

(** [NewEngine]; a nil repository or classifier cannot be written here. *)
Definition NewEngine (s : S) (ttl : Duration) : result W :=
  match Rules_Validate (rules cfg) with
  | Err e => Err (ErrWrap "rules: " e "")
  | Ok _ => if ttl <=? 0 then Err (ErrText "window ttl must be > 0")
            else Ok (mkWorld s (NewIndex ttl) false 0 0 [])
  end.

Definition Rebuild : M W unit :=
  let! legs := mwrap "load open legs: " (repo OpenLegs) in
  let! w := mget in
  set_ix (foldl ix_Add (NewIndex (ttl (ix w))) legs) ;;!
  notifyOpen.

(** ** Expiry *)

Definition expired_payload (id : string) (forced : bool) : json :=
  JObj [("forced", JBool forced); ("leg_id", jstr id)].
Definition closed_payload (count : Z) (olderThan : Duration) : json :=
  JObj [("expired", JInt count); ("older_than", jstr (Duration_String olderThan))].

(** The body of [expire]'s loop: whether the leg was expired. *)
Definition expire_one (now : Time) (forced : bool) (l : Leg) : M W bool :=
  let! w := mget in
  match ix_Get (ix w) (ID l) with
  | None => mret false
  | Some _ =>
      let! related := mwrap "related lookup: " (repo (LegsByTxnRef (TxnRef l))) in
      let! cs := lift (addEvent EvLegExpired now (ID l) (Ok (expired_payload (ID l) forced)) empty_cs) in
      let! cb := lift (openBreak cs now TriggerWindowExpired related [l]) in
      mwrap ("persist expiry of " +:+ ID l +:+ ": ") (repo (Apply cb.1)) ;;!
      let! w := mget in
      set_ix (ix_Remove (ix w) [ID l]) ;;!
      fire_break cb.2 ;;!
      mret true
  end.

(** The loop: the number of expired legs, and the error that stopped it. *)
Fixpoint expire_loop (now : Time) (forced : bool) (expired : list Leg) (count : Z)
    : M W (Z * option error) :=
  match expired with
  | [] => mret (count, None)
  | l :: expired' =>
      let! cancelled := poll in
      match cancelled with
      | Some e => mret (count, Some e)
      | None =>
          let! r := mtry (expire_one now forced l) in
          match r with
          | Err e => mret (count, Some e)
          | Ok b => expire_loop now forced expired' (if b then count + 1 else count)
          end
      end
  end.

Definition close_event (now : Time) (count : Z) (olderThan : Duration) : M W unit :=
  let! cs := lift (addEvent EvWindowClosed now "window" (Ok (closed_payload count olderThan)) empty_cs) in
  repo (Apply cs).

Definition expire (olderThan : Duration) (forced : bool) : M W (Z * option error) :=
  let! t := now in
  let! w := mget in
  match Expired (ix w) t olderThan with
  | [] => mret (0, None)
  | expired =>
      let! ce := expire_loop t forced expired 0 in
      match ce with
      | (count, Some e) => mret (count, Some e)
      | (count, None) =>
          let! r := mtry (if forced then close_event t count olderThan else mret tt) in
          match r with
          | Err e => mret (count, Some e)
          | Ok _ => notifyOpen ;;! mret (count, None)
          end
      end
  end.

Definition Sweep : M W (Z * option error) := expire (-1) false.
Definition CloseWindow (olderThan : Duration) : M W (Z * option error) :=
  expire (if olderThan <? 0 then 0 else olderThan) true.

(** ** Resolving a break *)

(** The result is the break and the error; the break is meaningful without an
    error and with [ErrBreakResolved]. *)
Definition ResolveBreak (id reason actor : string) : M W (Break * option error) :=
  if bool_decide (reason = "") || bool_decide (actor = "")
  then mret (zero_break, Some (ErrText "reason and actor are required"))
  else
    let! rb := mtry (repo (GetBreak id)) in
    match rb with
    | Err e => mret (zero_break, Some e)
    | Ok b =>
        if bool_decide (b_Status b = BreakResolved) then mret (b, Some (ErrSentinel ErrBreakResolved))
        else
          let! t := now in
          let b := resolve t reason actor b in
          let! r := mtry (
            let! cs := lift (addEvent EvBreakResolved t (b_ID b)
                               (marshal_resolution (mkResolutionPayload (b_ID b) reason actor t ""))
                               (add_break b empty_cs)) in
            repo (Apply cs)) in
          match r with
          | Err e => mret (zero_break, Some e)
          | Ok _ => mret (b, None)
          end
    end.

(** ** Replay *)

Definition reapplyResolution (ev : Event) : M W unit :=
  match dec_resolution (ev_Payload ev) with
  | Err e => mfail (ErrWrap "decode resolution: " e "")
  | Ok p =>
      if negb (bool_decide (rp_MatchID p = "")) || bool_decide (rp_BreakID p = "") then mret tt
      else
        let! rb := mtry (repo (GetBreak (rp_BreakID p))) in
        match rb with
        | Err _ => mret tt
        | Ok b =>
            if negb (bool_decide (b_Status b = BreakOpen)) then mret tt
            else repo (Apply (add_break (resolve (rp_At p) (rp_Reason p) (rp_Actor p) b) empty_cs))
        end
  end.

Definition read_event (res : ReplayResult) : ReplayResult :=
  let '(mkReplayResult f t e n m b o) := res in mkReplayResult f t (e + 1) n m b o.

Definition tally_replay (r : IngestResult) (res : ReplayResult) : ReplayResult :=
  let '(mkReplayResult f t e n m b o) := res in
  let oc := ir_Outcome r in
  mkReplayResult f t e (n + 1)
    (if bool_decide (oc = OutcomeMatched) || bool_decide (oc = OutcomeResolvedBreak) then m + 1 else m)
    (if bool_decide (oc = OutcomeBreak) then b + 1 else b)
    (if bool_decide (oc = OutcomeOpen) then o + 1 else o).

(** One event of a page: the result so far with this event counted. *)
Definition replay_event (ev : Event) (res : ReplayResult) : M W ReplayResult :=
  if bool_decide (ev_Type ev = EvBreakResolved) then
    reapplyResolution ev ;;! mret res
  else if negb (bool_decide (ev_Type ev = EvLegIngested)) then mret res
  else
    let! l := lift (unmarshalLeg (ev_Payload ev)) in
    let! r := ingestOne l in
    mret (tally_replay r res).

(** The loop over a page: it stops at the first event after [through]. *)
Fixpoint replay_page (through : Z) (evs : list Event) (cursor : Z) (res : ReplayResult)
    : M W (Z * ReplayResult * option error) :=
  match evs with
  | [] => mret (cursor, res, None)
  | ev :: evs' =>
      if through <? ev_Seq ev then mret (cursor, res, None)
      else
        let cursor := ev_Seq ev + 1 in
        let res := read_event res in
        let! r := mtry (mwrap ("event " +:+ FormatInt (ev_Seq ev) +:+ ": ") (replay_event ev res)) in
        match r with
        | Err e => mret (cursor, res, Some e)
        | Ok res => replay_page through evs' cursor res
        end
  end.

Definition page : Z := 500.

(** The paging loop. Every page read moves the cursor, so [fuel] greater than
    the number of sequence numbers left is never used up ([None]). *)
Fixpoint replay_loop (fuel : nat) (through cursor : Z) (res : ReplayResult)
    : M W (option (ReplayResult * option error)) :=
  match fuel with
  | O => mret None
  | Datatypes.S fuel =>
      if through <? cursor then notifyOpen ;;! mret (Some (res, None))
      else
        let! revs := mtry (mwrap "read events: " (repo (EventsFrom cursor page))) in
        match revs with
        | Err e => mret (Some (res, Some e))
        | Ok [] => notifyOpen ;;! mret (Some (res, None))
        | Ok evs =>
            let! out := replay_page through evs cursor res in
            match out with
            | (_, res, Some e) => mret (Some (res, Some e))
            | (cursor, res, None) =>
                if Z.of_nat (length evs) <? page
                then notifyOpen ;;! mret (Some (res, None))
                else replay_loop fuel through cursor res
            end
        end
  end.

Definition started_payload (from through : Z) : json :=
  JObj [("from", JInt from); ("through", JInt through)].

Definition zero_replay : ReplayResult := mkReplayResult 0 0 0 0 0 0 0.

(** The prologue of [Replay]: the last sequence number, the marker event, the
    cleared projections and the empty index. *)
Definition replay_start (from : Z) : M W Z :=
  let! through := mwrap "last seq: " (repo LastSeq) in
  let! t := now in
  let! cs := lift (addEvent EvReplayStarted t "replay" (Ok (started_payload from through)) empty_cs) in
  repo (Apply cs) ;;!
  mwrap "reset projections: " (repo ResetProjections) ;;!
  let! w := mget in
  set_ix (NewIndex (ttl (ix w))) ;;!
  mret through.

Definition Replay (from : Z) : M W (option (ReplayResult * option error)) :=
  let from := if from <? 1 then 1 else from in
  let! r := mtry (replay_start from) in
  match r with
  | Err e => mret (Some (zero_replay, Some e))
  | Ok through =>
      set_replaying true ;;!
      let! out := replay_loop (1 + Z.to_nat (through - from + 1)) through from
                    (mkReplayResult from through 0 0 0 0 0) in
      set_replaying false ;;!
      mret out
  end.
End Engine.
