(* ===== verification/Logger.v ===== *)
(** * Structured logs

    internal/observability/logger.go: a logger that adds the identifiers of the
    request and of the span to every record, over the standard library's JSON
    handler. A line is kept as its level, message and attributes, each under the
    groups open around it; how JSON spells it is left to the library. *)

From S2P Require Export GoString Float64.

Local Open Scope recon_scope.

(** ** Contexts *)

(** What is read of a span's context. *)
Record SpanContext : Type := mkSpanContext { TraceID : string; SpanID : string; IsValid : bool }.

(** A context, as far as it is read: the value under [ctxKey], the active span,
    and whether it was cancelled. *)
Record LogContext : Type := mkLogContext { ctx_id : option string; ctx_span : SpanContext }.

(** No span: what [SpanContextFromContext] gives of a context without one. *)
Definition no_span : SpanContext := mkSpanContext "" "" false.
Definition Background : LogContext := mkLogContext None no_span.

Definition WithRequestID (ctx : LogContext) (id : string) : LogContext := mkLogContext (Some id) (ctx_span ctx).
Definition RequestID (ctx : LogContext) : string := default "" (ctx_id ctx).

(** ** Records and handlers *)

Definition LevelDebug : Z := -4.
Definition LevelInfo : Z := 0.
Definition LevelWarn : Z := 4.
Definition LevelError : Z := 8.

Inductive Attr : Type :=
  | AttrStr (s : string)
  | AttrInt (n : Z)
  | AttrFloat (x : float64).
Abbreviation attrs := (list (string * Attr)) (only parsing).

Record LogRecord : Type := mkLogRecord { lr_Level : Z; lr_Message : string; lr_Attrs : attrs }.
Definition AddAttrs (r : LogRecord) (a : attrs) : LogRecord :=
  mkLogRecord (lr_Level r) (lr_Message r) (lr_Attrs r ++ a).

Record LogLine : Type := mkLogLine {
  ll_Level : Z;
  ll_Message : string;
  ll_Attrs : list (list string * (string * Attr))
}.

(** The JSON handler: its level, the attributes it carries and the groups open. *)
Record jsonHandler : Type := mkJsonHandler {
  jh_Level : Z;
  jh_attrs : list (list string * (string * Attr));
  jh_groups : list string
}.
Definition json_Enabled (h : jsonHandler) (level : Z) : bool := jh_Level h <=? level.
Definition json_Handle (h : jsonHandler) (r : LogRecord) : LogLine :=
  mkLogLine (lr_Level r) (lr_Message r) (jh_attrs h ++ (pair (jh_groups h) <$> lr_Attrs r)).
Definition json_WithAttrs (h : jsonHandler) (a : attrs) : jsonHandler :=
  mkJsonHandler (jh_Level h) (jh_attrs h ++ (pair (jh_groups h) <$> a)) (jh_groups h).
(** A group without a name is not opened. *)
Definition json_WithGroup (h : jsonHandler) (name : string) : jsonHandler :=
  if bool_decide (name = "") then h else mkJsonHandler (jh_Level h) (jh_attrs h) (jh_groups h ++ [name]).

(** [traceHandler] embeds the handler it wraps, so [Enabled] is that handler's. *)
Record traceHandler : Type := mkTraceHandler { th_Handler : jsonHandler }.

(** [Handle]: the identifiers found on the context. *)
Definition correlation (ctx : LogContext) : attrs :=
  (if IsValid (ctx_span ctx)
   then [("trace_id", AttrStr (TraceID (ctx_span ctx))); ("span_id", AttrStr (SpanID (ctx_span ctx)))] else []) ++
  (match ctx_id ctx with
   | Some rid => if bool_decide (rid = "") then [] else [("request_id", AttrStr rid)]
   | None => []
   end).
Definition Handle (h : traceHandler) (ctx : LogContext) (r : LogRecord) : LogLine :=
  json_Handle (th_Handler h) (AddAttrs r (correlation ctx)).
Definition WithAttrs (h : traceHandler) (a : attrs) : traceHandler := mkTraceHandler (json_WithAttrs (th_Handler h) a).
Definition WithGroup (h : traceHandler) (name : string) : traceHandler :=
  mkTraceHandler (json_WithGroup (th_Handler h) name).

(** The switch of [NewLogger]. *)
Definition level_of (level : string) : Z :=
  if bool_decide (level = "debug") then LevelDebug
  else if bool_decide (level = "warn") then LevelWarn
  else if bool_decide (level = "error") then LevelError
  else LevelInfo.
Definition NewLogger (level : string) : traceHandler := mkTraceHandler (mkJsonHandler (level_of level) [] []).

(** [slog.Logger]: a record below the handler's level is dropped. *)
Definition slog (h : traceHandler) (ctx : LogContext) (level : Z) (msg : string) (a : attrs) : list LogLine :=
  if json_Enabled (th_Handler h) level then [Handle h ctx (mkLogRecord level msg a)] else [].
Definition InfoContext (h : traceHandler) (ctx : LogContext) : string -> attrs -> list LogLine  := slog h ctx LevelInfo.
Definition ErrorContext (h : traceHandler) (ctx : LogContext) : string -> attrs -> list LogLine  := slog h ctx LevelError.

(** ** Facts *)

Lemma RequestID_With ctx id : RequestID (WithRequestID ctx id) = id.
Proof. done. Qed.

(** The identifier of a line: the last value under [request_id], in no group. *)
Definition line_request_id (ln : LogLine) : list string :=
  omap (fun '(gs, (k, v)) => match v with
                             | AttrStr s => if decide (k = "request_id") then Some s else None
                             | _ => None
                             end) (ll_Attrs ln).
