(* ===== verification/Metrics.v ===== *)
(** * Metrics

    internal/observability/metrics.go: the engine's callbacks and the HTTP
    middleware count into vectors of a metrics library, which is a class with the
    laws its documentation gives. *)

From S2P Require Export Engine.

Local Open Scope recon_scope.

(** ** The metrics library *)

(** A counter per list of label values; a histogram keeps its observations. *)
Class CounterVec (V : Type) : Type := {
  cv_empty : V;
  cv_inc : list string -> V -> V;
  cv_get : list string -> V -> Z
}.
Class HistogramVec (V : Type) : Type := {
  hv_empty : V;
  hv_observe : list string -> float64 -> V -> V;
  hv_observed : list string -> V -> list float64
}.

Class MetricsLaws (C H : Type) `{!CounterVec C} `{!HistogramVec H} : Prop := {
  cv_get_empty ls : cv_get ls (cv_empty : C) = 0;
  cv_get_inc ls ls' (v : C) : cv_get ls (cv_inc ls' v) = cv_get ls v + (if decide (ls = ls') then 1 else 0);
  hv_observed_empty ls : hv_observed ls (hv_empty : H) = [];
  hv_observed_observe ls ls' x (v : H) :
    hv_observed ls (hv_observe ls' x v) = hv_observed ls v ++ (if decide (ls = ls') then [x] else [])
}.

(** ** What is registered *)

Inductive Buckets : Type :=
  | NoBuckets
  | DefBuckets
  | BucketsAt (bounds : list Q)
  | ExponentialBuckets (start factor : Q) (count : nat).

(** A collector: its name, its help text, its buckets and the names of its labels. *)
Record Collector : Type := mkCollector { co_Name : string; co_Help : string; co_Buckets : Buckets; co_Labels : list string }.

Definition HTTPRequests_desc := mkCollector "recon_http_requests_total" "HTTP requests by route, method and status class."
  NoBuckets ["route"; "method"; "status"].
Definition HTTPDuration_desc := mkCollector "recon_http_request_duration_seconds" "HTTP request latency."
  DefBuckets ["route"; "method"].
Definition LegsIngested_desc := mkCollector "recon_legs_ingested_total" "Legs processed by source and outcome."
  NoBuckets ["source"; "outcome"].
Definition Matches_desc := mkCollector "recon_matches_total" "Matches created by tier and rule." NoBuckets ["tier"; "rule"].
Definition MatchResidual_desc := mkCollector "recon_match_residual_minor"
  "Absolute residual of tolerant matches in minor units." (BucketsAt (inject_Z <$> [0; 1; 2; 5; 10; 25; 50; 100; 500])) ["tier"].
Definition BreaksOpened_desc := mkCollector "recon_breaks_opened_total" "Breaks opened by category and trigger."
  NoBuckets ["category"; "trigger"].
Definition OpenLegs_desc := mkCollector "recon_open_legs" "Legs currently waiting in the matching window." NoBuckets [].
Definition IngestDuration_desc := mkCollector "recon_ingest_batch_duration_seconds" "Engine time per ingested batch."
  (ExponentialBuckets (5 # 10000) 2 14) [].
Definition KafkaCommits_desc := mkCollector "recon_kafka_commits_total" "Kafka offset commits by result." NoBuckets ["result"].

(** [reg.MustRegister], which panics on a name it has; the library's own
    collectors come first. *)
Definition registered : list Collector :=
  [HTTPRequests_desc; HTTPDuration_desc; LegsIngested_desc; Matches_desc; MatchResidual_desc; BreaksOpened_desc;
   OpenLegs_desc; IngestDuration_desc; KafkaCommits_desc].

Lemma registered_once : NoDup (co_Name <$> registered).
Proof. apply (bool_decide_unpack _). vm_compute. done. Qed.

(** ** The collectors *)

Record Metrics (C H : Type) : Type := mkMetrics {
  HTTPRequests : C;
  HTTPDuration : H;
  LegsIngested : C;
  Matches : C;
  MatchResidual : H;
  BreaksOpened : C;
  OpenLegs_gauge : float64;
  IngestDuration : H;
  KafkaCommits : C
}.
Arguments mkMetrics {C H} _ _ _ _ _ _ _ _ _.
Arguments HTTPRequests {C H} _.
Arguments HTTPDuration {C H} _.
Arguments LegsIngested {C H} _.
Arguments Matches {C H} _.
Arguments MatchResidual {C H} _.
Arguments BreaksOpened {C H} _.
Arguments OpenLegs_gauge {C H} _.
Arguments IngestDuration {C H} _.
Arguments KafkaCommits {C H} _.

Section Metrics.
Context {C H : Type} `{!CounterVec C} `{!HistogramVec H}.

Definition NewMetrics : Metrics C H :=
  mkMetrics cv_empty hv_empty cv_empty cv_empty hv_empty cv_empty 0%Q hv_empty cv_empty.

(** ["T" + strconv.Itoa(int(mt.Tier))] *)
Definition tier_label (m : Match) : string := "T" +:+ FormatInt (m_Tier m).
(** The absolute residual. *)
Definition residual_abs (m : Match) : Z :=
  let r := m_ResidualMinor m in if r <? 0 then neg64 r else r.

Definition count_leg (l : Leg) (o : Outcome) (m : Metrics C H) : Metrics C H :=
  mkMetrics (HTTPRequests m) (HTTPDuration m) (cv_inc [Source l; o] (LegsIngested m)) (Matches m) (MatchResidual m)
    (BreaksOpened m) (OpenLegs_gauge m) (IngestDuration m) (KafkaCommits m).
Definition count_match (mt : Match) (m : Metrics C H) : Metrics C H :=
  mkMetrics (HTTPRequests m) (HTTPDuration m) (LegsIngested m) (cv_inc [tier_label mt; m_RuleID mt] (Matches m))
    (hv_observe [tier_label mt] (of_int (residual_abs mt)) (MatchResidual m))
    (BreaksOpened m) (OpenLegs_gauge m) (IngestDuration m) (KafkaCommits m).
Definition count_break (b : Break) (m : Metrics C H) : Metrics C H :=
  mkMetrics (HTTPRequests m) (HTTPDuration m) (LegsIngested m) (Matches m) (MatchResidual m)
    (cv_inc [b_Category b; b_Trigger b] (BreaksOpened m)) (OpenLegs_gauge m) (IngestDuration m) (KafkaCommits m).
Definition set_open (n : nat) (m : Metrics C H) : Metrics C H :=
  mkMetrics (HTTPRequests m) (HTTPDuration m) (LegsIngested m) (Matches m) (MatchResidual m)
    (BreaksOpened m) (of_int (Z.of_nat n)) (IngestDuration m) (KafkaCommits m).

(** [Hooks]: all four callbacks are set; what each does when it is called. *)
Definition metrics_hooks : Hooks := mkHooks true true true true.
Definition on_hook (m : Metrics C H) (h : hook_call) : Metrics C H :=
  match h with
  | HookLeg l o => count_leg l o m
  | HookMatch mt => count_match mt m
  | HookBreak b => count_break b m
  | HookOpen n => set_open n m
  end.

(** [strconv.Itoa(status/100) + "xx"] *)
Definition status_class (status : Z) : string := FormatInt (Z.quot status 100) +:+ "xx".

Definition ObserveHTTP (route method : string) (status : Z) (d : Duration) (m : Metrics C H) : Metrics C H :=
  mkMetrics (cv_inc [route; method; status_class status] (HTTPRequests m))
    (hv_observe [route; method] (Seconds d) (HTTPDuration m)) (LegsIngested m) (Matches m) (MatchResidual m)
    (BreaksOpened m) (OpenLegs_gauge m) (IngestDuration m) (KafkaCommits m).

(** The callback of the Kafka source, and the timing of a batch. *)
Definition count_commit (ok : bool) (m : Metrics C H) : Metrics C H :=
  mkMetrics (HTTPRequests m) (HTTPDuration m) (LegsIngested m) (Matches m) (MatchResidual m) (BreaksOpened m)
    (OpenLegs_gauge m) (IngestDuration m) (cv_inc [if ok then "ok" else "error"] (KafkaCommits m)).
Definition observe_ingest (d : Duration) (m : Metrics C H) : Metrics C H :=
  mkMetrics (HTTPRequests m) (HTTPDuration m) (LegsIngested m) (Matches m) (MatchResidual m) (BreaksOpened m)
    (OpenLegs_gauge m) (hv_observe [] (Seconds d) (IngestDuration m)) (KafkaCommits m).

(** ** What the calls add up to *)

Definition leg_calls (tr : list hook_call) : list (string * Outcome) :=
  omap (fun h => match h with HookLeg l o => Some (Source l, o) | _ => None end) tr.
Definition match_calls (tr : list hook_call) : list Match :=
  omap (fun h => match h with HookMatch m => Some m | _ => None end) tr.
Definition break_calls (tr : list hook_call) : list Break :=
  omap (fun h => match h with HookBreak b => Some b | _ => None end) tr.
Definition times {A} `{EqDecision A} (x : A) (l : list A) : Z := Z.of_nat (length (filter (x =.) l)).

Context `{!MetricsLaws C H}.

Lemma times_cons {A} `{EqDecision A} (x y : A) l : times x (y :: l) = (if decide (x = y) then 1 else 0) + times x l.
Proof. unfold times. rewrite filter_cons. destruct (decide (x = y)); cbn [length]; lia. Qed.

Lemma leg_calls_cons h tr :
  leg_calls (h :: tr) = match h with HookLeg l o => (Source l, o) :: leg_calls tr | _ => leg_calls tr end.
Proof. by destruct h. Qed.
Lemma match_calls_cons h tr :
  match_calls (h :: tr) = match h with HookMatch m => m :: match_calls tr | _ => match_calls tr end.
Proof. by destruct h. Qed.
Lemma break_calls_cons h tr :
  break_calls (h :: tr) = match h with HookBreak b => b :: break_calls tr | _ => break_calls tr end.
Proof. by destruct h. Qed.

(** Two labels are equal as a list when they are equal as a pair. *)
Lemma pair_label_eq {T} (t r t' r' : string) (x y : T) :
  (if decide ([t; r] = [t'; r']) then x else y) = (if decide ((t, r) = (t', r')) then x else y).
Proof. destruct (decide _) as [E|E], (decide _) as [E'|E']; congruence. Qed.

Lemma legs_counted tr m s o :
  cv_get [s; o] (LegsIngested (foldl on_hook m tr)) = cv_get [s; o] (LegsIngested m) + times (s, o) (leg_calls tr).
Proof.
  revert m. induction tr as [|h tr IH]; intros m; [symmetry; apply Z.add_0_r|]. cbn [foldl]. rewrite IH, leg_calls_cons.
  destruct h; try done. cbn [on_hook count_leg LegsIngested]. rewrite times_cons, cv_get_inc, pair_label_eq. lia.
Qed.

Lemma matches_counted tr m t r :
  cv_get [t; r] (Matches (foldl on_hook m tr)) =
  cv_get [t; r] (Matches m) + times (t, r) ((fun mt => (tier_label mt, m_RuleID mt)) <$> match_calls tr).
Proof.
  revert m. induction tr as [|h tr IH]; intros m; [symmetry; apply Z.add_0_r|]. cbn [foldl]. rewrite IH, match_calls_cons.
  destruct h; try done. cbn [on_hook count_match Matches]. rewrite fmap_cons, times_cons, cv_get_inc, pair_label_eq. lia.
Qed.

Lemma breaks_counted tr m c t :
  cv_get [c; t] (BreaksOpened (foldl on_hook m tr)) =
  cv_get [c; t] (BreaksOpened m) + times (c, t) ((fun b => (b_Category b, b_Trigger b)) <$> break_calls tr).
Proof.
  revert m. induction tr as [|h tr IH]; intros m; [symmetry; apply Z.add_0_r|]. cbn [foldl]. rewrite IH, break_calls_cons.
  destruct h; try done. cbn [on_hook count_break BreaksOpened]. rewrite fmap_cons, times_cons, cv_get_inc, pair_label_eq. lia.
Qed.

Lemma commits_counted oks m : cv_get ["ok"] (KafkaCommits (foldl (fun m ok => count_commit ok m) m oks)) =
  cv_get ["ok"] (KafkaCommits m) + times true oks.
Proof.
  revert m. induction oks as [|ok oks IH]; intros m; [symmetry; apply Z.add_0_r|]. cbn [foldl]. rewrite IH, times_cons.
  cbn [count_commit KafkaCommits]. rewrite cv_get_inc. destruct ok; [rewrite !decide_True by done|rewrite !decide_False by done]; lia.
Qed.

Lemma gauge_last tr m n : OpenLegs_gauge (foldl on_hook m (tr ++ [HookOpen n])) = of_int (Z.of_nat n).
Proof. by rewrite foldl_app. Qed.
End Metrics.
