(* ===== verification/Http.v ===== *)
(** * The HTTP API

    internal/api/http/server.go: the handlers behind the routes, as computations
    over the engine's world. A request is what a handler reads of it: the query
    parameters, the path's identifier, the body and the server's clock. JSON text
    is parsed by a parameter ([JSONText]); a response body is a JSON value, or
    the error that leaves it empty. Logging and metrics are left out. *)

From S2P Require Export Ports GoParse Engine.

Local Open Scope recon_scope.

Class JSONText := json_parse : string -> result json.

(** ** Requests and responses *)

Inductive body : Type :=
  | NoBody
  | BrokenBody (e : error)
  | Body (text : string).

Record Request : Type := mkRequest {
  rq_query : string -> string;
  rq_body : body;
  rq_now : Time
}.

Record Response : Type := mkResponse { rs_status : Z; rs_body : result json }.

Definition StatusOK : Z := 200.
Definition StatusBadRequest : Z := 400.
Definition StatusNotFound : Z := 404.
Definition StatusConflict : Z := 409.
Definition StatusRequestEntityTooLarge : Z := 413.
Definition StatusInternalServerError : Z := 500.
Definition StatusServiceUnavailable : Z := 503.

Definition MaxBodyBytes : Z := Z.shiftl 16 20.

Definition writeJSON (status : Z) (v : result json) : Response := mkResponse status v.
Definition writeError (status : Z) (msg : string) : Response :=
  writeJSON status (Ok (JObj [("error", jstr msg); ("status", JInt status)])).

Definition readBody (rq : Request) : result string :=
  match rq_body rq with
  | NoBody => Err (ErrText "empty body")
  | BrokenBody e => Err (ErrWrap "read body: " e "")
  | Body text =>
      if MaxBodyBytes <? Z.of_nat (String.length text)
      then Err (ErrWrap "read body: " (ErrText "http: request body too large") "")
      else if bool_decide (text = "") then Err (ErrText "empty body")
      else Ok text
  end.

(** ** Encoding *)

(** The encoder stops at the first value it cannot encode. *)
Fixpoint marshal_list {A} (f : A -> result json) (l : list A) : result (list json) :=
  match l with
  | [] => Ok []
  | x :: l' => res_bind (f x) (fun j => res_bind (marshal_list f l') (fun js => Ok (j :: js)))
  end.
Definition marshal_array {A} (f : A -> result json) (l : list A) : result json :=
  res_bind (marshal_list f l) (fun js => Ok (JArr js)).

Definition marshal_ingest_result (r : IngestResult) : json :=
  JObj ([("leg_id", jstr (ir_LegID r)); ("outcome", jstr (ir_Outcome r))] ++
        opt_str "match_id" (ir_MatchID r) ++ opt_str "break_id" (ir_BreakID r) ++
        opt_str "rule_id" (ir_RuleID r)).

Definition marshal_batch (b : BatchResult) : json :=
  JObj [("accepted", JInt (br_Accepted b)); ("duplicates", JInt (br_Duplicates b));
        ("matched", JInt (br_Matched b)); ("breaks", JInt (br_Breaks b)); ("open", JInt (br_Open b));
        ("results", JArr (marshal_ingest_result <$> br_Results b))].

Definition marshal_replay (r : ReplayResult) : json :=
  JObj [("from_seq", JInt (rr_FromSeq r)); ("through_seq", JInt (rr_ThroughSeq r));
        ("events_read", JInt (rr_EventsRead r)); ("legs_replayed", JInt (rr_LegsReplayed r));
        ("matched", JInt (rr_Matched r)); ("breaks", JInt (rr_Breaks r)); ("open", JInt (rr_Open r))].

Definition marshal_rules (r : Rules) : json :=
  JObj [("ToleranceBps", JInt (ToleranceBps r)); ("ToleranceAbsMinor", JInt (ToleranceAbsMinor r));
        ("ValueDateWindowDays", JInt (ValueDateWindowDays r)); ("T3MaxCandidates", JInt (T3MaxCandidates r));
        ("T3MaxSubset", JInt (T3MaxSubset r)); ("T3RequireBatchHint", JBool (T3RequireBatchHint r))].

Definition marshal_event (e : Event) : result json :=
  res_bind (marshal_time (ev_At e)) (fun at_ =>
    Ok (JObj [("seq", JInt (ev_Seq e)); ("type", jstr (ev_Type e)); ("at", at_);
              ("aggregate_id", jstr (ev_AggregateID e)); ("payload", ev_Payload e)])).

Definition marshal_counts (m : gmap string Z) : json :=
  JObj ((fun k => (coerced k, JInt (default 0 (m !! k)))) <$> sort_Strings ((map_to_list m).*1)).

Definition marshal_stats (st : Stats) : result json :=
  res_bind (match st_OldestOpenBreak st with
            | None => Ok []
            | Some t => res_bind (marshal_time t) (fun j => Ok [("oldest_open_break", j)])
            end) (fun oldest =>
  Ok (JObj ([("legs_total", JInt (st_LegsTotal st)); ("legs_open", JInt (st_LegsOpen st));
             ("legs_matched", JInt (st_LegsMatched st)); ("legs_in_break", JInt (st_LegsInBreak st));
             ("matches_total", JInt (st_MatchesTotal st));
             ("matches_by_tier", marshal_counts (st_MatchesByTier st));
             ("matches_by_rule", marshal_counts (st_MatchesByRule st));
             ("breaks_open", JInt (st_BreaksOpen st)); ("breaks_resolved", JInt (st_BreaksResolved st));
             ("breaks_open_by_category", marshal_counts (st_BreaksByCat st));
             ("events_total", JInt (st_EventsTotal st)); ("auto_match_rate", JFloat (st_AutoMatchRate st));
             ("legs_by_source", marshal_counts (st_LegsBySource st))] ++ oldest))).

(** [b.AgeSeconds = int64(b.Age(now).Seconds())]. *)
Definition set_AgeSeconds (now : Time) (b : Break) : Break :=
  mkBreak (b_ID b) (b_LegIDs b) (b_Currency b) (b_Counterparty b) (b_Category b) (b_Confidence b)
    (b_ClassifierID b) (b_Trigger b) (b_Status b) (b_OpenedAt b) (b_ResolvedAt b) (b_Reason b)
    (b_Actor b) (int64_of (Seconds (Age b now))).

(** ** Decoding *)

(** A slice being decoded into: its elements, and what lies in its array beyond
    its length. An element is decoded over what its cell holds. *)
Definition leg_slice : Type := list Leg * list Leg.

Fixpoint dec_legs (cells : list Leg) (js : list json) : result (list Leg) :=
  match js with
  | [] => Ok []
  | j :: js' =>
      res_bind (dec_leg (default zero_leg (head cells)) j) (fun l =>
      res_bind (dec_legs (tail cells) js') (fun ls => Ok (l :: ls)))
  end.

(** [json.Unmarshal(body, &req.Legs)]. *)
Definition dec_leg_list (old : leg_slice) (j : json) : result leg_slice :=
  match j with
  | JArr [] | JNull => Ok ([], [])
  | JArr js => res_bind (dec_legs (old.1 ++ old.2) js) (fun ls => Ok (ls, drop (length js) (old.1 ++ old.2)))
  | _ => type_error
  end.

(** [json.Unmarshal(body, &req)]: the one field is [legs]. *)
Fixpoint dec_legs_fields (old : leg_slice) (fs : list (string * json)) : result leg_slice :=
  match fs with
  | [] => Ok old
  | (k, j) :: fs' =>
      res_bind (if bool_decide (fold_name k = "legs") then dec_leg_list old j else Ok old)
        (fun ls => dec_legs_fields ls fs')
  end.
Definition dec_legs_request (j : json) : result leg_slice :=
  match j with JObj fs => dec_legs_fields ([], []) fs | JNull => Ok ([], []) | _ => type_error end.

(** [resolveRequest]: the reason and the actor. *)
Fixpoint dec_resolve_fields (p : string * string) (fs : list (string * json)) : result (string * string) :=
  match fs with
  | [] => Ok p
  | (k, j) :: fs' =>
      res_bind (if bool_decide (fold_name k = "reason") then res_bind (dec_str p.1 j) (fun v => Ok (v, p.2))
                else if bool_decide (fold_name k = "actor") then res_bind (dec_str p.2 j) (fun v => Ok (p.1, v))
                else Ok p)
        (fun p => dec_resolve_fields p fs')
  end.
Definition dec_resolve_request (j : json) : result (string * string) :=
  match j with JObj fs => dec_resolve_fields ("", "") fs | JNull => Ok ("", "") | _ => type_error end.

(** ** Query parameters *)

(** A parameter that is absent or empty keeps the default; otherwise it must
    parse and be in range. *)
Definition query_param {A} (parse : string -> result A) (ok : A -> bool) (def : A) (v : string)
    : option A :=
  if bool_decide (v = "") then Some def
  else match parse v with
       | Ok a => if ok a then Some a else None
       | Err _ => None
       end.

Definition limit_param : string -> option Z := query_param Atoi (fun n => (1 <=? n) && (n <=? 1000)) 100.
Definition offset_param : string -> option Z := query_param Atoi (fun n => 0 <=? n) 0.
Definition duration_param : string -> option Duration := query_param ParseDuration (fun d => 0 <=? d) 0.
Definition from_param : string -> option Z := query_param ParseInt (fun n => 1 <=? n) 1.

(** The filter of [listBreaks], or the message of the first bad parameter. *)
Definition break_filter (q : string -> string) : BreakFilter + string :=
  match limit_param (q "limit") with
  | None => inr "limit must be 1..1000"
  | Some limit =>
  match offset_param (q "offset") with
  | None => inr "offset must be >= 0"
  | Some offset =>
  match duration_param (q "min_age") with
  | None => inr "min_age must be a duration like 30m or 2h"
  | Some min_age =>
      if negb (bool_decide (q "status" = "")) && negb (bool_decide (q "status" = BreakOpen)) &&
         negb (bool_decide (q "status" = BreakResolved))
      then inr "status must be open or resolved"
      else inl (mkBreakFilter (q "status") (q "category") (ToUpper (q "currency")) (q "counterparty")
                  min_age limit offset)
  end end end.

(** ** Handlers *)

Section Handlers.
Context `{Sha256} `{BreakClassifier} `{JSONText} {S : Type} `{Repository S} `{StoreReads S}.
Context (cfg : Config).
(** [Deps]: the version, and the extra readiness probe, if there is one. *)
Context (Version : string) (Ready : option (Time -> option error)).

Abbreviation W := (World S).

Definition healthz (rq : Request) : M W Response :=
  mret (writeJSON StatusOK (Ok (JObj [("status", JStr "ok"); ("version", JStr Version)]))).

Definition readyz (rq : Request) : M W Response :=
  let! stored := mtry (repo Ping) in
  let source := match Ready with
                | None => []
                | Some probe => [("source", match probe (rq_now rq) with None => "ok" | Some e => error_text e end)]
                end in
  let ready := match stored with Ok _ => true | Err _ => false end &&
               match Ready with Some probe => if probe (rq_now rq) then false else true | None => true end in
  let store := ("store", match stored with Ok _ => "ok" | Err e => error_text e end) in
  mret (writeJSON (if ready then StatusOK else StatusServiceUnavailable)
          (Ok (JObj [("checks", JObj ((fun '(k, v) => (k, jstr v)) <$> source ++ [store]));
                     ("ready", JBool ready)]))).

Definition postLegs (rq : Request) : M W Response :=
  match readBody rq with
  | Err e => mret (writeError StatusBadRequest (error_text e))
  | Ok text =>
      match res_bind (json_parse text)
              (if HasPrefix (TrimSpace text) "[" then dec_leg_list ([], []) else dec_legs_request) with
      | Err e => mret (writeError StatusBadRequest ("malformed JSON: " +:+ error_text e))
      | Ok (legs, _) =>
          if bool_decide (length legs = 0%nat) then mret (writeError StatusBadRequest "no legs supplied")
          else if 5000 <? Z.of_nat (length legs)
          then mret (writeError StatusRequestEntityTooLarge "batch limited to 5000 legs")
          else
            let! r := Ingest cfg legs in
            match r with
            | (_, Some e) =>
                if errors_Is e ErrInvalidLeg then mret (writeError StatusBadRequest (error_text e))
                else mret (writeError StatusInternalServerError "ingest failed")
            | (res, None) => mret (writeJSON StatusOK (Ok (marshal_batch res)))
            end
      end
  end.

Definition listBreaks (rq : Request) : M W Response :=
  match break_filter (rq_query rq) with
  | inr msg => mret (writeError StatusBadRequest msg)
  | inl f =>
      let! r := mtry (repo (ListBreaks f)) in
      match r with
      | Err _ => mret (writeError StatusInternalServerError "list breaks failed")
      | Ok breaks =>
          mret (writeJSON StatusOK
            (res_bind (marshal_array marshal_break (set_AgeSeconds (rq_now rq) <$> breaks)) (fun j =>
             Ok (JObj [("breaks", j); ("count", JInt (Z.of_nat (length breaks)));
                       ("limit", JInt (f_Limit f)); ("offset", JInt (f_Offset f))]))))
      end
  end.

(** [lookupFailed]: the response to a lookup's error. *)
Definition lookupFailed (e : error) (what : string) : Response :=
  if errors_Is e ErrNotFound then writeError StatusNotFound (what +:+ " not found")
  else writeError StatusInternalServerError "lookup failed".

(** [loadLegs]: legs that cannot be read are left out. *)
Fixpoint loadLegs (ids : list string) : M W (list Leg) :=
  match ids with
  | [] => mret []
  | id :: ids' =>
      let! r := mtry (repo (GetLeg id)) in
      let! ls := loadLegs ids' in
      mret (match r with Ok l => l :: ls | Err _ => ls end)
  end.

Definition getBreak (id : string) (rq : Request) : M W Response :=
  let! r := mtry (repo (GetBreak id)) in
  match r with
  | Err e => mret (lookupFailed e "break")
  | Ok b =>
      let! legs := loadLegs (b_LegIDs b) in
      mret (writeJSON StatusOK
        (res_bind (marshal_break (set_AgeSeconds (rq_now rq) b)) (fun jb =>
         res_bind (marshal_array marshal_leg legs) (fun jl =>
         Ok (JObj [("break", jb); ("legs", jl)])))))
  end.

Definition resolveBreak (id : string) (rq : Request) : M W Response :=
  match readBody rq with
  | Err e => mret (writeError StatusBadRequest (error_text e))
  | Ok text =>
      match res_bind (json_parse text) dec_resolve_request with
      | Err e => mret (writeError StatusBadRequest ("malformed JSON: " +:+ error_text e))
      | Ok (reason, actor) =>
          let reason := TrimSpace reason in
          let actor := TrimSpace actor in
          if bool_decide (reason = "") || bool_decide (actor = "")
          then mret (writeError StatusBadRequest "reason and actor are required")
          else
            let! r := ResolveBreak cfg id reason actor in
            match r with
            | (_, Some e) =>
                if errors_Is e ErrNotFound then mret (writeError StatusNotFound "break not found")
                else if errors_Is e ErrBreakResolved
                then mret (writeError StatusConflict "break already resolved")
                else mret (writeError StatusInternalServerError "resolve failed")
            | (b, None) => mret (writeJSON StatusOK (marshal_break (set_AgeSeconds (rq_now rq) b)))
            end
      end
  end.

Definition getMatch (id : string) (rq : Request) : M W Response :=
  let! r := mtry (repo (GetMatch id)) in
  match r with
  | Err e => mret (lookupFailed e "match")
  | Ok m =>
      let! legs := loadLegs (m_LegIDs m) in
      mret (writeJSON StatusOK
        (res_bind (marshal_array marshal_leg legs) (fun jl =>
         res_bind (marshal_match m) (fun jm => Ok (JObj [("legs", jl); ("match", jm)])))))
  end.

Definition getLeg (id : string) (rq : Request) : M W Response :=
  let! r := mtry (repo (GetLeg id)) in
  match r with
  | Err e => mret (lookupFailed e "leg")
  | Ok l => mret (writeJSON StatusOK (marshal_leg l))
  end.

Definition stats (rq : Request) : M W Response :=
  let! r := mtry (repo ReadStats) in
  match r with
  | Err _ => mret (writeError StatusInternalServerError "stats failed")
  | Ok st =>
      let! w := mget in
      mret (writeJSON StatusOK
        (res_bind (marshal_stats st) (fun j =>
         Ok (JObj [("open_legs_index", JInt (Z.of_nat (Len (ix w)))); ("rules", marshal_rules (rules cfg));
                   ("stats", j); ("version", JStr Version)]))))
  end.

Definition events (rq : Request) : M W Response :=
  match from_param (rq_query rq "from") with
  | None => mret (writeError StatusBadRequest "from must be a positive sequence number")
  | Some from =>
      match limit_param (rq_query rq "limit") with
      | None => mret (writeError StatusBadRequest "limit must be 1..1000")
      | Some limit =>
          let! r := mtry (repo (EventsFrom from limit)) in
          match r with
          | Err _ => mret (writeError StatusInternalServerError "events failed")
          | Ok evs =>
              mret (writeJSON StatusOK
                (res_bind (marshal_array marshal_event evs) (fun j =>
                 Ok (JObj [("count", JInt (Z.of_nat (length evs))); ("events", j)]))))
          end
      end
  end.

(** The replay's paging loop is given enough fuel; see EngineReplay.v. *)
Definition replay (rq : Request) : M W (option Response) :=
  match from_param (rq_query rq "from") with
  | None => mret (Some (writeError StatusBadRequest "from must be a positive event sequence number"))
  | Some from =>
      let! r := Replay cfg from in
      mret (match r with
            | None => None
            | Some (_, Some e) =>
                Some (writeError StatusInternalServerError ("replay failed: " +:+ error_text e))
            | Some (res, None) => Some (writeJSON StatusOK (Ok (marshal_replay res)))
            end)
  end.

Definition closeWindow (rq : Request) : M W Response :=
  match duration_param (rq_query rq "older_than") with
  | None => mret (writeError StatusBadRequest "older_than must be a duration like 1h")
  | Some olderThan =>
      let! r := CloseWindow cfg olderThan in
      match r with
      | (_, Some _) => mret (writeError StatusInternalServerError "close window failed")
      | (n, None) =>
          mret (writeJSON StatusOK (Ok (JObj [("expired", JInt n); ("older_than", jstr (Duration_String olderThan))])))
      end
  end.

(** ** Routes *)

(** The patterns [New] registers, with the path's identifier; [GET /metrics] is
    the metrics library's. *)
Inductive Route : Type :=
  | GetHealthz | GetReadyz | PostLegs | ListBreaksRoute | GetBreakRoute (id : string)
  | ResolveRoute (id : string) | GetMatchRoute (id : string) | GetLegRoute (id : string)
  | StatsRoute | EventsRoute | ReplayRoute | CloseRoute.

Definition handle (r : Route) (rq : Request) : M W (option Response) :=
  let some m := let! resp := m in mret (Some resp) in
  match r with
  | GetHealthz => some (healthz rq)
  | GetReadyz => some (readyz rq)
  | PostLegs => some (postLegs rq)
  | ListBreaksRoute => some (listBreaks rq)
  | GetBreakRoute id => some (getBreak id rq)
  | ResolveRoute id => some (resolveBreak id rq)
  | GetMatchRoute id => some (getMatch id rq)
  | GetLegRoute id => some (getLeg id rq)
  | StatsRoute => some (stats rq)
  | EventsRoute => some (events rq)
  | ReplayRoute => replay rq
  | CloseRoute => some (closeWindow rq)
  end.

Definition is_read (r : Route) : bool :=
  match r with PostLegs | ResolveRoute _ | ReplayRoute | CloseRoute => false | _ => true end.
End Handlers.
