(* ===== verification/Middleware.v ===== *)
(** * The middleware

    internal/api/http/middleware.go, and [New], [Handler] and [route] of
    server.go: request identifiers, spans, metrics, access logs and recovery
    around the handlers of Http.v. A handler is a computation over an
    [Exchange]; its error is a panic, which unwinds to whoever recovers it, the
    state it leaves being what it had done. *)

From S2P Require Export Http Metrics Logger.

Local Open Scope recon_scope.

(** ** What the client gets *)

(** The writer the server gives a handler: the header map, the final status line
    with the headers it was sent with, informational statuses, and the body; and
    whether the request was [HEAD], whose answer has no body. The program spells
    each header one way, so names are compared as written. *)
Record Wire : Type := mkWire {
  wi_head : bool;
  wi_header : gmap string string;
  wi_informational : list Z;
  wi_sent : option (Z * gmap string string);
  wi_body : string
}.
Definition new_wire (method : string) : Wire := mkWire (bool_decide (method = "HEAD")) ∅ [] None "".

(** A server sends 200 when the handler sent no status. *)
Definition wire_status (wi : Wire) : Z := match wi_sent wi with Some (c, _) => c | None => StatusOK end.

(** [net/http]: a code of less or more than three digits is a panic, 1xx other
    than 101 is informational, and only the first of the others counts. *)
Definition valid_code (code : Z) : bool := (100 <=? code) && (code <=? 999).
Definition informational (code : Z) : bool := (100 <=? code) && (code <=? 199) && negb (code =? 101).
Definition bodyAllowed (code : Z) : bool :=
  negb (((100 <=? code) && (code <=? 199)) || (code =? 204) || (code =? 304)).

Definition raw_WriteHeader (code : Z) (wi : Wire) : result Wire :=
  match wi_sent wi with
  | Some _ => Ok wi
  | None =>
      if negb (valid_code code) then Err (ErrText ("invalid WriteHeader code " +:+ FormatInt code))
      else if informational code
      then Ok (mkWire (wi_head wi) (wi_header wi) (wi_informational wi ++ [code]) None (wi_body wi))
      else Ok (mkWire (wi_head wi) (wi_header wi) (wi_informational wi) (Some (code, wi_header wi)) (wi_body wi))
  end.

(** The body after [b] is written: an answer to [HEAD] has none, though the
    writer accepts what it is given. *)
Definition body_with (b : string) (wi : Wire) : string := if wi_head wi then wi_body wi else wi_body wi +:+ b.

(** The bytes written, and the writer after. The first bytes send 200 when no
    status was sent. A status that allows no body refuses them (0 bytes); to
    [HEAD], the number of bytes is what it would be to [GET], and none is sent.
    The connection is taken to stay open: the client is the one that sees the
    wire, and one that has gone sees nothing. *)
Definition raw_Write (b : string) (wi : Wire) : Z * Wire :=
  let sent := match wi_sent wi with Some s => s | None => (StatusOK, wi_header wi) end in
  if bodyAllowed sent.1
  then (Z.of_nat (String.length b), mkWire (wi_head wi) (wi_header wi) (wi_informational wi) (Some sent) (body_with b wi))
  else (0, mkWire (wi_head wi) (wi_header wi) (wi_informational wi) (Some sent) (wi_body wi)).

Definition set_header (k v : string) (wi : Wire) : Wire :=
  mkWire (wi_head wi) (<[k := v]> (wi_header wi)) (wi_informational wi) (wi_sent wi) (wi_body wi).

(** ** Writers, requests, spans *)

(** An [http.ResponseWriter]: the server's own, or a [responseWriter] around
    another one; the structs themselves are on the exchange. *)
Inductive writer : Type :=
  | Raw
  | Wrapped (p : nat) (under : writer).

Record responseWriter : Type := mkResponseWriter { rw_status : Z; rw_bytes : Z; rw_route : string }.

Record HttpRequest : Type := mkHttpRequest {
  Method : string;
  URL_Path : string;
  (** The segments of the cleaned, unescaped path. *)
  Segments : list string;
  Header_Get : string -> string;
  RemoteAddr : string;
  PathValue : string -> string;
  rq_ctx : LogContext;
  rq_rest : Request
}.
Definition WithContext (ctx : LogContext) (r : HttpRequest) : HttpRequest :=
  mkHttpRequest (Method r) (URL_Path r) (Segments r) (Header_Get r) (RemoteAddr r) (PathValue r) ctx (rq_rest r).
(** The value of a wildcard, or the empty string. *)
Fixpoint path_value (vs : list (string * string)) (name : string) : string :=
  match vs with
  | [] => ""
  | (k, v) :: vs' => if bool_decide (k = name) then v else path_value vs' name
  end.
Definition WithPathValues (vs : list (string * string)) (r : HttpRequest) : HttpRequest :=
  mkHttpRequest (Method r) (URL_Path r) (Segments r) (Header_Get r) (RemoteAddr r) (path_value vs) (rq_ctx r) (rq_rest r).

(** What is done to spans, each named by its number. *)
Inductive span_event : Type :=
  | SpanStarted (n : nat) (name : string) (a : attrs)
  | SpanAttributes (n : nat) (a : attrs)
  | SpanStatus (n : nat) (description : string)
  | SpanEnded (n : nat).

(** The state of the process that one request works on. *)
Record Exchange (W C H : Type) : Type := mkExchange {
  x_engine : W;
  x_metrics : Metrics C H;
  x_lines : list LogLine;
  x_spans : list span_event;
  x_wire : Wire;
  x_rws : list responseWriter;
  x_started : nat;
  x_clock : nat;
  x_uuids : nat
}.
Arguments mkExchange {W C H} _ _ _ _ _ _ _ _ _.
Arguments x_engine {W C H} _.
Arguments x_metrics {W C H} _.
Arguments x_lines {W C H} _.
Arguments x_spans {W C H} _.
Arguments x_wire {W C H} _.
Arguments x_rws {W C H} _.
Arguments x_started {W C H} _.
Arguments x_clock {W C H} _.
Arguments x_uuids {W C H} _.

Section Exchanges.
Context {W C H : Type}.
Abbreviation X := (Exchange W C H).

Definition set_engine (w : W) (x : X) : X :=
  mkExchange w (x_metrics x) (x_lines x) (x_spans x) (x_wire x) (x_rws x) (x_started x) (x_clock x) (x_uuids x).
Definition set_metrics (m : Metrics C H) (x : X) : X :=
  mkExchange (x_engine x) m (x_lines x) (x_spans x) (x_wire x) (x_rws x) (x_started x) (x_clock x) (x_uuids x).
Definition add_lines (l : list LogLine) (x : X) : X :=
  mkExchange (x_engine x) (x_metrics x) (x_lines x ++ l) (x_spans x) (x_wire x) (x_rws x) (x_started x) (x_clock x) (x_uuids x).
Definition add_span (e : span_event) (x : X) : X :=
  mkExchange (x_engine x) (x_metrics x) (x_lines x) (x_spans x ++ [e]) (x_wire x) (x_rws x) (x_started x) (x_clock x) (x_uuids x).
Definition set_wire (wi : Wire) (x : X) : X :=
  mkExchange (x_engine x) (x_metrics x) (x_lines x) (x_spans x) wi (x_rws x) (x_started x) (x_clock x) (x_uuids x).
Definition set_rws (rs : list responseWriter) (x : X) : X :=
  mkExchange (x_engine x) (x_metrics x) (x_lines x) (x_spans x) (x_wire x) rs (x_started x) (x_clock x) (x_uuids x).
Definition next_span (x : X) : X :=
  mkExchange (x_engine x) (x_metrics x) (x_lines x) (x_spans x) (x_wire x) (x_rws x) (1 + x_started x)%nat (x_clock x) (x_uuids x).
Definition next_tick (x : X) : X :=
  mkExchange (x_engine x) (x_metrics x) (x_lines x) (x_spans x) (x_wire x) (x_rws x) (x_started x) (1 + x_clock x)%nat (x_uuids x).
Definition next_uuid (x : X) : X :=
  mkExchange (x_engine x) (x_metrics x) (x_lines x) (x_spans x) (x_wire x) (x_rws x) (x_started x) (x_clock x) (1 + x_uuids x)%nat.

Definition zero_rw : responseWriter := mkResponseWriter 0 0 "".
Definition rw_at (p : nat) (x : X) : responseWriter := default zero_rw (x_rws x !! p).
Definition with_rw (p : nat) (f : responseWriter -> responseWriter) (x : X) : X :=
  set_rws (alter f p (x_rws x)) x.

(** ** responseWriter *)

Definition see_status (code : Z) (rw : responseWriter) : responseWriter :=
  if rw_status rw =? 0 then mkResponseWriter code (rw_bytes rw) (rw_route rw) else rw.

(** [WriteHeader] records the first status and forwards it. *)
Fixpoint WriteHeader (w : writer) (code : Z) : M X unit :=
  match w with
  | Raw => fun x => match raw_WriteHeader code (x_wire x) with
                    | Ok wi => (Ok tt, set_wire wi x)
                    | Err e => (Err e, x)
                    end
  | Wrapped p under => mmodify (with_rw p (see_status code)) ;;! WriteHeader under code
  end.

(** [Write]: the number of bytes written. *)
Fixpoint Write_ (w : writer) (b : string) : M X Z :=
  match w with
  | Raw => fun x => let '(n, wi) := raw_Write b (x_wire x) in (Ok n, set_wire wi x)
  | Wrapped p under =>
      mmodify (with_rw p (see_status StatusOK)) ;;!
      let! n := Write_ under b in
      mmodify (with_rw p (fun rw => mkResponseWriter (rw_status rw) (rw_bytes rw + n) (rw_route rw))) ;;!
      mret n
  end.

(** [w.Header().Set]: a wrapper's header map is that of what it wraps. *)
Definition Header_Set (w : writer) (k v : string) : M X unit := mmodify (fun x => set_wire (set_header k v (x_wire x)) x).

Definition Handler : Type := writer -> HttpRequest -> M X unit.

(** ** The chain *)

Context `{!CounterVec C} `{!HistogramVec H}.
(** The logger; [uuid.NewString]; the propagator's [Extract] and the tracer's
    [Start], on the context of the active span; [time.Now]; how JSON is spelled;
    [debug.Stack]. *)
Context (logger : traceHandler) (NewString : nat -> string).
Context (Extract : (string -> string) -> SpanContext -> SpanContext) (Start : nat -> SpanContext -> SpanContext).
Context (clk : nat -> Time) (json_text : json -> string) (stack : string).

Definition tick : M X Time := fun x => (Ok (clk (x_clock x)), next_tick x).
Definition write_log (l : list LogLine) : M X unit := mmodify (add_lines l).

Definition requestID (next : Handler) : Handler := fun w r =>
  let id := Header_Get r "X-Request-ID" in
  let! id := if bool_decide (id = "") || (128 <? Z.of_nat (String.length id))
             then fun x => (Ok (NewString (x_uuids x)), next_uuid x)
             else mret id in
  Header_Set w "X-Request-ID" id ;;!
  next w (WithContext (WithRequestID (rq_ctx r) id) r).

(** [defer f()]: whatever the body does. *)
Definition deferred (m : M X unit) (f : X -> X) : M X unit := fun x => let '(r, x') := m x in (r, f x').

(** [http.StatusText], of the codes it is asked for. *)
Definition status_texts : list (Z * string) :=
  [(500, "Internal Server Error"); (501, "Not Implemented"); (502, "Bad Gateway"); (503, "Service Unavailable");
   (504, "Gateway Timeout"); (505, "HTTP Version Not Supported"); (506, "Variant Also Negotiates");
   (507, "Insufficient Storage"); (508, "Loop Detected"); (510, "Not Extended"); (511, "Network Authentication Required")].
Definition StatusText (code : Z) : string :=
  default "" (head ((filter (fun ct => ct.1 = code) status_texts).*2)).

Definition tracing (next : Handler) : Handler := fun w r =>
  let! x := mget in
  let n := x_started x in
  let span := Start n (Extract (Header_Get r) (ctx_span (rq_ctx r))) in
  mmodify (fun x => add_span (SpanStarted n (Method r +:+ " " +:+ URL_Path r)
             [("http.method", AttrStr (Method r)); ("http.target", AttrStr (URL_Path r))]) (next_span x)) ;;!
  deferred (
    next w (WithContext (mkLogContext (ctx_id (rq_ctx r)) span) r) ;;!
    match w with
    | Wrapped p _ =>
        let! x := mget in
        let rw := rw_at p x in
        mmodify (add_span (SpanAttributes n [("http.status_code", AttrInt (rw_status rw)); ("http.route", AttrStr (rw_route rw))])) ;;!
        if 500 <=? rw_status rw then mmodify (add_span (SpanStatus n (StatusText (rw_status rw)))) else mret tt
    | Raw => mret tt
    end)
    (add_span (SpanEnded n)).

(** [float64(d.Microseconds())/1000] *)
Definition duration_ms (d : Duration) : float64 := fdiv (of_int (Z.quot d 1000)) (of_int 1000).

Definition observe (next : Handler) : Handler := fun w r =>
  let! start := tick in
  let! x := mget in
  let p := length (x_rws x) in
  mmodify (set_rws (x_rws x ++ [zero_rw])) ;;!
  next (Wrapped p w) r ;;!
  mmodify (with_rw p (see_status StatusOK)) ;;!
  let! x := mget in
  let rw := rw_at p x in
  let route := if bool_decide (rw_route rw = "") then "unmatched" else rw_route rw in
  let! t := tick in
  let d := Sub t start in
  mmodify (fun x => set_metrics (ObserveHTTP route (Method r) (rw_status rw) d (x_metrics x)) x) ;;!
  if bool_decide (route ∈ ["GET /metrics"; "GET /healthz"; "GET /readyz"]) then mret tt
  else write_log (InfoContext logger (rq_ctx r) "http request"
         [("method", AttrStr (Method r)); ("path", AttrStr (URL_Path r)); ("route", AttrStr route);
          ("status", AttrInt (rw_status rw)); ("bytes", AttrInt (rw_bytes rw));
          ("duration_ms", AttrFloat (duration_ms d)); ("remote", AttrStr (RemoteAddr r))]).

(** [writeJSON]: a value that cannot be encoded leaves the body empty. *)
Definition respond (w : writer) (rsp : Response) : M X unit :=
  Header_Set w "Content-Type" "application/json" ;;!
  WriteHeader w (rs_status rsp) ;;!
  match rs_body rsp with
  | Ok j => let! n := Write_ w (json_text j +:+ bytes [10%nat]) in mret tt
  | Err _ => mret tt
  end.

Definition recoverer (next : Handler) : Handler := fun w r x =>
  match next w r x with
  | (Ok _, x') => (Ok tt, x')
  | (Err e, x') =>
      (write_log (ErrorContext logger (rq_ctx r) "panic recovered" [("panic", AttrStr (error_text e)); ("stack", AttrStr stack)]) ;;!
       respond w (writeError StatusInternalServerError "internal error")) x'
  end.

(** [Handler]. *)
Definition chain (core : Handler) : Handler := recoverer (requestID (tracing (observe core))).

(** ** The mux *)

(** A pattern: its method, and what each segment of the path must be. *)
Inductive segment : Type :=
  | Literal (s : string)
  | Wildcard (name : string).

(** A wildcard takes any segment but the empty one after a trailing slash. *)
Fixpoint match_path (pat : list segment) (path : list string) : option (list (string * string)) :=
  match pat, path with
  | [], [] => Some []
  | Literal s :: pat', x :: path' => if bool_decide (s = x) then match_path pat' path' else None
  | Wildcard name :: pat', x :: path' =>
      if bool_decide (x = "") then None else (cons (name, x)) <$> match_path pat' path'
  | _, _ => None
  end.

(** A pattern with the method [GET] also matches [HEAD]. *)
Definition match_method (pat m : string) : bool :=
  bool_decide (pat = m) || (bool_decide (pat = "GET") && bool_decide (m = "HEAD")).

Definition parse_segment (s : string) : segment :=
  match s with
  | String.String c s' => if bool_decide (c = byte 123) then Wildcard (str_take (String.length s' - 1) s') else Literal s
  | "" => Literal s
  end.
(** ["METHOD /path"]. *)
Definition parse_pattern (pat : string) : string * list segment :=
  match Split (byte 32) pat with
  | [method; path] => (method, parse_segment <$> tail (Split (byte 47) path))
  | _ => ("", [])
  end.

(** A registration: a pattern and its handler. *)
Record registration : Type := mkRegistration { rg_pattern : string; rg_handler : Handler }.
Definition rg_method (g : registration) : string := (parse_pattern (rg_pattern g)).1.
Definition rg_path (g : registration) : list segment := (parse_pattern (rg_pattern g)).2.

(** [http.Error]. *)
Definition Error_ (w : writer) (msg : string) (code : Z) : M X unit :=
  Header_Set w "Content-Type" "text/plain; charset=utf-8" ;;!
  Header_Set w "X-Content-Type-Options" "nosniff" ;;!
  WriteHeader w code ;;!
  let! n := Write_ w (msg +:+ bytes [10%nat]) in mret tt.

(** The methods that the patterns for a path allow, sorted. *)
Definition allowed_methods (regs : list registration) (path : list string) : list string :=
  let ms := rg_method <$> filter (fun g => is_Some (match_path (rg_path g) path)) regs in
  sort_Strings (remove_dups (ms ++ (if bool_decide ("GET" ∈ ms) then ["HEAD"] else []))).

(** [ServeMux.ServeHTTP] on a clean path. No two patterns the program registers
    match the same request, so the order does not matter. *)
Definition ServeMux (regs : list registration) : Handler := fun w r =>
  match omap (fun g => if match_method (rg_method g) (Method r)
                       then (fun vs => (g, vs)) <$> match_path (rg_path g) (Segments r) else None) regs with
  | (g, vs) :: _ => rg_handler g w (WithPathValues vs r)
  | [] =>
      match allowed_methods regs (Segments r) with
      | [] => Error_ w "404 page not found" StatusNotFound
      | ms => Header_Set w "Allow" (strings_Join ms ", ") ;;! Error_ w "Method Not Allowed" 405
      end
  end.

(** [route]. *)
Definition route (pattern : string) (h : Handler) : Handler := fun w r =>
  match w with
  | Wrapped p _ => mmodify (with_rw p (fun rw => mkResponseWriter (rw_status rw) (rw_bytes rw) pattern)) ;;! h w r
  | Raw => h w r
  end.
End Exchanges.

(** ** The server *)

Section Server.
Context `{Sha256} `{BreakClassifier} `{JSONText} {S : Type} `{Repository S} `{StoreReads S}.
Context {C Hg : Type} `{!CounterVec C} `{!HistogramVec Hg}.
Context (cfg : Config) (Version : string) (Ready : option (Time -> option error)).
Context (logger : traceHandler) (NewString : nat -> string).
Context (Extract : (string -> string) -> SpanContext -> SpanContext) (Start : nat -> SpanContext -> SpanContext).
Context (clk : nat -> Time) (json_text : json -> string) (stack : string).

Abbreviation X := (Exchange (World S) C Hg).

(** A handler of Http.v behind its route: what it does to the engine, then what
    it writes. *)
Abbreviation Serving := (Handler (W := World S) (C := C) (H := Hg)).
Abbreviation Registration := (registration (W := World S) (C := C) (H := Hg)).

Definition serve (mk : (string -> string) -> Route) : Serving := fun w r x =>
  match handle cfg Version Ready (mk (PathValue r)) (rq_rest r) (x_engine x) with
  | (Ok (Some rsp), e) => respond json_text w rsp (set_engine e x)
  | (Ok None, e) => (Ok tt, set_engine e x)
  | (Err err, e) => (Err err, set_engine e x)
  end.

(** [s.route(pattern, h)] *)
Definition routed (pattern : string) (mk : (string -> string) -> Route) : Registration :=
  mkRegistration pattern (route pattern (serve mk)).

(** [New]: the metrics library's handler is registered without [route]. *)
Definition New (metrics_page : Serving) : list Registration :=
  [routed "GET /healthz" (fun _ => GetHealthz);
   routed "GET /readyz" (fun _ => GetReadyz);
   mkRegistration "GET /metrics" metrics_page;
   routed "POST /v1/legs" (fun _ => PostLegs);
   routed "GET /v1/breaks" (fun _ => ListBreaksRoute);
   routed "GET /v1/breaks/{id}" (fun v => GetBreakRoute (v "id"));
   routed "POST /v1/breaks/{id}/resolve" (fun v => ResolveRoute (v "id"));
   routed "GET /v1/matches/{id}" (fun v => GetMatchRoute (v "id"));
   routed "GET /v1/legs/{id}" (fun v => GetLegRoute (v "id"));
   routed "GET /v1/stats" (fun _ => StatsRoute);
   routed "GET /v1/events" (fun _ => EventsRoute);
   routed "POST /v1/replay" (fun _ => ReplayRoute);
   routed "POST /v1/windows/close" (fun _ => CloseRoute)].

Definition ServeHTTP (metrics_page : Serving) : Serving :=
  chain logger NewString Extract Start clk json_text stack (ServeMux (New metrics_page)).
End Server.
