(* ===== verification/EngineSpec.v ===== *)
(** * The engine: abstract specification

    What one engine step does to the abstract store and the index, without the
    monad, the errors and the store's implementation: the six outcomes of an
    ingested leg, the expiry of a leg and the resolution of a break. EngineRefine.v
    shows that the code of Engine.v does exactly this; EngineInv.v shows that
    these steps keep the invariant. *)

From S2P Require Export Engine.

Section Spec.
Context `{Sha256} `{BreakClassifier} `{Fidelity} (cfg : Config).

(** The matches allowed for a leg against the open legs; the theorems use
    [rule_match (rules cfg)]. *)
Variable allowed : Index -> Leg -> Match -> Prop.

Definition broken (bid : string) (l : Leg) : Leg := set_state LegBroken (MatchID l) bid l.
Definition matched (mid : string) (l : Leg) : Leg := set_state LegMatched mid (BreakID l) l.

(** The break [openBreak] records. *)
Definition break_of (t : Time) (trigger : string) (related legs : list Leg) : Break :=
  let c := Classify (mkClassifyInput legs related trigger (rules cfg)) in
  let first := default zero_leg (head legs) in
  mkBreak (DeriveID "brk" (ID <$> legs)) (ID <$> legs) (Currency first) (Counterparty first)
    (c_Category c) (c_Confidence c) (c_ClassifierID c) trigger BreakOpen t None (c_Evidence c) "" 0.

Definition event (typ : string) (t : Time) (agg : string) (j : json) : Event := mkEvent 0 typ t agg j.

(** The match of a late arrival. *)
Definition late_match (t : Time) (l r : Leg) : Match :=
  set_MatchedAt t
    (pair l r TierTolerant RuleT2Late
       (fsub (tolerantConfidence (sub64 (AmountMinor r) (AmountMinor l))
                                 (Tolerance (rules cfg) (AmountMinor l)))
             (fconst (5 # 100)))).

Definition late_resolution (t : Time) (b : Break) : Break :=
  resolve t ("late arrival matched by " +:+ RuleT2Late) "system" b.

Definition open_break (t : Time) (trigger : string) (related legs : list Leg) (pre : list Event)
    (j : json) : ChangeSet :=
  let b := break_of t trigger related legs in
  mkChangeSet (broken (b_ID b) <$> legs) [] [b] (pre ++ [event EvBreakOpened t (b_ID b) j]).

Definition partners_of (i : Index) (l : Leg) (m : Match) : list Leg :=
  (fun id => default zero_leg (ix_Get i id)) <$> filter (fun id => id <> ID l) (m_LegIDs m).

(** The persisted legs with the reference of [l]. *)
Definition sharing_ref (v : View) (ref : string) : list Leg :=
  filter (fun c => TxnRef c = ref) (values (v_legs v)).

(** One unseen leg [l], at time [t], the log entries [pre] already in the
    change set: the result, the change set applied and the index left. *)
Inductive outcome (v : View) (i : Index) (t : Time) (pre : list Event) (l : Leg)
    : IngestResult -> ChangeSet -> Index -> Prop :=
  | out_reused related r j :
      related ≡ₚ sharing_ref v (TxnRef l) ->
      r ∈ related -> Source r = Source l ->
      marshal_break (break_of t TriggerDuplicate related [l]) = Ok j ->
      outcome v i t pre l
        (mkIngestResult (ID l) OutcomeBreak "" (b_ID (break_of t TriggerDuplicate related [l])) "")
        (open_break t TriggerDuplicate related [l] pre j) i
  | out_match (m : Match) j :
      (forall r, r ∈ sharing_ref v (TxnRef l) -> Source r <> Source l) ->
      allowed i l m ->
      marshal_match (set_MatchedAt t m) = Ok j ->
      outcome v i t pre l
        (mkIngestResult (ID l) OutcomeMatched (m_ID m) "" (m_RuleID m))
        (mkChangeSet (matched (m_ID m) l :: (matched (m_ID m) <$> partners_of i l m))
           [set_MatchedAt t m] [] (pre ++ [event EvMatchCreated t (m_ID m) j]))
        (ix_Remove i (m_LegIDs m))
  | out_conflict related partners j :
      related ≡ₚ sharing_ref v (TxnRef l) ->
      (forall r, r ∈ related -> Source r <> Source l) ->
      (forall c, partner (rules cfg) i l c -> TxnRef c = TxnRef l ->
         Tolerance (rules cfg) (AmountMinor l) < gap l c) ->
      partners = ByRef i l -> partners <> [] ->
      marshal_break (break_of t TriggerRefConflict related (l :: partners)) = Ok j ->
      outcome v i t pre l
        (mkIngestResult (ID l) OutcomeBreak "" (b_ID (break_of t TriggerRefConflict related (l :: partners))) "")
        (open_break t TriggerRefConflict related (l :: partners) pre j)
        (foldl (fun i p => ix_Remove i [ID p]) i partners)
  | out_healed r b j1 j2 :
      ByRef i l = [] ->
      r ∈ sharing_ref v (TxnRef l) -> late_candidate cfg l r = true ->
      v_breaks v !! BreakID r = Some b -> b_Status b = BreakOpen -> length (b_LegIDs b) = 1%nat ->
      marshal_match (late_match t l r) = Ok j1 ->
      marshal_resolution (mkResolutionPayload (b_ID b) (b_Reason (late_resolution t b))
                            "system" t (m_ID (late_match t l r))) = Ok j2 ->
      outcome v i t pre l
        (mkIngestResult (ID l) OutcomeResolvedBreak (m_ID (late_match t l r)) (b_ID b) RuleT2Late)
        (mkChangeSet
           [matched (m_ID (late_match t l r)) l; set_state LegMatched (m_ID (late_match t l r)) "" r]
           [late_match t l r] [late_resolution t b]
           (pre ++ [event EvMatchCreated t (m_ID (late_match t l r)) j1;
                    event EvBreakResolved t (b_ID b) j2])) i
  | out_refused related r j :
      related ≡ₚ sharing_ref v (TxnRef l) ->
      (forall c, c ∈ related -> Source c <> Source l) ->
      ByRef i l = [] -> r ∈ related ->
      marshal_break (break_of t TriggerRefConflict related [l]) = Ok j ->
      outcome v i t pre l
        (mkIngestResult (ID l) OutcomeBreak "" (b_ID (break_of t TriggerRefConflict related [l])) "")
        (open_break t TriggerRefConflict related [l] pre j) i
  | out_open :
      sharing_ref v (TxnRef l) = [] -> ByRef i l = [] ->
      outcome v i t pre l
        (mkIngestResult (ID l) OutcomeOpen "" "" "")
        (mkChangeSet [set_state LegOpen (MatchID l) (BreakID l) l] [] [] pre)
        (ix_Add i (set_state LegOpen (MatchID l) (BreakID l) l)).

(** [if l.IngestedAt.IsZero() { l.IngestedAt = now }] *)
Definition arrive (t : Time) (l : Leg) : Leg :=
  if IsZero (IngestedAt l) then set_IngestedAt t l else l.

(** The log entry of an arrival: none while replaying. *)
Definition arrival (replaying : bool) (typ : string) (t : Time) (l : Leg) (evs : list Event) : Prop :=
  if replaying then evs = []
  else exists j, marshal_leg l = Ok j /\ evs = [event typ t (ID l) j].

(** One ingested leg. *)
Inductive ingest_step (v : View) (i : Index) (replaying : bool) (t : Time) (l : Leg)
    : IngestResult -> View -> Index -> Prop :=
  | step_duplicate evs v' :
      is_Some (v_legs v !! ID l) -> arrival replaying EvLegDuplicate t l evs ->
      applied (mkChangeSet [] [] [] evs) v v' ->
      ingest_step v i replaying t l (mkIngestResult (ID l) OutcomeDuplicate "" "" "") v' i
  | step_new pre r cs v' i' :
      v_legs v !! ID l = None -> arrival replaying EvLegIngested t l pre ->
      outcome v i t pre l r cs i' -> applied cs v v' ->
      ingest_step v i replaying t l r v' i'.

(** One expired leg. *)
Inductive expire_step (v : View) (i : Index) (t : Time) (l : Leg) : View -> Index -> Prop :=
  | step_expire related forced j v' :
      byID i !! ID l = Some l ->
      related ≡ₚ sharing_ref v (TxnRef l) ->
      marshal_break (break_of t TriggerWindowExpired related [l]) = Ok j ->
      applied (open_break t TriggerWindowExpired related [l]
                 [event EvLegExpired t (ID l) (expired_payload (ID l) forced)] j) v v' ->
      expire_step v i t l v' (ix_Remove i [ID l]).

(** The log entry of a resolution. *)
Definition resolution_entry (at_ : Time) (e : Event) : Prop :=
  ev_Type e = EvBreakResolved /\ exists p, marshal_resolution p = Ok (ev_Payload e) /\ rp_At p = at_.

(** One resolved break; [evs] is empty when replaying a resolution. *)
Inductive resolve_step (v : View) (at_ : Time) (id reason actor : string) : View -> Prop :=
  | step_resolve b evs v' :
      v_breaks v !! id = Some b -> b_Status b <> BreakResolved ->
      Forall (resolution_entry at_) evs ->
      applied (mkChangeSet [] [] [resolve at_ reason actor b] evs) v v' ->
      resolve_step v at_ id reason actor v'.
End Spec.

(** ** The partners of a match *)

Section Partners.
Context `{Sha256} (rules : Rules) (i : Index) (l : Leg) (m : Match) (anchor : Leg) (group partners : list Leg).
Context (Hwf : ix_wf i) (Hf : byID i !! ID l = None).
Context (Hrc : reconciles rules i l m anchor group partners).

Lemma match_ids id : id ∈ m_LegIDs m <-> id = ID l \/ exists c, c ∈ partners /\ ID c = id.
Proof.
  rewrite (rc_ids _ _ _ _ _ _ _ Hrc), elem_of_sort_Strings, (rc_legs _ _ _ _ _ _ _ Hrc).
  rewrite list_elem_of_fmap. setoid_rewrite elem_of_cons. naive_solver.
Qed.

Lemma partner_get c : c ∈ partners -> ix_Get i (ID c) = Some c /\ ID c <> ID l.
Proof.
  intros Hc. pose proof (rc_open _ _ _ _ _ _ _ Hrc c Hc) as Ho. split; [done|].
  intros Heq. rewrite Heq in Ho. congruence.
Qed.

Lemma elem_of_partners_of c : c ∈ partners_of i l m <-> c ∈ partners.
Proof.
  unfold partners_of. rewrite list_elem_of_fmap. split.
  - intros (id & -> & [Hne Hid]%list_elem_of_filter). apply match_ids in Hid as [|(x & Hx & <-)]; [done|].
    by rewrite (proj1 (partner_get x Hx)).
  - intros Hc. destruct (partner_get c Hc) as [Hg Hne]. exists (ID c). rewrite Hg. split; [done|].
    apply list_elem_of_filter. split; [done|]. apply match_ids. right. by exists c.
Qed.

Lemma partners_of_ids : ID <$> partners_of i l m = filter (fun id => id <> ID l) (m_LegIDs m).
Proof.
  unfold partners_of. rewrite <- list_fmap_compose.
  rewrite <- (list_fmap_id (filter _ _)) at 2. apply list_fmap_ext.
  intros k id Hk%list_elem_of_lookup_2. apply list_elem_of_filter in Hk as [Hne Hid].
  apply match_ids in Hid as [|(x & Hx & <-)]; [done|]. unfold compose.
  by rewrite (proj1 (partner_get x Hx)).
Qed.

Lemma partners_of_NoDup : NoDup (ID <$> partners_of i l m).
Proof. rewrite partners_of_ids. apply NoDup_filter, Hrc. Qed.
End Partners.

(** ** Reasoning about computations *)

Definition run {S A} (m : M S A) (s : S) (Q : result A -> S -> Prop) : Prop := Q (m s).1 (m s).2.

Section Run.
Context {S : Type}.

Lemma run_eq {A} (m : M S A) s r s' Q : run m s Q -> m s = (r, s') -> Q r s'.
Proof. unfold run. intros HQ E. by rewrite E in HQ. Qed.

Lemma run_mono {A} (m : M S A) s (Q Q' : result A -> S -> Prop) :
  run m s Q -> (forall r s', Q r s' -> Q' r s') -> run m s Q'.
Proof. unfold run. auto. Qed.

Lemma run_ret {A} (a : A) (s : S) Q : Q (Ok a) s -> run (mret a) s Q.
Proof. done. Qed.

Lemma run_bind {A B} (m : M S A) (k : A -> M S B) s Q :
  run m s (fun r s' => match r with Ok a => run (k a) s' Q | Err e => Q (Err e) s' end) ->
  run (mbind m k) s Q.
Proof. unfold run, mbind. cbv beta. by destruct (m s) as [[a|e] s']. Qed.

Lemma run_get s (Q : result S -> S -> Prop) : Q (Ok s) s -> run mget s Q.
Proof. done. Qed.

Lemma run_modify f s (Q : result unit -> S -> Prop) : Q (Ok tt) (f s) -> run (mmodify f) s Q.
Proof. done. Qed.

Lemma run_wrap {A} p (m : M S A) s Q :
  run m s (fun r s' => match r with Ok a => Q (Ok a) s' | Err e => Q (Err (ErrWrap p e "")) s' end) ->
  run (mwrap p m) s Q.
Proof. unfold run, mwrap. cbv beta. by destruct (m s) as [[a|e] s']. Qed.

Lemma run_try {A} (m : M S A) s Q : run m s (fun r s' => Q (Ok r) s') -> run (mtry m) s Q.
Proof. unfold run, mtry. cbv beta. by destruct (m s). Qed.

Lemma run_lift {A} (r : result A) (w : World S) (Q : result A -> World S -> Prop) :
  Q r w -> run (lift r) w Q.
Proof. done. Qed.

Lemma run_set_ix i (w : World S) (Q : result unit -> World S -> Prop) :
  Q (Ok tt) (mkWorld (store w) i (replaying w) (ticks w) (polls w) (trace w)) -> run (set_ix i) w Q.
Proof. done. Qed.
End Run.

(** One step of a computation. *)
Ltac step :=
  cbv beta iota zeta;
  lazymatch goal with
  | |- run (mbind _ _) _ _ => apply run_bind; step
  | |- run (mret _) _ _ => apply run_ret
  | |- run mget _ _ => apply run_get
  | |- run (mwrap _ _) _ _ => apply run_wrap
  | |- run (mtry _) _ _ => apply run_try
  | |- run (lift _) _ _ => apply run_lift
  | |- run (set_ix _) _ _ => apply run_set_ix
  | |- run _ _ _ => idtac
  end; cbv beta iota zeta.
