(* ===== verification/EngineRefine.v ===== *)
(** * The engine refines its specification

    The monadic code of Engine.v, over any store that satisfies the repository
    laws, performs the steps of EngineSpec.v; when it returns an error, the
    stored view and the index are as they were. *)

From S2P Require Export EngineSpec.

Section Refine.
Context `{Sha256} `{BreakClassifier} {S : Type} `{RepositoryLaws S} (cfg : Config).

Abbreviation W := (World S).
Abbreviation vw w := (view (store w)).

(** Nothing the specification talks about has changed. *)
Record quiet (w w' : W) : Prop := {
  q_ok : repo_ok (store w');
  q_view : vw w' = vw w;
  q_ix : ix w' = ix w;
  q_replaying : replaying w' = replaying w
}.

Lemma quiet_refl w : repo_ok (store w) -> quiet w w.
Proof. by constructor. Qed.

Lemma quiet_trans w1 w2 w3 : quiet w1 w2 -> quiet w2 w3 -> quiet w1 w3.
Proof. intros [] []. constructor; congruence. Qed.

(** ** The primitive steps *)

Lemma run_repo {A} (m : M S A) w Q :
  run m (store w) (fun r s' => Q r (mkWorld s' (ix w) (replaying w) (ticks w) (polls w) (trace w))) ->
  run (repo m) w Q.
Proof. unfold run, repo. by destruct (m (store w)). Qed.

Lemma run_now w (Q : result Time -> W -> Prop) : repo_ok (store w) ->
  (forall w', quiet w w' -> Q (Ok (clock cfg (ticks w))) w') -> run (now cfg) w Q.
Proof. intros Hw HQ. apply HQ. by constructor. Qed.

Lemma run_poll w (Q : result (option error) -> W -> Prop) : repo_ok (store w) ->
  (forall o w', quiet w w' -> Q (Ok o) w') -> run (poll cfg) w Q.
Proof. intros Hw HQ. apply HQ. by constructor. Qed.

Lemma run_call b h w (Q : result unit -> W -> Prop) : repo_ok (store w) ->
  (forall w', quiet w w' -> Q (Ok tt) w') -> run (call b h) w Q.
Proof. intros Hw HQ. apply HQ. by constructor. Qed.

Lemma run_notifyOpen w (Q : result unit -> W -> Prop) : repo_ok (store w) ->
  (forall w', quiet w w' -> Q (Ok tt) w') -> run (notifyOpen cfg) w Q.
Proof. intros Hw HQ. unfold notifyOpen. apply run_bind, run_get, run_call; [done|]. apply HQ. Qed.

(** A repository read, given its law. *)
Lemma run_read {A} (m : M S A) (P : result A -> Prop) w Q :
  (forall r s', m (store w) = (r, s') -> repo_ok s' /\ view s' = vw w /\ P r) ->
  (forall r w', quiet w w' -> P r -> Q r w') -> run (repo m) w Q.
Proof.
  intros Hm HQ. apply run_repo. unfold run. destruct (m (store w)) as [r s'] eqn:E.
  destruct (Hm r s' eq_refl) as (Hok & Hv & HP). apply HQ; [|done]. by constructor.
Qed.

Lemma run_HasLeg id w Q : repo_ok (store w) ->
  (forall e w', quiet w w' -> Q (Err e) w') ->
  (forall w', quiet w w' -> Q (Ok (bool_decide (is_Some (v_legs (vw w) !! id)))) w') ->
  run (repo (HasLeg id)) w Q.
Proof.
  intros Hw He Ho. eapply run_read; [intros r s' E; exact (HasLeg_law id _ r s' Hw E)|].
  intros [b|e] w' Hq Hb; [|by apply He]. rewrite (Hb b eq_refl). by apply Ho.
Qed.

Lemma run_LegsByTxnRef ref w Q : repo_ok (store w) ->
  (forall e w', quiet w w' -> Q (Err e) w') ->
  (forall ls w', quiet w w' -> ls ≡ₚ sharing_ref (vw w) ref -> Q (Ok ls) w') ->
  run (repo (LegsByTxnRef ref)) w Q.
Proof.
  intros Hw He Ho. eapply run_read; [intros r s' E; exact (LegsByTxnRef_law ref _ r s' Hw E)|].
  intros [ls|e] w' Hq Hls; [|by apply He]. apply Ho; [done|]. by apply Hls.
Qed.

Lemma run_GetBreak id w Q : repo_ok (store w) ->
  (forall e w', quiet w w' -> Q (Err e) w') ->
  (forall b w', quiet w w' -> v_breaks (vw w) !! id = Some b -> Q (Ok b) w') ->
  run (repo (GetBreak id)) w Q.
Proof.
  intros Hw He Ho. eapply run_read; [intros r s' E; exact (GetBreak_law id _ r s' Hw E)|].
  intros [b|e] w' Hq Hb; [|by apply He]. apply Ho; [done|]. by apply Hb.
Qed.

Lemma run_Apply cs w Q : repo_ok (store w) -> cs_ok (vw w) cs ->
  (forall e w', quiet w w' -> Q (Err e) w') ->
  (forall w', repo_ok (store w') -> applied cs (vw w) (vw w') -> ix w' = ix w ->
     replaying w' = replaying w -> Q (Ok tt) w') ->
  run (repo (Apply cs)) w Q.
Proof.
  intros Hw Hcs He Ho. apply run_repo. unfold run.
  destruct (Apply cs (store w)) as [r s'] eqn:E. cbn [fst snd].
  destruct (Apply_law cs _ r s' Hw Hcs E) as [Hok Hr]. destruct r as [[]|e].
  - by apply Ho.
  - apply He. by constructor.
Qed.

(** Asking the store leaves everything the specification sees alone. *)
Lemma exists_ref_quiet ref src s r s' : repo_ok s -> exists_ref ref src s = (r, s') ->
  repo_ok s' /\ view s' = view s.
Proof.
  intros Hs. unfold exists_ref. destruct (LegsByTxnRef ref s) as [[ls|e] s1] eqn:E;
    intros [= <- <-]; destruct (LegsByTxnRef_law ref s _ _ Hs E) as (Hok & Hv & _); done.
Qed.

Lemma find_quiet l i s r s' : repo_ok s ->
  find (rules cfg) l i (Some exists_ref) s = (r, s') ->
  repo_ok s' /\ view s' = view s /\ exists o, r = Ok o.
Proof.
  intros Hs. unfold find. destruct (tier1 _ _); [intros [= <- <-]; eauto|].
  destruct (tier2Ref _ _ _); [intros [= <- <-]; eauto|]. cbv zeta. unfold mbind at 1.
  assert (exists o s1, tier2AmountDate (rules cfg) l (inWindow (rules cfg) l (Candidates i l)) i
            (Some exists_ref) s = (Ok o, s1) /\ repo_ok s1 /\ view s1 = view s) as (o & s1 & -> & Hok & Hv).
  { unfold tier2AmountDate. destruct (filterLegs _ _) as [|c [|]]; [by eauto 6| |by eauto 6].
    destruct (existsb _ _); [by eauto 6|]. unfold mbind.
    assert (forall ref src s0, exists b s1, exists_ref ref src s0 = (Ok b, s1)) as Hex.
    { intros ref src s0. unfold exists_ref. destruct (LegsByTxnRef ref s0) as [[]]; eauto. }
    destruct (Hex (TxnRef c) (Source l) s) as (b1 & s1 & E1). rewrite E1.
    destruct (exists_ref_quiet _ _ _ _ _ Hs E1) as [Hok1 Hv1]. destruct b1; [by eauto 6|].
    destruct (Hex (TxnRef l) (Source c) s1) as (b2 & s2 & E2). rewrite E2.
    destruct (exists_ref_quiet _ _ _ _ _ Hok1 E2) as [Hok2 Hv2].
    destruct b2; eexists _, _; (split; [reflexivity|]); split; [done|congruence|done|congruence]. }
  destruct o; intros [= <- <-]; eauto.
Qed.

(** ** What a finished computation establishes *)

Definition settled {A} (w : W) (P : A -> View -> Index -> Prop) (r : result A) (w' : W) : Prop :=
  repo_ok (store w') /\ replaying w' = replaying w /\
  match r with
  | Ok a => P a (vw w') (ix w')
  | Err _ => vw w' = vw w /\ ix w' = ix w
  end.

Lemma settled_quiet {A} w w1 (P : A -> View -> Index -> Prop) r w' :
  quiet w w1 -> settled w1 P r w' -> settled w P r w'.
Proof.
  intros [_ Hv Hi Hr] (Hok & Hrep & HP). split; [done|]. split; [congruence|].
  destruct r; [done|]. destruct HP. split; congruence.
Qed.

Lemma settled_err {A} w (P : A -> View -> Index -> Prop) e w' : quiet w w' -> settled w P (Err e) w'.
Proof. intros [? ? ? ?]. by split_and!. Qed.

(** The state an unseen leg is ingested in. *)
Record ready (w : W) (l : Leg) : Prop := {
  rd_ok : repo_ok (store w);
  rd_ix : ix_wf (ix w);
  rd_rules : sane_rules (rules cfg);
  rd_amounts : amounts_ok (ix w);
  rd_sub : forall id x, byID (ix w) !! id = Some x -> v_legs (vw w) !! id = Some x;
  rd_amount : amount_ok (AmountMinor l);
  rd_ref : TxnRef l <> "";
  rd_fits : leg_fits l;
  (* the identifiers an unseen leg leads to are new *)
  rd_match m : v_legs (vw w) !! ID l = None -> rule_match (rules cfg) (ix w) l m ->
    v_matches (vw w) !! m_ID m = None;
  rd_late t r : v_legs (vw w) !! ID l = None -> r ∈ sharing_ref (vw w) (TxnRef l) ->
    v_matches (vw w) !! m_ID (late_match cfg t l r) = None;
  rd_break ps : v_legs (vw w) !! ID l = None -> (forall c, c ∈ ps -> byID (ix w) !! ID c = Some c) ->
    NoDup (ID <$> l :: ps) -> v_breaks (vw w) !! DeriveID "brk" (ID <$> l :: ps) = None
}.

Lemma ready_quiet w w' l : ready w l -> quiet w w' -> ready w' l.
Proof.
  intros [] [? Hv Hi _]. constructor; try setoid_rewrite Hv; try setoid_rewrite Hi; done.
Qed.

Lemma ready_fresh w l : ready w l -> v_legs (vw w) !! ID l = None -> byID (ix w) !! ID l = None.
Proof.
  intros Hr Hn. destruct (byID (ix w) !! ID l) eqn:E; [|done]. apply (rd_sub _ _ Hr) in E. congruence.
Qed.

Lemma settlementKey_ne l : TxnRef l <> "" -> settlementKey l <> "".
Proof. intros Hr. unfold settlementKey. cbv zeta. by case_bool_decide. Qed.

Abbreviation only pre := (mkChangeSet [] [] [] pre).

Lemma openBreak_eq pre t trigger related ls :
  openBreak cfg (only pre) t trigger related ls =
  match marshal_break (break_of cfg t trigger related ls) with
  | Ok j => Ok (open_break cfg t trigger related ls pre j, break_of cfg t trigger related ls)
  | Err e => Err (ErrWrap ("marshal " +:+ EvBreakOpened +:+ " payload: ") e "")
  end.
Proof.
  unfold openBreak. cbv zeta. fold (break_of cfg t trigger related ls).
  unfold addEvent, NewEvent. by destruct (marshal_break _).
Qed.

(** Change sets that fit the store: no more than one match and one break, both
    new or, for the break, one that is there. *)
Definition at_time (t : Time) (evs : list Event) : Prop := Forall (fun e => ev_At e = t) evs.

Lemma cs_ok_intro v ls om ob evs t : exact_time t -> at_time t evs ->
  NoDup (ID <$> ls) ->
  (forall x, x ∈ ls -> match v_legs v !! ID x with Some x0 => leg_kept x0 x | None => leg_fits x end) ->
  (forall m, om = Some m -> v_matches v !! m_ID m = None /\ match_fits m) ->
  (forall b, ob = Some b -> match v_breaks v !! b_ID b with Some b0 => break_kept b0 b | None => break_fits b end) ->
  cs_ok v (mkChangeSet ls (option_list om) (option_list ob) evs).
Proof.
  intros Ht He Hnd Hls Hm Hb. constructor; cbn [cs_Legs cs_Matches cs_Breaks cs_Events]; [done|done| | | | |].
  - destruct om; [apply NoDup_singleton|constructor].
  - intros m Hin. apply Hm. destruct om; [|by apply not_elem_of_nil in Hin]. by apply list_elem_of_singleton in Hin as ->.
  - destruct ob; [apply NoDup_singleton|constructor].
  - intros b Hin. apply Hb. destruct ob; [|by apply not_elem_of_nil in Hin]. by apply list_elem_of_singleton in Hin as ->.
  - eapply Forall_impl; [exact He|]. by intros e ->.
Qed.

Lemma leg_fits_state s m b l : leg_fits l -> leg_fits (set_state s m b l).
Proof. by intros []. Qed.

Lemma cs_ok_open v l pre t s m b : exact_time t -> at_time t pre -> leg_fits l -> v_legs v !! ID l = None ->
  cs_ok v (mkChangeSet [set_state s m b l] [] [] pre).
Proof.
  intros Ht Hpre Hl Hn. apply (cs_ok_intro v [set_state s m b l] None None pre t); try done.
  - apply NoDup_singleton.
  - intros x ->%list_elem_of_singleton. change (ID (set_state s m b l)) with (ID l). rewrite Hn. by apply leg_fits_state.
Qed.

Lemma cs_ok_events v evs t : exact_time t -> at_time t evs -> cs_ok v (mkChangeSet [] [] [] evs).
Proof.
  intros Ht He. apply (cs_ok_intro v [] None None evs t); try done; [constructor|].
  intros x Hx. by apply not_elem_of_nil in Hx.
Qed.

Lemma cs_ok_resolve v id b t reason actor evs : exact_time t -> at_time t evs -> keyed_breaks (v_breaks v) ->
  v_breaks v !! id = Some b -> cs_ok v (mkChangeSet [] [] [resolve t reason actor b] evs).
Proof.
  intros Ht He Hk Hb. apply (cs_ok_intro v [] None (Some (resolve t reason actor b)) evs t); try done; [constructor| |].
  - intros x Hx. by apply not_elem_of_nil in Hx.
  - intros b' [= <-]. change (b_ID (resolve t reason actor b)) with (b_ID b).
    rewrite (Hk _ _ Hb), Hb. by exists t, reason, actor.
Qed.

(** A break over legs of which the first is [l]. *)
Lemma cs_ok_break v t trigger related l ps pre j : exact_time t -> at_time t pre ->
  iso_currency (Currency l) -> NoDup (ID <$> l :: ps) ->
  match v_legs v !! ID l with Some x => x = l | None => leg_fits l end ->
  (forall c, c ∈ ps -> v_legs v !! ID c = Some c) ->
  v_breaks v !! DeriveID "brk" (ID <$> l :: ps) = None ->
  cs_ok v (open_break cfg t trigger related (l :: ps) pre j).
Proof.
  intros Ht Hpre Hccy Hnd Hl Hps Hb. set (b := break_of cfg t trigger related (l :: ps)).
  apply (cs_ok_intro v (broken (b_ID b) <$> l :: ps) None (Some b) _ t); [done| | | |done|].
  - apply Forall_app. split; [done|]. by apply Forall_singleton.
  - by rewrite <- list_fmap_compose.
  - intros x (c & -> & Hc)%list_elem_of_fmap. change (ID (broken (b_ID b) c)) with (ID c).
    apply elem_of_cons in Hc as [->|Hc].
    + destruct (v_legs v !! ID l); [by subst|]. by apply leg_fits_state.
    + by rewrite (Hps c Hc).
  - intros b' [= <-]. change (b_ID b) with (DeriveID "brk" (ID <$> l :: ps)). by rewrite Hb.
Qed.

(** Fire the callbacks that end a step. *)
Ltac calls Hok := repeat (apply run_bind, run_call; [apply Hok|]; intros ? []).

Lemma quiet_settled {A} w w1 (P : A -> View -> Index -> Prop) a :
  quiet w w1 -> replaying w1 = replaying w -> P a (vw w) (ix w) -> settled w P (Ok a) w1.
Proof.
  intros [? Hv Hi Hr] _ HP. split_and!; [done..|]. by rewrite Hv, Hi.
Qed.

(** After a successful [Apply], callbacks only. *)
Lemma applied_settled {A} w w1 w2 (P : A -> View -> Index -> Prop) a :
  replaying w1 = replaying w -> quiet w1 w2 -> P a (vw w1) (ix w1) -> settled w P (Ok a) w2.
Proof.
  intros Hrep [? Hv Hi Hr] HP. split; [done|]. split; [congruence|]. by rewrite Hv, Hi.
Qed.

Definition done_step (t : Time) (pre : list Event) (l : Leg) (w : W)
    (res : IngestResult) (v' : View) (i' : Index) : Prop :=
  exists cs, outcome cfg (rule_match (rules cfg)) (vw w) (ix w) t pre l res cs i' /\
             applied cs (vw w) v'.

(** ** The branches *)

Lemma ready_cs_ok_break w l ps t trigger related pre j : exact_time t -> at_time t pre -> ready w l ->
  v_legs (vw w) !! ID l = None -> (forall c, c ∈ ps -> byID (ix w) !! ID c = Some c) -> NoDup (ID <$> l :: ps) ->
  cs_ok (vw w) (open_break cfg t trigger related (l :: ps) pre j).
Proof.
  intros Ht Hpre Hr Hn Hps Hnd. apply cs_ok_break; [done|done|apply (rd_fits _ _ Hr)|done| | |].
  - rewrite Hn. apply (rd_fits _ _ Hr).
  - intros c Hc. by apply (rd_sub _ _ Hr), Hps.
  - by apply (rd_break _ _ Hr).
Qed.

Lemma ready_cs_ok_break1 w l t trigger related pre j : exact_time t -> at_time t pre -> ready w l ->
  v_legs (vw w) !! ID l = None -> cs_ok (vw w) (open_break cfg t trigger related [l] pre j).
Proof.
  intros Ht Hpre Hr Hn. apply ready_cs_ok_break; try done; [|apply NoDup_singleton].
  intros c Hc. by apply not_elem_of_nil in Hc.
Qed.

Lemma run_ingest_break pre t trigger related l w : exact_time t -> at_time t pre -> ready w l -> v_legs (vw w) !! ID l = None ->
  (forall j, marshal_break (break_of cfg t trigger related [l]) = Ok j ->
     outcome cfg (rule_match (rules cfg)) (vw w) (ix w) t pre l
       (mkIngestResult (ID l) OutcomeBreak "" (b_ID (break_of cfg t trigger related [l])) "")
       (open_break cfg t trigger related [l] pre j) (ix w)) ->
  run (ingest_break cfg (only pre) t trigger related l) w (settled w (done_step t pre l w)).
Proof.
  intros Ht Hpre Hr Hn Ho. unfold ingest_break. step. rewrite openBreak_eq.
  destruct (marshal_break _) as [j|e]; [|by apply settled_err, quiet_refl, Hr].
  unfold commit. step. apply run_Apply; [apply Hr|by apply ready_cs_ok_break1| |].
  { intros e w1 Hq. by apply settled_err. }
  intros w1 Hok Hap Hix Hrep. step. apply run_call; [done|]. intros w2 Hq.
  cbn [open_break cs_Breaks last fst snd]. step.
  apply run_call; [apply Hq|]. intros w3 Hq3. step.
  eapply applied_settled; [exact Hrep|eapply quiet_trans; [exact Hq|exact Hq3]|].
  rewrite Hix. eexists. split; [by apply Ho|exact Hap].
Qed.

Lemma rule_match_tier i l m : rule_match (rules cfg) i l m -> TierExact <= m_Tier m <= TierManyToOne.
Proof. intros Hm. destruct Hm; cbn; unfold TierExact, TierTolerant, TierManyToOne; lia. Qed.

Lemma run_ingest_match pre t (m : Match) l w : exact_time t -> at_time t pre -> ready w l -> v_legs (vw w) !! ID l = None ->
  (forall r, r ∈ sharing_ref (vw w) (TxnRef l) -> Source r <> Source l) ->
  rule_match (rules cfg) (ix w) l m ->
  run (ingest_match cfg (only pre) t m l) w (settled w (done_step t pre l w)).
Proof.
  intros Ht Hpre Hr Hn Hsrc Hm.
  pose proof (ready_fresh w l Hr Hn) as Hf.
  destruct (rule_match_reconciles (rules cfg) (ix w) l (rd_rules _ _ Hr) (rd_amounts _ _ Hr)
              (rd_amount _ _ Hr) Hf m Hm) as (anchor & group & partners & Hrc).
  unfold ingest_match. step. step.
  unfold addEvent, NewEvent. change (m_ID (set_MatchedAt t m)) with (m_ID m).
  destruct (marshal_match (set_MatchedAt t m)) as [j|e] eqn:Ej;
    [|by apply settled_err, quiet_refl, Hr].
  cbn [add_match add_legs cs_Legs cs_Matches cs_Breaks cs_Events app].
  change (m_LegIDs (set_MatchedAt t m)) with (m_LegIDs m).
  set (legs := _ :: _) at 1.
  assert (legs = matched (m_ID m) l :: (matched (m_ID m) <$> partners_of (ix w) l m)) as ->
    by (unfold legs, partners_of; by rewrite <- list_fmap_compose).
  step. apply run_Apply; [apply Hr| | |].
  - apply (cs_ok_intro _ _ (Some (set_MatchedAt t m)) None _ t); [done| | | | |done].
    + apply Forall_app. split; [done|]. by apply Forall_singleton.
    + cbn. rewrite <- list_fmap_compose. change (NoDup (ID l :: (ID <$> partners_of (ix w) l m))).
      apply NoDup_cons. split; [|exact (partners_of_NoDup _ _ _ _ _ _ _ Hf Hrc)].
      rewrite (partners_of_ids _ _ _ _ _ _ _ Hf Hrc). intros [Hne _]%list_elem_of_filter. done.
    + intros x [->|(c & -> & Hc)%list_elem_of_fmap]%elem_of_cons.
      * change (ID (matched (m_ID m) l)) with (ID l). rewrite Hn. apply leg_fits_state, (rd_fits _ _ Hr).
      * apply (elem_of_partners_of _ _ _ _ _ _ _ Hf Hrc) in Hc.
        apply (rc_open _ _ _ _ _ _ _ Hrc), (rd_sub _ _ Hr) in Hc.
        change (ID (matched (m_ID m) c)) with (ID c). by rewrite Hc.
    + intros m' [= <-]. split; [exact (rd_match _ _ Hr m Hn Hm)|]. constructor; [|exact (rule_match_tier _ _ _ Hm)|done].
      change (iso_currency (m_Currency m)). rewrite (rc_currency _ _ _ _ _ _ _ Hrc). apply (rd_fits _ _ Hr).
  - intros e w1 Hq. by apply settled_err.
  - intros w1 Hok Hap Hix Hrep. step. step. apply run_call; [done|]. intros w2 Hq2.
    step. apply run_call; [apply Hq2|]. intros w3 Hq3. step.
    eapply applied_settled; [|eapply quiet_trans; [exact Hq2|exact Hq3]|].
    + done.
    + cbn [ix store]. eexists. split; [by apply (out_match _ _ _ _ _ _ _ m j)|exact Hap].
Qed.

Lemma elem_of_ByRef (w : W) l c : ix_wf (ix w) ->
  c ∈ ByRef (ix w) l <-> byID (ix w) !! ID c = Some c /\ TxnRef c = TxnRef l /\ ID c <> ID l.
Proof.
  intros Hwf. rewrite ByRef_scan, elem_of_collect, elem_of_values_keyed by
    (done || apply (wf_keyed _ Hwf)).
  rewrite andb_true_iff, !bool_decide_eq_true. tauto.
Qed.

Lemma ByRef_NoDup (w : W) l : ix_wf (ix w) -> NoDup (ID <$> ByRef (ix w) l).
Proof.
  intros Hwf. apply (open_NoDup (ix w)).
  - intros c Hc. by apply elem_of_ByRef in Hc as (Hc & _).
  - rewrite ByRef_scan by done. apply collect_NoDup, (wf_keyed _ Hwf).
Qed.

Lemma run_ingest_conflict pre t related partners l w : exact_time t -> at_time t pre -> ready w l -> v_legs (vw w) !! ID l = None ->
  partners = ByRef (ix w) l ->
  (forall j, marshal_break (break_of cfg t TriggerRefConflict related (l :: partners)) = Ok j ->
     outcome cfg (rule_match (rules cfg)) (vw w) (ix w) t pre l
       (mkIngestResult (ID l) OutcomeBreak "" (b_ID (break_of cfg t TriggerRefConflict related (l :: partners))) "")
       (open_break cfg t TriggerRefConflict related (l :: partners) pre j)
       (foldl (fun i p => ix_Remove i [ID p]) (ix w) partners)) ->
  run (ingest_conflict cfg (only pre) t related partners l) w (settled w (done_step t pre l w)).
Proof.
  intros Ht Hpre Hr Hn Hp Ho. unfold ingest_conflict. step. step. rewrite openBreak_eq.
  destruct (marshal_break _) as [j|e]; [|by apply settled_err, quiet_refl, Hr].
  cbn [fst snd]. step. apply run_Apply; [apply Hr| | |].
  - apply ready_cs_ok_break; [done..| |].
    + rewrite Hp. intros c Hc. apply elem_of_ByRef in Hc as (Hc & _ & _); [done|apply Hr].
    + apply NoDup_cons. rewrite Hp. split; [|by apply ByRef_NoDup, Hr].
      intros (c & Heq & Hc)%list_elem_of_fmap. apply elem_of_ByRef in Hc as (_ & _ & ?); [done|apply Hr].
  - intros e w1 Hq. by apply settled_err.
  - intros w1 Hok Hap Hix Hrep. step. step. apply run_call; [done|]. intros w2 Hq2.
    step. apply run_call; [apply Hq2|]. intros w3 Hq3. step.
    eapply applied_settled; [|eapply quiet_trans; [exact Hq2|exact Hq3]|]; [done|].
    cbn [ix store]. eexists. split; [by apply Ho|exact Hap].
Qed.

Lemma run_heal pre t r b l w : exact_time t -> at_time t pre -> ready w l -> v_legs (vw w) !! ID l = None -> keyed_breaks (v_breaks (vw w)) ->
  keyed (v_legs (vw w)) ->
  ByRef (ix w) l = [] -> r ∈ sharing_ref (vw w) (TxnRef l) -> late_candidate cfg l r = true ->
  v_breaks (vw w) !! BreakID r = Some b -> b_Status b = BreakOpen -> length (b_LegIDs b) = 1%nat ->
  run (heal cfg (only pre) t l r b) w (settled w (done_step t pre l w)).
Proof.
  intros Ht Hpre Hr Hn Hkb Hkl Hnone Hin Hlate Hb Hopen Hlen. unfold heal. step.
  fold (late_match cfg t l r). fold (late_resolution t b).
  unfold addEvent at 1, NewEvent at 1.
  destruct (marshal_match (late_match cfg t l r)) as [j1|e] eqn:E1;
    [|by apply settled_err, quiet_refl, Hr].
  step. unfold addEvent at 1, NewEvent at 1.
  change (b_ID (late_resolution t b)) with (b_ID b).
  change (b_Actor (late_resolution t b)) with "system".
  destruct (marshal_resolution _) as [j2|e] eqn:E2; [|by apply settled_err, quiet_refl, Hr].
  cbn [add_match add_legs add_break cs_Legs cs_Matches cs_Breaks cs_Events app].
  rewrite <- app_assoc. cbn [app].
  pose proof (rd_late _ _ Hr t r Hn Hin) as Hnew.
  apply list_elem_of_filter in Hin as [Href Hin]. pose proof Hin as Hin'.
  apply elem_of_values_keyed in Hin; [|done].
  step. apply run_Apply; [apply Hr| | |].
  - apply (cs_ok_intro _ _ (Some (late_match cfg t l r)) (Some (late_resolution t b)) _ t); [done| | | | |].
    + apply Forall_app. split; [done|]. by repeat constructor.
    + change (NoDup [ID l; ID r]). apply NoDup_cons. split; [|apply NoDup_singleton].
      intros Heq%list_elem_of_singleton. congruence.
    + intros x Hx. apply elem_of_cons in Hx as [->|Hx]; [|apply list_elem_of_singleton in Hx as ->].
      * change (ID (set_state _ _ _ l)) with (ID l). rewrite Hn. apply leg_fits_state, (rd_fits _ _ Hr).
      * change (ID (set_state _ _ _ r)) with (ID r). by rewrite Hin.
    + intros m [= <-]. split; [done|]. constructor; [apply (rd_fits _ _ Hr)|cbn; unfold TierExact, TierTolerant, TierManyToOne; lia|done].
    + intros b' [= <-]. change (b_ID (late_resolution t b)) with (b_ID b). rewrite (Hkb _ _ Hb), Hb.
      by eexists t, _, _.
  - intros e w1 Hq. by apply settled_err.
  - intros w1 Hok Hap Hix Hrep. step. apply run_call; [done|]. intros w2 Hq2.
    step. apply run_call; [apply Hq2|]. intros w3 Hq3. step.
    eapply applied_settled; [exact Hrep|eapply quiet_trans; [exact Hq2|exact Hq3]|].
    rewrite Hix. eexists. split; [|exact Hap].
    apply (out_healed _ _ _ _ _ _ _ r b j1 j2); try done. by apply list_elem_of_filter.
Qed.

(** The loop of step 4: it heals a break, or it leaves everything alone. *)
Lemma run_ingest_late pre t rels l w : exact_time t -> at_time t pre -> ready w l -> v_legs (vw w) !! ID l = None ->
  keyed_breaks (v_breaks (vw w)) -> keyed (v_legs (vw w)) -> ByRef (ix w) l = [] ->
  (forall r, r ∈ rels -> r ∈ sharing_ref (vw w) (TxnRef l)) ->
  run (ingest_late cfg (only pre) t rels l) w
    (settled w (fun o v' i' => match o with
                               | Some res => done_step t pre l w res v' i'
                               | None => v' = vw w /\ i' = ix w
                               end)).
Proof.
  intros Ht Hpre Hr Hn Hkb Hkl Hnone. revert w Hr Hn Hkb Hkl Hnone.
  induction rels as [|r rels IH]; intros w Hr Hn Hkb Hkl Hnone Hin; cbn [ingest_late].
  { step. eapply quiet_settled; [by apply quiet_refl, Hr|done|by split]. }
  assert (forall w1, quiet w w1 -> run (ingest_late cfg (only pre) t rels l) w1
    (settled w (fun o v' i' => match o with
                               | Some res => done_step t pre l w res v' i'
                               | None => v' = vw w /\ i' = ix w
                               end))) as Hrest.
  { intros w1 Hq. pose proof Hq as [Hok Hv Hi Hrep].
    eapply run_mono.
    - apply (IH w1); rewrite ?Hv, ?Hi; try done; [by eapply ready_quiet|].
      intros x Hx. apply Hin. by right.
    - intros o w2 Hs. unfold done_step in *. rewrite Hv, Hi in Hs. by eapply settled_quiet. }
  destruct (late_candidate cfg l r) eqn:Hl; [|by apply Hrest, quiet_refl, Hr].
  step. step. apply run_GetBreak; [apply Hr| |].
  { intros e w1 Hq. by apply Hrest. }
  intros b w1 Hq Hb. cbv beta iota.
  destruct (negb (bool_decide (b_Status b = BreakOpen)) ||
            negb (bool_decide (length (b_LegIDs b) = 1%nat))) eqn:Ec; [by apply Hrest|].
  apply orb_false_iff in Ec as [E1%negb_false_iff%bool_decide_eq_true E2%negb_false_iff%bool_decide_eq_true].
  pose proof Hq as [Hok Hv Hi Hrep]. step.
  eapply run_mono.
  - apply run_heal; rewrite ?Hv, ?Hi; try done; [by eapply ready_quiet|apply Hin; by left].
  - intros [res|e] w2 Hs; unfold done_step in Hs; rewrite Hv, Hi in Hs.
    + step. by eapply settled_quiet.
    + by eapply settled_quiet.
Qed.

Lemma existsb_reused related l w : v_legs (vw w) !! ID l = None -> repo_ok (store w) ->
  related ≡ₚ sharing_ref (vw w) (TxnRef l) ->
  if existsb (fun r => bool_decide (Source r = Source l) && bool_decide (ID r <> ID l)) related
  then exists r, r ∈ related /\ Source r = Source l
  else forall r, r ∈ related -> Source r <> Source l.
Proof.
  intros Hn Hw Hrel. destruct (existsb _ related) eqn:E.
  - apply existsb_exists in E as (r & Hr & Hs). apply list_elem_of_In in Hr.
    apply andb_true_iff in Hs as [Hs%bool_decide_eq_true _]. by exists r.
  - intros r Hr Hs. pose proof (existsb_false _ _ r E Hr) as Hf. cbv beta in Hf.
    rewrite bool_decide_eq_true_2 in Hf by done. cbn [andb] in Hf.
    apply bool_decide_eq_false in Hf. apply Hf. intros Hid.
    rewrite Hrel in Hr. apply list_elem_of_filter in Hr as [_ Hr].
    apply elem_of_values_keyed in Hr; [|apply (vw_legs _ (view_is_wf _ Hw))]. congruence.
Qed.

(** The specification only sees the view and the index. *)
Lemma run_after_quiet w w1 pre t l (m : M W IngestResult) : quiet w w1 ->
  run m w1 (settled w1 (done_step t pre l w1)) -> run m w1 (settled w (done_step t pre l w)).
Proof.
  intros Hq Hm. eapply run_mono; [exact Hm|]. intros r w2 Hs. eapply settled_quiet; [exact Hq|].
  destruct Hq as [_ Hv Hi _]. unfold done_step in *. by rewrite Hv, Hi in Hs.
Qed.

(** Steps 5 and 6. *)
Lemma run_ingest_unmatched pre t related l w : exact_time t -> at_time t pre -> ready w l -> v_legs (vw w) !! ID l = None ->
  related ≡ₚ sharing_ref (vw w) (TxnRef l) -> (forall r, r ∈ related -> Source r <> Source l) ->
  ByRef (ix w) l = [] ->
  run (if existsb (fun r => bool_decide (Source r <> Source l)) related
       then ingest_break cfg (only pre) t TriggerRefConflict related l
       else ingest_open cfg (only pre) l) w (settled w (done_step t pre l w)).
Proof.
  intros Ht Hpre Hr Hn Hrel Hsrc Hby. destruct (existsb _ related) eqn:E.
  - apply existsb_exists in E as (r & Hin & _). apply list_elem_of_In in Hin.
    apply run_ingest_break; [done..|]. intros j Hj. by apply (out_refused _ _ _ _ _ _ _ related r j).
  - assert (related = []) as Hnil.
    { destruct related as [|r related]; [done|]. exfalso. cbn in E. apply orb_false_iff in E as [E _].
      apply bool_decide_eq_false in E. apply E, Hsrc. by left. }
    rewrite Hnil in Hrel. apply Permutation_nil_l in Hrel.
    unfold ingest_open. step. step. cbn [add_legs cs_Legs cs_Matches cs_Breaks cs_Events app].
    step. apply run_Apply; [apply Hr|apply (cs_ok_open _ _ _ t); try done; apply (rd_fits _ _ Hr)| |].
    { intros e w1 Hq. by apply settled_err. }
    intros w1 Hok Hap Hix Hrep. step. step. apply run_call; [done|]. intros w2 Hq2. step.
    eapply applied_settled; [|exact Hq2|]; [done|].
    cbn [ix store]. eexists. split; [by apply (out_open _ _ _ _ _ _ l)|exact Hap].
Qed.

(** A leg that no rule matches, and no open leg shares its reference. *)
Lemma run_ingest_alone pre t related l w : exact_time t -> at_time t pre -> ready w l -> v_legs (vw w) !! ID l = None ->
  related ≡ₚ sharing_ref (vw w) (TxnRef l) -> (forall r, r ∈ related -> Source r <> Source l) ->
  ByRef (ix w) l = [] ->
  run (let! healed := ingest_late cfg (only pre) t related l in
       match healed with
       | Some res => mret res
       | None =>
           if existsb (fun r => bool_decide (Source r <> Source l)) related
           then ingest_break cfg (only pre) t TriggerRefConflict related l
           else ingest_open cfg (only pre) l
       end)%recon w (settled w (done_step t pre l w)).
Proof.
  intros Ht Hpre Hr Hn Hrel Hre Eb. pose proof (view_is_wf _ (rd_ok _ _ Hr)) as [Hkl _ Hkb _].
  assert (forall r, r ∈ related -> r ∈ sharing_ref (vw w) (TxnRef l)) as Hmem by (intros r; by rewrite Hrel).
  step. eapply run_mono; [by apply (run_ingest_late pre t related l w)|].
  intros [[res|]|e] w2 Hs.
  - step. by destruct Hs as (? & ? & Hs).
  - destruct Hs as (Hok2 & Hrep2 & Hv2 & Hi2).
    assert (quiet w w2) as Hq2 by (constructor; [done|congruence|done|done]).
    cbv beta iota. apply (run_after_quiet w w2); [done|].
    apply run_ingest_unmatched; rewrite ?Hv2, ?Hi2; try done. by eapply ready_quiet.
  - destruct Hs as (? & ? & ? & ?). by split_and!.
Qed.

Lemma run_ingest_new pre t related l w : exact_time t -> at_time t pre -> ready w l -> v_legs (vw w) !! ID l = None ->
  related ≡ₚ sharing_ref (vw w) (TxnRef l) ->
  run (ingest_new cfg (only pre) t related l) w (settled w (done_step t pre l w)).
Proof.
  intros Ht Hpre Hr Hn Hrel. pose proof (view_is_wf _ (rd_ok _ _ Hr)) as [Hkl _ Hkb _].
  assert (forall r, r ∈ related <-> r ∈ sharing_ref (vw w) (TxnRef l)) as Hmem
    by (intros r; by rewrite Hrel).
  unfold ingest_new. pose proof (existsb_reused related l w Hn (rd_ok _ _ Hr) Hrel) as Hre.
  destruct (existsb _ related) eqn:Ere.
  { destruct Hre as (r & Hin & Hs). apply run_ingest_break; [done..|].
    intros j Hj. by apply (out_reused _ _ _ _ _ _ _ related r j). }
  step. step. apply run_repo. unfold run at 1.
  destruct (find (rules cfg) l (ix w) (Some exists_ref) (store w)) as [o s1] eqn:Ef.
  destruct (find_quiet l (ix w) (store w) o s1 (rd_ok _ _ Hr) Ef) as (Hok1 & Hv1 & o' & ->).
  cbn [fst snd]. cbv beta iota.
  set (w1 := mkWorld s1 (ix w) (replaying w) (ticks w) (polls w) (trace w)).
  assert (quiet w w1) as Hq1 by (by constructor).
  assert (ready w1 l) as Hr1 by (by eapply ready_quiet).
  assert (forall (m : M W IngestResult), run m w1 (settled w1 (done_step t pre l w1)) ->
    run m w1 (settled w (done_step t pre l w))) as Hback.
  { intros m Hm. eapply run_mono; [exact Hm|]. intros r w2 Hs. eapply settled_quiet; [exact Hq1|].
    unfold done_step in *. change (vw w1) with (view s1) in Hs. by rewrite Hv1 in Hs. }
  assert (v_legs (vw w1) !! ID l = None) as Hn1 by (change (vw w1) with (view s1); by rewrite Hv1).
  destruct o' as [m|].
  { apply Hback, run_ingest_match; [done..| |].
    - intros r Hin. apply Hre, Hmem. change (vw w1) with (view s1) in Hin. by rewrite Hv1 in Hin.
    - eapply find_rule_match; [apply Hr|apply Hr|apply Hr|apply Hr|by apply ready_fresh| |exact Ef].
      by apply settlementKey_ne, Hr. }
  assert (forall c, partner (rules cfg) (ix w) l c -> TxnRef c = TxnRef l ->
            Tolerance (rules cfg) (AmountMinor l) < gap l c) as Hfar
    by (eapply find_none_ref; [..|exact Ef]; apply Hr).
  destruct (ByRef (ix w) l) as [|p ps] eqn:Eb.
  - apply Hback, run_ingest_alone; try done; change (vw w1) with (view s1); by rewrite ?Hv1.
  - apply Hback, run_ingest_conflict; [done..|exact (eq_sym Eb)|].
    intros j Hj. change (vw w1) with (view s1). rewrite Hv1.
    apply out_conflict; [done|done|done|exact (eq_sym Eb)|done|done].
Qed.

(** ** One leg *)

Lemma arrive_fields t l : ID (arrive t l) = ID l /\ TxnRef (arrive t l) = TxnRef l /\
  Source (arrive t l) = Source l /\ AmountMinor (arrive t l) = AmountMinor l.
Proof. unfold arrive. by destruct (IsZero _). Qed.

Abbreviation ingest_post w l t := (settled w (fun res v' i' =>
  ingest_step cfg (rule_match (rules cfg)) (vw w) (ix w) (replaying w) t (arrive t l) res v' i')).

Lemma addEvent_only typ t agg rj pre :
  addEvent typ t agg rj (only pre) =
  match rj with
  | Ok j => Ok (only (pre ++ [event typ t agg j]))
  | Err e => Err (ErrWrap ("marshal " +:+ typ +:+ " payload: ") e "")
  end.
Proof. unfold addEvent, NewEvent. by destruct rj. Qed.

Lemma applied_nothing v : applied empty_cs v v.
Proof. constructor; try done. exists []. split; [by rewrite app_nil_r|constructor]. Qed.

Lemma run_ingest_duplicate w t l : exact_time t -> repo_ok (store w) -> is_Some (v_legs (vw w) !! ID (arrive t l)) ->
  run (ingest_duplicate cfg t (arrive t l)) w (ingest_post w l t).
Proof.
  intros Ht Hok Hs. unfold ingest_duplicate. step. step. destruct (replaying w) eqn:Er.
  - step. step. apply run_call; [done|]. intros w1 Hq. step.
    eapply quiet_settled; [exact Hq|apply Hq|]. eapply step_duplicate; [done|done|].
    apply applied_nothing.
  - step. rewrite (addEvent_only _ _ _ _ []). cbn [app].
    destruct (marshal_leg (arrive t l)) as [j|e] eqn:Ej; [|by apply settled_err, quiet_refl].
    apply run_Apply; [done|apply (cs_ok_events _ _ t); [done|by apply Forall_singleton]| |].
    { intros e w1 Hq. by apply settled_err. }
    intros w1 Hok1 Hap Hix Hrep. step. apply run_call; [done|]. intros w2 Hq2. step.
    eapply applied_settled; [exact Hrep|exact Hq2|]. rewrite Hix.
    eapply step_duplicate; [done| |exact Hap]. by exists j.
Qed.

Lemma run_ingestOne w l : exact_time (clock cfg (ticks w)) -> ready w (arrive (clock cfg (ticks w)) l) ->
  run (ingestOne cfg l) w (ingest_post w l (clock cfg (ticks w))).
Proof.
  intros Ht Hr. pose proof (rd_ok _ _ Hr) as Hok. unfold ingestOne. step.
  apply run_now; [done|]. intros w1 Hq1. cbv beta iota. set (t := clock cfg (ticks w)) in *.
  fold (arrive t l). set (l' := arrive t l) in *.
  assert (forall w2 (m : M W IngestResult), quiet w w2 ->
    run m w2 (ingest_post w2 l t) -> run m w2 (ingest_post w l t)) as Hback.
  { intros w2 m Hq Hm. eapply run_mono; [exact Hm|]. intros r w3 Hs.
    eapply settled_quiet; [exact Hq|]. destruct Hq as [_ Hv Hi Hrep]. by rewrite Hv, Hi, Hrep in Hs. }
  step. step. apply run_HasLeg; [apply Hq1| |].
  { intros e w2 Hq2. apply settled_err. by eapply quiet_trans. }
  intros w2 Hq2. cbv beta iota. assert (quiet w w2) as Hqw by (by eapply quiet_trans).
  rewrite (q_view _ _ Hq1). case_bool_decide as Hseen.
  { apply Hback; [done|]. apply run_ingest_duplicate; [done|apply Hqw|]. by rewrite (q_view _ _ Hqw). }
  assert (v_legs (vw w) !! ID l' = None) as Hn by (by apply eq_None_not_Some).
  step. step. apply run_LegsByTxnRef; [apply Hq2| |].
  { intros e w3 Hq3. apply settled_err. by eapply quiet_trans. }
  intros related w3 Hq3 Hrel. rewrite (q_view _ _ Hqw) in Hrel. cbv beta iota.
  assert (quiet w w3) as Hqw3 by (by eapply quiet_trans). pose proof Hqw3 as [Hok3 Hv3 Hi3 Hrep3].
  step. step.
  assert (forall pre, arrival (replaying w3) EvLegIngested t l' pre ->
    run (ingest_new cfg (only pre) t related l') w3 (ingest_post w l t)) as Hnew.
  { intros pre Hpre. apply Hback; [done|].
    eapply run_mono; [apply run_ingest_new; [done| | |by rewrite Hv3|by rewrite Hv3]|].
    { unfold arrival in Hpre. destruct (replaying w3); [by subst; constructor|].
      destruct Hpre as (j & _ & ->). by apply Forall_singleton. }
    { by apply (ready_quiet w). }
    intros r w4 (? & ? & Hs). split_and!; [done..|]. destruct r as [res|]; [|done].
    destruct Hs as (cs & Ho & Hap). eapply (step_new _ _ _ _ _ _ _ pre); [by rewrite Hv3|done|exact Ho|exact Hap]. }
  destruct (replaying w3) eqn:Er.
  - step. by apply Hnew.
  - step. rewrite (addEvent_only _ _ _ _ []). cbn [app].
    destruct (marshal_leg l') as [j|e] eqn:Ej; [|by apply settled_err].
    apply Hnew. by exists j.
Qed.

(** ** Expiry, resolution, replayed resolutions *)

Lemma run_expire_one w t forced l : exact_time t -> repo_ok (store w) ->
  (byID (ix w) !! ID l = Some l ->
     iso_currency (Currency l) /\ v_breaks (vw w) !! DeriveID "brk" [ID l] = None) ->
  (forall id x, byID (ix w) !! id = Some x -> v_legs (vw w) !! id = Some x) ->
  (forall x, byID (ix w) !! ID l = Some x -> x = l) ->
  run (expire_one cfg t forced l) w
    (settled w (fun (b : bool) v' i' =>
       if b then expire_step cfg (vw w) (ix w) t l v' i'
       else v' = vw w /\ i' = ix w /\ byID (ix w) !! ID l = None)).
Proof.
  intros Ht Hok Hnew Hsub Hl. unfold expire_one. step. unfold ix_Get.
  destruct (byID (ix w) !! ID l) as [x|] eqn:Ex.
  2: { step. eapply quiet_settled; [by apply quiet_refl|done|done]. }
  assert (x = l) as -> by (by apply Hl). clear Hl. destruct (Hnew eq_refl) as [Hccy Hbrk]. step. step. apply run_LegsByTxnRef; [done| |].
  { intros e w1 Hq. by apply settled_err. }
  intros related w1 Hq Hrel. cbv beta iota. pose proof Hq as [Hok1 Hv1 Hi1 Hrep1].
  step. rewrite (addEvent_only _ _ _ _ []). cbn [app]. step. rewrite openBreak_eq.
  destruct (marshal_break _) as [j|e] eqn:Ej; [|by apply settled_err].
  cbn [fst snd]. step. apply run_Apply; [done| | |].
  - rewrite Hv1. apply cs_ok_break; [done|by apply Forall_singleton|done|apply NoDup_singleton| | |done].
    + by rewrite (Hsub _ _ Ex).
    + intros c Hc. by apply not_elem_of_nil in Hc.
  - intros e w2 Hq2. apply settled_err. by eapply quiet_trans.
  - intros w2 Hok2 Hap Hix Hrep. rewrite Hv1 in Hap. step. step. step. apply run_call; [done|].
    intros w3 Hq3. step. eapply applied_settled; [|exact Hq3|].
    + cbn. congruence.
    + cbn [store ix]. rewrite Hix, Hi1. by econstructor.
Qed.

(** The break after a successful resolution. *)
Definition resolved (w : W) (id reason actor : string) (b' : Break) (v' : View) : Prop :=
  exists b n, v_breaks (vw w) !! id = Some b /\ b_Status b <> BreakResolved /\
    b' = resolve (clock cfg n) reason actor b /\
    (exists e, v_events v' = v_events (vw w) ++ [e] /\ ev_Type e = EvBreakResolved) /\
    resolve_step (vw w) (clock cfg n) id reason actor v'.

Lemma applied_one_event cs v v' e : applied cs v v' -> cs_Events cs = [e] ->
  exists e', v_events v' = v_events v ++ [e'] /\ ev_Type e' = ev_Type e.
Proof.
  intros [_ _ _ (new & Hnew & Hst)] He. rewrite He in Hst.
  inversion Hst as [|? e' ? ? Heq Hrest]; subst. inversion Hrest; subst. exists e'.
  split; [done|]. by rewrite Heq.
Qed.

Lemma run_ResolveBreak w id reason actor : (forall n, exact_time (clock cfg n)) -> repo_ok (store w) ->
  run (ResolveBreak cfg id reason actor) w
    (settled w (fun (be : Break * option error) v' i' => i' = ix w /\
       match be with
       | (b', None) => reason <> "" /\ actor <> "" /\ resolved w id reason actor b' v'
       | (_, Some _) => v' = vw w
       end)).
Proof.
  intros Hclock Hok. unfold ResolveBreak.
  destruct (bool_decide (reason = "") || bool_decide (actor = "")) eqn:Ea.
  { step. eapply quiet_settled; [by apply quiet_refl|done|done]. }
  apply orb_false_iff in Ea as [Hr%bool_decide_eq_false Ha%bool_decide_eq_false].
  step. step. apply run_GetBreak; [done| |].
  { intros e w1 Hq. cbv beta iota. step. eapply quiet_settled; [exact Hq|apply Hq|done]. }
  intros b w1 Hq Hb. cbv beta iota. pose proof Hq as [Hok1 Hv1 Hi1 Hrep1]. case_bool_decide as Hst.
  { step. eapply quiet_settled; [exact Hq|done|done]. }
  step. apply run_now; [done|]. intros w2 Hq2. cbv beta iota.
  assert (quiet w w2) as Hqw by (by eapply quiet_trans). pose proof Hqw as [Hok2 Hv2 Hi2 Hrep2].
  step. step. unfold addEvent, NewEvent. destruct (marshal_resolution _) as [j|e] eqn:Ej.
  2: { cbv beta iota. step. by eapply quiet_settled. }
  apply run_Apply; [done| | |].
  { rewrite Hv2. eapply cs_ok_resolve; [apply Hclock|by apply Forall_singleton| |exact Hb].
    apply (vw_breaks _ (view_is_wf _ Hok)). }
  { intros e w3 Hq3. cbv beta iota. step. eapply quiet_settled; [by eapply quiet_trans| |done].
    destruct Hq3. congruence. }
  intros w3 Hok3 Hap Hix Hrep. rewrite Hv2 in Hap. cbv beta iota. step.
  eapply applied_settled; [|by apply quiet_refl|]; [congruence|]. split; [congruence|].
  split_and!; [done..|]. exists b, (ticks w1). split_and!; [done..| |].
  - by destruct (applied_one_event _ _ _ _ Hap eq_refl) as (e & He & Ht); exists e.
  - eapply step_resolve; [done|done| |exact Hap]. apply Forall_singleton. split; [done|]. by eexists.
Qed.

Lemma run_reapplyResolution w ev : (forall p, dec_resolution (ev_Payload ev) = Ok p -> exact_time (rp_At p)) ->
  repo_ok (store w) ->
  run (reapplyResolution ev) w
    (settled w (fun (_ : unit) v' i' => i' = ix w /\
       (v' = vw w \/ exists p, dec_resolution (ev_Payload ev) = Ok p /\ rp_MatchID p = "" /\
          (exists b, v_breaks (vw w) !! rp_BreakID p = Some b /\ b_Status b = BreakOpen) /\
          resolve_step (vw w) (rp_At p) (rp_BreakID p) (rp_Reason p) (rp_Actor p) v'))).
Proof.
  intros Hat Hok. unfold reapplyResolution. destruct (dec_resolution (ev_Payload ev)) as [p|e] eqn:Ep.
  2: { by apply settled_err, quiet_refl. }
  assert (forall w1, quiet w w1 -> settled w (fun (_ : unit) v' i' => i' = ix w /\ v' = vw w) (Ok tt) w1)
    as Hsame by (intros w1 Hq; by eapply quiet_settled; [exact Hq|apply Hq|]).
  assert (forall w1, settled w (fun (_ : unit) v' i' => i' = ix w /\ v' = vw w) (Ok tt) w1 ->
    settled w (fun (_ : unit) v' i' => i' = ix w /\
       (v' = vw w \/ exists p0, Ok p = Ok p0 /\ rp_MatchID p0 = "" /\
          (exists b, v_breaks (vw w) !! rp_BreakID p0 = Some b /\ b_Status b = BreakOpen) /\
          resolve_step (vw w) (rp_At p0) (rp_BreakID p0) (rp_Reason p0) (rp_Actor p0) v')) (Ok tt) w1)
    as Hweak by (intros w1 (? & ? & ? & ?); split_and!; [done..|by left]).
  destruct (negb (bool_decide (rp_MatchID p = "")) || bool_decide (rp_BreakID p = "")) eqn:Eb.
  { step. by apply Hweak, Hsame, quiet_refl. }
  apply orb_false_iff in Eb as [Em%negb_false_iff%bool_decide_eq_true _].
  step. step. apply run_GetBreak; [done| |].
  { intros e w1 Hq. cbv beta iota. step. by apply Hweak, Hsame. }
  intros b w1 Hq Hb. cbv beta iota. pose proof Hq as [Hok1 Hv1 Hi1 Hrep1].
  case_bool_decide as Hst; cbn [negb]; [|step; by apply Hweak, Hsame].
  apply run_Apply; [done| | |].
  { rewrite Hv1. eapply cs_ok_resolve; [by apply Hat|constructor| |exact Hb].
    apply (vw_breaks _ (view_is_wf _ Hok)). }
  { intros e w2 Hq2. apply settled_err. by eapply quiet_trans. }
  intros w2 Hok2 Hap Hix Hrep. rewrite Hv1 in Hap.
  eapply applied_settled; [|by apply quiet_refl|]; [congruence|]. split; [congruence|]. right.
  exists p. split_and!; [done|done|by exists b|]. eapply step_resolve; [done|by rewrite Hst| |exact Hap]. constructor.
Qed.
End Refine.
