(* ===== verification/EngineInv.v ===== *)
(** * The engine: invariants

  The consistency of the store's projections, the log and the index, and its
  preservation by every step of EngineSpec.v. *)

From S2P Require Export EngineRefine.

Section Inv.
Context `{Sha256} `{Fidelity} (rules : Rules).

(** The leg IDs that ever arrive. Match and break IDs are truncated hashes, so
    they cannot be injective on all lists of IDs; they are assumed to be on
    the finitely many lists of distinct IDs of [U].

    That is a limit on the size of [U]. Such an ID carries 80 bits of the hash,
    and the sets of IDs drawn from [U] number [2 ^ size U], so that by the
    pigeonhole principle the assumption fails for every hash once [U] has more
    than 80 IDs. What is proved with it is about histories of at most about
    80 distinct legs; a longer history is outside the theorems, although only
    the lists that matches and breaks are made of could collide in it. *)
Variable U : gset string.

Definition no_collisions : Prop := forall p ids1 ids2,
  NoDup ids1 -> NoDup ids2 -> (forall x, x ∈ ids1 -> x ∈ U) -> (forall x, x ∈ ids2 -> x ∈ U) ->
  DeriveID p ids1 = DeriveID p ids2 -> ids1 ≡ₚ ids2.

(** A leg as [Ingest] hands it to the engine, whatever its derived state. *)
Record content_ok (l : Leg) : Prop := {
  co_wf : wf_leg l;
  co_amount : amount_ok (AmountMinor l);
  co_date : wf_date_range (ValueDate l);
  co_id : AssignID l = l;
  co_known : ID l ∈ U;
  co_time : exact_time (IngestedAt l);
  co_attrs : exact_attrs (Attrs l);
  (* the ID a replay derives from its payload *)
  co_logged : ID (AssignID (coerce_leg l)) ∈ U
}.

Lemma content_set_state s m b l : content_ok l -> content_ok (set_state s m b l).
Proof.
  intros [Hwf Ha Hd Hid Hk Ht Hat Hlog]. constructor; [by destruct Hwf|done|done| |done..].
  unfold AssignID in *. destruct l. cbn in *.
  injection Hid as Hid. unfold set_state, set_ID; cbn.
  change (ContentHash (mkLeg _ _ _ _ _ _ _ _ _ _ s m b)) with
    (ContentHash (mkLeg ID Source TxnRef AmountMinor Currency ValueDate Dir Counterparty Attrs IngestedAt Status MatchID BreakID)).
  by rewrite Hid.
Qed.

(** The legs a match joins, as they are in the store. *)
Record booked (v : View) (m : Match) (anchor : Leg) (group : list Leg) : Prop := {
  bk_legs : forall c, c ∈ anchor :: group ->
    v_legs v !! ID c = Some c /\ Status c = LegMatched /\ MatchID c = m_ID m;
  bk_ids : m_LegIDs m ≡ₚ ID <$> anchor :: group;
  bk_group : group <> [];
  bk_sources : exists src, Source anchor <> src /\ forall c, c ∈ group -> Source c = src;
  bk_currency : forall c, c ∈ anchor :: group -> Currency c = m_Currency m;
  bk_residual : m_ResidualMinor m = sum_amounts group - AmountMinor anchor;
  bk_tolerance : Z.abs (m_ResidualMinor m) <= Tolerance rules (AmountMinor anchor)
}.

Record match_ok (v : View) (m : Match) : Prop := {
  mok_id : m_ID m = DeriveID "m" (m_LegIDs m);
  mok_nodup : NoDup (m_LegIDs m);
  mok_booked : exists anchor group, booked v m anchor group
}.

Record break_ok (v : View) (b : Break) : Prop := {
  bok_id : b_ID b = DeriveID "brk" (b_LegIDs b);
  bok_nodup : NoDup (b_LegIDs b);
  bok_ne : b_LegIDs b <> [];
  bok_legs : forall id, id ∈ b_LegIDs b -> exists l, v_legs v !! id = Some l /\
    (Status l = LegBroken /\ BreakID l = b_ID b \/
     Status l = LegMatched /\ b_Status b = BreakResolved)
}.

Lemma content_fits l : content_ok l -> leg_fits l.
Proof.
  intros [Hwf Ha Hd _ _ Ht Hat _]. constructor; [apply Hwf| |done..]. unfold amount_ok, in64 in *. lia.
Qed.

(** What the log tells a replay: the leg it would ingest, the resolution it
    would redo. *)
Record event_ok (e : Event) : Prop := {
  eo_arrival : ev_Type e = EvLegIngested -> forall l, unmarshalLeg (ev_Payload e) = Ok l -> content_ok l;
  eo_resolution : ev_Type e = EvBreakResolved ->
    forall p, dec_resolution (ev_Payload e) = Ok p -> exact_time (rp_At p)
}.

(** The entries the engine makes. *)
Record event_made (e : Event) : Prop := {
  em_arrival : ev_Type e = EvLegIngested -> exists l, content_ok l /\ marshal_leg l = Ok (ev_Payload e);
  em_resolution : ev_Type e = EvBreakResolved ->
    exists p, marshal_resolution p = Ok (ev_Payload e) /\ exact_time (rp_At p)
}.

(** A leg as a replay reads it from its payload. *)
Lemma content_read_back l x : content_ok l -> (Validate (coerce_leg l)).2 = Ok x ->
  content_ok (set_state "" "" "" (AssignID (coerce_leg l))).
Proof.
  intros Hl Hv. apply content_set_state. destruct x.
  destruct (Validate (coerce_leg l)) as [l' r] eqn:E. cbn in Hv. subst r. pose proof (f_equal fst E) as Heq.
  apply Validate_sound in E as [[Hs Hr Ha Hc Hd Hdir Hp] _].
  destruct (wf_ascii l (co_wf _ Hl)) as [Hca Hda], (wf_norm l (co_wf _ Hl)) as [Hcn Hdn].
  assert (l' = coerce_leg l) as ->.
  { cbn [fst] in Heq. rewrite <- Heq. unfold Validate, coerce_leg. cbn [fst Currency Dir].
    rewrite Hca, Hda, Hcn, Hdn. reflexivity. }
  constructor.
  - by constructor.
  - apply Hl.
  - apply Hl.
  - apply AssignID_idem.
  - apply (co_logged _ Hl).
  - apply (co_time _ Hl).
  - apply exact_coerced.
  - change (ID (AssignID (coerce_leg (AssignID (coerce_leg l))))) with (ID (AssignID (coerce_leg (coerce_leg l)))).
    rewrite coerce_leg_idem. apply (co_logged _ Hl).
Qed.

Lemma made_logged n e : event_made e -> event_ok (logged n e).
Proof.
  intros [Ha Hr]. constructor; cbn [logged ev_Type ev_Payload].
  - intros (l & Hl & Hj)%Ha x. pose proof (content_fits l Hl) as Hfit.
    rewrite (unmarshal_coerced l _ (co_wf _ Hl)); [|by apply kept_leg; [apply Hfit..|]].
    destruct (Validate _).2 eqn:Ev; [|done]. intros [= <-]. by eapply content_read_back.
  - intros (p & Hj & Ht)%Hr q. rewrite (kept_resolution p _ Hj). by intros [= <-].
Qed.

Definition status_ok (l : Leg) : Prop :=
  Status l = LegOpen \/ Status l = LegMatched \/ Status l = LegBroken.

Record state_inv (v : View) (i : Index) : Prop := {
  inv_view : view_wf v;
  inv_ix : ix_wf i;
  (* the index is the open legs of the store *)
  inv_open : forall id l, byID i !! id = Some l <-> v_legs v !! id = Some l /\ Status l = LegOpen;
  inv_legs : forall id l, v_legs v !! id = Some l -> content_ok l /\ status_ok l;
  (* a matched leg belongs to its match, and a match's legs to it *)
  inv_matched : forall id l, v_legs v !! id = Some l -> Status l = LegMatched ->
    exists m, v_matches v !! MatchID l = Some m /\ id ∈ m_LegIDs m;
  inv_match : forall mid m, v_matches v !! mid = Some m -> match_ok v m;
  (* a broken leg belongs to its break; a break's legs are broken, or matched
     once it is resolved *)
  inv_broken : forall id l, v_legs v !! id = Some l -> Status l = LegBroken ->
    exists b, v_breaks v !! BreakID l = Some b /\ id ∈ b_LegIDs b;
  inv_break : forall bid b, v_breaks v !! bid = Some b -> break_ok v b;
  inv_log : Forall event_ok (v_events v)
}.

Lemma statuses_distinct : LegOpen <> LegMatched /\ LegOpen <> LegBroken /\ LegMatched <> LegBroken.
Proof. done. Qed.

Lemma match_ok_mono v v' m : match_ok v m ->
  (forall id x, v_legs v !! id = Some x -> Status x = LegMatched -> v_legs v' !! id = Some x) ->
  match_ok v' m.
Proof.
  intros [H1 H2 (anchor & group & [Hl H4 H5 H6 H7 H8 H9])] Hm. constructor; [done..|].
  exists anchor, group. constructor; try done. intros c Hc. destruct (Hl c Hc) as (? & ? & ?). auto.
Qed.

(** ** One preservation lemma for all steps *)

Record good_change (v v' : View) (ls : list Leg) (om : option Match) (ob : option Break)
    (evs : list Event) : Prop := {
  gc_nodup : NoDup (ID <$> ls);
  gc_legs : forall x, x ∈ ls -> content_ok x /\ status_ok x;
  (* matched legs are final *)
  gc_final : forall x x0, x ∈ ls -> v_legs v !! ID x = Some x0 -> Status x0 <> LegMatched;
  gc_match : forall m, om = Some m -> v_matches v !! m_ID m = None /\ match_ok v' m;
  gc_matched : forall x, x ∈ ls -> Status x = LegMatched ->
    exists m, om = Some m /\ MatchID x = m_ID m /\ ID x ∈ m_LegIDs m;
  gc_break : forall b, ob = Some b -> break_ok v' b /\
    forall b0, v_breaks v !! b_ID b = Some b0 -> b_LegIDs b0 = b_LegIDs b;
  gc_broken : forall x, x ∈ ls -> Status x = LegBroken ->
    exists b, ob = Some b /\ BreakID x = b_ID b /\ ID x ∈ b_LegIDs b;
  (* a broken leg only moves with its break *)
  gc_moved : forall x x0, x ∈ ls -> v_legs v !! ID x = Some x0 -> Status x0 = LegBroken ->
    exists b, ob = Some b /\ b_ID b = BreakID x0;
  gc_events : Forall event_made evs
}.

Lemma put_matches_option om v mid m :
  put_matches (option_list om) v !! mid = Some m <->
  (om = Some m /\ mid = m_ID m) \/ (v !! mid = Some m /\ forall m0, om = Some m0 -> m_ID m0 <> mid).
Proof.
  destruct om as [m0|]; cbn; [|naive_solver]. rewrite lookup_insert_Some. naive_solver.
Qed.

Lemma put_breaks_option ob v bid b :
  put_breaks (option_list ob) v !! bid = Some b <->
  (ob = Some b /\ bid = b_ID b) \/ (v !! bid = Some b /\ forall b0, ob = Some b0 -> b_ID b0 <> bid).
Proof.
  destruct ob as [b0|]; cbn; [|naive_solver]. rewrite lookup_insert_Some. naive_solver.
Qed.

Lemma stamped_ok evs new : stamped evs new -> Forall event_made evs -> Forall event_ok new.
Proof.
  induction 1 as [|e e' evs new He _ IH]; [constructor|]. inversion 1; subst.
  constructor; [|auto]. rewrite He. by apply made_logged.
Qed.

Lemma change_inv v i v' i' ls om ob evs :
  state_inv v i -> view_wf v' -> ix_wf i' ->
  applied (mkChangeSet ls (option_list om) (option_list ob) evs) v v' ->
  (forall id l, byID i' !! id = Some l <-> v_legs v' !! id = Some l /\ Status l = LegOpen) ->
  good_change v v' ls om ob evs -> state_inv v' i'.
Proof.
  intros Hinv Hvw Hix [Hl Hm Hb (new & He & Hst)] Hopen Hgc. cbn [cs_Legs cs_Matches cs_Breaks cs_Events] in *.
  pose proof (gc_nodup _ _ _ _ _ _ Hgc) as Hnd.
  assert (forall id x, v_legs v' !! id = Some x ->
    (x ∈ ls /\ ID x = id) \/ (id ∉ (ID <$> ls) /\ v_legs v !! id = Some x)) as Hcase
    by (intros id x; rewrite Hl, put_legs_lookup by done; tauto).
  assert (forall id x, v_legs v !! id = Some x -> Status x = LegMatched -> v_legs v' !! id = Some x) as Hkeep.
  { intros id x Hx Hs. rewrite Hl, put_legs_lookup by done. right. split; [|done].
    intros (y & -> & Hy)%list_elem_of_fmap. by eapply (gc_final _ _ _ _ _ _ Hgc). }
  constructor; [done|done|done|..].
  - intros id x [[Hx _]|[_ Hx]]%Hcase; [by apply (gc_legs _ _ _ _ _ _ Hgc)|by eapply (inv_legs _ _ Hinv)].
  - intros id x [[Hx <-]|[_ Hx]]%Hcase Hs; rewrite Hm.
    + destruct (gc_matched _ _ _ _ _ _ Hgc x Hx Hs) as (m & -> & -> & Hin).
      exists m. split; [|done]. apply put_matches_option. by left.
    + destruct (inv_matched _ _ Hinv id x Hx Hs) as (m & Hmm & Hin). exists m. split; [|done].
      apply put_matches_option. right. split; [done|]. intros m0 -> Heq.
      destruct (gc_match _ _ _ _ _ _ Hgc m0 eq_refl) as [Hf _]. congruence.
  - intros mid m. rewrite Hm, put_matches_option. intros [[-> _]|[Hmm _]].
    + by apply (gc_match _ _ _ _ _ _ Hgc).
    + eapply match_ok_mono; [by eapply (inv_match _ _ Hinv)|done].
  - intros id x [[Hx <-]|[_ Hx]]%Hcase Hs; rewrite Hb.
    + destruct (gc_broken _ _ _ _ _ _ Hgc x Hx Hs) as (b & -> & -> & Hin).
      exists b. split; [|done]. apply put_breaks_option. by left.
    + destruct (inv_broken _ _ Hinv id x Hx Hs) as (b & Hbb & Hin).
      destruct ob as [b1|]; [destruct (decide (b_ID b1 = BreakID x)) as [Heq|Hne]|].
      * exists b1. split; [apply put_breaks_option; by left|].
        destruct (gc_break _ _ _ _ _ _ Hgc b1 eq_refl) as [_ Hids]. rewrite Heq in Hids.
        by rewrite <- (Hids b Hbb).
      * exists b. split; [|done]. apply put_breaks_option. right. split; [done|]. by intros ? [= <-].
      * exists b. split; [|done]. apply put_breaks_option. right. by split.
  - intros bid b. rewrite Hb, put_breaks_option. intros [[-> _]|[Hbb Hne]].
    + by apply (gc_break _ _ _ _ _ _ Hgc).
    + destruct (inv_break _ _ Hinv bid b Hbb) as [H1 H2 H3 H4]. constructor; [done..|].
      intros id Hid. destruct (H4 id Hid) as (x & Hx & Hs). exists x. split; [|done].
      destruct Hs as [[Hs Hbid]|[Hs _]]; [|by apply Hkeep].
      rewrite Hl, put_legs_lookup by done. right. split; [|done].
      intros (y & -> & Hy)%list_elem_of_fmap.
      destruct (gc_moved _ _ _ _ _ _ Hgc y x Hy Hx Hs) as (b1 & -> & Heq).
      apply (Hne b1 eq_refl). rewrite Heq, Hbid. by apply (vw_breaks _ (inv_view _ _ Hinv)).
  - rewrite He. apply Forall_app. split; [apply (inv_log _ _ Hinv)|].
    eapply stamped_ok; [done|]. apply (gc_events _ _ _ _ _ _ Hgc).
Qed.

(** Two different statuses of one leg. *)
Ltac status_clash := exfalso; destruct statuses_distinct as (? & ? & ?); congruence.

(** ** Fresh identifiers *)

Section Steps.
Context (v : View) (i : Index) (Hinv : state_inv v i) (Hnc : no_collisions).

Lemma known_leg id x : v_legs v !! id = Some x -> id ∈ U /\ ID x = id.
Proof.
  intros Hx. destruct (inv_legs _ _ Hinv id x Hx) as [Hc _].
  pose proof (vw_legs _ (inv_view _ _ Hinv) _ _ Hx) as <-. split; [apply Hc|done].
Qed.

(** A match or break over a leg that is in none yet gets a new identifier. *)
Lemma fresh_match ids id : NoDup ids -> (forall x, x ∈ ids -> x ∈ U) -> id ∈ ids ->
  (forall x, v_legs v !! id = Some x -> Status x <> LegMatched) ->
  v_matches v !! DeriveID "m" ids = None.
Proof.
  intros Hnd Hu Hid Hs. destruct (v_matches v !! DeriveID "m" ids) as [m|] eqn:Em; [|done]. exfalso.
  pose proof (vw_matches _ (inv_view _ _ Hinv) _ _ Em) as Hkey.
  destruct (inv_match _ _ Hinv _ _ Em) as [Hmid Hmnd (anchor & group & Hb)].
  assert (forall x, x ∈ m_LegIDs m -> exists c, v_legs v !! x = Some c /\ Status c = LegMatched) as Hleg.
  { intros x. rewrite (bk_ids _ _ _ _ Hb), list_elem_of_fmap. intros (c & -> & Hc).
    destruct (bk_legs _ _ _ _ Hb c Hc) as (Hc1 & Hc2 & _). by exists c. }
  rewrite Hmid in Hkey. apply Hnc in Hkey; [|done|done| |done].
  - rewrite <- Hkey in Hid. destruct (Hleg id Hid) as (c & Hc & Hcs). by apply (Hs c).
  - intros x Hx. destruct (Hleg x Hx) as (c & Hc & _). by apply known_leg in Hc as [? _].
Qed.

Lemma fresh_break ids id : NoDup ids -> (forall x, x ∈ ids -> x ∈ U) -> id ∈ ids ->
  (forall x, v_legs v !! id = Some x -> Status x = LegOpen) ->
  v_breaks v !! DeriveID "brk" ids = None.
Proof.
  intros Hnd Hu Hid Hs. destruct (v_breaks v !! DeriveID "brk" ids) as [b|] eqn:Eb; [|done]. exfalso.
  pose proof (vw_breaks _ (inv_view _ _ Hinv) _ _ Eb) as Hkey.
  destruct (inv_break _ _ Hinv _ _ Eb) as [Hbid Hbnd _ Hlegs].
  rewrite Hbid in Hkey. apply Hnc in Hkey; [|done|done| |done].
  - rewrite <- Hkey in Hid. destruct (Hlegs id Hid) as (c & Hc & [[Hcs _]|[Hcs _]]);
      specialize (Hs c Hc); status_clash.
  - intros x Hx. destruct (Hlegs x Hx) as (c & Hc & _). by apply known_leg in Hc as [? _].
Qed.

Lemma fresh_reconciled l m anchor group partners : content_ok l -> v_legs v !! ID l = None ->
  reconciles rules i l m anchor group partners -> v_matches v !! m_ID m = None.
Proof.
  intros Hl Hn Hrc. rewrite (rc_id _ _ _ _ _ _ _ Hrc). apply (fresh_match _ (ID l)); [apply Hrc| | |congruence].
  - intros x. rewrite (rc_ids _ _ _ _ _ _ _ Hrc), elem_of_sort_Strings, list_elem_of_fmap.
    intros (c & -> & Hc). rewrite (rc_legs _ _ _ _ _ _ _ Hrc) in Hc.
    apply elem_of_cons in Hc as [->|Hc]; [apply Hl|].
    apply (rc_open _ _ _ _ _ _ _ Hrc), (inv_open _ _ Hinv) in Hc as [Hc _]. by apply known_leg in Hc as [? _].
  - rewrite (rc_ids _ _ _ _ _ _ _ Hrc), elem_of_sort_Strings. apply list_elem_of_fmap. exists l. split; [done|].
    rewrite (rc_legs _ _ _ _ _ _ _ Hrc). by left.
Qed.

Lemma fresh_late cfg t l r : content_ok l -> v_legs v !! ID l = None ->
  v_legs v !! ID r = Some r -> v_matches v !! m_ID (late_match cfg t l r) = None.
Proof.
  intros Hl Hn Hr. change (m_ID (late_match cfg t l r)) with (DeriveID "m" (sort_Strings [ID l; ID r])).
  assert (sort_Strings [ID l; ID r] ≡ₚ [ID l; ID r]) as Hids by apply sort_Strings_Permutation.
  apply (fresh_match _ (ID l)); rewrite ?Hids.
  - apply NoDup_cons. split; [|apply NoDup_singleton]. intros Heq%list_elem_of_singleton. congruence.
  - intros x. rewrite Hids. intros Hx. apply elem_of_cons in Hx as [->|Hx]; [apply Hl|].
    apply list_elem_of_singleton in Hx as ->. by apply known_leg in Hr as [? _].
  - by left.
  - congruence.
Qed.

(** A break over a leg that is unseen or open, and open ones. *)
Lemma fresh_open_break l ps : ID l ∈ U -> (forall x, v_legs v !! ID l = Some x -> Status x = LegOpen) ->
  (forall c, c ∈ ps -> v_legs v !! ID c = Some c) -> NoDup (ID <$> l :: ps) ->
  v_breaks v !! DeriveID "brk" (ID <$> l :: ps) = None.
Proof.
  intros Hl Ho Hps Hnd. apply (fresh_break _ (ID l)); [done| |by left|done].
  intros x (c & -> & Hc)%list_elem_of_fmap. apply elem_of_cons in Hc as [->|Hc]; [done|].
  apply Hps in Hc. by apply known_leg in Hc as [? _].
Qed.

(** ** Breaks *)

Lemma other_event typ t agg j : typ <> EvLegIngested -> typ <> EvBreakResolved -> event_made (event typ t agg j).
Proof. by constructor. Qed.

Lemma open_break_inv `{BreakClassifier} cfg t trigger related ls pre j v' i' :
  ls <> [] -> NoDup (ID <$> ls) ->
  (forall x, x ∈ ls -> content_ok x /\ forall x0, v_legs v !! ID x = Some x0 -> Status x0 = LegOpen) ->
  Forall event_made pre -> applied (open_break cfg t trigger related ls pre j) v v' ->
  view_wf v' -> ix_wf i' ->
  (forall id, byID i' !! id = if decide (id ∈ ID <$> ls) then None else byID i !! id) ->
  state_inv v' i'.
Proof.
  intros Hne Hnd Hls Hpre Hap Hvw Hix Hrem.
  set (b := break_of cfg t trigger related ls).
  assert (ID <$> (broken (b_ID b) <$> ls) = ID <$> ls) as Hids by (by rewrite <- list_fmap_compose).
  assert (forall id x, v_legs v' !! id = Some x <->
    (x ∈ broken (b_ID b) <$> ls /\ ID x = id) \/ (id ∉ (ID <$> ls) /\ v_legs v !! id = Some x)) as Hleg.
  { intros id x. rewrite (ap_legs _ _ _ Hap). 
    change (cs_Legs _) with (broken (b_ID b) <$> ls).
    rewrite put_legs_lookup by (by rewrite Hids). by rewrite Hids. }
  assert (exists x0, x0 ∈ ls) as [x0 Hx0] by (destruct ls as [|x0 ?]; [done|exists x0; by left]).
  assert (v_breaks v !! b_ID b = None) as Hfresh.
  { apply (fresh_break _ (ID x0)); [done| |apply list_elem_of_fmap; by exists x0|by apply Hls].
    intros id (x & -> & Hx)%list_elem_of_fmap. apply (Hls x Hx). }
  apply (change_inv v i v' i' (broken (b_ID b) <$> ls) None (Some b)
           (pre ++ [event EvBreakOpened t (b_ID b) j])); [done|done|done|exact Hap| |].
  - intros id x. rewrite Hrem, Hleg. destruct (decide (id ∈ ID <$> ls)) as [Hin|Hin].
    + split; [done|]. intros [[[(y & -> & Hy)%list_elem_of_fmap _]|[? _]] Hs]; [|done].
      by destruct statuses_distinct as (? & ? & ?).
    + rewrite (inv_open _ _ Hinv). split; [tauto|].
      intros [[[Hx <-]|[_ Hx]] Hs]; [|done]. exfalso. apply Hin. rewrite <- Hids.
      apply list_elem_of_fmap. by exists x.
  - constructor.
    + by rewrite Hids.
    + intros x (y & -> & Hy)%list_elem_of_fmap. split; [by apply content_set_state, Hls|].
      by right; right.
    + intros x y0 (y & -> & Hy)%list_elem_of_fmap Hy0 Hs. cbn in Hy0.
      apply (Hls y Hy) in Hy0. status_clash.
    + done.
    + intros x (y & -> & Hy)%list_elem_of_fmap Hs. done.
    + intros b0 [= <-]. split; [|intros b1 Hb1; congruence]. constructor.
      * done.
      * done.
      * by destruct ls.
      * intros id (x & -> & Hx)%list_elem_of_fmap. exists (broken (b_ID b) x). split.
        -- apply Hleg. left. split; [|done]. apply list_elem_of_fmap. by exists x.
        -- by left.
    + intros x (y & -> & Hy)%list_elem_of_fmap Hs. exists b. split_and!; [done|done|].
      cbn. apply list_elem_of_fmap. by exists y.
    + intros x y0 (y & -> & Hy)%list_elem_of_fmap Hy0 Hs. cbn in Hy0.
      apply (Hls y Hy) in Hy0. status_clash.
    + apply Forall_app. split; [done|]. by apply Forall_singleton, other_event.
Qed.

(** ** Arrivals *)

Lemma add_open_inv l pre v' : content_ok l -> v_legs v !! ID l = None -> Forall event_made pre ->
  applied (mkChangeSet [set_state LegOpen (MatchID l) (BreakID l) l] [] [] pre) v v' -> view_wf v' ->
  state_inv v' (ix_Add i (set_state LegOpen (MatchID l) (BreakID l) l)).
Proof.
  intros Hl Hn Hpre Hap Hvw. set (l' := set_state LegOpen (MatchID l) (BreakID l) l) in *.
  assert (fresh i l') as Hf.
  { unfold fresh. change (ID l') with (ID l). destruct (byID i !! ID l) eqn:E; [|done].
    apply (inv_open _ _ Hinv) in E as [E _]. congruence. }
  assert (forall id x, v_legs v' !! id = Some x <->
            (id = ID l /\ x = l') \/ v_legs v !! id = Some x) as Hleg.
  { intros id x. rewrite (ap_legs _ _ _ Hap). cbn [cs_Legs put_legs foldl].
    by apply lookup_insert_iff. }
  apply (change_inv v i v' _ [l'] None None pre);
    [done|done|by apply ix_Add_wf, (inv_ix _ _ Hinv)|exact Hap| |].
  - intros id x. rewrite ix_Add_byID, lookup_insert_iff, Hleg by done.
    rewrite (inv_open _ _ Hinv). naive_solver.
  - constructor.
    + apply NoDup_singleton.
    + intros x ->%list_elem_of_singleton. split; [by apply content_set_state|by left].
    + intros x x0 ->%list_elem_of_singleton Hx0. cbn in Hx0. congruence.
    + done.
    + intros x ->%list_elem_of_singleton Hs. done.
    + done.
    + intros x ->%list_elem_of_singleton Hs. done.
    + intros x x0 ->%list_elem_of_singleton Hx0. cbn in Hx0. congruence.
    + done.
Qed.

Lemma only_events_inv evs v' : Forall event_made evs ->
  applied (mkChangeSet [] [] [] evs) v v' -> view_wf v' -> state_inv v' i.
Proof.
  intros He Hap Hvw. apply (change_inv v i v' i [] None None evs);
    [done|done|apply (inv_ix _ _ Hinv)|exact Hap| |].
  - intros id x. rewrite (ap_legs _ _ _ Hap). apply (inv_open _ _ Hinv).
  - constructor; try done; try (by intros x ?%not_elem_of_nil); try (by intros x ? ?%not_elem_of_nil).
    constructor.
Qed.

(** ** Resolutions *)

Lemma resolve_inv at_ id reason actor v' : exact_time at_ -> resolve_step v at_ id reason actor v' -> view_wf v' ->
  state_inv v' i.
Proof.
  intros Hat [b evs v1 Hb _ He Hap] Hvw.
  pose proof (vw_breaks _ (inv_view _ _ Hinv) _ _ Hb) as Hkey.
  assert (v_legs v1 = v_legs v) as Hl by (by rewrite (ap_legs _ _ _ Hap)).
  apply (change_inv v i v1 i [] None (Some (resolve at_ reason actor b)) evs);
    [done|done|apply (inv_ix _ _ Hinv)|exact Hap| |].
  - intros x y. rewrite Hl. apply (inv_open _ _ Hinv).
  - constructor; try done; try (by intros x ?%not_elem_of_nil); try (by intros x ? ?%not_elem_of_nil).
    + constructor.
    + intros b0 [= <-]. destruct (inv_break _ _ Hinv _ _ Hb) as [H1 H2 H3 H4]. split.
      * constructor; [done..|]. intros x Hx. destruct (H4 x Hx) as (y & Hy & Hs).
        exists y. rewrite Hl. split; [done|]. cbn. tauto.
      * intros b1. cbn. rewrite Hkey. intros Hb1. congruence.
    + eapply Forall_impl; [exact He|]. intros e [Ht (p & Hj & Hp)]. constructor; intros Heq; [by rewrite Ht in Heq|].
      exists p. by rewrite Hp.
Qed.

(** ** Matches *)

Lemma sum_amounts_matched mid ls : sum_amounts (matched mid <$> ls) = sum_amounts ls.
Proof. induction ls as [|x ls IH]; cbn; [done|]. by rewrite IH. Qed.

Lemma ID_matched mid (ls : list Leg) : ID <$> (matched mid <$> ls) = ID <$> ls.
Proof. by rewrite <- list_fmap_compose. Qed.

(** A reconciled match is in order once its legs are stored as matched. *)
Lemma matched_match_ok l m t anchor group partners v' :
  reconciles rules i l m anchor group partners ->
  (forall c, c ∈ anchor :: group -> v_legs v' !! ID c = Some (matched (m_ID m) c)) ->
  match_ok v' (set_MatchedAt t m).
Proof.
  intros Hrc Hleg. constructor; [apply Hrc|apply Hrc|].
  exists (matched (m_ID m) anchor), (matched (m_ID m) <$> group).
  constructor.
  - intros c (c0 & -> & Hc0)%elem_of_cons_fmap. split; [exact (Hleg c0 Hc0)|done].
  - change (matched (m_ID m) anchor :: (matched (m_ID m) <$> group))
      with (matched (m_ID m) <$> (anchor :: group)).
    rewrite ID_matched. change (m_LegIDs m ≡ₚ ID <$> anchor :: group).
    rewrite (rc_ids _ _ _ _ _ _ _ Hrc). apply sort_Strings_Permutation.
  - intros Hg%fmap_nil_inv. pose proof (rc_legs _ _ _ _ _ _ _ Hrc) as Hp.
    rewrite Hg in Hp. apply Permutation_length in Hp. cbn in Hp.
    pose proof (rc_partners _ _ _ _ _ _ _ Hrc). destruct partners; cbn in Hp; [done|lia].
  - destruct (rc_sources _ _ _ _ _ _ _ Hrc) as (src & Ha & Hg). exists src. split; [done|].
    intros c (c0 & -> & Hc0)%list_elem_of_fmap. exact (Hg c0 Hc0).
  - intros c (c0 & -> & Hc0)%elem_of_cons_fmap.
    change (Currency c0 = m_Currency m). rewrite (rc_currency _ _ _ _ _ _ _ Hrc).
    rewrite (rc_legs _ _ _ _ _ _ _ Hrc) in Hc0. apply elem_of_cons in Hc0 as [->|Hc0]; [done|].
    pose proof (rc_window _ _ _ _ _ _ _ Hrc c0 Hc0) as Hk. unfold Key in Hk. congruence.
  - rewrite sum_amounts_matched. apply Hrc.
  - apply Hrc.
Qed.

(** A match found for an arriving leg: the legs it stores, and the store after. *)
Section Matching.
Context (l : Leg) (m : Match) (t : Time) (pre : list Event) (partners : list Leg) (j : json) (anchor : Leg)
        (group : list Leg) (v' : View).
Abbreviation ls := (matched (m_ID m) l :: (matched (m_ID m) <$> partners_of i l m)).
Context (Hl : content_ok l) (Hn : v_legs v !! ID l = None) (Hpre : Forall event_made pre)
        (Hrc : reconciles rules i l m anchor group partners)
        (Hpart : forall c, c ∈ partners_of i l m <-> c ∈ partners) (Hnd : NoDup (ID <$> partners_of i l m))
        (Hap : applied (mkChangeSet ls [set_MatchedAt t m] [] (pre ++ [event EvMatchCreated t (m_ID m) j])) v v')
        (Hvw : view_wf v').

Lemma match_partners c : c ∈ partners_of i l m -> v_legs v !! ID c = Some c /\ Status c = LegOpen.
Proof. intros Hc%Hpart. apply (inv_open _ _ Hinv), (rc_open _ _ _ _ _ _ _ Hrc c Hc). Qed.

Lemma match_stored x : x ∈ ls <-> exists c, x = matched (m_ID m) c /\ c ∈ anchor :: group.
Proof.
  split.
  - intros [->|(c & -> & Hc%Hpart)%list_elem_of_fmap]%elem_of_cons; eexists; (split; [done|]);
      rewrite (rc_legs _ _ _ _ _ _ _ Hrc); [by left|by right].
  - intros (c & -> & Hc). rewrite (rc_legs _ _ _ _ _ _ _ Hrc) in Hc.
    apply elem_of_cons in Hc as [->|Hc%Hpart]; [by left|]. right. apply list_elem_of_fmap. by exists c.
Qed.

Lemma reconciled_ids id : id ∈ m_LegIDs m <-> id ∈ ID <$> ls.
Proof.
  rewrite (rc_ids _ _ _ _ _ _ _ Hrc), elem_of_sort_Strings, !list_elem_of_fmap. split.
  - intros (c & -> & Hc). exists (matched (m_ID m) c). split; [done|]. apply match_stored. by exists c.
  - intros (x & -> & (c & -> & Hc)%match_stored). by exists c.
Qed.

Lemma match_nodup : NoDup (ID <$> ls).
Proof.
  rewrite fmap_cons, ID_matched. apply NoDup_cons. split; [|done].
  intros (c & Heq & Hc)%list_elem_of_fmap. apply match_partners in Hc as [Hc _]. cbn in Heq. congruence.
Qed.

Lemma match_legs id x : v_legs v' !! id = Some x <->
  (x ∈ ls /\ ID x = id) \/ (id ∉ (ID <$> ls) /\ v_legs v !! id = Some x).
Proof. rewrite (ap_legs _ _ _ Hap). apply put_legs_lookup, match_nodup. Qed.

(** Where a stored leg comes from: it arrives, or was open. *)
Lemma match_from x : x ∈ ls -> Status x = LegMatched /\ MatchID x = m_ID m /\ content_ok x /\
  forall x0, v_legs v !! ID x = Some x0 -> Status x0 = LegOpen.
Proof.
  intros [->|(y & -> & Hy)%list_elem_of_fmap]%elem_of_cons; (split; [done|split; [done|]]).
  - split; [by apply content_set_state|]. intros x0 Hx0. cbn in Hx0. congruence.
  - destruct (match_partners y Hy) as [Hy1 Hy2]. split; [|intros x0 Hx0; cbn in Hx0; congruence].
    apply content_set_state, (inv_legs _ _ Hinv _ _ Hy1).
Qed.

Lemma match_good : good_change v v' ls (Some (set_MatchedAt t m)) None (pre ++ [event EvMatchCreated t (m_ID m) j]).
Proof.
  constructor; try done.
  - apply match_nodup.
  - intros x (Hs & _ & Hc & _)%match_from. split; [done|]. right; by left.
  - intros x x0 (_ & _ & _ & Ho)%match_from Hx0 Hs. specialize (Ho x0 Hx0). status_clash.
  - intros m0 [= <-]. split; [exact (fresh_reconciled l m anchor group partners Hl Hn Hrc)|]. eapply matched_match_ok; [done|]. intros c Hc.
    apply match_legs. left. split; [|done]. apply match_stored. by exists c.
  - intros x Hx _. exists (set_MatchedAt t m). split; [done|]. split; [by apply match_from|].
    apply reconciled_ids, list_elem_of_fmap. by exists x.
  - intros x (Hs & _)%match_from Hb. status_clash.
  - intros x x0 (_ & _ & _ & Ho)%match_from Hx0 Hs. specialize (Ho x0 Hx0). status_clash.
  - apply Forall_app. split; [done|]. by apply Forall_singleton, other_event.
Qed.

(** Every leg of the match is in the new store, matched. *)
Lemma match_inv i' : i' = ix_Remove i (m_LegIDs m) -> state_inv v' i'.
Proof.
  intros ->. eapply (change_inv v i v' _ ls (Some (set_MatchedAt t m)) None);
    [done|done|by apply ix_Remove_wf, (inv_ix _ _ Hinv)|exact Hap| |exact match_good].
  intros id x. rewrite ix_Remove_lookup, match_legs. destruct (decide (id ∈ m_LegIDs m)) as [Hin|Hin].
  - split; [done|]. intros [[[(Hs & _)%match_from _]|[Hx _]] Ho]; [status_clash|by exfalso; apply Hx, reconciled_ids].
  - rewrite (inv_open _ _ Hinv). rewrite reconciled_ids in Hin. split; [tauto|].
    intros [[[Hx <-]|[_ Hx]] Hs]; [|done]. exfalso. apply Hin. apply list_elem_of_fmap. by exists x.
Qed.
End Matching.

(** ** Late arrivals *)

Lemma late_residual cfg l r t : amount_ok (AmountMinor l) -> amount_ok (AmountMinor r) ->
  m_ResidualMinor (late_match cfg t l r) = AmountMinor r - AmountMinor l.
Proof.
  unfold amount_ok. intros Hl Hr. change (sub64 (AmountMinor r) (AmountMinor l) = AmountMinor r - AmountMinor l).
  by rewrite sub64_id by (unfold in64; lia).
Qed.

Lemma late_candidate_spec cfg l r : late_candidate cfg l r = true ->
  Source r <> Source l /\ Status r = LegBroken /\ BreakID r <> "" /\ Currency r = Currency l /\
  WithinTolerance (Engine.rules cfg) (AmountMinor l) (AmountMinor r) = true.
Proof.
  unfold late_candidate. rewrite andb_true_iff, !negb_true_iff, !orb_false_iff, !negb_false_iff.
  rewrite !bool_decide_eq_false, !bool_decide_eq_true. tauto.
Qed.

(** The two legs of a healed break, as they are stored. *)
Lemma late_match_ok cfg l r t v' : Engine.rules cfg = rules -> content_ok l -> content_ok r ->
  late_candidate cfg l r = true -> ID r <> ID l ->
  v_legs v' !! ID l = Some (matched (m_ID (late_match cfg t l r)) l) ->
  v_legs v' !! ID r = Some (set_state LegMatched (m_ID (late_match cfg t l r)) "" r) ->
  match_ok v' (late_match cfg t l r).
Proof.
  intros Hcfg Hl Hr (Hs & _ & _ & Hc & Hw)%late_candidate_spec Hne El Er.
  set (m := late_match cfg t l r) in *.
  assert (m_LegIDs m ≡ₚ [ID l; ID r]) as Hids by apply sort_Strings_Permutation.
  constructor; [done| |].
  { rewrite Hids. apply NoDup_cons. split; [|apply NoDup_singleton].
    by intros ?%list_elem_of_singleton. }
  exists (matched (m_ID m) l), [set_state LegMatched (m_ID m) "" r]. constructor; try done.
  - intros c [->| ->%list_elem_of_singleton]%elem_of_cons; done.
  - exists (Source r). split; [done|]. by intros c ->%list_elem_of_singleton.
  - intros c Hin. apply elem_of_cons in Hin as [->|Hin]; [done|].
    by apply list_elem_of_singleton in Hin as ->.
  - unfold m. rewrite late_residual by (apply Hl || apply Hr). cbn. lia.
  - unfold m. rewrite late_residual by (apply Hl || apply Hr). cbn [matched set_state AmountMinor].
    apply WithinTolerance_iff in Hw; [|apply Hl|apply Hr]. rewrite Hcfg in Hw.
    replace (AmountMinor r - AmountMinor l) with (- (AmountMinor l - AmountMinor r)) by lia.
    by rewrite Z.abs_opp.
Qed.

(** An arriving leg that completes the break of another one: the two legs that
    are stored, and the store after. *)
Section Healing.
Context (cfg : Config) (l r : Leg) (b : Break) (t : Time) (pre : list Event) (j1 j2 : json) (v' : View)
        (p : ResolutionPayload).
Abbreviation m := (late_match cfg t l r).
Abbreviation l' := (matched (m_ID m) l).
Abbreviation r' := (set_state LegMatched (m_ID m) "" r).
Context (Hcfg : Engine.rules cfg = rules) (Hj2 : marshal_resolution p = Ok j2) (Hat : exact_time (rp_At p))
        (Hl : content_ok l) (Hn : v_legs v !! ID l = None) (Hpre : Forall event_made pre)
        (Hr : v_legs v !! ID r = Some r) (Hlate : late_candidate cfg l r = true)
        (Hb : v_breaks v !! BreakID r = Some b) (Hlen : length (b_LegIDs b) = 1%nat)
        (Hap : applied (mkChangeSet [l'; r'] [m] [late_resolution t b]
           (pre ++ [event EvMatchCreated t (m_ID m) j1; event EvBreakResolved t (b_ID b) j2])) v v')
        (Hvw : view_wf v').

Lemma heal_broken : Status r = LegBroken.
Proof. apply (late_candidate_spec cfg l r Hlate). Qed.

Lemma heal_other : ID r <> ID l.
Proof. intros Heq. rewrite Heq in Hr. congruence. Qed.

Lemma heal_nodup : NoDup (ID <$> [l'; r']).
Proof.
  change (NoDup [ID l; ID r]). apply NoDup_cons. split; [|apply NoDup_singleton].
  intros Heq%list_elem_of_singleton. by apply heal_other.
Qed.

Lemma heal_legs id x : v_legs v' !! id = Some x <->
  (x ∈ [l'; r'] /\ ID x = id) \/ (id ∉ [ID l; ID r] /\ v_legs v !! id = Some x).
Proof. rewrite (ap_legs _ _ _ Hap). exact (put_legs_lookup _ _ _ _ heal_nodup). Qed.

Lemma heal_ids : b_ID b = BreakID r /\ b_LegIDs b = [ID r].
Proof.
  split; [by apply (vw_breaks _ (inv_view _ _ Hinv))|].
  destruct (inv_broken _ _ Hinv _ _ Hr heal_broken) as (b1 & Hb1 & Hin). assert (b1 = b) as -> by congruence.
  destruct (b_LegIDs b) as [|x [|]]; try done. by apply list_elem_of_singleton in Hin as ->.
Qed.

(** Where the two legs come from: one arrives, the other was in the break. *)
Lemma heal_from x : x ∈ [l'; r'] -> Status x = LegMatched /\ MatchID x = m_ID m /\ content_ok x /\
  ID x ∈ m_LegIDs m /\ forall x0, v_legs v !! ID x = Some x0 -> x0 = r.
Proof.
  destruct (inv_legs _ _ Hinv _ _ Hr) as [Hrc _].
  change (m_LegIDs m) with (sort_Strings [ID l; ID r]). rewrite elem_of_sort_Strings.
  intros [->| ->%list_elem_of_singleton]%elem_of_cons; (split_and!; [done|done|by apply content_set_state|..]).
  - by left.
  - intros x0 Hx0. cbn in Hx0. congruence.
  - right; by left.
  - intros x0 Hx0. cbn in Hx0. congruence.
Qed.

Lemma heal_break_ok : break_ok v' (late_resolution t b).
Proof.
  destruct (inv_break _ _ Hinv _ _ Hb) as [B1 B2 B3 B4]. constructor; [done..|].
  intros id Hid. change (id ∈ b_LegIDs b) in Hid. rewrite (proj2 heal_ids) in Hid.
  apply list_elem_of_singleton in Hid as ->. exists r'. split; [|by right].
  apply heal_legs. left. split; [right; by left|done].
Qed.

Lemma heal_good : good_change v v' [l'; r'] (Some m) (Some (late_resolution t b))
  (pre ++ [event EvMatchCreated t (m_ID m) j1; event EvBreakResolved t (b_ID b) j2]).
Proof.
  destruct (inv_legs _ _ Hinv _ _ Hr) as [Hrc _]. destruct heal_ids as [Hkey _]. pose proof heal_broken as Hst.
  constructor.
  - apply heal_nodup.
  - intros x (Hs & _ & Hc & _)%heal_from. split; [done|]. right; by left.
  - intros x x0 (_ & _ & _ & _ & Ho)%heal_from ->%Ho. intros Hs. status_clash.
  - intros m0 [= <-]. split; [by apply fresh_late|]. apply late_match_ok; [done..|exact heal_other| |];
      apply heal_legs; left; (split; [|done]); [by left|right; by left].
  - intros x (_ & Hm & _ & Hin & _)%heal_from _. by exists m.
  - intros b0 [= <-]. split; [exact heal_break_ok|]. cbn. rewrite Hkey. congruence.
  - intros x (Hs & _)%heal_from Hbr. status_clash.
  - intros x x0 (_ & _ & _ & _ & Ho)%heal_from ->%Ho _. by exists (late_resolution t b).
  - apply Forall_app. split; [done|]. apply Forall_cons. split; [by apply other_event|].
    apply Forall_singleton. constructor; [done|]. intros _. by exists p.
Qed.

Lemma heal_inv : state_inv v' i.
Proof.
  pose proof heal_broken as Hst.
  eapply (change_inv v i v' i [l'; r'] (Some m) (Some (late_resolution t b)));
    [done|done|apply (inv_ix _ _ Hinv)|exact Hap| |exact heal_good].
  intros id x. rewrite (inv_open _ _ Hinv), heal_legs. split.
  - intros [Hx Hso]. split; [|done]. right. split; [|done].
    intros [->| ->%list_elem_of_singleton]%elem_of_cons; [congruence|]. status_clash.
  - intros [[[(Hs & _)%heal_from _]|[_ Hx]] Hso]; [status_clash|done].
Qed.
End Healing.

(** ** Whole steps *)

Section Cfg.
Context `{BreakClassifier} (cfg : Config) (Hcfg : Engine.rules cfg = rules) (Hsane : sane_rules rules).

Lemma inv_amounts : amounts_ok i.
Proof. intros id x [Hx _]%(inv_open _ _ Hinv). by apply (inv_legs _ _ Hinv) in Hx as [[] _]. Qed.

Lemma inv_sub id x : byID i !! id = Some x -> v_legs v !! id = Some x.
Proof. by intros [Hx _]%(inv_open _ _ Hinv). Qed.

Lemma unseen_fresh l : v_legs v !! ID l = None -> byID i !! ID l = None.
Proof. intros Hn. destruct (byID i !! ID l) eqn:E; [|done]. apply inv_sub in E. congruence. Qed.

Lemma elem_of_sharing r ref : r ∈ sharing_ref v ref <-> TxnRef r = ref /\ v_legs v !! ID r = Some r.
Proof.
  unfold sharing_ref. rewrite list_elem_of_filter, elem_of_values_keyed; [done|].
  apply (vw_legs _ (inv_view _ _ Hinv)).
Qed.

Lemma single_break_inv t trigger related l pre j v' : content_ok l ->
  (forall x0, v_legs v !! ID l = Some x0 -> Status x0 = LegOpen) -> Forall event_made pre ->
  applied (open_break cfg t trigger related [l] pre j) v v' -> view_wf v' ->
  state_inv v' (ix_Remove i [ID l]).
Proof.
  intros Hl Ho Hpre Hap Hvw. eapply (open_break_inv cfg t trigger related [l]); [done|apply NoDup_singleton| |done|done|done| |].
  - by intros x ->%list_elem_of_singleton.
  - apply ix_Remove_wf, (inv_ix _ _ Hinv).
  - intros id. rewrite ix_Remove_lookup. done.
Qed.

Lemma remove_absent id : byID i !! id = None -> ix_Remove i [id] = i.
Proof. intros Hn. cbn. unfold remove_one. by rewrite Hn. Qed.

Lemma remove_each_lookup ps j id :
  byID (foldl (fun i p => ix_Remove i [ID p]) j ps) !! id =
  if decide (id ∈ ID <$> ps) then None else byID j !! id.
Proof.
  assert (foldl (fun i p => ix_Remove i [ID p]) j ps = ix_Remove j (ID <$> ps)) as ->;
    [|apply ix_Remove_lookup].
  revert j. induction ps as [|p ps IH]; intros j; [done|]. cbn [foldl fmap list_fmap]. by rewrite IH.
Qed.

Lemma remove_each_wf ps j : ix_wf j -> ix_wf (foldl (fun i p => ix_Remove i [ID p]) j ps).
Proof. revert j. induction ps as [|p ps IH]; intros j Hj; cbn; [done|]. by apply IH, remove_one_wf. Qed.

Lemma outcome_inv t pre l r cs v' i' : exact_time t -> content_ok l -> v_legs v !! ID l = None ->
  Forall event_made pre -> outcome cfg (rule_match rules) v i t pre l r cs i' ->
  applied cs v v' -> view_wf v' -> state_inv v' i'.
Proof.
  intros Ht Hl Hn Hpre Ho Hap Hvw. pose proof (unseen_fresh l Hn) as Hf.
  destruct Ho as [related r0 j _ _ _ _|m j _ Hm _|related partners j _ _ _ -> _ _
                 |r0 b j1 j2 _ Hr0 Hlate Hb _ Hlen _ Hj2|related r0 j _ _ _ _ _|].
  - rewrite <- (remove_absent _ Hf). eapply single_break_inv; [done| |done|done|done]. congruence.
  - destruct (rule_match_reconciles rules i l Hsane inv_amounts (co_amount _ Hl) Hf m Hm)
      as (anchor & group & partners & Hrc).
    eapply match_inv; [done|done|done|exact Hrc| | |exact Hap|done|done].
    + intros c. exact (elem_of_partners_of _ _ _ _ _ _ _ Hf Hrc c).
    + exact (partners_of_NoDup _ _ _ _ _ _ _ Hf Hrc).
  - assert (forall c, c ∈ ByRef i l <-> byID i !! ID c = Some c /\ TxnRef c = TxnRef l /\ ID c <> ID l) as Hby.
    { intros c. rewrite ByRef_scan, elem_of_collect, elem_of_values_keyed by
        (apply (inv_ix _ _ Hinv) || apply (wf_keyed _ (inv_ix _ _ Hinv))).
      rewrite andb_true_iff, !bool_decide_eq_true. tauto. }
    eapply (open_break_inv cfg t TriggerRefConflict related (l :: ByRef i l));
      [done| | |exact Hpre|exact Hap|done|apply remove_each_wf, (inv_ix _ _ Hinv)|].
    + cbn. apply NoDup_cons. split.
      * intros (c & Heq & Hc%Hby)%list_elem_of_fmap. by destruct Hc as (_ & _ & ?).
      * apply (open_NoDup i); [intros c Hc; by apply Hby|].
        rewrite ByRef_scan by apply (inv_ix _ _ Hinv).
        apply collect_NoDup, (wf_keyed _ (inv_ix _ _ Hinv)).
    + intros x [->|Hx%Hby]%elem_of_cons; [split; [done|congruence]|].
      destruct Hx as [Hx _]. apply (inv_open _ _ Hinv) in Hx as [Hx Hs].
      split; [by apply (inv_legs _ _ Hinv) in Hx as [? _]|]. congruence.
    + intros id. rewrite remove_each_lookup, fmap_cons. destruct (decide (id = ID l)) as [->|Hne].
      * rewrite (decide_True (P := ID l ∈ ID l :: _)) by left. rewrite Hf. by destruct (decide _).
      * destruct (decide (id ∈ ID <$> ByRef i l)) as [Hin|Hin].
        -- by rewrite decide_True by (by right).
        -- rewrite decide_False; [done|]. by intros [?|?]%elem_of_cons.
  - apply elem_of_sharing in Hr0 as [Href Hr0]. by eapply (heal_inv cfg l r0 b t pre j1 j2).
  - rewrite <- (remove_absent _ Hf). eapply single_break_inv; [done| |done|done|done]. congruence.
  - by apply add_open_inv with (pre := pre).
Qed.

(** An arrival's log entry tells of a leg in order. *)
Lemma arrival_made replaying typ t l evs : typ <> EvBreakResolved -> content_ok l -> arrival replaying typ t l evs ->
  Forall event_made evs.
Proof.
  intros Hty Hl. unfold arrival. destruct replaying; [intros ->; constructor|].
  intros (j & Hj & ->). apply Forall_singleton. constructor; [intros _; by exists l|].
  intros Heq. by destruct Hty.
Qed.

Lemma ingest_step_inv replaying t l r v' i' : exact_time t -> content_ok l ->
  ingest_step cfg (rule_match rules) v i replaying t l r v' i' -> view_wf v' -> state_inv v' i'.
Proof.
  intros Ht Hl [evs v1 _ He Hap|pre r1 cs v1 i1 Hn He Ho Hap] Hvw.
  - eapply only_events_inv; [|done|done]. eapply arrival_made; [|done|exact He]; done.
  - eapply outcome_inv; [done|done|done| |exact Ho|done|done]. eapply arrival_made; [|done|exact He]; done.
Qed.

Lemma expire_step_inv t l v' i' : expire_step cfg v i t l v' i' -> view_wf v' -> state_inv v' i'.
Proof.
  intros [related forced j v1 Hix _ _ Hap] Hvw. apply (inv_open _ _ Hinv) in Hix as [Hx Hs].
  eapply single_break_inv; [by apply (inv_legs _ _ Hinv) in Hx as [? _]|congruence| |done|done].
  by apply Forall_singleton, other_event.
Qed.
End Cfg.
End Steps.

(** Cleared projections and an empty index. *)
Lemma reset_inv t evs : log_wf evs -> Forall event_ok evs ->
  state_inv (mkView ∅ ∅ ∅ evs) (NewIndex t).
Proof.
  intros Hl He. constructor; cbn.
  - constructor; [..|done]; intros k x Hx; simplify_map_eq.
  - apply NewIndex_wf.
  - intros id l. rewrite !lookup_empty. naive_solver.
  - intros; simplify_map_eq.
  - intros; simplify_map_eq.
  - intros; simplify_map_eq.
  - intros; simplify_map_eq.
  - intros; simplify_map_eq.
  - done.
Qed.
End Inv.
