(* ===== verification/EngineRun.v ===== *)
(** * Runs of the engine

    The invariant holds in every world the engine reaches, over any store that
    keeps the repository contract: batches, sweeps, window closings,
    resolutions, replays and restarts, in any order, failures included. *)

From S2P Require Export EngineInv.

(** Rules in range, and a clock whose readings the store keeps. *)
Record sane_config `{Fidelity} (cfg : Config) : Prop := {
  sc_rules : sane_rules (rules cfg);
  sc_clock n : exact_time (clock cfg n)
}.

Section Run.
Context `{Sha256} `{BreakClassifier} {S : Type} `{RepositoryLaws S} (cfg : Config).
Variable U : gset string.
Context (Hsane : sane_config cfg) (Hnc : no_collisions U).

Abbreviation W := (World S).
Abbreviation vw w := (view (store w)).

Record world_inv (w : W) : Prop := {
  wi_ok : repo_ok (store w);
  wi_inv : state_inv (rules cfg) U (vw w) (ix w)
}.

Lemma world_inv_quiet w w' : world_inv w -> quiet w w' -> world_inv w'.
Proof. intros [Hok Hi] [Hok' Hv Hx _]. constructor; [done|]. by rewrite Hv, Hx. Qed.

Lemma world_inv_ready w l : world_inv w -> content_ok U l -> ready cfg w l.
Proof.
  intros [Hok Hi] Hl. constructor; try done.
  - apply (inv_ix _ _ _ _ Hi).
  - apply Hsane.
  - by eapply inv_amounts.
  - intros id x. by eapply inv_sub.
  - apply Hl.
  - intros Hr. by apply (wf_ref _ (co_wf _ _ Hl)); rewrite Hr.
  - by eapply content_fits.
  - intros m Hn Hm.
    destruct (rule_match_reconciles (rules cfg) (ix w) l (sc_rules _ Hsane) (inv_amounts _ _ _ _ Hi)
      (co_amount _ _ Hl) (unseen_fresh _ _ _ _ Hi l Hn) m Hm) as (anchor & group & partners & Hrc).
    by eapply (fresh_reconciled _ _ _ _ Hi Hnc l).
  - intros t r Hn Hr. apply (fresh_late _ _ _ _ Hi Hnc); [done|done|].
    by apply (elem_of_sharing _ _ _ _ Hi) in Hr as [_ Hr].
  - intros ps Hn Hps Hnd. apply (fresh_open_break _ _ _ _ Hi Hnc); [apply Hl|congruence| |done].
    intros c Hc. by eapply inv_sub, Hps.
Qed.

Lemma AssignID_arrive t l : AssignID l = l -> AssignID (arrive t l) = arrive t l.
Proof.
  unfold arrive. destruct (IsZero _); [|done]. intros Hid. destruct l. unfold AssignID in *. cbn in *.
  injection Hid as Hid.
  change (ContentHash (set_IngestedAt t _)) with
    (ContentHash (mkLeg ID Source TxnRef AmountMinor Currency ValueDate Dir Counterparty Attrs IngestedAt Status MatchID BreakID)).
  unfold set_ID; cbn. by rewrite Hid.
Qed.

Lemma content_arrive t l : exact_time t -> content_ok U l -> content_ok U (arrive t l).
Proof.
  intros Ht Hl. pose proof (AssignID_arrive t l (co_id _ _ Hl)) as Hid.
  unfold arrive in *. destruct (IsZero _); [|done]. destruct Hl as [Hwf Ha Hd _ Hk _ Hat Hlog].
  destruct l. constructor; try done; by destruct Hwf.
Qed.

(** One leg, in any world of the invariant. *)
Lemma run_ingestOne_inv l w : world_inv w -> content_ok U l ->
  run (ingestOne cfg l) w (settled w (fun res v' i' =>
    ingest_step cfg (rule_match (rules cfg)) (vw w) (ix w) (replaying w) (clock cfg (ticks w))
      (arrive (clock cfg (ticks w)) l) res v' i')).
Proof.
  intros Hw Hl. apply run_ingestOne; [apply Hsane|]. apply world_inv_ready; [done|].
  apply content_arrive; [apply Hsane|done].
Qed.

(** ** Computations that keep the invariant and a relation *)

(** A preorder on worlds that every step of the engine respects; the trivial
    one gives the invariant, others what the engine never does to the log or
    to a leg. *)
Record step_rel (R : W -> W -> Prop) : Prop := {
  sr_refl w : R w w;
  sr_trans w1 w2 w3 : R w1 w2 -> R w2 w3 -> R w1 w3;
  sr_quiet w w' : quiet w w' -> R w w';
  sr_ingest w w' t l r : world_inv w -> content_ok U l -> replaying w' = replaying w ->
    ingest_step cfg (rule_match (rules cfg)) (vw w) (ix w) (replaying w) t l r (vw w') (ix w') -> R w w';
  sr_expire w w' t l : world_inv w -> replaying w' = replaying w ->
    expire_step cfg (vw w) (ix w) t l (vw w') (ix w') -> R w w';
  sr_resolve w w' t id reason actor : world_inv w -> replaying w' = replaying w ->
    resolve_step (vw w) t id reason actor (vw w') -> R w w';
  sr_note w w' ev : world_inv w -> replaying w' = replaying w ->
    ev_Type ev = EvWindowClosed \/ ev_Type ev = EvReplayStarted ->
    applied (mkChangeSet [] [] [] [ev]) (vw w) (vw w') -> R w w'
}.

Variable R : W -> W -> Prop.
Context (HR : step_rel R).

Definition after (w w' : W) : Prop := world_inv w' /\ R w w'.

Lemma after_refl w : world_inv w -> after w w.
Proof. intros Hw. split; [done|]. by apply sr_refl. Qed.

Lemma after_trans w1 w2 w3 : after w1 w2 -> after w2 w3 -> after w1 w3.
Proof. intros [_ H12] [Hw H23]. split; [done|]. by eapply (sr_trans _ HR). Qed.

Lemma after_quiet w w' : world_inv w -> quiet w w' -> after w w'.
Proof. intros Hw Hq. split; [by eapply world_inv_quiet|]. by apply sr_quiet. Qed.

Definition keeps {A} (m : M W A) : Prop := forall w, world_inv w -> run m w (fun _ w' => after w w').

(** Go on from a later world. *)
Lemma keeps_after {A} (m : M W A) w w' : keeps m -> after w w' -> run m w' (fun _ w2 => after w w2).
Proof.
  intros Hm Haf. eapply run_mono; [apply Hm, Haf|]. intros r w2 Hw2. by eapply after_trans.
Qed.

Lemma keeps_ret {A} (a : A) : keeps (mret a).
Proof. intros w Hw. by apply after_refl. Qed.

Lemma keeps_lift {A} (r : result A) : keeps (lift r).
Proof. intros w Hw. by apply after_refl. Qed.

Lemma keeps_bind {A B} (m : M W A) (k : A -> M W B) :
  keeps m -> (forall a, keeps (k a)) -> keeps (mbind m k).
Proof.
  intros Hm Hk w Hw. apply run_bind. eapply run_mono; [by apply Hm|].
  intros [a|e] w' Hw'; [by apply keeps_after|done].
Qed.

Lemma keeps_try {A} (m : M W A) : keeps m -> keeps (mtry m).
Proof. intros Hm w Hw. apply run_try. by apply Hm. Qed.

Lemma keeps_wrap {A} p (m : M W A) : keeps m -> keeps (mwrap p m).
Proof.
  intros Hm w Hw. apply run_wrap. eapply run_mono; [by apply Hm|]. by intros [|] w' Hw'.
Qed.

Lemma keeps_now : keeps (now cfg).
Proof. intros w Hw. apply run_now; [apply Hw|]. intros w' Hq. by apply after_quiet. Qed.

Lemma keeps_bind_now {A} (k : Time -> M W A) : (forall t, exact_time t -> keeps (k t)) -> keeps (mbind (now cfg) k).
Proof.
  intros Hk w Hw. apply run_bind, run_now; [apply Hw|]. intros w' Hq.
  apply keeps_after; [apply Hk, Hsane|by apply after_quiet].
Qed.

Lemma keeps_poll : keeps (poll cfg).
Proof. intros w Hw. apply run_poll; [apply Hw|]. intros o w' Hq. by apply after_quiet. Qed.

Lemma keeps_notifyOpen : keeps (notifyOpen cfg).
Proof. intros w Hw. apply run_notifyOpen; [apply Hw|]. intros w' Hq. by apply after_quiet. Qed.

Lemma settled_ok {A} w (P : A -> View -> Index -> Prop) r w' : settled w P r w' -> repo_ok (store w').
Proof. by intros [? _]. Qed.

(** A settled computation whose success keeps both does so always. *)
Lemma settled_after {A} w (P : A -> View -> Index -> Prop) r w' :
  world_inv w -> settled w P r w' ->
  (forall a, view_wf (vw w') -> P a (vw w') (ix w') -> replaying w' = replaying w ->
     state_inv (rules cfg) U (vw w') (ix w') /\ R w w') ->
  after w w'.
Proof.
  intros [Hok Hi] (Hok' & Hrep & HP) Hpost. destruct r as [a|e].
  - destruct (Hpost a (view_is_wf _ Hok') HP Hrep). split; [by constructor|done].
  - destruct HP as [Hv Hx]. split; [constructor; [done|by rewrite Hv, Hx]|].
    apply sr_quiet; [done|]. by constructor.
Qed.

Lemma keeps_ingestOne l : content_ok U l -> keeps (ingestOne cfg l).
Proof.
  intros Hl w Hw. pose proof (content_arrive _ l (sc_clock _ Hsane (ticks w)) Hl) as Hl'.
  eapply run_mono; [by apply run_ingestOne_inv|].
  intros r w' Hs. eapply settled_after; [exact Hw|exact Hs|]. intros res Hvw Hstep Hrep. split.
  - eapply (ingest_step_inv (rules cfg) U _ _ (wi_inv _ Hw) Hnc cfg eq_refl (sc_rules _ Hsane));
      [apply Hsane|exact Hl'|exact Hstep|done].
  - by eapply (sr_ingest _ HR); [| |done|exact Hstep].
Qed.

Lemma keeps_ResolveBreak id reason actor : keeps (ResolveBreak cfg id reason actor).
Proof.
  intros w Hw. eapply run_mono; [apply run_ResolveBreak; [apply Hsane|apply Hw]|].
  intros r w' Hs. eapply settled_after; [exact Hw|exact Hs|].
  intros [b [e|]] Hvw [Hix Hr] Hrep.
  - rewrite Hix, Hr. split; [apply Hw|]. apply (sr_quiet _ HR). constructor; [apply (settled_ok _ _ _ _ Hs)|done..].
  - destruct Hr as (_ & _ & b0 & n & _ & _ & _ & _ & Hstep). split.
    + rewrite Hix. by eapply (resolve_inv _ _ _ _ (wi_inv _ Hw)); [apply (sc_clock _ Hsane)|exact Hstep|].
    + by eapply (sr_resolve _ HR).
Qed.

Lemma keeps_reapplyResolution ev : (forall p, dec_resolution (ev_Payload ev) = Ok p -> exact_time (rp_At p)) ->
  keeps (reapplyResolution ev).
Proof.
  intros Hat w Hw. eapply run_mono; [by apply run_reapplyResolution; [|apply Hw]|].
  intros r w' Hs. eapply settled_after; [exact Hw|exact Hs|].
  intros _ Hvw [Hix [Hv|(p & Hp & _ & _ & Hstep)]] Hrep.
  - rewrite Hix, Hv. split; [apply Hw|]. apply (sr_quiet _ HR). constructor; [apply (settled_ok _ _ _ _ Hs)|done..].
  - split.
    + rewrite Hix. eapply (resolve_inv _ _ _ _ (wi_inv _ Hw)); [by apply Hat|exact Hstep|done].
    + by eapply (sr_resolve _ HR).
Qed.

(** A log entry of its own. *)
Lemma run_note w typ t agg j Q : exact_time t -> world_inv w -> typ = EvWindowClosed \/ typ = EvReplayStarted ->
  (forall e w', after w w' -> Q (Err e) w') ->
  (forall w', after w w' -> Q (Ok tt) w') ->
  run (repo (Apply (mkChangeSet [] [] [] [event typ t agg j]))) w Q.
Proof.
  intros Hat Hw Ht He Ho. apply run_Apply; [apply Hw|apply (cs_ok_events _ _ t); [done|by apply Forall_singleton]| |].
  - intros e w' Hq. apply He. by apply after_quiet.
  - intros w' Hok Hap Hix Hrep. apply Ho. split.
    + constructor; [done|]. rewrite Hix.
      eapply (only_events_inv _ _ _ _ (wi_inv _ Hw)); [|exact Hap|by apply view_is_wf].
      apply Forall_singleton, other_event; by destruct Ht as [-> | ->].
    + by apply (sr_note _ HR _ _ (event typ t agg j)).
Qed.

(** ** Batches *)

(** What a batch is assumed to be: amounts in range, value dates of four-digit
    years, leg IDs of [U] (as they arrive and as a replay derives them, the
    same for text that is UTF-8), times and attributes the store keeps; the
    rest is up to validation. *)
Definition leg_in_scope (l : Leg) : Prop :=
  amount_ok (AmountMinor l) /\ wf_date_range (ValueDate l) /\ ID (AssignID (Validate l).1) ∈ U /\
  exact_time (IngestedAt l) /\ exact_attrs (Attrs l) /\ ID (AssignID (coerce_leg (Validate l).1)) ∈ U.

Lemma validated_content l l' : Validate l = (l', Ok tt) -> leg_in_scope l -> content_ok U (AssignID l').
Proof.
  intros Hv (Ha & Hd & Hk & Ht & Hat & Hlog). rewrite Hv in Hk, Hlog. apply Validate_sound in Hv as [[] Heq].
  assert (AmountMinor l' = AmountMinor l /\ ValueDate l' = ValueDate l /\ IngestedAt l' = IngestedAt l /\
    Attrs l' = Attrs l) as (E1 & E2 & E3 & E4) by (by rewrite Heq).
  constructor; [by constructor|by rewrite <- E1 in Ha|by rewrite <- E2 in Hd|apply AssignID_idem|done
    |by rewrite <- E3 in Ht|by rewrite <- E4 in Hat|exact Hlog].
Qed.

Lemma validate_batch_content i ls ls' : Forall leg_in_scope ls ->
  validate_batch i ls = (ls', None) -> Forall (content_ok U) ls'.
Proof.
  intros Hs. revert i ls'. induction Hs as [|l ls Hl _ IH]; intros i ls'; cbn [validate_batch].
  { intros [= <-]. constructor. }
  destruct (Validate l) as [l1 [[]|e]] eqn:E; [|done].
  destruct (validate_batch (i + 1) ls) as [ls1 err] eqn:E1. intros [= <- ->].
  constructor; [by eapply validated_content|by eapply IH].
Qed.

Lemma keeps_ingest_loop ls res : Forall (content_ok U) ls -> keeps (ingest_loop cfg ls res).
Proof.
  intros Hls. revert res. induction Hls as [|l ls Hl _ IH]; intros res; cbn [ingest_loop].
  - apply keeps_bind; [apply keeps_notifyOpen|intros _; apply keeps_ret].
  - apply keeps_bind; [apply keeps_poll|]. intros [e|]; [apply keeps_ret|].
    apply keeps_bind; [by apply keeps_try, keeps_ingestOne|]. intros [r|e]; [apply IH|apply keeps_ret].
Qed.

Lemma keeps_Ingest ls : Forall leg_in_scope ls -> keeps (Ingest cfg ls).
Proof.
  intros Hls. unfold Ingest. destruct (validate_batch 0 ls) as [ls' [e|]] eqn:E; [apply keeps_ret|].
  by eapply keeps_ingest_loop, validate_batch_content.
Qed.

(** ** Expiry *)

(** An open leg is in no break yet. *)
Lemma world_inv_open w l : world_inv w -> byID (ix w) !! ID l = Some l ->
  iso_currency (Currency l) /\ v_breaks (vw w) !! DeriveID "brk" [ID l] = None.
Proof.
  intros [_ Hi] [Hl Ho]%(inv_open _ _ _ _ Hi). destruct (inv_legs _ _ _ _ Hi _ _ Hl) as [Hc _].
  split; [apply Hc|]. apply (fresh_open_break _ _ _ _ Hi Hnc l []); [apply Hc|congruence| |apply NoDup_singleton].
  intros c Hin. by apply not_elem_of_nil in Hin.
Qed.

Definition current (w : W) (ls : list Leg) : Prop :=
  forall l x, l ∈ ls -> byID (ix w) !! ID l = Some x -> x = l.

Lemma run_expire_loop t forced ls count w : exact_time t -> world_inv w -> current w ls ->
  run (expire_loop cfg t forced ls count) w (fun _ w' => after w w').
Proof.
  intros Ht. revert w count. induction ls as [|l ls IH]; intros w count Hw Hc; cbn [expire_loop].
  { by apply run_ret, after_refl. }
  apply run_bind, run_poll; [apply Hw|]. intros o w1 Hq1.
  assert (after w w1) as Ha1 by (by apply after_quiet). pose proof Ha1 as [Hw1 _].
  destruct o as [e|]; [done|].
  apply run_bind, run_try. eapply run_mono.
  { apply run_expire_one; [done|apply Hw1| | |].
    - by apply world_inv_open.
    - intros id x. eapply inv_sub, Hw1.
    - intros x. rewrite (q_ix _ _ Hq1). apply Hc. by left. }
  intros r w2 Hs. cbv beta iota.
  assert (after w1 w2) as Ha2.
  { eapply settled_after; [exact Hw1|exact Hs|]. intros [|] Hvw Hstep Hrep.
    - split; [|by eapply (sr_expire _ HR)].
      eapply (expire_step_inv (rules cfg) U _ _ (wi_inv _ Hw1) Hnc cfg); [exact Hstep|done].
    - destruct Hstep as (Hv & Hi & _). rewrite Hv, Hi. split; [apply Hw1|].
      apply (sr_quiet _ HR). constructor; [apply (settled_ok _ _ _ _ Hs)|done..]. }
  assert (after w w2) as Ha by (by eapply after_trans).
  destruct r as [b|e]; [|done].
  eapply run_mono; [apply IH; [apply Ha2|]|intros r w3 Hw3; by eapply after_trans].
  intros x y Hx Hy. apply (Hc x y); [by right|]. rewrite <- (q_ix _ _ Hq1).
  destruct Hs as (_ & _ & Hs). destruct b.
  - assert (ix w2 = ix_Remove (ix w1) [ID l]) as Hi by (by inversion Hs).
    rewrite Hi, ix_Remove_lookup in Hy. by destruct (decide _) in Hy.
  - destruct Hs as (_ & <- & _). done.
Qed.

Lemma keeps_expire olderThan forced : keeps (expire cfg olderThan forced).
Proof.
  intros w Hw. unfold expire. apply run_bind, run_now; [apply Hw|]. intros w1 Hq1.
  assert (after w w1) as Ha1 by (by apply after_quiet). pose proof Ha1 as [Hw1 _].
  apply run_bind, run_get.
  destruct (Expired (ix w1) _ olderThan) as [|l0 ls0] eqn:E; [done|].
  apply run_bind. eapply run_mono.
  { apply run_expire_loop; [apply Hsane|done|]. rewrite <- E. intros l x Hl Hx.
    apply elem_of_Expired in Hl as [Hl _]; [|apply (inv_ix _ _ _ _ (wi_inv _ Hw1))]. congruence. }
  intros [[count [e|]]|e] w2 Ha2; [by eapply after_trans| |by eapply after_trans].
  apply keeps_after; [|by eapply after_trans]. apply keeps_bind; [apply keeps_try|intros r].
  - destruct forced; [|apply keeps_ret]. intros w3 Hw3.
    apply run_bind, run_lift. rewrite (addEvent_only _ _ _ _ []). cbn [app].
    apply run_note; [apply Hsane|done|by left|done|done].
  - destruct r; [|apply keeps_ret].
    apply keeps_bind; [apply keeps_notifyOpen|intros _; apply keeps_ret].
Qed.

(** ** Replay *)

Lemma keeps_replay_event ev res : event_ok U ev -> keeps (replay_event cfg ev res).
Proof.
  intros He. unfold replay_event. case_bool_decide.
  { apply keeps_bind; [by apply keeps_reapplyResolution, He|intros _; apply keeps_ret]. }
  case_bool_decide as Ht; [|apply keeps_ret]. cbn [negb]. pose proof (eo_arrival _ _ He Ht) as Hl.
  intros w Hw. apply run_bind, run_lift.
  destruct (unmarshalLeg (ev_Payload ev)) as [l|e]; [|by apply after_refl].
  apply keeps_bind; [apply keeps_ingestOne; by apply Hl|intros r; apply keeps_ret|done].
Qed.

Lemma keeps_replay_page through evs cursor res : Forall (event_ok U) evs ->
  keeps (replay_page cfg through evs cursor res).
Proof.
  intros He. revert cursor res. induction He as [|ev evs Hev _ IH]; intros cursor res; cbn [replay_page].
  { apply keeps_ret. }
  destruct (_ <? _); [apply keeps_ret|].
  apply keeps_bind; [by apply keeps_try, keeps_wrap, keeps_replay_event|].
  intros [r|e]; [apply IH|apply keeps_ret].
Qed.

Lemma run_EventsFrom from limit w Q : repo_ok (store w) -> 0 < limit ->
  (forall e w', quiet w w' -> Q (Err e) w') ->
  (forall evs w', quiet w w' ->
     evs = take (Z.to_nat limit) (filter (fun e => from <= ev_Seq e) (v_events (vw w))) -> Q (Ok evs) w') ->
  run (repo (EventsFrom from limit)) w Q.
Proof.
  intros Hw Hl He Ho. eapply run_read; [intros r s' E; exact (EventsFrom_law from limit _ r s' Hw Hl E)|].
  intros [evs|e] w' Hq Hevs; [|by apply He]. apply Ho; [done|]. by apply Hevs.
Qed.

Lemma page_events_ok w from limit : world_inv w ->
  Forall (event_ok U) (take limit (filter (fun e => from <= ev_Seq e) (v_events (vw w)))).
Proof.
  intros Hw. apply Forall_take, Forall_forall. intros e [_ He]%list_elem_of_filter.
  pose proof (inv_log _ _ _ _ (wi_inv _ Hw)) as Hlog. by eapply Forall_forall in Hlog.
Qed.

Lemma keeps_replay_loop fuel through cursor res : keeps (replay_loop cfg fuel through cursor res).
Proof.
  revert cursor res. induction fuel as [|fuel IH]; intros cursor res; cbn [replay_loop]; [apply keeps_ret|].
  assert (forall A (a : A), keeps (notifyOpen cfg ;;! mret a)%recon) as Hend.
  { intros A a. apply keeps_bind; [apply keeps_notifyOpen|intros _; apply keeps_ret]. }
  destruct (_ <? _); [apply Hend|].
  intros w Hw. apply run_bind, run_try, run_wrap. apply run_EventsFrom; [apply Hw|done| |].
  { intros e w' Hq. by apply after_quiet. }
  intros evs w' Hq Hevs. assert (after w w') as Ha by (by apply after_quiet).
  pose proof (page_events_ok w cursor (Z.to_nat page) Hw) as Hok. rewrite <- Hevs in Hok.
  destruct evs as [|ev evs]; [by apply keeps_after|].
  apply keeps_after; [|done]. apply keeps_bind; [by apply keeps_replay_page|].
  intros [[cursor' res'] [e|]]; [apply keeps_ret|]. destruct (_ <? _); [apply Hend|apply IH].
Qed.

(** Clearing the projections. *)
Context (Hreset : forall w w', world_inv w -> vw w' = mkView ∅ ∅ ∅ (v_events (vw w)) ->
           replaying w' = replaying w -> R w w').

Lemma keeps_replay_start from : keeps (replay_start cfg from).
Proof.
  intros w Hw. unfold replay_start. apply run_bind, run_wrap.
  eapply run_read; [intros r s' E; exact (LastSeq_law _ r s' (wi_ok _ Hw) E)|].
  intros [through|e] w1 Hq1 _; [|by apply after_quiet].
  apply keeps_after; [|by apply after_quiet]. clear w Hw w1 Hq1.
  apply keeps_bind_now. intros t Ht w Hw.
  apply run_bind, run_lift. rewrite (addEvent_only _ _ _ _ []). cbn [app].
  apply run_bind, run_note; [done|done|by right|done|]. intros w3 Ha3. apply keeps_after; [|done].
  clear w Hw w3 Ha3.
  intros w Hw. apply run_bind, run_wrap, run_repo. unfold run at 1.
  destruct (ResetProjections (store w)) as [r s4] eqn:E. cbn [fst snd].
  destruct (ResetProjections_law _ _ _ (wi_ok _ Hw) E) as [Hok4 Hv4]. destruct r as [[]|e].
  - apply run_bind, run_get, run_bind, run_set_ix, run_ret. split; [|by apply Hreset].
    constructor; [done|]. cbn [store ix]. rewrite Hv4. apply reset_inv.
    + apply (view_is_wf _ (wi_ok _ Hw)).
    + apply (inv_log _ _ _ _ (wi_inv _ Hw)).
  - apply after_quiet; [done|]. by constructor.
Qed.

Lemma keeps_Replay from : (forall w b, R w (mkWorld (store w) (ix w) b (ticks w) (polls w) (trace w))) ->
  keeps (Replay cfg from).
Proof.
  intros Hset. assert (forall b, keeps (set_replaying b)) as Hsr.
  { intros b w [Hok Hi]. split; [by constructor|apply Hset]. }
  unfold Replay. cbv zeta. apply keeps_bind; [apply keeps_try, keeps_replay_start|].
  intros [through|e]; [|apply keeps_ret].
  apply keeps_bind; [apply Hsr|intros _].
  apply keeps_bind; [apply keeps_replay_loop|intros out].
  apply keeps_bind; [apply Hsr|intros _; apply keeps_ret].
Qed.

(** ** Restart *)

Lemma add_all_byID ls i : NoDup (ID <$> ls) -> (forall l, l ∈ ls -> byID i !! ID l = None) ->
  byID (foldl ix_Add i ls) = put_legs ls (byID i).
Proof.
  revert i. induction ls as [|l ls IH]; intros i Hnd Hf; [done|]. cbn [foldl].
  cbn in Hnd. apply NoDup_cons in Hnd as [Hl Hnd]. rewrite IH; [|done|].
  - rewrite ix_Add_byID; [done|]. apply Hf. by left.
  - intros x Hx. rewrite ix_Add_byID by (apply Hf; by left). rewrite lookup_insert_ne.
    + apply Hf. by right.
    + intros Heq. apply Hl. rewrite Heq. apply list_elem_of_fmap. by exists x.
Qed.

Lemma add_all_wf ls i : ix_wf i -> ix_wf (foldl ix_Add i ls).
Proof. revert i. induction ls as [|l ls IH]; intros i Hi; [done|]. by apply IH, ix_Add_wf. Qed.

Lemma add_all_ttl ls i : ttl (foldl ix_Add i ls) = ttl i.
Proof. revert i. induction ls as [|l ls IH]; intros i; [done|]. cbn. by rewrite IH, ix_Add_ttl. Qed.

(** The index rebuilt from the open legs of a consistent store is the one the
    invariant ties to that store. *)
Lemma rebuilt_index v i t ls : state_inv (rules cfg) U v i -> ttl i = t ->
  ls ≡ₚ filter (fun l => Status l = LegOpen) (values (v_legs v)) ->
  foldl ix_Add (NewIndex t) ls = i.
Proof.
  intros Hi Ht Hls. pose proof (vw_legs _ (inv_view _ _ _ _ Hi)) as Hk.
  assert (forall l, l ∈ ls <-> byID i !! ID l = Some l) as Hin.
  { intros l. rewrite Hls, list_elem_of_filter, elem_of_values_keyed by done.
    rewrite (inv_open _ _ _ _ Hi). tauto. }
  assert (NoDup (ID <$> ls)) as Hnd.
  { apply (open_NoDup i); [intros c; apply Hin|]. rewrite Hls. by apply NoDup_filter, NoDup_values. }
  apply ix_wf_ext; [apply add_all_wf, NewIndex_wf|apply (inv_ix _ _ _ _ Hi)|by rewrite add_all_ttl|].
  rewrite add_all_byID by done. apply map_eq_iff. intros id l. rewrite put_legs_lookup by done. split.
  - intros [[Hl <-]|[_ Hl]]; [by apply Hin|].
    change (byID (NewIndex t)) with (∅ : gmap string Leg) in Hl. by rewrite lookup_empty in Hl.
  - intros Hl. left. pose proof (wf_keyed _ (inv_ix _ _ _ _ Hi) _ _ Hl) as <-. split; [by apply Hin|done].
Qed.

Lemma run_Rebuild w i : repo_ok (store w) -> state_inv (rules cfg) U (vw w) i -> ttl (ix w) = ttl i ->
  run (Rebuild cfg) w (fun r w' => repo_ok (store w') /\ vw w' = vw w /\
    match r with Ok _ => ix w' = i | Err _ => ix w' = ix w end /\ replaying w' = replaying w).
Proof.
  intros Hok Hi Ht. unfold Rebuild. apply run_bind, run_wrap.
  eapply run_read; [intros r s' E; exact (OpenLegs_law _ r s' Hok E)|].
  intros [ls|e] w1 [Hok1 Hv1 Hi1 Hr1] Hls; [|done].
  apply run_bind, run_get, run_bind, run_set_ix, run_notifyOpen; [done|].
  intros w2 [Hok2 Hv2 Hi2 Hr2]. split_and!; [done|by rewrite Hv2| |by rewrite Hr2]. rewrite Hi2. cbn [ix].
  eapply rebuilt_index; [exact Hi|by rewrite Hi1|]. by apply Hls.
Qed.

Lemma keeps_Rebuild : keeps (Rebuild cfg).
Proof.
  intros w Hw. eapply run_mono; [eapply run_Rebuild; [apply Hw|apply Hw|done]|].
  intros r w' (Hok & Hv & Hr & Hrep). apply after_quiet; [done|].
  constructor; [done|done| |done]. by destruct r.
Qed.
End Run.
