(* ===== verification/EngineHistory.v ===== *)
(** * Histories of the engine

    What is never undone: the log only grows, a leg's business fields never
    change and its status only moves forward, matches are final, breaks are
    only ever resolved. The operations as a step relation, and the worlds
    reachable through it. *)

From S2P Require Export EngineRun.

(** ** The log only grows *)

Definition appended (P : Event -> Prop) (evs evs' : list Event) : Prop :=
  exists new, evs' = evs ++ new /\ Forall P new.

Lemma appended_refl P evs : appended P evs evs.
Proof. exists []. by rewrite app_nil_r. Qed.

Lemma appended_trans P e1 e2 e3 : appended P e1 e2 -> appended P e2 e3 -> appended P e1 e3.
Proof.
  intros (n1 & -> & H1) (n2 & -> & H2). exists (n1 ++ n2). rewrite <- app_assoc.
  split; [done|]. by apply Forall_app.
Qed.

Lemma appended_weaken (P Q : Event -> Prop) e1 e2 : (forall e, P e -> Q e) ->
  appended P e1 e2 -> appended Q e1 e2.
Proof. intros HPQ (n & -> & Hn). exists n. split; [done|]. by eapply Forall_impl. Qed.

Lemma stamped_types `{Fidelity} (P : string -> Prop) evs new : stamped evs new ->
  Forall (fun e => P (ev_Type e)) evs -> Forall (fun e => P (ev_Type e)) new.
Proof.
  induction 1 as [|e e' evs new He _ IH]; [constructor|]. inversion 1; subst.
  constructor; [by rewrite He|auto].
Qed.

Lemma applied_appended `{Fidelity} (P : string -> Prop) cs v v' : applied cs v v' ->
  Forall (fun e => P (ev_Type e)) (cs_Events cs) ->
  appended (fun e => P (ev_Type e)) (v_events v) (v_events v').
Proof. intros [_ _ _ (new & -> & Hs)] He. exists new. split; [done|]. by eapply stamped_types. Qed.

(** The event types that record an arrival. *)
Definition is_arrival (typ : string) : Prop := typ = EvLegIngested \/ typ = EvLegDuplicate.

(** ** Lives of legs, matches and breaks *)

(** The moves of a leg's status. *)
Definition forward (s s' : LegStatus) : Prop :=
  (s = LegOpen /\ (s' = LegMatched \/ s' = LegBroken)) \/ (s = LegBroken /\ s' = LegMatched).

(** What may have become of a leg of the store: the same leg, or the same
    business fields with the status moved forward. *)
Inductive leg_life : option Leg -> option Leg -> Prop :=
  | life_unseen o : leg_life None o
  | life_same l : leg_life (Some l) (Some l)
  | life_moved l s m b : forward (Status l) s -> leg_life (Some l) (Some (set_state s m b l)).

Lemma leg_life_trans o1 o2 o3 : leg_life o1 o2 -> leg_life o2 o3 -> leg_life o1 o3.
Proof.
  assert (LegOpen <> LegMatched /\ LegOpen <> LegBroken /\ LegMatched <> LegBroken) as (N1 & N2 & N3) by done.
  intros [o|l|l s m b Hf] H2; [constructor|done|]. inversion H2 as [|l' E|l' s' m' b' Hf' E1 E2]; subst.
  - by constructor.
  - assert (set_state s' m' b' (set_state s m b l) = set_state s' m' b' l) as -> by done.
    constructor. change (Status (set_state s m b l)) with s in Hf'. unfold forward in *.
    destruct Hf as [[-> [-> | ->]]|[-> ->]]; destruct Hf' as [[? [-> | ->]]|[? ->]];
      try congruence; naive_solver.
Qed.

(** A break changes once, when it is resolved. *)
Definition break_life (b b' : Break) : Prop :=
  b' = b \/ (b_Status b <> BreakResolved /\ exists t r a, b' = resolve t r a b).

Record view_life (v v' : View) : Prop := {
  vl_legs : forall id, leg_life (v_legs v !! id) (v_legs v' !! id);
  vl_matches : forall id m, v_matches v !! id = Some m -> v_matches v' !! id = Some m;
  vl_breaks : forall id b, v_breaks v !! id = Some b ->
    exists b', v_breaks v' !! id = Some b' /\ break_life b b'
}.

Lemma break_life_trans b1 b2 b3 : break_life b1 b2 -> break_life b2 b3 -> break_life b1 b3.
Proof.
  intros [->|(Hs & t & r & a & ->)]; [done|]. intros [->|(Hs' & _)].
  - right. split; [done|]. eauto.
  - by destruct Hs'.
Qed.

Lemma view_life_refl v : view_life v v.
Proof.
  constructor; [|done|].
  - intros id. destruct (v_legs v !! id); constructor.
  - intros id b Hb. exists b. split; [done|by left].
Qed.

Lemma view_life_trans v1 v2 v3 : view_life v1 v2 -> view_life v2 v3 -> view_life v1 v3.
Proof.
  intros [L1 M1 B1] [L2 M2 B2]. constructor.
  - intros id. by eapply leg_life_trans.
  - auto.
  - intros id b Hb. destruct (B1 id b Hb) as (b2 & Hb2 & Hl2). destruct (B2 id b2 Hb2) as (b3 & Hb3 & Hl3).
    exists b3. split; [done|]. by eapply break_life_trans.
Qed.

(** A change whose legs are unseen or move forward, whose match is new and whose
    break is new or resolves one. *)
Lemma applied_life `{Fidelity} v v' ls om ob evs :
  applied (mkChangeSet ls (option_list om) (option_list ob) evs) v v' ->
  NoDup (ID <$> ls) ->
  (forall x, x ∈ ls -> leg_life (v_legs v !! ID x) (Some x)) ->
  (forall m, om = Some m -> v_matches v !! m_ID m = None) ->
  (forall b, ob = Some b -> forall b0, v_breaks v !! b_ID b = Some b0 -> break_life b0 b) ->
  view_life v v'.
Proof.
  intros [Hl Hm Hb _] Hnd Hlegs Hmatch Hbreak. cbn [cs_Legs cs_Matches cs_Breaks] in *. constructor.
  - intros id. destruct (decide (id ∈ ID <$> ls)) as [Hin|Hin].
    + apply list_elem_of_fmap in Hin as (x & -> & Hx).
      assert (v_legs v' !! ID x = Some x) as ->.
      { rewrite Hl, put_legs_lookup by done. by left. }
      by apply Hlegs.
    + assert (v_legs v' !! id = v_legs v !! id) as ->; [|destruct (v_legs v !! id); constructor].
      apply option_eq. intros x. rewrite Hl, put_legs_lookup by done. split; [|by right].
      intros [[Hx <-]|[_ Hx]]; [|done]. exfalso. apply Hin, list_elem_of_fmap. by exists x.
  - intros id m Hmm. rewrite Hm, put_matches_option. right. split; [done|]. intros m0 -> Heq.
    rewrite <- Heq, (Hmatch m0 eq_refl) in Hmm. done.
  - intros id b Hbb. destruct ob as [b0|]; [destruct (decide (b_ID b0 = id)) as [<-|Hne]|].
    + exists b0. split; [rewrite Hb; apply put_breaks_option; by left|]. by apply Hbreak.
    + exists b. split; [|by left]. rewrite Hb. apply put_breaks_option. right. split; [done|].
      by intros ? [= <-].
    + exists b. split; [|by left]. rewrite Hb. apply put_breaks_option. by right.
Qed.

Section Life.
Context `{Sha256} `{BreakClassifier} `{Fidelity} (cfg : Config) (U : gset string).
Context (Hsane : sane_rules (rules cfg)) (Hnc : no_collisions U).
Context (v : View) (i : Index) (Hinv : state_inv (rules cfg) U v i).

(** A leg that is new, or stored and open. *)
Definition movable (x : Leg) : Prop :=
  v_legs v !! ID x = None \/ (v_legs v !! ID x = Some x /\ Status x = LegOpen).

Lemma movable_life x s m b : movable x -> s = LegMatched \/ s = LegBroken ->
  leg_life (v_legs v !! ID x) (Some (set_state s m b x)).
Proof.
  intros [Hx|[Hx Ho]] Hs; rewrite Hx; [constructor|]. constructor. left. by split.
Qed.

Lemma open_break_life t trigger related ls pre j v' : ls <> [] -> NoDup (ID <$> ls) ->
  (forall x, x ∈ ls -> movable x /\ ID x ∈ U) ->
  applied (open_break cfg t trigger related ls pre j) v v' -> view_life v v'.
Proof.
  intros Hne Hnd Hls Hap. set (b := break_of cfg t trigger related ls).
  assert (exists x0, x0 ∈ ls) as [x0 Hx0] by (destruct ls as [|x0 ?]; [done|exists x0; by left]).
  apply (applied_life v v' (broken (b_ID b) <$> ls) None (Some b)
           (pre ++ [event EvBreakOpened t (b_ID b) j]) Hap).
  - by rewrite <- list_fmap_compose.
  - intros x (y & -> & Hy)%list_elem_of_fmap. apply (movable_life y); [by apply Hls|by right].
  - done.
  - intros b1 [= <-] b0 Hb0. exfalso.
    assert (v_breaks v !! b_ID b = None) as Hf; [|congruence].
    apply (fresh_break (rules cfg) U v i Hinv Hnc _ (ID x0)); [done| | |].
    + intros id (x & -> & Hx)%list_elem_of_fmap. by apply Hls.
    + apply list_elem_of_fmap. by exists x0.
    + destruct (Hls x0 Hx0) as [[Hn|[Hs Ho]] _]; intros x Hx; congruence.
Qed.

Lemma movable_known x : movable x -> v_legs v !! ID x = Some x -> ID x ∈ U.
Proof. intros _ Hx. by apply (known_leg (rules cfg) U v i Hinv) in Hx as [? _]. Qed.

Lemma open_movable c : byID i !! ID c = Some c -> movable c /\ ID c ∈ U.
Proof.
  intros Hc. apply (inv_open _ _ _ _ Hinv) in Hc as [Hc Ho]. split; [by right|].
  by apply (known_leg (rules cfg) U v i Hinv) in Hc as [? _].
Qed.

Lemma match_life l m t pre j v' : content_ok U l -> v_legs v !! ID l = None ->
  rule_match (rules cfg) i l m ->
  applied (mkChangeSet (matched (m_ID m) l :: (matched (m_ID m) <$> partners_of i l m))
             [set_MatchedAt t m] [] (pre ++ [event EvMatchCreated t (m_ID m) j])) v v' ->
  view_life v v'.
Proof.
  intros Hl Hn Hm Hap. pose proof (unseen_fresh _ _ _ _ Hinv l Hn) as Hf.
  destruct (rule_match_reconciles (rules cfg) i l Hsane (inv_amounts _ _ _ _ Hinv) (co_amount _ _ Hl) Hf m Hm)
    as (anchor & group & partners & Hrc).
  assert (forall c, c ∈ partners_of i l m -> movable c /\ ID c ∈ U) as Hp.
  { intros c Hc. apply (elem_of_partners_of _ _ _ _ _ _ _ Hf Hrc) in Hc.
    by apply open_movable, (rc_open _ _ _ _ _ _ _ Hrc). }
  apply (applied_life v v' _ (Some (set_MatchedAt t m)) None _ Hap).
  - rewrite fmap_cons, <- list_fmap_compose.
    change (NoDup (ID l :: (ID <$> partners_of i l m))). apply NoDup_cons.
    split; [|exact (partners_of_NoDup _ _ _ _ _ _ _ Hf Hrc)].
    rewrite (partners_of_ids _ _ _ _ _ _ _ Hf Hrc). by intros [? _]%list_elem_of_filter.
  - intros x [->|(y & -> & Hy)%list_elem_of_fmap]%elem_of_cons.
    + apply (movable_life l); [by left|by left].
    + apply (movable_life y); [by apply Hp|by left].
  - intros m0 [= <-]. change (m_ID (set_MatchedAt t m)) with (m_ID m).
    by eapply (fresh_reconciled _ _ _ _ Hinv Hnc l).
  - done.
Qed.

Lemma heal_life l r b t pre j1 j2 v' : content_ok U l -> v_legs v !! ID l = None ->
  v_legs v !! ID r = Some r -> late_candidate cfg l r = true ->
  v_breaks v !! BreakID r = Some b -> b_Status b = BreakOpen ->
  applied (mkChangeSet
     [matched (m_ID (late_match cfg t l r)) l;
      set_state LegMatched (m_ID (late_match cfg t l r)) "" r]
     [late_match cfg t l r] [late_resolution t b]
     (pre ++ [event EvMatchCreated t (m_ID (late_match cfg t l r)) j1;
              event EvBreakResolved t (b_ID b) j2])) v v' ->
  view_life v v'.
Proof.
  intros Hl Hn Hr Hlate Hb Hopen Hap. set (m := late_match cfg t l r) in *.
  pose proof (late_candidate_spec cfg l r Hlate) as (Hs & Hst & _ & _ & _).
  assert (ID r <> ID l) as Hne by (intros Heq; rewrite Heq in Hr; congruence).
  apply (applied_life v v' _ (Some m) (Some (late_resolution t b)) _ Hap).
  - change (NoDup [ID l; ID r]). apply NoDup_cons. split; [|apply NoDup_singleton].
    by intros ?%list_elem_of_singleton.
  - intros x Hx. apply elem_of_cons in Hx as [->|Hx].
    + apply (movable_life l); [by left|by left].
    + apply list_elem_of_singleton in Hx as ->. cbn [ID set_state]. rewrite Hr. constructor.
      right. by split.
  - intros m0 [= <-]. by apply (fresh_late _ _ _ _ Hinv Hnc).
  - intros b1 [= <-] b0. change (b_ID (late_resolution t b)) with (b_ID b).
    rewrite (vw_breaks _ (inv_view _ _ _ _ Hinv) _ _ Hb). intros Hb0.
    assert (b0 = b) as -> by congruence. right. split; [by rewrite Hopen|]. by eexists _, _, _.
Qed.

Lemma nothing_life evs v' : applied (mkChangeSet [] [] [] evs) v v' -> view_life v v'.
Proof.
  intros Hap. apply (applied_life v v' [] None None evs Hap); try done; [constructor|].
  by intros x ?%not_elem_of_nil.
Qed.

Lemma outcome_life t pre l r cs v' i' : content_ok U l -> v_legs v !! ID l = None ->
  outcome cfg (rule_match (rules cfg)) v i t pre l r cs i' -> applied cs v v' -> view_life v v'.
Proof.
  intros Hl Hn Ho Hap.
  assert (forall x, x ∈ [l] -> movable x /\ ID x ∈ U) as Hsingle.
  { intros x ->%list_elem_of_singleton. split; [by left|apply Hl]. }
  destruct Ho as [related r0 j _ _ _ _|m j _ Hm _|related partners j _ _ _ -> _ _
                 |r0 b j1 j2 _ Hr0 Hlate Hb Hopen _ _ _|related r0 j _ _ _ _ _|_ _].
  - eapply (open_break_life _ _ _ [l]); [done|apply NoDup_singleton|exact Hsingle|exact Hap].
  - by eapply match_life.
  - assert (forall c, c ∈ ByRef i l <-> byID i !! ID c = Some c /\ TxnRef c = TxnRef l /\ ID c <> ID l) as Hby.
    { intros c. apply (elem_of_ByRef (mkWorld tt i false 0 0 [])). apply (inv_ix _ _ _ _ Hinv). }
    eapply (open_break_life _ _ _ (l :: ByRef i l)); [done| | |exact Hap].
    + cbn. apply NoDup_cons. split.
      * intros (c & Heq & Hc%Hby)%list_elem_of_fmap. by destruct Hc as (_ & _ & ?).
      * apply (ByRef_NoDup (mkWorld tt i false 0 0 [])). apply (inv_ix _ _ _ _ Hinv).
    + intros x [->|Hx%Hby]%elem_of_cons; [apply Hsingle; by left|].
      destruct Hx as [Hx _]. by apply open_movable.
  - apply (elem_of_sharing _ _ _ _ Hinv) in Hr0 as [_ Hr0]. by eapply heal_life.
  - eapply (open_break_life _ _ _ [l]); [done|apply NoDup_singleton|exact Hsingle|exact Hap].
  - apply (applied_life v v' _ None None _ Hap).
    + apply NoDup_singleton.
    + intros x ->%list_elem_of_singleton. cbn [ID set_state]. rewrite Hn. constructor.
    + done.
    + done.
Qed.

Lemma ingest_step_life replaying t l r v' i' : content_ok U l ->
  ingest_step cfg (rule_match (rules cfg)) v i replaying t l r v' i' -> view_life v v'.
Proof.
  intros Hl [evs v1 _ _ Hap|pre r1 cs v1 i1 Hn _ Ho Hap]; [by eapply nothing_life|by eapply outcome_life].
Qed.

Lemma expire_step_life t l v' i' : expire_step cfg v i t l v' i' -> view_life v v'.
Proof.
  intros [related forced j v1 Hix _ _ Hap].
  eapply (open_break_life _ _ _ [l]); [done|apply NoDup_singleton| |exact Hap].
  intros x ->%list_elem_of_singleton. by apply open_movable.
Qed.

Lemma resolve_step_life at_ id reason actor v' : resolve_step v at_ id reason actor v' -> view_life v v'.
Proof.
  intros [b evs v1 Hb Hs _ Hap].
  apply (applied_life v v1 [] None (Some (resolve at_ reason actor b)) evs Hap).
  - constructor.
  - by intros x ?%not_elem_of_nil.
  - done.
  - intros b1 [= <-] b0. change (b_ID (resolve at_ reason actor b)) with (b_ID b).
    rewrite (vw_breaks _ (inv_view _ _ _ _ Hinv) _ _ Hb). intros Hb0.
    assert (b0 = b) as -> by congruence. right. split; [done|]. by eexists _, _, _.
Qed.
End Life.

(** ** The operations and the reachable worlds *)

Inductive op : Type :=
  | OpIngest (legs : list Leg)
  | OpSweep
  | OpCloseWindow (olderThan : Duration)
  | OpResolve (id reason actor : string)
  | OpReplay (from : Z)
  | OpRebuild.

Section Histories.
Context `{Sha256} `{BreakClassifier} {S : Type} `{RepositoryLaws S} (cfg : Config).
Variable U : gset string.
Context (Hsane : sane_config cfg) (Hnc : no_collisions U).

Abbreviation W := (World S).
Abbreviation vw w := (view (store w)).

Definition run_op (o : op) (w : W) : W :=
  match o with
  | OpIngest ls => (Ingest cfg ls w).2
  | OpSweep => (Sweep cfg w).2
  | OpCloseWindow d => (CloseWindow cfg d w).2
  | OpResolve id reason actor => (ResolveBreak cfg id reason actor w).2
  | OpReplay from => (Replay cfg from w).2
  | OpRebuild => (Rebuild cfg w).2
  end.

Definition op_in_scope (o : op) : Prop :=
  match o with OpIngest ls => Forall (leg_in_scope U) ls | _ => True end.

Definition is_replay (o : op) : bool := match o with OpReplay _ => true | _ => false end.

Inductive step : W -> W -> Prop :=
  | step_op o w : op_in_scope o -> step w (run_op o w).

(** Everything but a replay keeps the invariant and every step relation. *)
Lemma op_after R o w : step_rel cfg U R -> op_in_scope o -> is_replay o = false ->
  world_inv cfg U w -> after cfg U R w (run_op o w).
Proof.
  intros HR Ho Hn Hw.
  assert (forall A (m : M W A), keeps cfg U R m -> after cfg U R w (m w).2) as Hk
    by (intros A m Hm; exact (Hm w Hw)).
  destruct o as [ls| |d|id reason actor|from|]; cbn [run_op]; [..|done|]; apply Hk.
  - by apply keeps_Ingest.
  - by apply keeps_expire.
  - by apply keeps_expire.
  - by apply keeps_ResolveBreak.
  - by apply keeps_Rebuild.
Qed.

Lemma replay_after R from w : step_rel cfg U R ->
  (forall w b, R w (mkWorld (store w) (ix w) b (ticks w) (polls w) (trace w))) ->
  (forall w w', world_inv cfg U w -> vw w' = mkView ∅ ∅ ∅ (v_events (vw w)) ->
     replaying w' = replaying w -> R w w') ->
  world_inv cfg U w -> after cfg U R w (run_op (OpReplay from) w).
Proof.
  intros HR Hset Hreset Hw.
  exact (keeps_Replay cfg U Hsane Hnc R HR Hreset from Hset w Hw).
Qed.

Lemma true_step_rel : step_rel cfg U (fun _ _ => True).
Proof. done. Qed.

Lemma op_inv o w : op_in_scope o -> world_inv cfg U w -> world_inv cfg U (run_op o w).
Proof.
  intros Ho Hw. destruct (is_replay o) eqn:E.
  - destruct o; try done. by apply (replay_after (fun _ _ => True)).
  - by apply (op_after (fun _ _ => True)).
Qed.

Lemma steps_inv w w' : rtc step w w' -> world_inv cfg U w -> world_inv cfg U w'.
Proof. induction 1 as [|w1 w2 w3 [o w] _ IH]; [done|]. intros Hw. by apply IH, op_inv. Qed.

(** A fresh engine over an empty store. *)
Lemma NewEngine_inv s t w : NewEngine cfg s t = Ok w -> repo_ok s -> view s = mkView ∅ ∅ ∅ [] ->
  world_inv cfg U w.
Proof.
  unfold NewEngine. destruct (Rules_Validate _); [|done]. destruct (t <=? 0); [done|].
  intros [= <-] Hok Hv. constructor; [done|]. cbn [store ix]. rewrite Hv.
  apply reset_inv; [|constructor]. split; constructor.
Qed.

(** ** Relations *)

Definition same_life (w w' : W) : Prop := view_life (vw w) (vw w').

Lemma life_step_rel : step_rel cfg U same_life.
Proof.
  constructor; unfold same_life.
  - intros w. apply view_life_refl.
  - intros w1 w2 w3. apply view_life_trans.
  - intros w w' Hq. rewrite (q_view _ _ Hq). apply view_life_refl.
  - intros w w' t l r Hw Hl _ Hs.
    by eapply (ingest_step_life cfg U (sc_rules _ Hsane) Hnc _ _ (wi_inv _ _ _ Hw)).
  - intros w w' t l Hw _ Hs. by eapply (expire_step_life cfg U Hnc _ _ (wi_inv _ _ _ Hw)).
  - intros w w' t id reason actor Hw _ Hs. by eapply (resolve_step_life cfg U _ _ (wi_inv _ _ _ Hw)).
  - intros w w' ev _ _ _ Hap. by eapply nothing_life.
Qed.

(** The log grows; while replaying, by no arrival. *)
Definition log_grows (w w' : W) : Prop :=
  replaying w' = replaying w /\
  appended (fun e => replaying w = true -> ~ is_arrival (ev_Type e)) (v_events (vw w)) (v_events (vw w')).

Lemma outcome_events v i t pre l r cs i' P : outcome cfg (rule_match (rules cfg)) v i t pre l r cs i' ->
  Forall (fun e => P (ev_Type e)) pre ->
  P EvMatchCreated -> P EvBreakOpened -> P EvBreakResolved ->
  Forall (fun e => P (ev_Type e)) (cs_Events cs).
Proof.
  intros Ho Hpre H1' H2' H3'. destruct Ho; cbn [open_break cs_Events]; try done;
    (apply Forall_app; split; [done|]); repeat (apply Forall_cons; split; [done|]); by apply Forall_nil_2.
Qed.

Lemma not_arrival typ : typ ∈ [EvMatchCreated; EvBreakOpened; EvBreakResolved; EvLegExpired;
  EvWindowClosed; EvReplayStarted] -> ~ is_arrival typ.
Proof.
  rewrite !elem_of_cons, elem_of_nil. intros Hin [-> | ->]; repeat destruct Hin as [Hin|Hin]; done.
Qed.

Lemma log_step_rel : step_rel cfg U log_grows.
Proof.
  assert (forall w w', replaying w' = replaying w -> v_events (vw w') = v_events (vw w) -> log_grows w w') as Hsame.
  { intros w w' Hr He. split; [done|]. rewrite He. apply appended_refl. }
  assert (forall w w' cs, replaying w' = replaying w -> applied cs (vw w) (vw w') ->
    Forall (fun e => replaying w = true -> ~ is_arrival (ev_Type e)) (cs_Events cs) -> log_grows w w') as Happ.
  { intros w w' cs Hr Hap He. split; [done|].
    by apply (applied_appended (fun typ => replaying w = true -> ~ is_arrival typ) cs). }
  assert (forall typ (b : bool), typ ∈ [EvMatchCreated; EvBreakOpened; EvBreakResolved; EvLegExpired;
    EvWindowClosed; EvReplayStarted] -> b = true -> ~ is_arrival typ) as Hnot
    by (intros typ b Hin _; by apply not_arrival).
  constructor.
  - intros w. by apply Hsame.
  - intros w1 w2 w3 [R1 A1] [R2 A2]. split; [congruence|]. rewrite R1 in A2. by eapply appended_trans.
  - intros w w' Hq. apply Hsame; [apply Hq|]. by rewrite (q_view _ _ Hq).
  - intros w w' t l r Hw Hl Hr Hs.
    inversion Hs as [evs v' _ He Hap|pre r1 cs v' i' _ He Ho Hap]; subst;
      (eapply Happ; [done|exact Hap|]); unfold arrival in He; cbn [cs_Events].
    + destruct (replaying w); [rewrite He; constructor|].
      destruct He as (j & _ & ->). by apply Forall_singleton.
    + eapply (outcome_events _ _ _ _ _ _ _ _ (fun typ => replaying w = true -> ~ is_arrival typ) Ho).
      * destruct (replaying w); [rewrite He; constructor|].
        destruct He as (j & _ & ->). by apply Forall_singleton.
      * apply Hnot. left.
      * apply Hnot. right. left.
      * apply Hnot. do 2 right. left.
  - intros w w' t l Hw Hr Hs. inversion Hs as [related forced j v' _ _ _ Hap]; subst.
    eapply Happ; [done|exact Hap|].
    cbn [open_break cs_Events app]. repeat (apply Forall_cons; split; [apply Hnot|]).
    + do 3 right. left.
    + right. left.
    + apply Forall_nil_2.
  - intros w w' t id reason actor Hw Hr Hs. inversion Hs as [b evs v' _ _ He Hap]; subst.
    eapply Happ; [done|exact Hap|].
    eapply Forall_impl; [exact He|]. cbn. intros e [-> _]. apply Hnot. do 2 right. left.
  - intros w w' ev Hw Hr Ht Hap. eapply Happ; [done|exact Hap|]. cbn [cs_Events].
    apply Forall_singleton. apply Hnot. destruct Ht as [-> | ->]; [do 4 right; left|do 5 right; left].
Qed.

Definition log_extends (w w' : W) : Prop :=
  appended (fun _ => True) (v_events (vw w)) (v_events (vw w')).

Lemma log_grows_extends w w' : log_grows w w' -> log_extends w w'.
Proof. intros [_ Ha]. by eapply appended_weaken. Qed.

Lemma extends_step_rel : step_rel cfg U log_extends.
Proof.
  destruct log_step_rel as [R1 R2 R3 R4 R5 R6 R7]. constructor; try (intros; apply log_grows_extends; eauto; fail).
  intros w1 w2 w3. apply appended_trans.
Qed.

Lemma op_extends o w : op_in_scope o -> world_inv cfg U w -> log_extends w (run_op o w).
Proof.
  intros Ho Hw. destruct (is_replay o) eqn:E.
  - destruct o; try done. apply (replay_after log_extends); [apply extends_step_rel| | |done].
    + intros. apply appended_refl.
    + intros w1 w2 _ Hv _. unfold log_extends. rewrite Hv. apply appended_refl.
  - by apply (op_after log_extends); [apply extends_step_rel|..].
Qed.
End Histories.
