(* ===== verification/Parametric.v ===== *)
(** * The engine over two stores

    The engine's code is the same over every store, so a relation between
    computations over two stores that the engine's primitive steps respect
    ([Congruence]) relates the whole operations. *)

From S2P Require Export EngineHistory.

Local Open Scope recon_scope.

(** [PS] relates calls of the stores, and [PW] the engine's computations. *)
Class Congruence {S1 S2 : Type} `{Repository S1} `{Repository S2} (cfg : Config)
    (PS : forall A, M S1 A -> M S2 A -> Prop)
    (PW : forall A, M (World S1) A -> M (World S2) A -> Prop) : Prop := {
  cs_ret A (a : A) : PS A (mret a) (mret a);
  cs_bind A B m1 m2 (k1 : A -> M S1 B) (k2 : A -> M S2 B) :
    PS A m1 m2 -> (forall a, PS B (k1 a) (k2 a)) -> PS B (mbind m1 k1) (mbind m2 k2);
  cs_exists ref source : PS bool (exists_ref ref source) (exists_ref ref source);
  cs_Apply cs : PS unit (Apply cs) (Apply cs);
  cs_HasLeg id : PS bool (HasLeg id) (HasLeg id);
  cs_LegsByTxnRef ref : PS (list Leg) (LegsByTxnRef ref) (LegsByTxnRef ref);
  cs_OpenLegs : PS (list Leg) OpenLegs OpenLegs;
  cs_GetBreak id : PS Break (GetBreak id) (GetBreak id);
  cs_EventsFrom from limit : PS (list Event) (EventsFrom from limit) (EventsFrom from limit);
  cs_LastSeq : PS Z LastSeq LastSeq;
  cs_ResetProjections : PS unit ResetProjections ResetProjections;
  cw_ret A (a : A) : PW A (mret a) (mret a);
  cw_fail A e : PW A (mfail e) (mfail e);
  cw_bind A B m1 m2 (k1 : A -> M (World S1) B) (k2 : A -> M (World S2) B) :
    PW A m1 m2 -> (forall a, PW B (k1 a) (k2 a)) -> PW B (mbind m1 k1) (mbind m2 k2);
  cw_get A (k1 : World S1 -> M (World S1) A) (k2 : World S2 -> M (World S2) A) :
    (forall s1 s2 i b t p tr, PW A (k1 (mkWorld s1 i b t p tr)) (k2 (mkWorld s2 i b t p tr))) ->
    PW A (mbind mget k1) (mbind mget k2);
  cw_try A m1 m2 : PW A m1 m2 -> PW (result A) (mtry m1) (mtry m2);
  cw_wrap A p m1 m2 : PW A m1 m2 -> PW A (mwrap p m1) (mwrap p m2);
  cw_repo A m1 m2 : PS A m1 m2 -> PW A (repo m1) (repo m2);
  cw_lift A (r : result A) : PW A (lift r) (lift r);
  cw_now : PW Time (now cfg) (now cfg);
  cw_poll : PW (option error) (poll cfg) (poll cfg);
  cw_set_ix i : PW unit (set_ix i) (set_ix i);
  cw_set_replaying b : PW unit (set_replaying b) (set_replaying b);
  cw_call b h : PW unit (call b h) (call b h)
}.

Create HintDb same_run discriminated.
#[export] Hint Constants Opaque : same_run.

Section Parametric.
Context `{Sha256} `{BreakClassifier} {S1 S2 : Type} `{Repository S1} `{Repository S2} (cfg : Config).
Context (PS : forall A, M S1 A -> M S2 A -> Prop) (PW : forall A, M (World S1) A -> M (World S2) A -> Prop).
Context `{HPW : !Congruence cfg PS PW}.

Hint Extern 1 (PS _ _ _) =>
  first [ apply cs_ret | apply cs_exists | apply cs_Apply | apply cs_HasLeg | apply cs_LegsByTxnRef
        | apply cs_OpenLegs | apply cs_GetBreak | apply cs_EventsFrom | apply cs_LastSeq
        | apply cs_ResetProjections ] : same_run.
Hint Extern 1 (PW _ _ _) =>
  first [ apply cw_ret | apply cw_fail | apply cw_lift | apply cw_now | apply cw_poll | apply cw_set_ix
        | apply cw_set_replaying | apply cw_call ] : same_run.
Hint Extern 2 (PW _ (repo _) _) => apply cw_repo : same_run.

(** The code over both stores: both halves take the same steps and branches. *)
Ltac same_code :=
  cbv beta; unfold fire, fire_match, fire_break;
  lazymatch goal with
  | |- PW _ (mbind mget _) _ => apply cw_get; intros; cbn [store ix replaying ticks polls trace]; same_code
  | |- PW _ (mbind _ _) _ => apply cw_bind; [|intros ?]; same_code
  | |- PS _ (mbind _ _) _ => apply cs_bind; [|intros ?]; same_code
  | |- PW _ (mtry _) _ => apply cw_try; same_code
  | |- PW _ (mwrap _ _) _ => apply cw_wrap; same_code
  | |- PW _ (match ?x with _ => _ end) _ => destruct x; same_code
  | |- PS _ (match ?x with _ => _ end) _ => destruct x; same_code
  | |- _ => solve [auto with same_run]
  end.

Lemma same_notifyOpen : PW _ (notifyOpen cfg) (notifyOpen cfg).
Proof. unfold notifyOpen. same_code. Qed.
Hint Resolve same_notifyOpen : same_run.

Lemma same_commit cs l r : PW _ (commit cfg cs l r) (commit cfg cs l r).
Proof. unfold commit. same_code. Qed.
Hint Resolve same_commit : same_run.

Lemma same_find l i : PS _
  (find (rules cfg) l i (Some exists_ref)) (find (rules cfg) l i (Some exists_ref)).
Proof.
  unfold find, tier2AmountDate. same_code.
Qed.
Hint Resolve same_find : same_run.

Lemma same_ingest_duplicate t l : PW _ (ingest_duplicate cfg t l) (ingest_duplicate cfg t l).
Proof. unfold ingest_duplicate. same_code. Qed.
Lemma same_ingest_break cs t trigger related l :
  PW _ (ingest_break cfg cs t trigger related l) (ingest_break cfg cs t trigger related l).
Proof. unfold ingest_break. same_code. Qed.
Lemma same_ingest_match cs t m l : PW _ (ingest_match cfg cs t m l) (ingest_match cfg cs t m l).
Proof. unfold ingest_match. same_code. Qed.
Lemma same_ingest_conflict cs t related ps l :
  PW _ (ingest_conflict cfg cs t related ps l) (ingest_conflict cfg cs t related ps l).
Proof. unfold ingest_conflict. same_code. Qed.
Lemma same_heal cs t l r b : PW _ (heal cfg cs t l r b) (heal cfg cs t l r b).
Proof. unfold heal. same_code. Qed.
Lemma same_ingest_open cs l : PW _ (ingest_open cfg cs l) (ingest_open cfg cs l).
Proof. unfold ingest_open. same_code. Qed.
Hint Resolve same_ingest_duplicate same_ingest_break same_ingest_match same_ingest_conflict same_heal same_ingest_open : same_run.

Lemma same_ingest_late cs t related l : PW _ (ingest_late cfg cs t related l) (ingest_late cfg cs t related l).
Proof. induction related as [|r related IH]; cbn [ingest_late]; same_code. Qed.
Hint Resolve same_ingest_late : same_run.

Lemma same_ingestOne l : PW _ (ingestOne cfg l) (ingestOne cfg l).
Proof. unfold ingestOne, ingest_new. same_code. Qed.
Hint Resolve same_ingestOne : same_run.

Lemma same_Ingest ls : PW _ (Ingest cfg ls) (Ingest cfg ls).
Proof.
  unfold Ingest. destruct (validate_batch 0 ls) as [ls' [e|]]; [same_code|]. generalize zero_batch.
  induction ls' as [|l ls' IH]; intros res; cbn [ingest_loop]; same_code.
Qed.

Lemma same_expire olderThan forced : PW _ (expire cfg olderThan forced) (expire cfg olderThan forced).
Proof.
  assert (forall t ls n, PW _ (expire_loop cfg t forced ls n) (expire_loop cfg t forced ls n)) as Hloop.
  { intros t ls. induction ls as [|l ls IH]; intros n; cbn [expire_loop]; unfold expire_one; same_code. }
  unfold expire, close_event. same_code.
Qed.

Lemma same_ResolveBreak id reason actor : PW _ (ResolveBreak cfg id reason actor) (ResolveBreak cfg id reason actor).
Proof. unfold ResolveBreak. same_code. Qed.

Lemma same_Rebuild : PW _ (Rebuild cfg) (Rebuild cfg).
Proof. unfold Rebuild. same_code. Qed.

Lemma same_replay_event ev res : PW _ (replay_event cfg ev res) (replay_event cfg ev res).
Proof. unfold replay_event, reapplyResolution. same_code. Qed.
Hint Resolve same_replay_event : same_run.

Lemma same_replay_page through evs cursor res :
  PW _ (replay_page cfg through evs cursor res) (replay_page cfg through evs cursor res).
Proof. revert cursor res. induction evs as [|ev evs IH]; intros cursor res; cbn [replay_page]; same_code. Qed.
Hint Resolve same_replay_page : same_run.

Lemma same_replay_loop fuel through cursor res :
  PW _ (replay_loop cfg fuel through cursor res) (replay_loop cfg fuel through cursor res).
Proof. revert cursor res. induction fuel as [|fuel IH]; intros cursor res; cbn [replay_loop]; same_code. Qed.
Hint Resolve same_replay_loop : same_run.

Lemma same_Replay from : PW _ (Replay cfg from) (Replay cfg from).
Proof. unfold Replay, replay_start. cbv zeta. same_code. Qed.

Lemma same_op (P : World S1 -> World S2 -> Prop) o w1 w2 :
  (forall A m1 m2, PW A m1 m2 -> P (m1 w1).2 (m2 w2).2) -> P (run_op cfg o w1) (run_op cfg o w2).
Proof.
  intros HP. destruct o; apply HP;
    [apply same_Ingest|apply same_expire|apply same_expire|apply same_ResolveBreak|apply same_Replay|apply same_Rebuild].
Qed.
End Parametric.
