(* ===== verification/Moments.v ===== *)
(** * The moments of an operation

    The engine's mutex keeps other operations out, not readers: a lookup or a
    listing may be answered between any two of the engine's calls of the store,
    and the process may die there. A store that writes down its state after each
    call ([Observed]) gives the states an operation passes through; a store whose
    connection is lost after some calls ([Cut]) keeps the repository contract, as
    a call may always fail. Both runs agree up to the cut, so what holds of every
    run over every lawful store holds at every moment of every run. *)

From S2P Require Export Parametric.

Local Open Scope recon_scope.

(** ** Observed and cut stores *)

Section Stores.
Context {S : Type} `{Repository S}.

(** The store, and its states so far, the first one included. *)
Record Observed : Type := mkObserved { ob_store : S; ob_states : list S }.
(** The store, and how many calls will still reach it. *)
Record Cut : Type := mkCut { ct_store : S; ct_calls : nat }.

Definition noting {A} (m : M S A) : M Observed A := fun o =>
  let '(r, s') := m (ob_store o) in (r, mkObserved s' (ob_states o ++ [s'])).

Definition reach {A} (m : M S A) : M Cut A := fun c =>
  match ct_calls c with
  | O => (Err (ErrText "connection lost"), c)
  | Datatypes.S n => let '(r, s') := m (ct_store c) in (r, mkCut s' n)
  end.

#[export] Instance Observed_Repository : Repository Observed := {|
  Apply cs := noting (Apply cs);
  HasLeg id := noting (HasLeg id);
  LegsByTxnRef ref := noting (LegsByTxnRef ref);
  OpenLegs := noting OpenLegs;
  GetBreak id := noting (GetBreak id);
  EventsFrom from limit := noting (EventsFrom from limit);
  LastSeq := noting LastSeq;
  ResetProjections := noting ResetProjections
|}.

#[export] Instance Cut_Repository : Repository Cut := {|
  Apply cs := reach (Apply cs);
  HasLeg id := reach (HasLeg id);
  LegsByTxnRef ref := reach (LegsByTxnRef ref);
  OpenLegs := reach OpenLegs;
  GetBreak id := reach (GetBreak id);
  EventsFrom from limit := reach (EventsFrom from limit);
  LastSeq := reach LastSeq;
  ResetProjections := reach ResetProjections
|}.
End Stores.
Arguments Observed : clear implicits.
Arguments Cut : clear implicits.

(** What a call does, if the store keeps what holds of a store that fails. *)
Lemma reach_law {S A} (m : M S A) (P : result A -> S -> Prop) c r c' :
  (forall r s', m (ct_store c) = (r, s') -> P r s') -> (forall e, P (Err e) (ct_store c)) ->
  reach m c = (r, c') -> P r (ct_store c').
Proof.
  unfold reach. intros Hm He. destruct (ct_calls c); [by intros [= <- <-]|].
  destruct (m (ct_store c)) as [r1 s1] eqn:E. intros [= <- <-]. by apply Hm.
Qed.

#[local] Obligation Tactic := idtac.

(** A store that is cut off keeps the contract. *)
#[export] Program Instance Cut_Laws {S} `{RepositoryLaws S} : RepositoryLaws (Cut S) := {|
  fidelity := fidelity;
  view c := view (ct_store c);
  repo_ok c := repo_ok (ct_store c)
|}.
Next Obligation. intros. by apply view_is_wf. Qed.
Next Obligation.
  intros S ?? cs c r c' Hok Hcs.
  apply (reach_law (Apply cs) (fun r s' => repo_ok s' /\ match r with
    | Ok _ => applied cs (view (ct_store c)) (view s') | Err _ => view s' = view (ct_store c) end)); [|done].
  intros r' s' E. exact (Apply_law cs _ r' s' Hok Hcs E).
Qed.
Next Obligation.
  intros S ?? id c r c' Hok.
  apply (reach_law (HasLeg id) (fun r s' => repo_ok s' /\ view s' = view (ct_store c) /\
    forall b, r = Ok b -> b = bool_decide (is_Some (v_legs (view (ct_store c)) !! id)))); [|done].
  intros r' s' E. exact (HasLeg_law id _ r' s' Hok E).
Qed.
Next Obligation.
  intros S ?? ref c r c' Hok.
  apply (reach_law (LegsByTxnRef ref) (fun r s' => repo_ok s' /\ view s' = view (ct_store c) /\
    forall ls, r = Ok ls -> ls ≡ₚ filter (fun l => TxnRef l = ref) (values (v_legs (view (ct_store c)))))); [|done].
  intros r' s' E. exact (LegsByTxnRef_law ref _ r' s' Hok E).
Qed.
Next Obligation.
  intros S ?? c r c' Hok.
  apply (reach_law OpenLegs (fun r s' => repo_ok s' /\ view s' = view (ct_store c) /\
    forall ls, r = Ok ls -> ls ≡ₚ filter (fun l => Status l = LegOpen) (values (v_legs (view (ct_store c)))))); [|done].
  intros r' s' E. exact (OpenLegs_law _ r' s' Hok E).
Qed.
Next Obligation.
  intros S ?? id c r c' Hok.
  apply (reach_law (GetBreak id) (fun r s' => repo_ok s' /\ view s' = view (ct_store c) /\
    forall b, r = Ok b -> v_breaks (view (ct_store c)) !! id = Some b)); [|done].
  intros r' s' E. exact (GetBreak_law id _ r' s' Hok E).
Qed.
Next Obligation.
  intros S ?? from limit c r c' Hok Hlimit.
  apply (reach_law (EventsFrom from limit) (fun r s' => repo_ok s' /\ view s' = view (ct_store c) /\
    forall evs, r = Ok evs ->
      evs = take (Z.to_nat limit) (filter (fun e => from <= ev_Seq e) (v_events (view (ct_store c)))))); [|done].
  intros r' s' E. exact (EventsFrom_law from limit _ r' s' Hok Hlimit E).
Qed.
Next Obligation.
  intros S ?? c r c' Hok.
  apply (reach_law LastSeq (fun r s' => repo_ok s' /\ view s' = view (ct_store c) /\
    forall n, r = Ok n -> n = last_seq (v_events (view (ct_store c))))); [|done].
  intros r' s' E. exact (LastSeq_law _ r' s' Hok E).
Qed.
Next Obligation.
  intros S ?? c r c' Hok.
  apply (reach_law ResetProjections (fun r s' => repo_ok s' /\ match r with
    | Ok _ => view s' = mkView ∅ ∅ ∅ (v_events (view (ct_store c))) | Err _ => view s' = view (ct_store c) end)); [|done].
  intros r' s' E. exact (ResetProjections_law _ r' s' Hok E).
Qed.

(** ** Two runs that agree up to the cut *)

(** After [n] calls: the observed store and the cut one are the same and as many
    calls are left; or the cut one has stopped at the [n]th state. *)
Definition together {S} (n : nat) (o : Observed S) (c : Cut S) : Prop :=
  (length (ob_states o) + ct_calls c)%nat = Datatypes.S n /\ last (ob_states o) = Some (ob_store o) /\
  ob_store o = ct_store c.
Definition apart {S} (n : nat) (o : Observed S) (c : Cut S) : Prop :=
  ct_calls c = O /\ ob_states o !! n = Some (ct_store c).

Lemma together_over {S} n (o : Observed S) c : together n o c -> ct_calls c = O -> apart n o c.
Proof.
  intros (Hlen & Hlast & Heq) Hc. split; [done|]. rewrite last_lookup, Heq in Hlast.
  rewrite Hc in Hlen. by replace (pred (length (ob_states o))) with n in Hlast by lia.
Qed.

Lemma together_apart {S} n (o : Observed S) c s : together n o c \/ apart n o c -> ob_states o !! n = Some s ->
  ct_store c = s.
Proof.
  intros [Ht|[_ Ha]] Hs; [|congruence]. assert (ct_calls c = O) as Hc.
  { destruct Ht as (Hlen & _). apply lookup_lt_Some in Hs. lia. }
  destruct (together_over n o c Ht Hc) as [_ Ha]. congruence.
Qed.

(** [T1] holds an observed store and [T2] a cut one; [same] relates the rest. *)
Section Agree.
Context {S T1 T2 : Type} (ob : T1 -> Observed S) (ct : T2 -> Cut S) (same : T1 -> T2 -> Prop).

(** States are only added, nothing happens beyond the cut, and runs from states
    that go together end in states that do, with the same result, or the cut has
    been passed. *)
Record agree {A} (m1 : M T1 A) (m2 : M T2 A) : Prop := {
  ag_grows t1 : ob_states (ob t1) `prefix_of` ob_states (ob (m1 t1).2);
  ag_stops t2 : ct_calls (ct t2) = O -> ct (m2 t2).2 = ct t2;
  ag_both n t1 t2 : together n (ob t1) (ct t2) -> same t1 t2 ->
    (m1 t1).1 = (m2 t2).1 /\ together n (ob (m1 t1).2) (ct (m2 t2).2) /\ same (m1 t1).2 (m2 t2).2 \/
    apart n (ob (m1 t1).2) (ct (m2 t2).2)
}.

Lemma agree_apart {A} (m1 : M T1 A) (m2 : M T2 A) n t1 t2 : agree m1 m2 -> apart n (ob t1) (ct t2) ->
  apart n (ob (m1 t1).2) (ct (m2 t2).2).
Proof.
  intros Hm [Hc Hs]. pose proof (ag_stops _ _ Hm t2 Hc) as Hct. split; [congruence|]. rewrite Hct.
  eapply prefix_lookup_Some; [exact Hs|apply (ag_grows _ _ Hm)].
Qed.

(** Computations that leave the stores alone. *)
Lemma agree_still {A} (m1 : M T1 A) (m2 : M T2 A) :
  (forall t1, ob (m1 t1).2 = ob t1) -> (forall t2, ct (m2 t2).2 = ct t2) ->
  (forall t1 t2, same t1 t2 -> (m1 t1).1 = (m2 t2).1 /\ same (m1 t1).2 (m2 t2).2) -> agree m1 m2.
Proof.
  intros H1 H2 H12. constructor.
  - intros t1. by rewrite H1.
  - intros t2 _. apply H2.
  - intros n t1 t2 Ht Hs. left. rewrite H1, H2. destruct (H12 t1 t2 Hs). done.
Qed.

Lemma agree_ret {A} (a : A) : agree (mret a) (mret a).
Proof. by apply agree_still. Qed.

Lemma agree_fail {A} e : agree (A := A) (mfail e) (mfail e).
Proof. by apply agree_still. Qed.

Lemma agree_bind {A B} (m1 : M T1 A) (m2 : M T2 A) (k1 : A -> M T1 B) (k2 : A -> M T2 B) :
  agree m1 m2 -> (forall a, agree (k1 a) (k2 a)) -> agree (mbind m1 k1) (mbind m2 k2).
Proof.
  intros Hm Hk. unfold mbind. constructor.
  - intros t1. pose proof (ag_grows _ _ Hm t1) as Hg. destruct (m1 t1) as [[a|e] t1']; [|done]. cbn in Hg.
    etrans; [exact Hg|]. apply (ag_grows _ _ (Hk a)).
  - intros t2 Hc. pose proof (ag_stops _ _ Hm t2 Hc) as Hs. destruct (m2 t2) as [[a|e] t2']; [|done]. cbn in Hs.
    rewrite (ag_stops _ _ (Hk a)); congruence.
  - intros n t1 t2 Ht Hs. pose proof (ag_both _ _ Hm n t1 t2 Ht Hs) as Hb.
    destruct (m1 t1) as [r1 t1'], (m2 t2) as [r2 t2']. cbn [fst snd] in Hb.
    destruct Hb as [(-> & Ht' & Hs')|[Hc Hl]].
    + destruct r2 as [a|e]; [by apply (ag_both _ _ (Hk a))|by left].
    + right. unfold apart.
      assert (ct (match r2 with Ok a => k2 a t2' | Err e => (Err e, t2') end).2 = ct t2') as ->
        by (destruct r2 as [a|e]; [by apply (ag_stops _ _ (Hk a))|done]).
      split; [done|]. eapply prefix_lookup_Some; [exact Hl|]. destruct r1 as [a|e]; [apply (ag_grows _ _ (Hk a))|done].
Qed.

(** What is done with the result only. *)
Lemma agree_map {A B} (f : result A -> result B) (m1 : M T1 A) (m2 : M T2 A) (m1' : M T1 B) (m2' : M T2 B) :
  (forall t, m1' t = (f (m1 t).1, (m1 t).2)) -> (forall t, m2' t = (f (m2 t).1, (m2 t).2)) ->
  agree m1 m2 -> agree m1' m2'.
Proof.
  intros E1 E2 [Hg Hs Hb]. constructor; intros *; rewrite ?E1, ?E2; cbn [fst snd]; [done|apply Hs|].
  intros Ht Hs'. destruct (Hb n t1 t2 Ht Hs') as [(-> & ? & ?)|?]; [by left|by right].
Qed.

Lemma agree_try {A} (m1 : M T1 A) (m2 : M T2 A) : agree m1 m2 -> agree (mtry m1) (mtry m2).
Proof. apply (agree_map Ok); intros t; unfold mtry; by destruct (_ t). Qed.

Lemma agree_wrap {A} p (m1 : M T1 A) (m2 : M T2 A) : agree m1 m2 -> agree (mwrap p m1) (mwrap p m2).
Proof.
  apply (agree_map (fun r => match r with Ok a => Ok a | Err e => Err (ErrWrap p e "") end));
    intros t; unfold mwrap; by destruct (_ t) as [[]].
Qed.
End Agree.

(** ** The calls *)

Section Calls.
Context {S : Type} `{Repository S}.

Abbreviation on_stores := (agree (@id (Observed S)) (@id (Cut S)) (fun _ _ => True)).

Lemma agree_call {A} (m : M S A) : on_stores (noting m) (reach m).
Proof.
  unfold noting, reach. constructor; cbn.
  - intros o. destruct (m (ob_store o)). cbn. by apply prefix_app_r.
  - intros c ->. done.
  - intros n o c Ht _. pose proof (together_over n o c Ht) as Hover.
    destruct Ht as (Hlen & Hlast & Heq). rewrite Heq. destruct (ct_calls c) as [|k] eqn:Ec.
    + right. destruct (Hover eq_refl) as [_ Ha].
      destruct (m (ct_store c)) as [r s']. split; [done|]. cbn. by apply lookup_app_l_Some.
    + left. destruct (m (ct_store c)) as [r s']. cbn. split_and!; [done| |done].
      split_and!; cbn; [rewrite length_app; cbn; lia|by rewrite last_snoc|done].
Qed.

Lemma agree_exists ref source : on_stores (exists_ref ref source) (exists_ref ref source).
Proof.
  apply (agree_map _ _ _ (fun r => match r with
      | Ok ls => Ok (existsb (fun x => bool_decide (Source x = source)) ls) | Err _ => Ok true end)
    (LegsByTxnRef ref) (LegsByTxnRef ref));
    [intros t; unfold exists_ref; by destruct (LegsByTxnRef ref t) as [[]]..|]. apply agree_call.
Qed.
End Calls.

(** ** The engine *)

Section Engine.
Context {S : Type} `{Repository S} (cfg : Config).

(** The engine's own fields are the same. *)
Record same_fields {S1 S2} (w1 : World S1) (w2 : World S2) : Prop := {
  sf_ix : ix w1 = ix w2;
  sf_replaying : replaying w1 = replaying w2;
  sf_ticks : ticks w1 = ticks w2;
  sf_polls : polls w1 = polls w2;
  sf_trace : trace w1 = trace w2
}.

Abbreviation agrees := (agree (@store (Observed S)) (@store (Cut S)) same_fields).

Lemma agree_repo {A} (m1 : M (Observed S) A) (m2 : M (Cut S) A) : agree id id (fun _ _ => True) m1 m2 ->
  agrees (repo m1) (repo m2).
Proof.
  intros [Hg Hs Hb]. unfold repo. constructor.
  - intros w1. specialize (Hg (store w1)). by destruct (m1 (store w1)).
  - intros w2. specialize (Hs (store w2)). by destruct (m2 (store w2)).
  - intros n w1 w2 Ht [Hix Hr Hti Hp Htr]. specialize (Hb n (store w1) (store w2) Ht I).
    destruct (m1 (store w1)), (m2 (store w2)). cbn in *. rewrite Hix, Hr, Hti, Hp, Htr.
    destruct Hb as [(-> & ? & _)|?]; [by left|by right].
Qed.

(** What is read off the engine's fields is the same in both. *)
Lemma agree_get {A} (k1 : World (Observed S) -> M _ A) (k2 : World (Cut S) -> M _ A) :
  (forall s1 s2 i b t p tr, agrees (k1 (mkWorld s1 i b t p tr)) (k2 (mkWorld s2 i b t p tr))) ->
  agrees (mbind mget k1) (mbind mget k2).
Proof.
  intros Hk. constructor.
  - intros [s i b t p tr]. apply (ag_grows _ _ _ _ _ (Hk s (mkCut (ob_store s) 0) i b t p tr)).
  - intros [s i b t p tr]. apply (ag_stops _ _ _ _ _ (Hk (mkObserved (ct_store s) []) s i b t p tr)).
  - intros n [s1 i b t p tr] [s2 ?????] Ht Hs. assert (Hs' := Hs). destruct Hs' as [Ei Eb Et Ep Etr].
    cbn in Ei, Eb, Et, Ep, Etr. subst. by apply (ag_both _ _ _ _ _ (Hk s1 s2 _ _ _ _ _)).
Qed.

#[export] Instance agree_Congruence :
  Congruence cfg (fun A => agree (@id (Observed S)) (@id (Cut S)) (fun _ _ => True)) (fun A => agrees).
Proof.
  constructor; intros.
  - apply agree_ret.
  - by apply agree_bind.
  - apply agree_exists.
  - apply agree_call.
  - apply agree_call.
  - apply agree_call.
  - apply agree_call.
  - apply agree_call.
  - apply agree_call.
  - apply agree_call.
  - apply agree_call.
  - apply agree_ret.
  - apply agree_fail.
  - by apply agree_bind.
  - by apply agree_get.
  - by apply agree_try.
  - by apply agree_wrap.
  - by apply agree_repo.
  - by apply agree_still.
  - apply agree_still; [done..|]. intros w1 w2 []. cbn. split; [by f_equal; congruence|]. constructor; cbn; congruence.
  - apply agree_still; [done..|]. intros w1 w2 []. cbn. split; [by do 2 f_equal|]. constructor; cbn; congruence.
  - apply agree_still; [done..|]. intros w1 w2 []. by split.
  - apply agree_still; [done..|]. intros w1 w2 []. by split.
  - apply agree_still; [done..|]. intros w1 w2 []. split; [done|]. constructor; cbn; [done..|]. destruct b; congruence.
Qed.
End Engine.

(** ** Observing changes nothing *)

Section Unobserved.
Context {S : Type} `{Repository S} (cfg : Config).

Definition unobserved (w : World (Observed S)) : World S :=
  mkWorld (ob_store (store w)) (ix w) (replaying w) (ticks w) (polls w) (trace w).

(** The same result, and the same state but for the notes. *)
Definition mirrors {T T' A} (f : T -> T') (m1 : M T A) (m2 : M T' A) : Prop :=
  forall t, m2 (f t) = ((m1 t).1, f (m1 t).2).

Lemma mirrors_bind {T T' A B} (f : T -> T') (m1 : M T A) (m2 : M T' A) (k1 : A -> M T B) k2 :
  mirrors f m1 m2 -> (forall a, mirrors f (k1 a) (k2 a)) -> mirrors f (mbind m1 k1) (mbind m2 k2).
Proof.
  intros Hm Hk t. unfold mbind. rewrite Hm. destruct (m1 t) as [[a|e] t']; cbn [fst snd]; [apply Hk|done].
Qed.

Lemma mirrors_noting {A} (m : M S A) : mirrors ob_store (noting m) m.
Proof. intros o. unfold noting. by destruct (m (ob_store o)). Qed.

#[export] Instance mirrors_Congruence :
  Congruence cfg (fun A => mirrors (@ob_store S)) (fun A => mirrors unobserved).
Proof.
  constructor; intros.
  - done.
  - by apply mirrors_bind.
  - intros o. unfold exists_ref. cbn [LegsByTxnRef Observed_Repository].
    rewrite (mirrors_noting (LegsByTxnRef ref) o). by destruct (noting (LegsByTxnRef ref) o) as [[]].
  - apply mirrors_noting.
  - apply mirrors_noting.
  - apply mirrors_noting.
  - apply mirrors_noting.
  - apply mirrors_noting.
  - apply mirrors_noting.
  - apply mirrors_noting.
  - apply mirrors_noting.
  - done.
  - done.
  - by apply mirrors_bind.
  - intros [s i b t p tr]. apply H0.
  - intros w. unfold mtry. rewrite H0. by destruct (m1 w).
  - intros w. unfold mwrap. rewrite H0. by destruct (m1 w) as [[]].
  - intros w. unfold repo. cbn [store unobserved]. rewrite H0. by destruct (m1 (store w)).
  - done.
  - done.
  - done.
  - done.
  - done.
  - done.
Qed.
End Unobserved.

(** ** Operations, moment by moment *)

Section Moments.
Context `{Sha256} `{BreakClassifier} {S : Type} `{Repository S} (cfg : Config).

Definition run_ops {S} `{Repository S} (os : list op) (w : World S) : World S :=
  foldl (fun w o => run_op cfg o w) w os.

Definition observed (w : World S) : World (Observed S) :=
  mkWorld (mkObserved (store w) [store w]) (ix w) (replaying w) (ticks w) (polls w) (trace w).
Definition cut (n : nat) (w : World S) : World (Cut S) :=
  mkWorld (mkCut (store w) n) (ix w) (replaying w) (ticks w) (polls w) (trace w).

(** The states the store is in, from before the operations to after them, with
    one after each call. *)
Definition moments (os : list op) (w : World S) : list S := ob_states (store (run_ops os (observed w))).

Lemma run_ops_unobserved os w : unobserved (run_ops os w) = run_ops os (unobserved w).
Proof.
  revert w. induction os as [|o os IH]; intros w; [done|].
  change (unobserved (run_ops os (run_op cfg o w)) = run_ops os (run_op cfg o (unobserved w))). rewrite IH. f_equal.
  apply (same_op cfg _ _ (fun w1 w2 => unobserved w1 = w2) o w (unobserved w)). intros A m1 m2 Hm. by rewrite Hm.
Qed.

Definition in_step (n : nat) (w1 : World (Observed S)) (w2 : World (Cut S)) : Prop :=
  together n (store w1) (store w2) /\ same_fields w1 w2 \/ apart n (store w1) (store w2).

Lemma run_ops_in_step n os w1 w2 : in_step n w1 w2 -> in_step n (run_ops os w1) (run_ops os w2).
Proof.
  revert w1 w2. induction os as [|o os IH]; intros w1 w2 Hw; [done|]. apply IH.
  apply (same_op cfg _ _ (in_step n) o w1 w2). intros A m1 m2 Hm. destruct Hw as [[Ht Hs]|Ha].
  - destruct (ag_both _ _ _ _ _ Hm n w1 w2 Ht Hs) as [(_ & ? & ?)|?]; [by left|by right].
  - right. by eapply agree_apart.
Qed.

Lemma observed_in_step n w : in_step n (observed w) (cut n w).
Proof. by left. Qed.

(** Each moment is where a run over a cut store ends. *)
Lemma moment_is_cut os w n s : moments os w !! n = Some s -> ct_store (store (run_ops os (cut n w))) = s.
Proof.
  intros Hs. apply (together_apart n (store (run_ops os (observed w)))); [|done].
  destruct (run_ops_in_step n os _ _ (observed_in_step n w)) as [[? _]|?]; [by left|by right].
Qed.

(** The last moment is the end of the run. *)
Lemma moments_last os w : last (moments os w) = Some (store (run_ops os w)).
Proof.
  set (n := length (moments os w)).
  destruct (run_ops_in_step n os _ _ (observed_in_step n w)) as [[(_ & Hlast & _) _]|[_ Ha]].
  - unfold moments. rewrite Hlast. f_equal. change (store (unobserved (run_ops os (observed w))) = store (run_ops os w)).
    rewrite run_ops_unobserved. by destruct w.
  - by apply lookup_lt_Some, Nat.lt_irrefl in Ha.
Qed.

Lemma moments_first os w : head (moments os w) = Some (store w).
Proof.
  unfold moments. assert (forall os w', ob_states (store w') `prefix_of` ob_states (store (run_ops os w'))) as Hp.
  { clear. intros os. induction os as [|o os IH]; intros w'; [done|]. etrans; [|apply IH].
    apply (same_op cfg _ _ (fun w1 _ => ob_states (store w') `prefix_of` ob_states (store w1)) o w' (cut 0 (unobserved w'))).
    intros A m1 m2 Hm. apply (ag_grows _ _ _ _ _ Hm). }
  destruct (Hp os (observed w)) as [k ->]. done.
Qed.
End Moments.

(** ** What holds at every moment *)

Section Consistent.
Context `{Sha256} `{BreakClassifier} {S : Type} `{RepositoryLaws S} (cfg : Config).
Variable U : gset string.
Context (Hsane : sane_config cfg) (Hnc : no_collisions U).

Abbreviation vw w := (view (store w)).

Lemma run_ops_inv os w : Forall (op_in_scope U) os -> world_inv cfg U w -> world_inv cfg U (run_ops cfg os w).
Proof. intros Hos. revert w. induction Hos as [|o os Ho _ IH]; intros w Hw; [done|]. by apply IH, op_inv. Qed.

Lemma run_ops_extends os w : Forall (op_in_scope U) os -> world_inv cfg U w -> log_extends w (run_ops cfg os w).
Proof.
  intros Hos. revert w. induction Hos as [|o os Ho _ IH]; intros w Hw; [apply appended_refl|].
  eapply appended_trans; [by eapply op_extends|]. by apply IH, op_inv.
Qed.

Lemma run_ops_life os w : Forall (fun o => op_in_scope U o /\ is_replay o = false) os -> world_inv cfg U w ->
  same_life w (run_ops cfg os w).
Proof.
  intros Hos. revert w. induction Hos as [|o os [Ho Hr] _ IH]; intros w Hw; [apply view_life_refl|].
  destruct (op_after cfg U Hsane Hnc same_life o w (life_step_rel cfg U Hsane Hnc) Ho Hr Hw) as [Hw' Hl].
  eapply view_life_trans; [exact Hl|]. by apply IH.
Qed.

(** A cut store keeps what the store keeps. *)
Lemma cut_sane : @sane_config (fidelity (S := Cut S)) cfg.
Proof. exact Hsane. Qed.

Lemma cut_inv n w : world_inv cfg U w -> world_inv cfg U (cut n w).
Proof. by intros [Hok Hi]. Qed.
End Consistent.

Section EveryMoment.
Context `{Sha256} `{BreakClassifier} {S : Type} `{RepositoryLaws S} (cfg : Config).
Variable U : gset string.
Context (Hsane : sane_config cfg) (Hnc : no_collisions U).
Context (os : list op) (w : World S) (s : S).
Context (Hw : world_inv cfg U w) (Hs : s ∈ moments cfg os w).

(** A run over a cut store that ends at this moment. *)
Lemma moment_run : exists n, ct_store (store (run_ops cfg os (cut n w))) = s.
Proof. apply list_elem_of_lookup in Hs as [n Hn]. exists n. by apply moment_is_cut. Qed.

Lemma moment_inv : Forall (op_in_scope U) os -> repo_ok s /\ exists i, state_inv (rules cfg) U (view s) i.
Proof.
  intros Hos. destruct moment_run as [n <-].
  destruct (run_ops_inv (S := Cut S) cfg U (cut_sane cfg Hsane) Hnc os (cut n w) Hos (cut_inv cfg U n w Hw)) as [Hok Hi].
  split; [exact Hok|]. eexists. exact Hi.
Qed.

Lemma moment_extends : Forall (op_in_scope U) os ->
  appended (fun _ => True) (v_events (view (store w))) (v_events (view s)).
Proof.
  intros Hos. destruct moment_run as [n <-].
  exact (run_ops_extends (S := Cut S) cfg U (cut_sane cfg Hsane) Hnc os (cut n w) Hos (cut_inv cfg U n w Hw)).
Qed.

Lemma moment_life : Forall (fun o => op_in_scope U o /\ is_replay o = false) os ->
  view_life (view (store w)) (view s).
Proof.
  intros Hos. destruct moment_run as [n <-].
  exact (run_ops_life (S := Cut S) cfg U (cut_sane cfg Hsane) Hnc os (cut n w) Hos (cut_inv cfg U n w Hw)).
Qed.
End EveryMoment.
