(* ===== verification/RowTypes.v ===== *)
(** * The types of the stored rows

    What internal/adapters/postgres and the tables of migrations/0001_init.sql
    take for granted of legs, matches and breaks: ranges of numbers, lengths of
    codes, values of enumerations. Every step of the engine keeps to them. *)

From S2P Require Export Moments.

(** ** Rows *)

Record leg_typed (l : Leg) : Prop := {
  lt_amount : 0 < AmountMinor l < 2 ^ 63;
  lt_currency : iso_currency (Currency l);
  lt_date : wf_date_range (ValueDate l);
  lt_direction : Dir l = Debit \/ Dir l = Credit;
  lt_status : Status l = LegOpen \/ Status l = LegMatched \/ Status l = LegBroken
}.

Record match_typed (m : Match) : Prop := {
  mt_tier : TierExact <= m_Tier m <= TierManyToOne;
  mt_rule : m_RuleID m ∈ [RuleT1Exact; RuleT2Tolerant; RuleT2AmountDate; RuleT2Late; RuleT3Subset];
  mt_confidence : (fconst (70 # 100) <= m_Confidence m <= 1)%Q;
  mt_residual : in64 (m_ResidualMinor m);
  mt_currency : iso_currency (m_Currency m)
}.

(** A break is resolved when it says when, and only then. *)
Record break_typed (b : Break) : Prop := {
  bt_currency : iso_currency (b_Currency b);
  bt_trigger : b_Trigger b ∈ [TriggerRefConflict; TriggerDuplicate; TriggerWindowExpired];
  bt_status : (b_Status b = BreakOpen /\ b_ResolvedAt b = None) \/
              (b_Status b = BreakResolved /\ is_Some (b_ResolvedAt b))
}.

Record rows_typed (v : View) : Prop := {
  rt_legs id l : v_legs v !! id = Some l -> leg_typed l;
  rt_matches id m : v_matches v !! id = Some m -> match_typed m;
  rt_breaks id b : v_breaks v !! id = Some b -> break_typed b
}.

(** The rows that legs point to and the engine makes. *)
Record made_typed (v : View) : Prop := {
  md_matches id m : v_matches v !! id = Some m -> match_typed m;
  md_breaks id b : v_breaks v !! id = Some b -> break_typed b
}.

Lemma put_cases {A} (key : A -> string) xs (m : gmap string A) id x :
  foldl (fun m x => <[key x := x]> m) m xs !! id = Some x -> x ∈ xs \/ m !! id = Some x.
Proof.
  revert m. induction xs as [|y xs IH]; intros m; [by right|]. cbn. intros [Hx|Hx]%IH; [left; by right|].
  apply lookup_insert_Some in Hx as [[_ <-]|[_ Hx]]; [left; left|by right].
Qed.

Lemma applied_made `{Fidelity} cs v v' : applied cs v v' -> made_typed v ->
  (forall m, m ∈ cs_Matches cs -> match_typed m) -> (forall b, b ∈ cs_Breaks cs -> break_typed b) -> made_typed v'.
Proof.
  intros [_ Hm Hb _] [Hm0 Hb0] Hms Hbs. constructor.
  - rewrite Hm. intros id m [Hin|Hold]%put_cases; [by apply Hms|by eapply Hm0].
  - rewrite Hb. intros id b [Hin|Hold]%put_cases; [by apply Hbs|by eapply Hb0].
Qed.

(** ** What the engine makes *)

Lemma resolve_typed t reason actor b : break_typed b -> break_typed (resolve t reason actor b).
Proof. intros [Hc Ht _]. constructor; [done|done|]. right. by split. Qed.

Section Steps.
Context `{Sha256} `{BreakClassifier} `{Fidelity} (cfg : Config) (U : gset string).
Context (Hsane : sane_rules (rules cfg)).
Context (v : View) (i : Index) (Hinv : state_inv (rules cfg) U v i).

Lemma break_of_typed t trigger related l ls :
  trigger ∈ [TriggerRefConflict; TriggerDuplicate; TriggerWindowExpired] -> iso_currency (Currency l) ->
  break_typed (break_of cfg t trigger related (l :: ls)).
Proof. intros Ht Hc. constructor; [done|done|]. left. by split. Qed.

Lemma rule_match_typed l m t : content_ok U l -> v_legs v !! ID l = None -> rule_match (rules cfg) i l m ->
  match_typed (set_MatchedAt t m).
Proof.
  intros Hl Hn Hm. pose proof (unseen_fresh _ _ _ _ Hinv l Hn) as Hf.
  pose proof (inv_amounts _ _ _ _ Hinv) as Ha.
  pose proof (rule_match_confidence (rules cfg) i l Hsane Ha (co_amount _ _ Hl) m Hm) as Hconf.
  destruct (rule_match_reconciles (rules cfg) i l Hsane Ha (co_amount _ _ Hl) Hf m Hm) as (anchor & group & partners & Hrc).
  pose proof (rc_currency _ _ _ _ _ _ _ Hrc) as Hcur.
  assert (match_typed m) as [H1' H2' H3' H4' H5']; [|by constructor].
  constructor; [| |done| |rewrite Hcur; apply Hl].
  - by destruct Hm.
  - destruct Hm; set_solver.
  - destruct Hm; apply wrap64_in64.
Qed.

Lemma late_confidence res tol : in64 (Z.abs res) ->
  (fconst (70 # 100) <= fsub (tolerantConfidence res tol) (fconst (5 # 100)) <= 1)%Q.
Proof.
  intros Hr. destruct (tolerantConfidence_range res tol Hr) as [H1' H2']. unfold fsub. split.
  - eapply Qle_trans; [|apply rnd_mono, Qplus_le_compat; [exact H1'|apply Qle_refl]].
    apply Qle_bool_iff. vm_compute. reflexivity.
  - eapply Qle_trans; [apply rnd_mono, Qplus_le_compat; [exact H2'|apply Qle_refl]|].
    apply Qle_bool_iff. vm_compute. reflexivity.
Qed.

Lemma late_match_typed t l r : content_ok U l -> amount_ok (AmountMinor r) -> match_typed (late_match cfg t l r).
Proof.
  intros Hl Hr. constructor; [done| | |apply wrap64_in64|apply Hl]; cbn [late_match set_MatchedAt pair m_RuleID m_Confidence].
  - set_solver.
  - apply late_confidence. pose proof (co_amount _ _ Hl) as Ha. unfold amount_ok in *.
    rewrite sub64_id by (unfold in64; lia). unfold in64. lia.
Qed.

Lemma outcome_made t pre l r cs i' v' : content_ok U l -> v_legs v !! ID l = None ->
  outcome cfg (rule_match (rules cfg)) v i t pre l r cs i' -> applied cs v v' -> made_typed v -> made_typed v'.
Proof.
  intros Hl Hn Ho Hap Hv. assert (iso_currency (Currency l)) as Hcur by apply Hl.
  assert (forall tr related ls b, tr ∈ [TriggerRefConflict; TriggerDuplicate; TriggerWindowExpired] ->
    b ∈ [break_of cfg t tr related (l :: ls)] -> break_typed b) as Hbreak.
  { intros tr related ls b Htr ->%list_elem_of_singleton. by apply break_of_typed. }
  assert (forall m : Match, m ∈ [] -> match_typed m) as Hnom by (by intros m ?%not_elem_of_nil).
  destruct Ho as [related r0 j _ _ _ _|m j _ Hm _|related partners j _ _ _ -> _ _
                 |r0 b j1 j2 _ Hr0 Hlate Hb Hopen _ _ _|related r0 j _ _ _ _ _|_ _];
    (eapply applied_made; [exact Hap|exact Hv|..]; cbn [open_break cs_Matches cs_Breaks]).
  - exact Hnom.
  - intros b. apply Hbreak. set_solver.
  - intros m0 ->%list_elem_of_singleton. by eapply rule_match_typed.
  - by intros b ?%not_elem_of_nil.
  - exact Hnom.
  - intros b. apply Hbreak. set_solver.
  - intros m0 ->%list_elem_of_singleton. apply late_match_typed; [done|].
    apply (elem_of_sharing _ _ _ _ Hinv) in Hr0 as [_ Hr0].
    destruct (inv_legs _ _ _ _ Hinv _ _ Hr0) as [Hc _]. apply Hc.
  - intros b0 ->%list_elem_of_singleton. apply resolve_typed. by eapply (md_breaks _ Hv).
  - exact Hnom.
  - intros b. apply Hbreak. set_solver.
  - exact Hnom.
  - by intros b ?%not_elem_of_nil.
Qed.
End Steps.

(** ** Over every run *)

Section Runs.
Context `{Sha256} `{BreakClassifier} {S : Type} `{RepositoryLaws S} (cfg : Config).
Variable U : gset string.
Context (Hsane : sane_config cfg) (Hnc : no_collisions U).

Abbreviation vw w := (view (store w)).

Definition keeps_types (w w' : World S) : Prop := made_typed (vw w) -> made_typed (vw w').

Lemma types_step_rel : step_rel cfg U keeps_types.
Proof.
  constructor; unfold keeps_types.
  - done.
  - auto.
  - intros w w' Hq. by rewrite (q_view _ _ Hq).
  - intros w w' t l r Hw Hl _ Hs Hv.
    inversion Hs as [evs v' _ _ Hap|pre r1 cs v' i' Hn _ Ho Hap]; subst.
    + eapply applied_made; [exact Hap|done|by intros ? ?%not_elem_of_nil..].
    + by eapply (outcome_made cfg U (sc_rules _ Hsane) _ _ (wi_inv _ _ _ Hw)).
  - intros w w' t l Hw _ Hs Hv. inversion Hs as [related forced j v' Hix _ _ Hap]; subst.
    eapply applied_made; [exact Hap|done|by intros ? ?%not_elem_of_nil|].
    cbn [open_break cs_Breaks]. intros b ->%list_elem_of_singleton. apply break_of_typed; [set_solver|].
    by eapply (world_inv_open cfg U Hnc w l Hw).
  - intros w w' t id reason actor Hw _ Hs Hv. inversion Hs as [b evs v' Hb _ _ Hap]; subst.
    eapply applied_made; [exact Hap|done|by intros ? ?%not_elem_of_nil|].
    cbn [cs_Breaks]. intros b0 ->%list_elem_of_singleton. apply resolve_typed. by eapply (md_breaks _ Hv).
  - intros w w' ev _ _ _ Hap Hv. eapply applied_made; [exact Hap|done|by intros ? ?%not_elem_of_nil..].
Qed.

Lemma op_types o w : op_in_scope U o -> world_inv cfg U w -> keeps_types w (run_op cfg o w).
Proof.
  intros Ho Hw. destruct (is_replay o) eqn:E.
  - destruct o; try done. apply (replay_after cfg U Hsane Hnc keeps_types); [apply types_step_rel| | |done].
    + intros w0 b Hw0. exact Hw0.
    + intros w1 w2 _ Hv _ _. unfold keeps_types. rewrite Hv. by constructor.
  - by apply (op_after cfg U Hsane Hnc keeps_types); [apply types_step_rel|..].
Qed.

Lemma run_ops_types os w : Forall (op_in_scope U) os -> world_inv cfg U w -> keeps_types w (run_ops cfg os w).
Proof.
  intros Hos. revert w. induction Hos as [|o os Ho _ IH]; intros w Hw Hv; [done|].
  apply IH; [by apply op_inv|]. by apply op_types.
Qed.

Lemma steps_types w w' : rtc (step cfg U) w w' -> world_inv cfg U w -> keeps_types w w'.
Proof.
  induction 1 as [|w1 w2 w3 [o w] _ IH]; intros Hw Hv; [done|]. apply IH; [by apply op_inv|by apply op_types].
Qed.

(** Legs are typed by the invariant itself. *)
Lemma inv_rows_typed v i : state_inv (rules cfg) U v i -> made_typed v -> rows_typed v.
Proof.
  intros Hi [Hm Hb]. constructor; [|done..]. intros id l Hl.
  destruct (inv_legs _ _ _ _ Hi id l Hl) as [[Hwf Ha Hd _ _ _] Hst]. unfold amount_ok in Ha.
  constructor; [lia|apply Hwf|done|apply Hwf|done].
Qed.
End Runs.

Section MomentTypes.
Context `{Sha256} `{BreakClassifier} {S : Type} `{RepositoryLaws S} (cfg : Config).
Variable U : gset string.
Context (Hsane : sane_config cfg) (Hnc : no_collisions U).

Lemma moment_typed os (w : World S) s : world_inv cfg U w -> made_typed (view (store w)) ->
  Forall (op_in_scope U) os -> s ∈ moments cfg os w -> rows_typed (view s).
Proof.
  intros Hw Hv Hos Hs. destruct (moment_inv cfg U Hsane Hnc os w s Hw Hs Hos) as (_ & i & Hi).
  apply (inv_rows_typed cfg U _ i Hi). destruct (moment_run cfg os w s Hs) as [n <-].
  exact (run_ops_types (S := Cut S) cfg U (cut_sane cfg Hsane) Hnc os (cut n w) Hos (cut_inv cfg U n w Hw) Hv).
Qed.
End MomentTypes.
