(* ===== verification/MetricsFacts.v ===== *)
(** * The callbacks of a run

    Which callbacks each operation of the engine makes, and in which order: a
    computation is specified by its result and the calls it adds to the trace. *)

From S2P Require Export Metrics EngineHistory.

Local Open Scope recon_scope.

(** ** What the engine calls *)

Section Told.
Context `{Sha256} `{BreakClassifier} {S : Type} `{!Repository S} (cfg : Config).
Hypothesis Hhooks : hooks cfg = metrics_hooks.
Abbreviation W := (World S).

(** The calls a computation makes, after those made before it. *)
Definition telling {A} (m : M W A) (P : result A -> list hook_call -> Prop) : Prop :=
  forall w, exists tr, trace (m w).2 = trace w ++ tr /\ P (m w).1 tr.
Definition silent {A} (m : M W A) : Prop := telling m (fun _ tr => tr = []).

Lemma telling_mono {A} (m : M W A) (P Q : result A -> list hook_call -> Prop) :
  telling m P -> (forall r tr, P r tr -> Q r tr) -> telling m Q.
Proof. intros Hm HQ w. destruct (Hm w) as (tr & ? & ?). eauto. Qed.

Lemma telling_bind {A B} (m : M W A) (k : A -> M W B) P Q :
  telling m P -> (forall e tr, P (Err e) tr -> Q (Err e) tr) ->
  (forall a tr, P (Ok a) tr -> telling (k a) (fun r tr' => Q r (tr ++ tr'))) ->
  telling (mbind m k) Q.
Proof.
  intros Hm He Hk w. unfold mbind. destruct (Hm w) as (tr & Ht & HP). destruct (m w) as [[a|e] w']; cbn in *.
  - destruct (Hk a tr HP w') as (tr' & Ht' & HQ). exists (tr ++ tr'). rewrite Ht', Ht, app_assoc. done.
  - eauto.
Qed.

Lemma telling_ret {A} (a : A) (Q : result A -> list hook_call -> Prop) : Q (Ok a) [] -> telling (mret a) Q.
Proof. intros HQ w. exists []. by rewrite app_nil_r. Qed.
Lemma telling_silent {A B} (m : M W A) (k : A -> M W B) Q :
  silent m -> (forall e, Q (Err e) []) -> (forall a, telling (k a) Q) -> telling (mbind m k) Q.
Proof. intros Hm He Hk. eapply telling_bind; [exact Hm|by intros e tr ->|]. intros a tr ->. apply Hk. Qed.
Lemma telling_try {A} (m : M W A) (Q : result (result A) -> list hook_call -> Prop) :
  telling m (fun r tr => Q (Ok r) tr) -> telling (mtry m) Q.
Proof. intros Hm w. unfold mtry. destruct (Hm w) as (tr & ? & ?). destruct (m w). eauto. Qed.

Lemma silent_intro {A} (m : M W A) : (forall w, trace (m w).2 = trace w) -> silent m.
Proof. intros Hm w. exists []. by rewrite app_nil_r. Qed.
Lemma silent_repo {A} (m : M S A) : silent (repo m).
Proof. apply silent_intro. intros w. unfold repo. by destruct (m (store w)). Qed.
Lemma silent_ret {A} (a : A) : silent (mret a).
Proof. by apply silent_intro. Qed.
Lemma silent_fail {A} e : silent (mfail e : M W A).
Proof. by apply silent_intro. Qed.
Lemma silent_get : silent mget.
Proof. by apply silent_intro. Qed.
Lemma silent_lift {A} (r : result A) : silent (lift r).
Proof. by apply silent_intro. Qed.
Lemma silent_now : silent (now cfg).
Proof. by apply silent_intro. Qed.
Lemma silent_poll : silent (poll cfg).
Proof. by apply silent_intro. Qed.
Lemma silent_set_ix i : silent (set_ix i).
Proof. by apply silent_intro. Qed.
Lemma silent_set_replaying b : silent (set_replaying b).
Proof. by apply silent_intro. Qed.
Lemma silent_wrap {A} p (m : M W A) : silent m -> silent (mwrap p m).
Proof.
  intros Hm w. unfold mwrap. destruct (Hm w) as (tr & Ht & ->). destruct (m w) as [[] ?]; by exists [].
Qed.
Lemma silent_try {A} (m : M W A) : silent m -> silent (mtry m).
Proof. intros Hm. by apply telling_try. Qed.
Lemma silent_bind {A B} (m : M W A) (k : A -> M W B) : silent m -> (forall a, silent (k a)) -> silent (mbind m k).
Proof. intros Hm Hk. by apply telling_silent. Qed.

Lemma telling_call h (Q : result unit -> list hook_call -> Prop) b : b = true -> Q (Ok tt) [h] -> telling (call b h) Q.
Proof. intros -> HQ w. by exists [h]. Qed.
Hint Resolve silent_repo silent_ret silent_fail silent_get silent_lift silent_now silent_poll silent_set_ix
  silent_set_replaying silent_wrap silent_try : silent.

(** Walks over what makes no calls. *)
Ltac silent := repeat first
  [ progress auto with silent | apply silent_wrap | apply silent_try | apply silent_bind; [|intros] | progress cbv zeta
  | case_match ].
Ltac hushed := repeat first
  [ apply telling_silent; [by silent|done|intros] | progress cbv zeta ].

(** ** One leg *)

(** The calls for a leg with outcome [ir_Outcome r]: one for the leg, then one
    for its match, or one for its break. *)
Definition told (l : Leg) (r : IngestResult) (tr : list hook_call) : Prop :=
  exists l', Source l' = Source l /\ ID l' = ID l /\
    if bool_decide (ir_Outcome r = OutcomeMatched) || bool_decide (ir_Outcome r = OutcomeResolvedBreak)
    then exists m, tr = [HookLeg l' (ir_Outcome r); HookMatch m] /\ m_ID m = ir_MatchID r /\ m_RuleID m = ir_RuleID r
    else if bool_decide (ir_Outcome r = OutcomeBreak)
    then exists b, tr = [HookLeg l' (ir_Outcome r); HookBreak b] /\ b_ID b = ir_BreakID r
    else tr = [HookLeg l' (ir_Outcome r)].

Lemma told_break l l' id b : Source l' = Source l -> ID l' = ID l ->
  told l (mkIngestResult id OutcomeBreak "" (b_ID b) "") [HookLeg l' OutcomeBreak; HookBreak b].
Proof. intros Hl Hid. exists l'. split; [done|]. split; [done|]. by exists b. Qed.
Lemma told_match l l' id m bid o :
  Source l' = Source l -> ID l' = ID l -> o = OutcomeMatched \/ o = OutcomeResolvedBreak ->
  told l (mkIngestResult id o (m_ID m) bid (m_RuleID m)) [HookLeg l' o; HookMatch m].
Proof. intros Hl Hid [-> | ->]; (exists l'; split; [done|]; split; [done|]; by exists m). Qed.
Lemma told_other l l' id o : Source l' = Source l -> ID l' = ID l -> o = OutcomeDuplicate \/ o = OutcomeOpen ->
  told l (mkIngestResult id o "" "" "") [HookLeg l' o].
Proof. intros Hl Hid [-> | ->]; by exists l'. Qed.

Definition tells (l : Leg) (m : M W IngestResult) : Prop :=
  telling m (fun r tr => match r with Ok r => told l r tr | Err _ => tr = [] end).

Lemma openBreak_last cs t trigger related ls cs' b :
  openBreak cfg cs t trigger related ls = Ok (cs', b) -> last (cs_Breaks cs') = Some b.
Proof.
  unfold openBreak. cbv zeta. destruct (addEvent _ _ _ _ _) as [c|] eqn:E; [|done]. cbn [res_bind]. intros [= <- <-].
  revert E. unfold addEvent. destruct (marshal_break _); [|done]. cbn. intros [= <-]. cbn. apply last_snoc.
Qed.

Lemma telling_lift {A B} (r : result A) (k : A -> M W B) Q :
  (forall e, Q (Err e) []) -> (forall a, r = Ok a -> telling (k a) Q) -> telling (mbind (lift r) k) Q.
Proof.
  intros He Hk. apply telling_bind with (P := fun r' tr => r' = r /\ tr = []).
  - intros w. exists []. by rewrite app_nil_r.
  - intros e tr [_ ->]. apply He.
  - intros a tr [<- ->]. by apply Hk.
Qed.
Lemma telling_calls {B} h b (k : unit -> M W B) (Q : result B -> list hook_call -> Prop) :
  b = true -> telling (k tt) (fun r tr => Q r (h :: tr)) -> telling (mbind (call b h) k) Q.
Proof.
  intros -> Hk. eapply telling_bind with (P := fun r tr => r = Ok tt /\ tr = [h]).
  - intros w. by exists [h].
  - intros e tr [? _]. done.
  - by intros [] tr [_ ->].
Qed.

(** To the calls of an operation, then through them. *)
Ltac calls := repeat first
  [ apply telling_silent; [by silent|done|intros] | apply telling_calls; [by rewrite Hhooks|]
  | apply telling_lift; [done|intros] | progress cbv zeta | apply telling_ret ].

Lemma tells_break cs t trigger related l : tells l (ingest_break cfg cs t trigger related l).
Proof.
  unfold tells, ingest_break, commit, fire, fire_break. apply telling_lift; [done|]. intros [cs' b] E.
  apply openBreak_last in E. calls. cbn [fst snd]. rewrite E. calls. by apply told_break.
Qed.

Lemma tells_duplicate t l : tells l (ingest_duplicate cfg t l).
Proof.
  unfold tells, ingest_duplicate, fire. calls. apply told_other; auto.
Qed.

Lemma tells_match cs t m l : tells l (ingest_match cfg cs t m l).
Proof.
  unfold tells, ingest_match, fire, fire_match. calls. apply told_match; auto.
Qed.

Lemma tells_conflict cs t related partners l : tells l (ingest_conflict cfg cs t related partners l).
Proof.
  unfold tells, ingest_conflict, fire, fire_break. calls. by apply told_break.
Qed.

Lemma tells_open cs l : tells l (ingest_open cfg cs l).
Proof.
  unfold tells, ingest_open, fire. calls. apply told_other; auto.
Qed.

Lemma tells_heal cs t l r b : tells l (heal cfg cs t l r b).
Proof.
  unfold tells, heal, fire, fire_match. calls. apply told_match; auto.
Qed.

Lemma tells_late cs t related l :
  telling (ingest_late cfg cs t related l)
    (fun r tr => match r with Ok (Some r) => told l r tr | _ => tr = [] end).
Proof.
  induction related as [|r related IH]; cbn [ingest_late]; [by apply telling_ret|].
  destruct (late_candidate cfg l r); [|done]. calls. destruct a as [b|e]; [|done]. case_match; [done|].
  eapply telling_bind; [apply tells_heal|done|]. intros res tr Htr. apply telling_ret. by rewrite app_nil_r.
Qed.

Lemma tells_new cs t related l : tells l (ingest_new cfg cs t related l).
Proof.
  unfold tells, ingest_new. case_match; [apply tells_break|]. calls. case_match; [apply tells_match|].
  case_match; [|apply tells_conflict].
  eapply telling_bind; [apply tells_late|done|]. intros [res|] tr Htr.
  - apply telling_ret. by rewrite app_nil_r.
  - cbn in Htr. subst tr. case_match; [apply tells_break|apply tells_open].
Qed.

Lemma tells_ingestOne l : tells l (ingestOne cfg l).
Proof.
  unfold tells, ingestOne. apply telling_silent; [by silent|done|intros t]. cbv zeta.
  set (l1 := if IsZero (IngestedAt l) then _ else l).
  apply (telling_mono _ (fun r tr => match r with Ok r => told l1 r tr | Err _ => tr = [] end)).
  - calls. case_match; [apply tells_duplicate|]. calls. apply tells_new.
  - intros [r|e] tr; [|done]. intros (l' & Hl & Hid & Ho). exists l'. rewrite Hl, Hid. subst l1.
    by destruct (IsZero (IngestedAt l)).
Qed.

(** ** A batch *)

Definition is_matched (r : IngestResult) : bool :=
  bool_decide (ir_Outcome r = OutcomeMatched) || bool_decide (ir_Outcome r = OutcomeResolvedBreak).
Definition is_broken (r : IngestResult) : bool := bool_decide (ir_Outcome r = OutcomeBreak).

(** The calls report the results: the outcome of every leg under its source,
    every match made, every break opened. *)
Record reports (ls : list Leg) (rs : list IngestResult) (tr : list hook_call) : Prop := {
  rep_legs : leg_calls tr = zip (Source <$> ls) (ir_Outcome <$> rs);
  rep_matches : (fun m => (m_ID m, m_RuleID m)) <$> match_calls tr =
               (fun r => (ir_MatchID r, ir_RuleID r)) <$> filter is_matched rs;
  rep_breaks : b_ID <$> break_calls tr = ir_BreakID <$> filter is_broken rs
}.

Lemma reports_nil ls tr : leg_calls tr = [] -> match_calls tr = [] -> break_calls tr = [] -> reports ls [] tr.
Proof. intros Hl Hm Hb. split; [rewrite Hl; by destruct ls|by rewrite Hm|by rewrite Hb]. Qed.

Lemma matched_unbroken r : is_matched r = true -> is_broken r = false.
Proof.
  unfold is_matched, is_broken. rewrite orb_true_iff, !bool_decide_eq_true, bool_decide_eq_false.
  by intros [-> | ->].
Qed.

Lemma reports_cons l ls r rs tr tr' : told l r tr -> reports ls rs tr' -> reports (l :: ls) (r :: rs) (tr ++ tr').
Proof.
  intros (l' & Hl & _ & Ht) [Hls Hms Hbs]. fold (is_matched r) (is_broken r) in Ht.
  pose proof (matched_unbroken r) as Hmb.
  split; rewrite ?fmap_cons, ?filter_bool_cons; cbn [zip zip_with].
  - rewrite <- Hls, <- Hl. destruct (is_matched r); [by destruct Ht as (m & -> & _)|].
    destruct (is_broken r); [by destruct Ht as (b & -> & _)|by subst tr].
  - destruct (is_matched r); [destruct Ht as (m & -> & Hid & Hr)|
      destruct (is_broken r); [destruct Ht as (b & -> & _)|subst tr]]; [|done..].
    rewrite fmap_cons, <- Hms, <- Hid, <- Hr. done.
  - destruct (is_matched r); [rewrite Hmb by done; by destruct Ht as (m & -> & Hid & Hr)|].
    destruct (is_broken r); [destruct Ht as (b & -> & Hid)|by subst tr].
    rewrite fmap_cons, <- Hbs, <- Hid. done.
Qed.

Lemma telling_notifyOpen_ret {A} (a : A) (Q : result A -> list hook_call -> Prop) :
  (forall n, Q (Ok a) [HookOpen n]) -> telling (notifyOpen cfg ;;! mret a)%recon Q.
Proof.
  intros HQ w. exists [HookOpen (Len (ix w))]. unfold notifyOpen, mbind, mret, mget, call, mmodify. cbn.
  rewrite Hhooks. cbn. split; [done|apply HQ].
Qed.

Lemma reports_loop ls res :
  telling (ingest_loop cfg ls res) (fun r tr => forall b err, r = Ok (b, err) ->
    exists rs, br_Results b = br_Results res ++ rs /\ reports ls rs tr).
Proof.
  revert res. induction ls as [|l ls IH]; intros res; cbn [ingest_loop].
  - apply telling_notifyOpen_ret. intros n b err [= <- <-]. exists []. rewrite app_nil_r. split; [done|by apply reports_nil].
  - apply telling_silent; [by silent|done|intros [e|]].
    { apply telling_ret. intros b err [= <- <-]. exists []. rewrite app_nil_r. split; [done|by apply reports_nil]. }
    apply telling_bind with (P := fun r tr => match r with Ok (Ok r) => told l r tr | _ => tr = [] end);
      [apply telling_try, tells_ingestOne|done|]. intros [r|e] tr Htr.
    + eapply telling_mono; [apply IH|]. cbn. intros o tr' Ho b err ->. destruct (Ho b err eq_refl) as (rs & Hb & Hr).
      exists (r :: rs). split; [|by apply reports_cons]. rewrite Hb. cbn. by rewrite <- app_assoc.
    + subst tr. apply telling_ret. intros b err [= <- <-]. exists []. rewrite app_nil_r.
      split; [done|by apply reports_nil].
Qed.

Lemma reports_Ingest legs :
  telling (Ingest cfg legs) (fun r tr => forall b err, r = Ok (b, err) ->
    reports (validate_batch 0 legs).1 (br_Results b) tr).
Proof.
  unfold Ingest. destruct (validate_batch 0 legs) as [ls [e|]].
  - apply telling_ret. intros b err [= <- <-]. by apply reports_nil.
  - eapply telling_mono; [apply reports_loop|]. intros r tr Hr b err E.
    destruct (Hr b err E) as (rs & Hb & Hrs). cbn [fst]. rewrite Hb. exact Hrs.
Qed.

(** ** The gauge *)

(** The last number of open legs reported. *)
Definition last_open (tr : list hook_call) : option nat :=
  last (omap (fun h => match h with HookOpen n => Some n | _ => None end) tr).
(** The gauge shows what the index holds. *)
Definition gauge_true (w : W) : Prop := last_open (trace w) = Some (Len (ix w)).

Lemma last_open_snoc tr n : last_open (tr ++ [HookOpen n]) = Some n.
Proof. unfold last_open. rewrite omap_app. apply last_snoc. Qed.

(** What a computation leaves when it ends well: a true gauge. *)
Definition gauged {A} (ok : A -> Prop) (m : M W A) : Prop :=
  forall w, gauge_true w -> forall a, (m w).1 = Ok a -> ok a -> gauge_true (m w).2.
Definition gauges {A} (ok : A -> Prop) (m : M W A) : Prop :=
  forall w a, (m w).1 = Ok a -> ok a -> gauge_true (m w).2.

Lemma gauges_bind {A B} (m : M W A) (k : A -> M W B) ok : (forall a, gauges ok (k a)) -> gauges ok (mbind m k).
Proof. intros Hk w b. unfold mbind. destruct (m w) as [[a|e] w']; [apply Hk|done]. Qed.
Lemma gauges_ret {A} (a : A) (ok : A -> Prop) : ~ ok a -> gauges ok (mret a).
Proof. intros Ha w b [= <-] Hb. done. Qed.
Lemma gauges_open {A} (a : A) ok : gauges ok (notifyOpen cfg ;;! mret a)%recon.
Proof.
  intros w b _ _. unfold notifyOpen, mbind, mret, mget, call, mmodify, gauge_true. cbn. rewrite Hhooks. cbn.
  apply last_open_snoc.
Qed.
Lemma gauges_mono {A} (ok ok' : A -> Prop) m : gauges ok m -> (forall a, ok' a -> ok a) -> gauges ok' m.
Proof. intros Hm Hok w a Ha Hb. eapply Hm; eauto. Qed.
Lemma gauged_gauges {A} (ok : A -> Prop) m : gauges ok m -> gauged ok m.
Proof. intros Hm w _. apply Hm. Qed.
Lemma gauged_ret {A} (a : A) ok : gauged ok (mret a).
Proof. by intros w Hw b. Qed.
Lemma gauged_bind {A B} (m : M W A) (k : A -> M W B) ok :
  (forall w, trace (m w).2 = trace w /\ ix (m w).2 = ix w) -> (forall a, gauged ok (k a)) -> gauged ok (mbind m k).
Proof.
  intros Hm Hk w Hw b. unfold mbind. destruct (Hm w) as [Ht Hi]. destruct (m w) as [[a|e] w']; [|done].
  apply Hk. unfold gauge_true in *. cbn in Ht, Hi. by rewrite Ht, Hi.
Qed.
Lemma still_repo {A} (m : M S A) w : trace (repo m w).2 = trace w /\ ix (repo m w).2 = ix w.
Proof. unfold repo. by destruct (m (store w)). Qed.
Lemma still_try {A} (m : M W A) :
  (forall w, trace (m w).2 = trace w /\ ix (m w).2 = ix w) ->
  forall w, trace (mtry m w).2 = trace w /\ ix (mtry m w).2 = ix w.
Proof. intros Hm w. unfold mtry. specialize (Hm w). by destruct (m w). Qed.
Lemma still_bind {A B} (m : M W A) (k : A -> M W B) :
  (forall w, trace (m w).2 = trace w /\ ix (m w).2 = ix w) ->
  (forall a w, trace (k a w).2 = trace w /\ ix (k a w).2 = ix w) ->
  forall w, trace (mbind m k w).2 = trace w /\ ix (mbind m k w).2 = ix w.
Proof.
  intros Hm Hk w. unfold mbind. destruct (Hm w) as [Ht Hi]. destruct (m w) as [[a|e] w']; [|done].
  cbn in *. rewrite <- Ht, <- Hi. apply Hk.
Qed.

Abbreviation ended := (fun p => snd p = None) (only parsing).

Lemma gauges_ingest_loop ls res : gauges ended (ingest_loop cfg ls res).
Proof.
  revert res. induction ls as [|l ls IH]; intros res; cbn [ingest_loop]; [apply gauges_open|].
  apply gauges_bind. intros [e|]; [by apply gauges_ret|]. apply gauges_bind.
  intros [r|e]; [apply IH|by apply gauges_ret].
Qed.

Lemma gauges_Ingest ls : gauges ended (Ingest cfg ls).
Proof.
  unfold Ingest. destruct (validate_batch 0 ls) as [ls' [e|]]; [by apply gauges_ret|apply gauges_ingest_loop].
Qed.

Lemma gauges_Rebuild : gauges (fun _ => True) (Rebuild cfg).
Proof.
  unfold Rebuild. apply gauges_bind. intros legs. apply gauges_bind. intros w0. apply gauges_bind. intros [].
  intros w a _ _. unfold notifyOpen, mbind, mget, call, mmodify, gauge_true. cbn. rewrite Hhooks. apply last_open_snoc.
Qed.

Lemma gauged_expire d forced : gauged ended (expire cfg d forced).
Proof.
  unfold expire. apply gauged_bind; [done|intros t]. apply gauged_bind; [done|intros w].
  destruct (Expired _ _ _) as [|l ls]; [apply gauged_ret|]. apply gauged_gauges, gauges_bind.
  intros [count [e|]]; [by apply gauges_ret|]. apply gauges_bind. intros [[]|e]; [apply gauges_open|by apply gauges_ret].
Qed.

Lemma gauged_ResolveBreak id reason actor : gauged (fun _ => True) (ResolveBreak cfg id reason actor).
Proof.
  unfold ResolveBreak. case_match; [apply gauged_ret|].
  apply gauged_bind; [apply still_try, still_repo|intros [b|e]]; [|apply gauged_ret].
  case_match; [apply gauged_ret|]. apply gauged_bind; [done|intros t]. cbv zeta.
  apply gauged_bind; [|intros [[]|e]; apply gauged_ret].
  apply still_try, still_bind; [done|]. intros cs. apply still_repo.
Qed.

Definition replayed (o : option (ReplayResult * option error)) : Prop := exists res, o = Some (res, None).

Lemma gauges_replay_loop fuel through cursor res : gauges replayed (replay_loop cfg fuel through cursor res).
Proof.
  assert (forall o, (forall res, o <> Some (res, None)) -> gauges replayed (mret o)) as Hret.
  { intros o Ho. apply gauges_ret. intros [r Hr]. by eapply Ho. }
  revert cursor res. induction fuel as [|fuel IH]; intros cursor res; cbn [replay_loop]; [by apply Hret|].
  destruct (through <? cursor); [apply gauges_open|]. apply gauges_bind.
  intros [[|ev evs]|e]; [apply gauges_open| |by apply Hret]. apply gauges_bind.
  intros [[cursor' res'] [e|]]; [by apply Hret|]. case_match; [apply gauges_open|apply IH].
Qed.

Lemma gauges_Replay from : gauges replayed (Replay cfg from).
Proof.
  unfold Replay. apply gauges_bind. intros [through|e]; [|by apply gauges_ret; intros []].
  apply gauges_bind. intros [] w o. unfold mbind.
  pose proof (gauges_replay_loop (1 + Z.to_nat (through - (if from <? 1 then 1 else from) + 1)) through
    (if from <? 1 then 1 else from) (mkReplayResult (if from <? 1 then 1 else from) through 0 0 0 0 0) w) as Hg.
  destruct (replay_loop _ _ _ _ _ w) as [[o'|e] w']; [|done]. intros [= <-] Hok. by apply (Hg o').
Qed.

(** An operation that ended without an error. *)
Definition op_ended (o : op) (w : W) : Prop :=
  match o with
  | OpIngest ls => exists b, (Ingest cfg ls w).1 = Ok (b, None)
  | OpSweep => exists n, (Sweep cfg w).1 = Ok (n, None)
  | OpCloseWindow d => exists n, (CloseWindow cfg d w).1 = Ok (n, None)
  | OpResolve id reason actor => exists r, (ResolveBreak cfg id reason actor w).1 = Ok r
  | OpReplay from => exists res, (Replay cfg from w).1 = Ok (Some (res, None))
  | OpRebuild => (Rebuild cfg w).1 = Ok tt
  end.

Lemma gauge_op o w : gauge_true w -> op_ended o w -> gauge_true (run_op cfg o w).
Proof.
  intros Hw. destruct o as [ls| |d|id reason actor|from|]; cbn [op_ended run_op].
  - intros [b Hb]. by eapply gauges_Ingest.
  - intros [n Hn]. by eapply gauged_expire.
  - intros [n Hn]. by eapply gauged_expire.
  - intros [r Hr]. by eapply gauged_ResolveBreak.
  - intros [res Hr]. eapply gauges_Replay; [exact Hr|by exists res].
  - intros Hr. by eapply gauges_Rebuild.
Qed.

(** Operations that all ended well, one after the other. *)
Inductive ended_run : W -> W -> Prop :=
  | ended_nil w : ended_run w w
  | ended_cons o w w' : op_ended o w -> ended_run (run_op cfg o w) w' -> ended_run w w'.

Lemma gauge_run w w' : ended_run w w' -> gauge_true w -> gauge_true w'.
Proof. induction 1 as [|o w w' Ho _ IH]; intros Hw; [done|]. by apply IH, gauge_op. Qed.
End Told.

Section Gauge.
Context {C H : Type} `{!CounterVec C} `{!HistogramVec H}.

Lemma gauge_last_open tr (m : Metrics C H) :
  OpenLegs_gauge (foldl on_hook m tr) =
  match last_open tr with Some n => of_int (Z.of_nat n) | None => OpenLegs_gauge m end.
Proof.
  unfold last_open. induction tr as [|h tr IH] using rev_ind; [done|].
  rewrite foldl_app, omap_app. cbn. destruct h; cbn; rewrite ?app_nil_r, ?last_snoc; done.
Qed.
End Gauge.
