(* ===== verification/EngineReplay.v ===== *)
(** * Replay

    A replay always ends: every full page moves the cursor, and the events up
    to the last sequence number are there to be found. A replay that ends
    without an error has read every event of the log from its starting point
    once, and has ingested every leg.ingested event among them. What it appends
    to the log starts with its marker and records no arrival. *)

From S2P Require Export EngineHistory.
From S2P Require Import MetricsFacts.

(** ** The events a replay still has to read *)

Definition pending (through cursor : Z) (evs : list Event) : list Event :=
  filter (fun e => ev_Seq e <= through) (filter (fun e => cursor <= ev_Seq e) evs).

Definition ingested (evs : list Event) : list Event := filter (fun e => ev_Type e = EvLegIngested) evs.

Lemma elem_of_pending through cursor evs e :
  e ∈ pending through cursor evs <-> e ∈ evs /\ cursor <= ev_Seq e <= through.
Proof. unfold pending. rewrite !list_elem_of_filter. tauto. Qed.

Lemma pending_snoc through cursor evs new : Forall (fun e => through < ev_Seq e) new ->
  pending through cursor (evs ++ new) = pending through cursor evs.
Proof.
  intros Hn. unfold pending. rewrite !filter_app.
  enough (filter (fun e => ev_Seq e <= through) (filter (fun e => cursor <= ev_Seq e) new) = []) as ->
    by apply app_nil_r.
  apply filter_none. intros e He [_ Hin]%list_elem_of_filter.
  eapply Forall_forall in Hn; [|exact Hin]. cbn in Hn. lia.
Qed.

Lemma sorted_app_lt (xs ys : list Event) x y :
  StronglySorted ev_lt (xs ++ ys) -> x ∈ xs -> y ∈ ys -> ev_Seq x < ev_Seq y.
Proof. apply (StronglySorted_app_1_elem_of ev_lt). Qed.

Lemma sorted_filter (P : Event -> Prop) `{!forall e, Decision (P e)} evs :
  StronglySorted ev_lt evs -> StronglySorted ev_lt (filter P evs).
Proof.
  induction 1 as [|e evs _ IH He]; [constructor|]. rewrite filter_cons. destruct (decide _); [|done].
  constructor; [done|]. apply Forall_forall. intros x [_ Hx]%list_elem_of_filter.
  by eapply Forall_forall in He.
Qed.

(** The last sequence number bounds the log, and belongs to one of its events. *)
Lemma last_seq_le evs e : log_wf evs -> e ∈ evs -> ev_Seq e <= last_seq evs.
Proof.
  intros [Hs _] He. unfold last_seq. destruct (last evs) as [z|] eqn:E; cbn.
  - apply last_Some in E as [pre ->]. apply elem_of_app in He as [He| ->%list_elem_of_singleton]; [|lia].
    pose proof (sorted_app_lt _ _ _ z Hs He) as Hlt. enough (ev_Seq e < ev_Seq z) by lia.
    apply Hlt. by apply list_elem_of_singleton.
  - apply last_None in E as ->. by apply not_elem_of_nil in He.
Qed.

Lemma last_seq_found evs : last_seq evs = 0 \/ exists e, e ∈ evs /\ ev_Seq e = last_seq evs.
Proof.
  unfold last_seq. destruct (last evs) as [z|] eqn:E; [right|by left]. exists z. split; [|done].
  apply last_Some in E as [pre ->]. apply elem_of_app. right. by apply list_elem_of_singleton.
Qed.

(** What is appended after the last sequence number is above it. *)
Lemma appended_above evs new e : log_wf (evs ++ new) -> e ∈ evs -> Forall (fun e' => ev_Seq e < ev_Seq e') new.
Proof.
  intros [Hs _] He. apply Forall_forall. intros e' He'. by eapply sorted_app_lt.
Qed.

(** ** A page *)

(** [c] is a cursor reached from [cursor] by reading [evs] up to [through]. *)
Record moved (through cursor : Z) (evs : list Event) (c : Z) : Prop := {
  mv_from : c = cursor \/ exists e, e ∈ evs /\ c = ev_Seq e + 1;
  mv_read e : e ∈ evs -> ev_Seq e <= through -> ev_Seq e < c;
  mv_left e : e ∈ evs -> through < ev_Seq e -> c <= ev_Seq e
}.

Lemma moved_nil through cursor : moved through cursor [] cursor.
Proof. constructor; [by left|..]; by intros e ?%not_elem_of_nil. Qed.

Lemma moved_stop through cursor ev evs : StronglySorted ev_lt (ev :: evs) -> cursor <= ev_Seq ev ->
  through < ev_Seq ev -> moved through cursor (ev :: evs) cursor.
Proof.
  intros Hs Hc Ht. inversion Hs as [|? ? _ Hlt]; subst.
  assert (forall e, e ∈ ev :: evs -> ev_Seq ev <= ev_Seq e) as Hle.
  { intros e [->|He]%elem_of_cons; [lia|]. eapply Forall_forall in Hlt; [|exact He].
    unfold ev_lt in Hlt. lia. }
  constructor; [by left|..]; intros e He He'; specialize (Hle e He); lia.
Qed.

Lemma moved_cons through cursor ev evs c : StronglySorted ev_lt (ev :: evs) -> ev_Seq ev <= through ->
  moved through (ev_Seq ev + 1) evs c -> moved through cursor (ev :: evs) c.
Proof.
  intros Hs Ht [Hf Hr Hl]. inversion Hs as [|? ? _ Hlt]; subst.
  assert (forall e, e ∈ evs -> ev_Seq ev < ev_Seq e) as Hle
    by (intros e He; by eapply Forall_forall in Hlt).
  constructor.
  - right. destruct Hf as [->|(e & He & ->)]; [exists ev|exists e]; (split; [|done]); [by left|by right].
  - intros e [->|He]%elem_of_cons; [|by apply Hr].
    intros _. destruct Hf as [->|(e' & He' & ->)]; [lia|]. specialize (Hle e' He'). lia.
  - intros e [->|He]%elem_of_cons; [lia|by apply Hl].
Qed.

(** What is pending splits at the page read. *)
Lemma pending_page through cursor evs n c : StronglySorted ev_lt evs ->
  let F := filter (fun e => cursor <= ev_Seq e) evs in
  moved through cursor (take n F) c ->
  pending through cursor evs =
    filter (fun e => ev_Seq e <= through) (take n F) ++ filter (fun e => ev_Seq e <= through) (drop n F) /\
  pending through c evs = filter (fun e => ev_Seq e <= through) (drop n F) /\ cursor <= c.
Proof.
  intros Hs F [Hf Hr Hl]. assert (StronglySorted ev_lt F) as HsF by (by apply sorted_filter).
  assert (forall e, e ∈ F <-> cursor <= ev_Seq e /\ e ∈ evs) as HF 
    by (intros e; unfold F; by rewrite list_elem_of_filter).
  assert (cursor <= c) as Hc.
  { destruct Hf as [->|(e & He & ->)]; [lia|].
    assert (e ∈ F) as [? _]%HF by (rewrite <- (take_drop n F); apply elem_of_app; by left). lia. }
  split_and!; [by rewrite <- filter_app, take_drop| |done]. unfold pending.
  assert (filter (fun e => c <= ev_Seq e) evs = filter (fun e => c <= ev_Seq e) F) as ->.
  { symmetry. apply list_filter_filter_l. intros e ?. lia. }
  rewrite <- (take_drop n F) at 1. rewrite !filter_app.
  assert (forall e, e ∈ drop n F -> c <= ev_Seq e) as Hd.
  { intros e He. assert (e ∈ F) as [Hce _]%HF by (rewrite <- (take_drop n F); apply elem_of_app; by right).
    destruct Hf as [->|(e' & He' & ->)]; [done|].
    rewrite <- (take_drop n F) in HsF. pose proof (sorted_app_lt _ _ _ _ HsF He' He). lia. }
  rewrite (filter_all (fun e => c <= ev_Seq e) (drop n F)) by (by apply Forall_forall).
  enough (filter (fun e => ev_Seq e <= through) (filter (fun e => c <= ev_Seq e) (take n F)) = []) as ->
    by done.
  apply filter_none. intros e He [Hce Hin]%list_elem_of_filter. specialize (Hr e Hin He). lia.
Qed.

(** ** The replay of a page *)

Section Pages.
Context `{Sha256} `{BreakClassifier} {S : Type} `{RepositoryLaws S} (cfg : Config).

Abbreviation W := (World S).

(** What the replay of one event is: the leg it recorded, ingested, and the
    result; a resolution, done again; nothing. *)
Inductive replayed_event (e : Event) (w : W) : list Leg -> list IngestResult -> W -> Prop :=
  | re_arrival l r w1 : ev_Type e = EvLegIngested -> unmarshalLeg (ev_Payload e) = Ok l ->
      ingestOne cfg l w = (Ok r, w1) -> replayed_event e w [l] [r] w1
  | re_resolution w1 : ev_Type e = EvBreakResolved -> reapplyResolution e w = (Ok tt, w1) ->
      replayed_event e w [] [] w1
  | re_other : ev_Type e <> EvLegIngested -> ev_Type e <> EvBreakResolved -> replayed_event e w [] [] w.

Lemma replay_event_spec e res w res1 w1 : replay_event cfg e res w = (Ok res1, w1) ->
  exists ls rs, replayed_event e w ls rs w1 /\ res1 = foldl (fun res r => tally_replay r res) res rs.
Proof.
  unfold replay_event. case_bool_decide as Hr.
  { unfold mbind. destruct (reapplyResolution e w) as [[[]|err] w2] eqn:E; [|done]. intros [= <- <-].
    exists [], []. split; [|done]. by apply re_resolution. }
  case_bool_decide as Ht; cbn [negb]; [|intros [= <- <-]; exists [], []; split; [by apply re_other|done]].
  unfold mbind at 1, lift. destruct (unmarshalLeg _) as [l|err] eqn:El; [|done].
  unfold mbind. destruct (ingestOne cfg l w) as [[r|err] w2] eqn:E; [|done]. intros [= <- <-].
  exists [l], [r]. split; [|done]. by apply re_arrival.
Qed.

(** The counters of a replay: every event read, every leg, and the outcomes. *)
Definition is_open (r : IngestResult) : bool := bool_decide (ir_Outcome r = OutcomeOpen).

Record counted (res res' : ReplayResult) (evs : list Event) (rs : list IngestResult) : Prop := {
  ct_events : rr_EventsRead res' = rr_EventsRead res + Z.of_nat (length evs);
  ct_legs : rr_LegsReplayed res' = rr_LegsReplayed res + Z.of_nat (length rs);
  ct_matched : rr_Matched res' = rr_Matched res + Z.of_nat (length (filter is_matched rs));
  ct_breaks : rr_Breaks res' = rr_Breaks res + Z.of_nat (length (filter is_broken rs));
  ct_open : rr_Open res' = rr_Open res + Z.of_nat (length (filter is_open rs))
}.

Lemma counted_nil res : counted res res [] [].
Proof. split; cbn; lia. Qed.

Lemma counted_app r1 r2 r3 e1 e2 rs1 rs2 : counted r1 r2 e1 rs1 -> counted r2 r3 e2 rs2 ->
  counted r1 r3 (e1 ++ e2) (rs1 ++ rs2).
Proof. intros [] []. constructor; rewrite ?filter_app, !length_app; lia. Qed.

Lemma counted_event e res w ls rs w1 : replayed_event e w ls rs w1 ->
  counted res (foldl (fun res r => tally_replay r res) (read_event res) rs) [e] rs.
Proof.
  intros Hr. destruct res as [f t ev n m b o]. destruct Hr as [l r w1 _ _ _|w1 _ _|_ _]; cbn [foldl];
    [|constructor; cbn; lia..].
  constructor; cbn; unfold is_matched, is_broken, is_open; rewrite ?filter_bool_cons; cbn; [lia|lia|..];
    repeat case_match; cbn; try done; lia.
Qed.

(** The replay of a list of events, one after the other, in the course of which
    the log is read, page by page. *)
Inductive replays : list Event -> list Leg -> list IngestResult -> W -> W -> Prop :=
  | rp_nil w : replays [] [] [] w w
  | rp_read evs ls rs cursor w w' : quiet w (repo (EventsFrom cursor page) w).2 ->
      replays evs ls rs (repo (EventsFrom cursor page) w).2 w' -> replays evs ls rs w w'
  | rp_event e evs ls1 ls rs1 rs w w1 w' : replayed_event e w ls1 rs1 w1 -> replays evs ls rs w1 w' ->
      replays (e :: evs) (ls1 ++ ls) (rs1 ++ rs) w w'.

Lemma replays_app e1 e2 l1 l2 r1 r2 w w1 w2 : replays e1 l1 r1 w w1 -> replays e2 l2 r2 w1 w2 ->
  replays (e1 ++ e2) (l1 ++ l2) (r1 ++ r2) w w2.
Proof.
  induction 1 as [w|evs ls rs cursor w w' Hq _ IH|e evs ls1 ls rs1 rs w w1 w' He _ IH]; intros Hr; [done| |].
  - eapply rp_read; [done|by apply IH].
  - rewrite <- !app_assoc. cbn [app]. eapply rp_event; [done|by apply IH].
Qed.

(** Every arrival among the events was decoded. *)
Lemma replays_decoded evs ls rs w w' : replays evs ls rs w w' ->
  Forall2 (fun e l => unmarshalLeg (ev_Payload e) = Ok l) (ingested evs) ls /\ length rs = length ls.
Proof.
  induction 1 as [w|evs ls rs cursor w w' _ _ IH|e evs ls1 ls rs1 rs w w1 w' He _ [IH1 IH2]]; [by split|done|].
  unfold ingested. rewrite filter_cons, !length_app, IH2.
  destruct He as [l r w1 Ht Hl _|w1 Ht _|Ht _]; [rewrite decide_True by done|rewrite decide_False by (by rewrite ?Ht)..].
  - split; [by constructor|done].
  - by split.
  - by split.
Qed.

Lemma run_replay_page through evs cursor res (w : W) : StronglySorted ev_lt evs ->
  Forall (fun e => cursor <= ev_Seq e) evs ->
  run (replay_page cfg through evs cursor res) w (fun r w' =>
    exists c res' oe, r = Ok (c, res', oe) /\
      (oe = None -> moved through cursor evs c /\ exists ls rs,
         replays (filter (fun e => ev_Seq e <= through) evs) ls rs w w' /\
         counted res res' (filter (fun e => ev_Seq e <= through) evs) rs)).
Proof.
  revert cursor res w. induction evs as [|ev evs IH]; intros cursor res w Hs Hc; cbn [replay_page].
  { exists cursor, res, None. split; [done|]. intros _. split; [apply moved_nil|].
    exists [], []. split; [apply rp_nil|apply counted_nil]. }
  inversion Hs as [|? ? Hs' Hlt]; subst. inversion Hc as [|? ? Hc0 _]; subst.
  destruct (through <? ev_Seq ev) eqn:E.
  { exists cursor, res, None. split; [done|]. intros _. split; [by apply moved_stop; [..|lia]|].
    assert (filter (fun e => ev_Seq e <= through) (ev :: evs) = []) as ->;
      [|exists [], []; split; [apply rp_nil|apply counted_nil]].
    apply filter_none. intros e He [->|Hin]%elem_of_cons; [lia|].
    eapply Forall_forall in Hlt; [|exact Hin]. unfold ev_lt in Hlt. lia. }
  cbv zeta. apply run_bind, run_try, run_wrap. unfold run at 1.
  destruct (replay_event cfg ev (read_event res) w) as [[res1|e] w1] eqn:Eev; cbn [fst snd];
    [|by exists (ev_Seq ev + 1), (read_event res), (Some (ErrWrap ("event " +:+ FormatInt (ev_Seq ev) +:+ ": ") e ""))].
  destruct (replay_event_spec _ _ _ _ _ Eev) as (ls1 & rs1 & Hev & ->).
  eapply run_mono.
  { apply (IH (ev_Seq ev + 1) _ w1 Hs'). eapply Forall_impl; [exact Hlt|].
    unfold ev_lt. cbn. intros e ?. lia. }
  intros r w2 (c & res2 & oe & -> & Hok). exists c, res2, oe. split; [done|]. intros Hn.
  destruct (Hok Hn) as (Hm & ls & rs & Hrep & Hcnt2). split; [by apply moved_cons; [..|lia|]|].
  exists (ls1 ++ ls), (rs1 ++ rs). rewrite filter_cons, decide_True by lia. split.
  - by eapply rp_event.
  - eapply (counted_app res _ res2 [ev]); [by eapply counted_event|exact Hcnt2].
Qed.
End Pages.

(** ** The loop and the whole replay *)

Section Replays.
Context `{Sha256} `{BreakClassifier} {S : Type} `{RepositoryLaws S} (cfg : Config).
Variable U : gset string.
Context (Hsane : sane_config cfg) (Hnc : no_collisions U).

Abbreviation W := (World S).
Abbreviation vw w := (view (store w)).

Lemma run_set_replaying b (w : W) (Q : result unit -> W -> Prop) :
  Q (Ok tt) (mkWorld (store w) (ix w) b (ticks w) (polls w) (trace w)) -> run (set_replaying b) w Q.
Proof. done. Qed.

(** The answer of the loop: an error, or the events replayed one by one, then
    the gauge. *)
Definition answers (res : ReplayResult) (evs : list Event) (w : W)
    (r : result (option (ReplayResult * option error))) (w' : W) : Prop :=
  exists out oe, r = Ok (Some (out, oe)) /\
    (oe = None -> exists ls rs w1, replays cfg evs ls rs w w1 /\ counted res out evs rs /\
       quiet w1 w' /\ w' = (notifyOpen cfg w1).2).

Lemma run_end (w : W) res evs : repo_ok (store w) -> evs = [] ->
  run (notifyOpen cfg ;;! mret (Some (res, None)))%recon w (answers res evs w).
Proof.
  intros Hw ->. exists res, None. split; [done|]. intros _.
  exists [], [], w. split_and!; [apply rp_nil|apply counted_nil|by constructor|done].
Qed.

Lemma answers_app res res1 e1 e2 ls rs w w1 r w' : replays cfg e1 ls rs w w1 -> counted res res1 e1 rs ->
  answers res1 e2 w1 r w' -> answers res (e1 ++ e2) w r w'.
Proof.
  intros Hr1 Hc1 (out & oe & -> & Ho). exists out, oe. split; [done|]. intros Hn.
  destruct (Ho Hn) as (ls2 & rs2 & w2 & Hr2 & Hc2 & Hq & Hw). exists (ls ++ ls2), (rs ++ rs2), w2.
  split_and!; [by eapply replays_app|by eapply counted_app|done|done].
Qed.

Lemma answers_read res evs cursor w r w' : quiet w (repo (EventsFrom cursor page) w).2 ->
  answers res evs (repo (EventsFrom cursor page) w).2 r w' -> answers res evs w r w'.
Proof.
  intros Hq (out & oe & -> & Ho). exists out, oe. split; [done|]. intros Hn.
  destruct (Ho Hn) as (ls & rs & w1 & Hr & Hrest). exists ls, rs, w1. split; [|done].
  by eapply rp_read.
Qed.

(** A full page moves the cursor. *)
Lemma page_moves through cursor evs n c : StronglySorted ev_lt evs -> cursor <= through ->
  (exists e, e ∈ evs /\ ev_Seq e = through) -> take n (filter (fun e => cursor <= ev_Seq e) evs) <> [] ->
  moved through cursor (take n (filter (fun e => cursor <= ev_Seq e) evs)) c -> cursor < c.
Proof.
  intros Hs Hc (z & Hz & Hzs) Hne [_ Hr _]. set (F := filter _ evs) in *.
  assert (StronglySorted ev_lt F) as HsF by (by apply sorted_filter).
  assert (z ∈ F) as HzF by (apply list_elem_of_filter; split; [lia|done]).
  rewrite <- (take_drop n F) in HzF, HsF. apply elem_of_app in HzF as [Hin|Hin].
  - specialize (Hr z Hin ltac:(lia)). lia.
  - destruct (take n F) as [|e es] eqn:E; [done|].
    assert (e ∈ F) as [Hce _]%list_elem_of_filter.
    { rewrite <- (take_drop n F), E. apply elem_of_app. left. left. }
    pose proof (sorted_app_lt _ _ e z HsF ltac:(left) Hin) as Hlt.
    specialize (Hr e ltac:(left) ltac:(lia)). lia.
Qed.

(** A page is in order, and starts at the cursor. *)
Lemma page_read cursor log evs : StronglySorted ev_lt log ->
  evs = take (Z.to_nat page) (filter (fun e => cursor <= ev_Seq e) log) ->
  StronglySorted ev_lt evs /\ Forall (fun e => cursor <= ev_Seq e) evs.
Proof.
  intros Hs ->. split.
  - pose proof (sorted_filter (fun e => cursor <= ev_Seq e) _ Hs) as HsF.
    eapply StronglySorted_app_1_l. by rewrite (take_drop (Z.to_nat page)).
  - apply Forall_take, Forall_forall. by intros e [? _]%list_elem_of_filter.
Qed.

Lemma replay_loop_answers fuel through cursor res w : world_inv cfg U w ->
  through < cursor \/ (exists e, e ∈ v_events (vw w) /\ ev_Seq e = through) ->
  (0 < fuel)%nat -> through - cursor + 1 < Z.of_nat fuel ->
  run (replay_loop cfg fuel through cursor res) w
    (answers res (pending through cursor (v_events (vw w))) w).
Proof.
  revert cursor res w. induction fuel as [|fuel IH]; intros cursor res w Hw Hend Hpos Hfuel;
    cbn [replay_loop]; [lia|]. destruct (through <? cursor) eqn:E.
  { apply run_end; [apply Hw|]. apply filter_none. intros e He [Hce _]%list_elem_of_filter. lia. }
  destruct Hend as [Hend|Hend]; [lia|].
  pose proof (log_sorted _ (vw_log _ (inv_view _ _ _ _ (wi_inv _ _ _ Hw)))) as Hs.
  apply run_bind, run_try, run_wrap.
  pose proof (run_EventsFrom cursor page w (fun r w1 => quiet w w1 /\ forall evs, r = Ok evs ->
    evs = take (Z.to_nat page) (filter (fun e => cursor <= ev_Seq e) (v_events (vw w)))) (wi_ok _ _ _ Hw) eq_refl) as Hread.
  unfold run at 1. pose proof (answers_read res (pending through cursor (v_events (vw w))) cursor w) as Hfrom.
  unfold run in Hread. destruct (repo (EventsFrom cursor page) w) as [re w1] eqn:Ere. cbn [fst snd] in *.
  destruct Hread as [Hq Hevs]; [by intros|by intros evs ? ? ->; split; [|intros ? [= <-]]|].
  destruct re as [evs|e]; [|by exists res, (Some (ErrWrap "read events: " e ""))].
  eapply run_mono; [|intros r w'; apply Hfrom, Hq]. clear Hfrom. specialize (Hevs evs eq_refl). set (F := filter (fun e => cursor <= ev_Seq e) (v_events (vw w))) in Hevs.
  destruct (page_read cursor (v_events (vw w)) evs Hs Hevs) as [Hse Hce].
  assert (Hw1 : world_inv cfg U w1) by (by eapply world_inv_quiet).
  destruct evs as [|ev0 evs0] eqn:Ee.
  { apply run_end; [apply Hw1|]. unfold pending. fold F. destruct F; [done|by cbn in Hevs]. }
  rewrite <- Ee in *. assert (evs <> []) as Hne by (by rewrite Ee). clear ev0 evs0 Ee.
  apply run_bind.
  pose proof (run_replay_page cfg through evs cursor res w1 Hse Hce) as Hpage.
  assert (Forall (event_ok U) evs) as Hok by (rewrite Hevs; by eapply page_events_ok).
  pose proof (keeps_replay_page cfg U Hsane Hnc _ (extends_step_rel cfg U) through evs cursor res
                Hok w1 Hw1) as Hkeep.
  unfold run in Hpage, Hkeep. unfold run at 1.
  destruct (replay_page cfg through evs cursor res w1) as [r w2]. cbn [fst snd] in *.
  destruct Hpage as (c & res1 & oe & -> & Hcnt). destruct oe as [e|].
  { by exists res1, (Some e). }
  destruct (Hcnt eq_refl) as (Hmoved & ls & rs & Hrep & Hcnt1). clear Hcnt. destruct Hkeep as [Hw2 (new & Hnew & _)].
  rewrite (q_view _ _ Hq) in Hnew.
  rewrite Hevs in Hmoved. pose proof (pending_page _ _ _ _ _ Hs Hmoved) as (Hp1 & Hp2 & _).
  fold F in Hp1, Hp2. rewrite <- Hevs in Hp1. rewrite Hp1.
  destruct (Z.of_nat (length evs) <? page) eqn:El.
  - eapply run_mono; [apply (run_end w2 res1 (filter (fun e => ev_Seq e <= through) (drop (Z.to_nat page) F)));
      [apply Hw2|]|].
    + apply Z.ltb_lt in El. rewrite Hevs, length_take in El.
      rewrite drop_ge; [apply filter_nil|]. unfold page in *. lia.
    + intros r w3. by eapply answers_app.
  - destruct Hend as (z & Hz & Hzs).
    assert (cursor < c) as Hlt.
    { eapply (page_moves through); [exact Hs|lia|by exists z| |exact Hmoved]. fold F. by rewrite <- Hevs. }
    eapply run_mono; [apply (IH c res1 w2 Hw2)|].
    + right. exists z. rewrite Hnew. split; [|done]. apply elem_of_app. by left.
    + lia.
    + lia.
    + intros r w3 Hr. eapply answers_app; [exact Hrep|exact Hcnt1|]. rewrite <- Hp2.
      rewrite Hnew, pending_snoc in Hr; [done|]. rewrite <- Hzs. eapply appended_above; [|exact Hz].
      rewrite <- Hnew. apply (inv_view _ _ _ _ (wi_inv _ _ _ Hw2)).
Qed.
(** The prologue: nothing but the marker is appended, and the projections are
    empty when it succeeds. *)
Lemma run_replay_start from w : world_inv cfg U w ->
  run (replay_start cfg from) w (fun r w' => exists marks,
    v_events (vw w') = v_events (vw w) ++ marks /\
    Forall (fun e => ev_Type e = EvReplayStarted) marks /\
    forall through, r = Ok through -> through = last_seq (v_events (vw w)) /\
      vw w' = mkView ∅ ∅ ∅ (v_events (vw w) ++ marks) /\ ix w' = NewIndex (ttl (ix w))).
Proof.
  assert (forall (w1 : W) (e : error) (w2 : W), vw w2 = vw w1 -> exists marks,
    v_events (vw w2) = v_events (vw w1) ++ marks /\ Forall (fun e => ev_Type e = EvReplayStarted) marks /\
    forall through : Z, Err e = Ok through -> through = last_seq (v_events (vw w1)) /\
      vw w2 = mkView ∅ ∅ ∅ (v_events (vw w1) ++ marks) /\ ix w2 = NewIndex (ttl (ix w1))) as Hsame.
  { intros w1 e w2 ->. exists []. by rewrite app_nil_r. }
  intros Hw. unfold replay_start. apply run_bind, run_wrap.
  eapply run_read; [intros r s' E; exact (LastSeq_law _ r s' (wi_ok _ _ _ Hw) E)|].
  intros [through|e] w1 Hq1 Hl; [|apply Hsame, Hq1].
  apply run_bind, run_now; [apply Hq1|]. intros w2 Hq2.
  pose proof (quiet_trans _ _ _ Hq1 Hq2) as Hq. clear Hq1 Hq2.
  apply run_bind, run_lift. rewrite (addEvent_only _ _ _ _ []). cbn [app].
  apply run_bind. apply run_Apply; [apply Hq|apply (cs_ok_events _ _ (clock cfg (ticks w1))); [apply Hsane|by apply Forall_singleton]|intros e w3 Hq3; apply Hsame| ].
  { by rewrite (q_view _ _ Hq3), (q_view _ _ Hq). }
  intros w3 Hok3 Hap Hix3 _. destruct Hap as [_ _ _ (marks & Hmarks & Hst)].
  rewrite (q_view _ _ Hq) in Hmarks. apply (stamped_types (fun typ => typ = EvReplayStarted)) in Hst;
    [|by apply Forall_singleton].
  apply run_bind, run_wrap, run_repo. unfold run at 1.
  destruct (ResetProjections (store w3)) as [r s4] eqn:E. cbn [fst snd].
  destruct (ResetProjections_law _ _ _ Hok3 E) as [_ Hv4]. destruct r as [[]|e].
  - apply run_bind, run_get, run_bind, run_set_ix, run_ret. cbn [store]. rewrite Hv4.
    exists marks. split; [exact Hmarks|]. split; [done|]. intros ? [= <-]. split; [by apply Hl|].
    cbn [ix]. rewrite Hix3, (q_ix _ _ Hq). split; [|done]. cbn [v_events] in Hmarks. by rewrite Hmarks.
  - cbn [store]. rewrite Hv4. by exists marks.
Qed.

(** It makes no calls. *)
Lemma replay_start_trace from (w : W) : trace (replay_start cfg from w).2 = trace w.
Proof.
  assert (silent (replay_start (S := S) cfg from)) as Hs.
  { unfold replay_start. repeat first [apply silent_bind; [|intros]|apply silent_wrap]; auto using silent_repo,
      silent_now, silent_lift, silent_get, silent_set_ix, silent_ret. }
  destruct (Hs w) as (tr & -> & ->). apply app_nil_r.
Qed.

(** The engine as a replay begins: empty but for the log and its marker. *)
Record cleared (w w1 : W) : Prop := {
  cl_view : exists marks, Forall (fun e => ev_Type e = EvReplayStarted) marks /\
    vw w1 = mkView ∅ ∅ ∅ (v_events (vw w) ++ marks);
  cl_ix : ix w1 = NewIndex (ttl (ix w));
  cl_replaying : replaying w1 = true;
  cl_trace : trace w1 = trace w
}.

Lemma replay_start_inv from w : world_inv cfg U w ->
  run (replay_start cfg from) w (fun _ w' => world_inv cfg U w').
Proof.
  intros Hw. eapply run_mono.
    by apply (keeps_replay_start cfg U Hsane (fun _ _ => True)).
  by intros r w' [Hw' _].
Qed.

Lemma pending_all from evs : log_wf evs ->
  pending (last_seq evs) (if from <? 1 then 1 else from) evs = filter (fun e => from <= ev_Seq e) evs.
Proof.
  intros Hl. unfold pending. rewrite list_filter_filter. apply filter_ext_in. intros e He.
  pose proof (last_seq_le _ _ Hl He). pose proof (log_positive _ Hl) as Hp.
  eapply Forall_forall in Hp; [|exact He]. cbn in Hp. destruct (from <? 1) eqn:E; lia.
Qed.

(** The marker of a replay is not among what it reads. *)
Lemma pending_marks from evs marks : log_wf (evs ++ marks) -> pending (last_seq evs) (if from <? 1 then 1 else from) (evs ++ marks)
  = pending (last_seq evs) (if from <? 1 then 1 else from) evs.
Proof.
  intros Hlog. destruct (last_seq_found evs) as [H0'|(e & He' & Hes)].
  - assert (evs = []) as ->.
    { destruct evs as [|e evs]; [done|]. exfalso. pose proof (log_positive _ Hlog) as Hpos. inversion Hpos; subst.
      assert (ev_Seq e <= last_seq (e :: evs)); [|lia]. apply last_seq_le; [|left].
      constructor; [by eapply StronglySorted_app_1_l, Hlog|by apply (proj1 (Forall_app _ (e :: evs) marks)) in Hpos as [? _]]. }
    cbn [app]. apply filter_none. intros x Hx [Hf Hin]%list_elem_of_filter.
    change (last_seq []) with 0 in Hx. destruct (from <? 1) eqn:E; lia.
  - apply pending_snoc. rewrite <- Hes. by eapply appended_above.
Qed.

(** A replay answers; without an error, it is the replay of the log from [from]
    on, one event after the other, over a cleared engine. *)
Lemma Replay_answers from w : world_inv cfg U w ->
  let log := filter (fun e => from <= ev_Seq e) (v_events (vw w)) in
  run (Replay cfg from) w (fun r w' => exists out oe, r = Ok (Some (out, oe)) /\
    (oe = None -> exists ls rs w1 w2, world_inv cfg U w1 /\ cleared w w1 /\ replays cfg log ls rs w1 w2 /\
       counted zero_replay out log rs /\
       vw w' = vw w2 /\ ix w' = ix w2 /\ replaying w' = false /\
       trace w' = trace (notifyOpen cfg w2).2)).
Proof.
  intros Hw log. pose proof (vw_log _ (inv_view _ _ _ _ (wi_inv _ _ _ Hw))) as Hlog.
  unfold Replay. cbv zeta. unfold log. clear log. rewrite <- (pending_all from) by done.
  set (from' := if from <? 1 then 1 else from) in *.
  apply run_bind, run_try. pose proof (run_replay_start from' w Hw) as Hstart.
  pose proof (replay_start_inv from' w Hw) as Hinv. pose proof (replay_start_trace from' w) as Htr.
  unfold run in Hstart, Hinv. unfold run at 1.
  destruct (replay_start cfg from' w) as [[through|e] w1]; cbn [fst snd] in *.
  2:{ by exists zero_replay, (Some e). }
  destruct Hstart as (marks & Hmarks & Hms & Hth). destruct (Hth _ eq_refl) as (-> & Hcl & Hix). clear Hth.
  set (through := last_seq (v_events (vw w))) in *.
  apply run_bind, run_set_replaying.
  set (w2 := mkWorld _ _ true _ _ _). assert (world_inv cfg U w2) as Hw2 by (destruct Hinv; by constructor).
  apply run_bind. eapply run_mono; [apply (replay_loop_answers _ through from' _ w2 Hw2)|].
  - destruct (last_seq_found (v_events (vw w))) as [H0'|(e & He & Hes)].
    + left. unfold through, from'. rewrite H0'. destruct (from <? 1) eqn:E; lia.
    + right. exists e. split; [|done]. unfold w2. cbn [store]. rewrite Hmarks.
      apply elem_of_app. by left.
  - lia.
  - lia.
  - assert (pending through from' (v_events (vw w2)) = pending through from' (v_events (vw w))) as Hp.
    { unfold w2. cbn [store]. rewrite Hmarks. apply pending_marks. rewrite <- Hmarks.
      apply (inv_view _ _ _ _ (wi_inv _ _ _ Hinv)). }
    rewrite Hp. intros r w3 (out & oe & -> & Hcnt). apply run_bind, run_set_replaying.
    exists out, oe. split; [done|]. intros Hn.
    destruct (Hcnt Hn) as (ls & rs & w4 & Hrep & Hc & Hq & Hw3).
    exists ls, rs, w2, w4. split_and!; [done| |done| |apply Hq|apply Hq|done|by rewrite Hw3].
    + constructor; [by exists marks|done|done|done].
    + destruct Hc. by constructor.
Qed.

Lemma marker_not_arrival typ : typ = EvReplayStarted -> ~ is_arrival typ.
Proof. intros ->. by intros [|]. Qed.

(** A replay records no arrival. *)
Lemma Replay_no_arrivals from w : world_inv cfg U w ->
  run (Replay cfg from) w (fun _ w' =>
    appended (fun e => ~ is_arrival (ev_Type e)) (v_events (vw w)) (v_events (vw w'))).
Proof.
  intros Hw. unfold Replay. cbv zeta. set (from' := if from <? 1 then 1 else from).
  apply run_bind, run_try. pose proof (run_replay_start from' w Hw) as Hstart.
  pose proof (replay_start_inv from' w Hw) as Hinv. unfold run in Hstart, Hinv. unfold run at 1.
  destruct (replay_start cfg from' w) as [r w1]; cbn [fst snd] in *.
  destruct Hstart as (marks & Hmarks & Hms & _).
  assert (appended (fun e => ~ is_arrival (ev_Type e)) (v_events (vw w)) (v_events (vw w1))) as Happ.
  { exists marks. split; [done|]. eapply Forall_impl; [exact Hms|]. intros e. apply marker_not_arrival. }
  destruct r as [through|e]; [|done].
  apply run_bind, run_set_replaying.
  set (w2 := mkWorld _ _ true _ _ _). assert (world_inv cfg U w2) as Hw2 by (destruct Hinv; by constructor).
  apply run_bind. eapply run_mono.
  { apply (keeps_replay_loop cfg U Hsane Hnc _ (log_step_rel cfg U)); exact Hw2. }
  intros r w3 [_ [_ Hgrow]]. apply (appended_weaken _ (fun e => ~ is_arrival (ev_Type e))) in Hgrow.
  2:{ intros e He. by apply He. }
  destruct r as [out|e]; [|by eapply appended_trans].
  apply run_bind, run_set_replaying. by eapply appended_trans.
Qed.
End Replays.
