(* ===== verification/EngineFacts.v ===== *)
(** * What whole calls of the engine do

    Redelivered batches, refused batches, sweeps and closed windows: the
    results of the loops of Engine.v, beyond what every step keeps. *)

From S2P Require Export EngineReplay.
From S2P Require Import MetricsFacts.

(** A leg of the change set is stored afterwards. *)
Lemma put_legs_stored ls m id : id ∈ (ID <$> ls) \/ is_Some (m !! id) -> is_Some (put_legs ls m !! id).
Proof.
  revert m. induction ls as [|x ls IH]; intros m Hid; cbn.
  { destruct Hid as [Hid|]; [by apply not_elem_of_nil in Hid|done]. }
  apply IH. destruct (decide (id = ID x)) as [->|Hne].
  - right. by rewrite lookup_insert_eq.
  - rewrite lookup_insert_ne by done. destruct Hid as [[Heq|Hid]%elem_of_cons|Hid]; [done|by left|by right].
Qed.

Lemma put_legs_only ls m id : is_Some (put_legs ls m !! id) -> id ∈ (ID <$> ls) \/ is_Some (m !! id).
Proof.
  revert m. induction ls as [|x ls IH]; intros m; [by right|]. cbn. intros [Hin|Hm]%IH; [left; by right|].
  destruct (decide (id = ID x)) as [->|Hne]; [left; by left|]. rewrite lookup_insert_ne in Hm by done. by right.
Qed.

(** The legs the leg callback was called for. *)
Definition called (tr : list hook_call) : list string :=
  omap (fun h => match h with HookLeg l _ => Some (ID l) | _ => None end) tr.

(** The projections of a view: everything but the log. *)
Definition same_projections (v v' : View) : Prop :=
  v_legs v' = v_legs v /\ v_matches v' = v_matches v /\ v_breaks v' = v_breaks v.

Section Facts.
Context `{Sha256} `{BreakClassifier} {S : Type} `{RepositoryLaws S} (cfg : Config).
Variable U : gset string.
Context (Hsane : sane_config cfg) (Hnc : no_collisions U).

Abbreviation W := (World S).
Abbreviation vw w := (view (store w)).

Lemma arrive_ID t l : ID (arrive t l) = ID l.
Proof. unfold arrive. by destruct (IsZero _). Qed.

(** ** Redelivery *)

Lemma outcome_new_leg v i t pre l r cs i' :
  outcome cfg (rule_match (rules cfg)) v i t pre l r cs i' -> ID l ∈ ID <$> cs_Legs cs.
Proof. intros Ho. destruct Ho; by left. Qed.

Lemma ingest_step_stored v i rep t l r v' i' :
  ingest_step cfg (rule_match (rules cfg)) v i rep t l r v' i' -> is_Some (v_legs v' !! ID l).
Proof.
  intros [evs v1 Hl _ Hap|pre r1 cs v1 i1 _ _ Ho Hap]; rewrite (ap_legs _ _ _ Hap).
  - apply put_legs_stored. by right.
  - apply put_legs_stored. left. by eapply outcome_new_leg.
Qed.

(** Besides the arrival, a change set only has legs that are stored. *)
Lemma outcome_known v i t pre l r cs i' x : state_inv (rules cfg) U v i -> content_ok U l -> v_legs v !! ID l = None ->
  outcome cfg (rule_match (rules cfg)) v i t pre l r cs i' -> x ∈ ID <$> cs_Legs cs ->
  x = ID l \/ is_Some (v_legs v !! x).
Proof.
  intros Hinv Hl Hn Ho.
  assert (forall c, byID i !! ID c = Some c -> is_Some (v_legs v !! ID c)) as Hopen.
  { intros c Hc. apply (inv_open _ _ _ _ Hinv) in Hc as [Hc _]. by eexists. }
  destruct Ho as [related r0 j _ _ _ _|m j _ Hm _|related partners j _ _ _ -> _ _
                 |r0 b j1 j2 _ Hr0 _ _ _ _ _ _|related r0 j _ _ _ _ _|_ _].
  all: cbn [cs_Legs open_break fmap list_fmap]; intros [->|Hx]%elem_of_cons; [by left|try by apply not_elem_of_nil in Hx].
  - pose proof (unseen_fresh _ _ _ _ Hinv l Hn) as Hf.
    destruct (rule_match_reconciles (rules cfg) i l (sc_rules _ Hsane) (inv_amounts _ _ _ _ Hinv) (co_amount _ _ Hl) Hf m Hm)
      as (anchor & group & partners & Hrc).
    apply list_elem_of_fmap in Hx as (y & -> & (c & -> & Hc)%list_elem_of_fmap). right.
    apply (elem_of_partners_of _ _ _ _ _ _ _ Hf Hrc) in Hc. by apply (Hopen c), (rc_open _ _ _ _ _ _ _ Hrc).
  - apply list_elem_of_fmap in Hx as (y & -> & (c & -> & Hc)%list_elem_of_fmap). right.
    apply (elem_of_ByRef (mkWorld tt i false 0 0 [])) in Hc as [Hc _]; [|apply (inv_ix _ _ _ _ Hinv)]. by apply (Hopen c).
  - apply list_elem_of_singleton in Hx as ->. right.
    apply (elem_of_sharing _ _ _ _ Hinv) in Hr0 as [_ Hr0]. by eexists.
Qed.

Lemma ingest_step_only v i rep t l r v' i' id : state_inv (rules cfg) U v i -> content_ok U l ->
  ingest_step cfg (rule_match (rules cfg)) v i rep t l r v' i' ->
  is_Some (v_legs v' !! id) -> is_Some (v_legs v !! id) \/ id = ID l.
Proof.
  intros Hinv Hl [evs v1 Hst _ Hap|pre r1 cs v1 i1 Hn _ Ho Hap]; rewrite (ap_legs _ _ _ Hap); [by left|].
  intros [Hin|]%put_legs_only; [|by left]. by destruct (outcome_known _ _ _ _ _ _ _ _ _ Hinv Hl Hn Ho Hin); [right|left].
Qed.

Definition stored (w : W) (l : Leg) : Prop := is_Some (v_legs (vw w) !! ID l).

Lemma stored_life w w' l : same_life w w' -> stored w l -> stored w' l.
Proof.
  intros [Hl _ _] [x Hx]. specialize (Hl (ID l)). unfold stored. rewrite Hx in Hl.
  inversion Hl; subst; by eexists.
Qed.

Lemma keeps_life {A} (m : M W A) w : keeps cfg U same_life m -> world_inv cfg U w ->
  run m w (fun _ w' => world_inv cfg U w' /\ same_life w w').
Proof. intros Hm Hw. exact (Hm w Hw). Qed.

(** A batch that went through is stored. *)
Lemma run_ingest_loop_stored ls res w : Forall (content_ok U) ls -> world_inv cfg U w ->
  run (ingest_loop cfg ls res) w (fun r w' => world_inv cfg U w' /\ same_life w w' /\
    forall b, r = Ok (b, None) -> Forall (stored w') ls).
Proof.
  assert (step_rel cfg U (S := S) same_life) as HR by (by apply life_step_rel).
  intros Hls. revert res w. induction Hls as [|l ls Hl Hls IH]; intros res w Hw; cbn [ingest_loop].
  { eapply run_mono; [apply keeps_life; [|done]|intros r w' [? ?]; split_and!; [done..|constructor]].
    apply keeps_bind; [done|by apply keeps_notifyOpen|intros _; by apply keeps_ret]. }
  apply run_bind, run_poll; [apply Hw|]. intros [e|] w1 Hq1.
  { pose proof (after_quiet cfg U _ HR _ _ Hw Hq1) as [? ?]. by split_and!. }
  pose proof (after_quiet cfg U _ HR _ _ Hw Hq1) as [Hw1 Hl1]. apply run_bind, run_try.
  pose proof (run_ingestOne_inv cfg U Hsane Hnc l w1 Hw1 Hl) as Hone.
  pose proof (keeps_ingestOne cfg U Hsane Hnc _ HR l Hl w1 Hw1) as Hk.
  unfold run in Hone, Hk. unfold run at 1. destruct (ingestOne cfg l w1) as [[r|e] w2]; cbn [fst snd] in *;
    destruct Hk as [Hw2 Hl2]; pose proof (sr_trans _ _ _ HR _ _ _ Hl1 Hl2) as Hl12; [|by split_and!].
  eapply run_mono; [apply IH, Hw2|]. intros res' w3 (Hw3 & Hl3 & Hst). split_and!; [done| |].
  - by apply (sr_trans _ _ _ HR _ w2).
  - intros b Hb. constructor; [|by eapply Hst]. apply (stored_life w2 w3); [done|].
    destruct Hone as (_ & _ & Hstep). apply ingest_step_stored in Hstep. unfold stored.
    by rewrite arrive_ID in Hstep.
Qed.

(** ** What a replay stores, and what it calls *)

(** The legs stored are those stored before and [ids]. *)
Definition stores (w w' : W) (ids : list string) : Prop := forall id,
  is_Some (v_legs (vw w') !! id) <-> is_Some (v_legs (vw w) !! id) \/ id ∈ ids.

Lemma stores_same w w' : v_legs (vw w') = v_legs (vw w) -> stores w w' [].
Proof. intros Hv id. rewrite Hv. split; [by left|]. by intros [|?%not_elem_of_nil]. Qed.

Lemma stores_app w1 w2 w3 a b : stores w1 w2 a -> stores w2 w3 b -> stores w1 w3 (a ++ b).
Proof. intros Ha Hb id. rewrite (Hb id), (Ha id), elem_of_app. tauto. Qed.

Lemma ingestOne_stores l r w w1 : world_inv cfg U w -> content_ok U l -> ingestOne cfg l w = (Ok r, w1) ->
  stores w w1 [ID l].
Proof.
  intros Hw Hl E id. pose proof (run_ingestOne_inv cfg U Hsane Hnc l w Hw Hl) as Hone.
  pose proof (keeps_ingestOne cfg U Hsane Hnc _ (life_step_rel cfg U Hsane Hnc) l Hl w Hw) as Hk.
  unfold run in Hone, Hk. rewrite E in Hone, Hk. cbn [fst snd] in *. destruct Hone as (_ & _ & Hstep), Hk as [_ Hlife].
  rewrite list_elem_of_singleton. split.
  - intros Hid. rewrite <- (arrive_ID (clock cfg (ticks w)) l).
    eapply (ingest_step_only _ _ _ _ _ _ _ _ id (wi_inv _ _ _ Hw)); [|exact Hstep|done].
    apply content_arrive; [apply Hsane|done].
  - intros [[x Hx]| ->].
    + pose proof (vl_legs _ _ Hlife id) as Ho. rewrite Hx in Ho. inversion Ho; subst; by eexists.
    + apply ingest_step_stored in Hstep. by rewrite arrive_ID in Hstep.
Qed.

Lemma replayed_event_stores e w ls rs w1 : world_inv cfg U w -> event_ok U e -> replayed_event cfg e w ls rs w1 ->
  world_inv cfg U w1 /\ stores w w1 (ID <$> ls).
Proof.
  intros Hw He [l r w2 Ht Hl E|w2 Ht E|_ _].
  - pose proof (eo_arrival _ _ He Ht l Hl) as Hc. split; [|by eapply ingestOne_stores].
    pose proof (keeps_ingestOne cfg U Hsane Hnc _ (life_step_rel cfg U Hsane Hnc) l Hc w Hw) as Hk.
    unfold run in Hk. rewrite E in Hk. apply Hk.
  - pose proof (keeps_reapplyResolution cfg U _ (life_step_rel cfg U Hsane Hnc) e (eo_resolution _ _ He Ht) w Hw) as Hk.
    pose proof (run_reapplyResolution w e (eo_resolution _ _ He Ht) (wi_ok _ _ _ Hw)) as (_ & _ & Hs).
    unfold run in Hk. rewrite E in Hk, Hs. cbn [fst snd] in *. split; [apply Hk|]. apply stores_same.
    destruct Hs as [_ [->|(p & _ & _ & _ & [b evs v' _ _ _ Hap])]]; [done|by rewrite (ap_legs _ _ _ Hap)].
  - split; [done|]. by apply stores_same.
Qed.

(** A replay stores the legs it decoded, and no other. *)
Lemma replays_stores evs ls rs w w' : replays cfg evs ls rs w w' -> world_inv cfg U w -> Forall (event_ok U) evs ->
  world_inv cfg U w' /\ stores w w' (ID <$> ls).
Proof.
  induction 1 as [w|evs ls rs cursor w w' Hq _ IH|e evs ls1 ls rs1 rs w w1 w' He _ IH]; intros Hw Hevs.
  - split; [done|]. by apply stores_same.
  - destruct IH as [Hw' Hst]; [by eapply world_inv_quiet|done|]. split; [done|].
    apply (stores_app w _ w' [] _ (stores_same _ _ (f_equal v_legs (q_view _ _ Hq))) Hst).
  - apply Forall_cons in Hevs as [Hev Hevs]. destruct (replayed_event_stores _ _ _ _ _ Hw Hev He) as [Hw1 Hst1].
    destruct (IH Hw1 Hevs) as [Hw' Hst]. split; [done|]. rewrite fmap_app. by eapply stores_app.
Qed.

(** With the callbacks on, it calls the leg callback for each of them, in order. *)
Lemma told_called l r tr : told l r tr -> called tr = [ID l].
Proof. intros (l' & _ & <- & Ho). repeat case_match; naive_solver. Qed.

Lemma replays_called evs ls rs w w' : hooks cfg = metrics_hooks -> replays cfg evs ls rs w w' ->
  called (trace w') = called (trace w) ++ (ID <$> ls).
Proof.
  intros Hh. induction 1 as [w|evs ls rs cursor w w' _ _ IH|e evs ls1 ls rs1 rs w w1 w' He _ IH].
  - by rewrite app_nil_r.
  - rewrite IH. f_equal. f_equal. unfold repo. by destruct (EventsFrom _ _ _).
  - rewrite IH, fmap_app, app_assoc. f_equal. destruct He as [l r w2 _ _ E|w2 _ E|_ _]; [| |by rewrite app_nil_r].
    + destruct (tells_ingestOne cfg Hh l w) as (tr & Htr & Ht). rewrite E in Htr, Ht. cbn [fst snd] in *.
      rewrite Htr. unfold called. rewrite omap_app. f_equal. by apply (told_called l r).
    + assert (silent (S := S) (reapplyResolution e)) as Hs.
      { unfold reapplyResolution. repeat case_match; auto using silent_fail, silent_ret.
        apply silent_bind; [apply silent_try, silent_repo|]. intros. repeat case_match; auto using silent_repo, silent_ret. }
      destruct (Hs w) as (tr & Htr & ->). rewrite E in Htr. cbn [snd] in Htr. by rewrite Htr, !app_nil_r.
Qed.

Lemma called_notifyOpen (w : W) : called (trace (notifyOpen cfg w).2) = called (trace w).
Proof.
  change (called (trace (call (OnOpen (hooks cfg)) (HookOpen (Len (ix w))) w).2) = called (trace w)).
  unfold call. destruct (OnOpen (hooks cfg)); [|done]. unfold mmodify. cbn [snd trace].
  unfold called. by rewrite omap_app, app_nil_r.
Qed.

(** A replay that ends without an error, in full. *)
Record replay_done (w w' : W) (log : list Event) (out : ReplayResult) (legs : list Leg) : Prop := {
  rl_steps : exists rs w1 w2, cleared w w1 /\ replays cfg log legs rs w1 w2 /\ length rs = length legs /\
    counted zero_replay out log rs /\ vw w' = vw w2 /\ ix w' = ix w2 /\ replaying w' = false;
  rl_legs : Forall2 (fun e l => unmarshalLeg (ev_Payload e) = Ok l) (ingested log) legs;
  rl_stored id : is_Some (v_legs (vw w') !! id) <-> id ∈ ID <$> legs;
  rl_called : hooks cfg = metrics_hooks -> called (trace w') = called (trace w) ++ (ID <$> legs)
}.

Lemma run_Replay from w : world_inv cfg U w ->
  let log := filter (fun e => from <= ev_Seq e) (v_events (vw w)) in
  run (Replay cfg from) w (fun r w' => exists out oe, r = Ok (Some (out, oe)) /\
    (oe = None -> exists legs, replay_done w w' log out legs)).
Proof.
  intros Hw log. pose proof (Replay_answers cfg U Hsane Hnc from w Hw) as Ha. cbv zeta in Ha.
  eapply run_mono; [exact Ha|]. clear Ha.
  intros r w' (out & oe & -> & Ho). exists out, oe. split; [done|]. intros Hn.
  destruct (Ho Hn) as (legs & rs & w1 & w2 & Hw1 & Hcl & Hrep & Hc & Hv & Hi & Hr & Ht). exists legs.
  destruct (replays_decoded _ _ _ _ _ _ Hrep) as [Hdec Hlen].
  assert (Forall (event_ok U) log) as Hok.
  { apply Forall_forall. intros e [_ He]%list_elem_of_filter.
    pose proof (inv_log _ _ _ _ (wi_inv _ _ _ Hw)) as Hl. by eapply Forall_forall in Hl. }
  destruct (replays_stores _ _ _ _ _ Hrep Hw1 Hok) as [_ Hst].
  constructor; [by exists rs, w1, w2|done| |].
  - intros id. rewrite Hv, (Hst id). destruct (cl_view _ _ Hcl) as (marks & _ & ->). cbn [v_legs].
    rewrite lookup_empty. split; [intros [[]|]; done|by right].
  - intros Hh. rewrite Ht, called_notifyOpen, (replays_called _ _ _ _ _ Hh Hrep). by rewrite (cl_trace _ _ Hcl).
Qed.

(** What a redelivered leg leaves behind. *)
Definition redelivered (w w' : W) : Prop :=
  same_projections (vw w) (vw w') /\ ix w' = ix w /\
  appended (fun e => ev_Type e = EvLegDuplicate) (v_events (vw w)) (v_events (vw w')).

Lemma redelivered_refl w w' : quiet w w' -> redelivered w w'.
Proof.
  intros [_ Hv Hi _]. unfold redelivered, same_projections. rewrite Hv, Hi.
  split_and!; try done. apply appended_refl.
Qed.

Lemma redelivered_trans w1 w2 w3 : redelivered w1 w2 -> redelivered w2 w3 -> redelivered w1 w3.
Proof.
  intros ((A1 & A2 & A3) & A4 & A5) ((B1 & B2 & B3) & B4 & B5).
  split_and!; try congruence. { split_and!; congruence. } by eapply appended_trans.
Qed.

Lemma run_ingestOne_known l w : content_ok U l -> world_inv cfg U w -> stored w l ->
  run (ingestOne cfg l) w (fun r w' => redelivered w w' /\
    forall res, r = Ok res -> ir_Outcome res = OutcomeDuplicate).
Proof.
  intros Hl Hw Hst. eapply run_mono; [by apply (run_ingestOne_inv cfg U)|].
  intros r w' (Hok & Hrep & Hs). destruct r as [res|e].
  2:{ split; [|done]. apply redelivered_refl. destruct Hs. by constructor. }
  remember (vw w') as v' eqn:Ev. remember (ix w') as i' eqn:Ei.
  destruct Hs as [evs v' _ He Hap|pre r1 cs v' i' Hn _ _ _].
  2:{ rewrite arrive_ID in Hn. unfold stored in Hst. rewrite Hn in Hst. by destruct Hst. }
  split; [|by intros ? [= <-]]. subst v'.
  pose proof (applied_appended (fun typ => typ = EvLegDuplicate) _ _ _ Hap) as Hlog.
  destruct Hap as [Hl1 Hm1 Hb1 _]. split_and!; [done|done|].
  apply Hlog. cbn [cs_Events]. unfold arrival in He. destruct (replaying w); [by rewrite He|].
  destruct He as (j & _ & ->). by apply Forall_singleton.
Qed.

(** Every counter of a batch of duplicates. *)
Definition all_duplicates (n : Z) (res res' : BatchResult) : Prop :=
  br_Accepted res' = br_Accepted res + n /\ br_Duplicates res' = br_Duplicates res + n /\
  br_Matched res' = br_Matched res /\ br_Breaks res' = br_Breaks res /\ br_Open res' = br_Open res.

Lemma tally_duplicate r res : ir_Outcome r = OutcomeDuplicate -> all_duplicates 1 res (tally r res).
Proof. intros Hr. unfold all_duplicates, tally. cbn. rewrite Hr. cbn. by split_and!. Qed.

Lemma run_ingest_loop_known ls res w : Forall (content_ok U) ls -> world_inv cfg U w ->
  Forall (stored w) ls ->
  run (ingest_loop cfg ls res) w (fun r w' => redelivered w w' /\
    forall b, r = Ok (b, None) -> all_duplicates (Z.of_nat (length ls)) res b).
Proof.
  intros Hls. revert res w. induction Hls as [|l ls Hl Hls IH]; intros res w Hw Hst; cbn [ingest_loop].
  { apply run_bind, run_notifyOpen; [apply Hw|]. intros w' Hq. split; [by apply redelivered_refl|].
    intros b [= <-]. unfold all_duplicates. cbn. lia. }
  apply Forall_cons in Hst as [Hst0 Hst].
  apply run_bind, run_poll; [apply Hw|]. intros [e|] w1 Hq1; [by split; [apply redelivered_refl|]|].
  assert (Hw1 : world_inv cfg U w1) by (by eapply world_inv_quiet).
  assert (forall x, stored w x -> stored w1 x) as Hst1 by (intros x; unfold stored; by rewrite (q_view _ _ Hq1)).
  apply run_bind, run_try. pose proof (run_ingestOne_known l w1 Hl Hw1 (Hst1 _ Hst0)) as Hone.
  pose proof (keeps_ingestOne cfg U Hsane Hnc _ (true_step_rel cfg U) l Hl w1 Hw1) as [Hw2 _].
  unfold run in Hone. unfold run at 1. destruct (ingestOne cfg l w1) as [[r|e] w2]; cbn [fst snd] in *;
    destruct Hone as [Hd Ho]; pose proof (redelivered_trans _ _ _ (redelivered_refl _ _ Hq1) Hd) as Hd2; [|done].
  eapply run_mono; [apply (IH (tally r res) w2 Hw2)|].
  - eapply Forall_impl; [exact Hst|]. intros x Hx. destruct Hd2 as ((Hl2 & _) & _). unfold stored. by rewrite Hl2.
  - intros r3 w3 [Hd3 Hb]. split; [by eapply redelivered_trans|]. intros b Hb'. specialize (Hb b Hb').
    destruct (tally_duplicate r res (Ho r eq_refl)) as (T1 & T2 & T3 & T4 & T5).
    destruct Hb as (B1 & B2 & B3 & B4 & B5). cbn [length]. unfold all_duplicates. lia.
Qed.

Lemma validate_batch_length i ls ls' : validate_batch i ls = (ls', None) -> length ls' = length ls.
Proof.
  revert i ls'. induction ls as [|l ls IH]; intros i ls'; cbn [validate_batch]; [by intros [= <-]|].
  destruct (Validate l) as [l1 [u|e]]; [|done]. destruct (validate_batch (i + 1) ls) as [ls1 err] eqn:E.
  intros [= <- ->]. cbn. f_equal. by eapply IH.
Qed.

Lemma Ingest_stored ls w : Forall (leg_in_scope U) ls -> world_inv cfg U w ->
  run (Ingest cfg ls) w (fun r w' => world_inv cfg U w' /\
    forall b ls', r = Ok (b, None) -> validate_batch 0 ls = (ls', None) -> Forall (stored w') ls').
Proof.
  intros Hls Hw. unfold Ingest. destruct (validate_batch 0 ls) as [ls' [e|]] eqn:E; [done|].
  eapply run_mono; [apply run_ingest_loop_stored; [by eapply validate_batch_content|done]|].
  intros r w' (Hw' & _ & Hst). split; [done|]. intros b ls2 Hr [= <-]. by eapply Hst.
Qed.

(** The second delivery of a batch. *)
Lemma run_Ingest_again ls w : Forall (leg_in_scope U) ls -> world_inv cfg U w ->
  run (Ingest cfg ls) w (fun r w1 => forall b, r = Ok (b, None) ->
    run (Ingest cfg ls) w1 (fun r2 w2 => redelivered w1 w2 /\
      forall b2, r2 = Ok (b2, None) -> all_duplicates (Z.of_nat (length ls)) zero_batch b2)).
Proof.
  intros Hls Hw. eapply run_mono; [by apply Ingest_stored|]. intros r w1 [Hw1 Hst] b Hr. subst r.
  unfold Ingest. destruct (validate_batch 0 ls) as [ls' [e|]] eqn:E.
  { split; [|done]. apply redelivered_refl. by constructor; [apply Hw1|..]. }
  rewrite <- (validate_batch_length _ _ _ E).
  apply run_ingest_loop_known; [by eapply validate_batch_content|done|by apply (Hst b)].
Qed.

(** ** Refused batches *)

Definition valid (l : Leg) : Prop := (Validate l).2 = Ok tt.

Lemma validate_batch_refuses i ls : Exists (fun l => ~ valid l) ls ->
  exists ls' e, validate_batch i ls = (ls', Some e) /\ errors_Is e ErrInvalidLeg = true.
Proof.
  intros Hex. revert i. induction ls as [|l ls IH]; intros i; [by inversion Hex|]. cbn [validate_batch].
  destruct (Validate l) as [l1 [[]|e]] eqn:E.
  - apply Exists_cons in Hex as [Hbad|Hex]; [unfold valid in Hbad; by rewrite E in Hbad|].
    destruct (IH Hex (i + 1)) as (ls' & e & -> & He). by eexists _, e.
  - eexists _, _. split; [reflexivity|]. cbn. by eapply Validate_error.
Qed.

(** ** Expiry *)

(** What expiring the legs [ls] does, all of them being open. *)
Record expired_all (w w' : W) (ls : list Leg) : Prop := {
  ea_index id : byID (ix w') !! id = if decide (id ∈ ID <$> ls) then None else byID (ix w) !! id;
  ea_broken l : l ∈ ls -> exists bid, v_legs (vw w') !! ID l = Some (broken bid l);
  ea_others id : id ∉ ID <$> ls -> v_legs (vw w') !! id = v_legs (vw w) !! id;
  ea_ttl : ttl (ix w') = ttl (ix w)
}.

Lemma expired_none w w' : quiet w w' -> expired_all w w' [].
Proof.
  intros [_ Hv Hi _]. constructor; rewrite ?Hv, ?Hi; try done. by intros l ?%not_elem_of_nil.
Qed.

Lemma expire_step_one v i t l v' i' : expire_step cfg v i t l v' i' ->
  i' = ix_Remove i [ID l] /\
  exists bid, v_legs v' = <[ID l := broken bid l]> (v_legs v).
Proof. intros [related forced j v1 _ _ _ Hap]. split; [done|]. eexists. by rewrite (ap_legs _ _ _ Hap). Qed.

Lemma expired_step w w1 w2 t l ls : expire_step cfg (vw w) (ix w) t l (vw w1) (ix w1) ->
  ID l ∉ ID <$> ls -> expired_all w1 w2 ls -> expired_all w w2 (l :: ls).
Proof.
  intros (Hi & bid & Hv)%expire_step_one Hnin [E1 E2 E3 E4]. constructor.
  - intros id. rewrite E1, Hi, ix_Remove_lookup. cbn [fmap list_fmap].
    destruct (decide (id ∈ ID <$> ls)) as [Hin|Hin].
    + by rewrite decide_True by (by right).
    + destruct (decide (id ∈ [ID l])) as [->%list_elem_of_singleton|Hne].
      * by rewrite decide_True by left.
      * rewrite decide_False; [done|]. intros [->|?]%elem_of_cons; [|done]. apply Hne. left.
  - intros x [->|Hx]%elem_of_cons; [|by apply E2]. exists bid. rewrite E3 by done.
    by rewrite Hv, lookup_insert_eq.
  - intros id [Hne Hid]%not_elem_of_cons. by rewrite E3, Hv, lookup_insert_ne by done.
  - by rewrite E4, Hi, ix_Remove_ttl.
Qed.

Lemma expired_quiet w w1 w2 ls : quiet w w1 -> expired_all w1 w2 ls -> expired_all w w2 ls.
Proof.
  intros [_ Hv Hi _] [E1 E2 E3 E4]. constructor; try done.
  - intros id. by rewrite E1, Hi.
  - intros id Hid. by rewrite E3, Hv.
  - by rewrite E4, Hi.
Qed.

Lemma expired_same w w1 w2 ls : v_legs (vw w2) = v_legs (vw w1) -> ix w2 = ix w1 ->
  expired_all w w1 ls -> expired_all w w2 ls.
Proof. intros Hv Hi [E1 E2 E3 E4]. constructor; rewrite ?Hi, ?Hv; done. Qed.

Lemma run_close_event t count older w ls w0 : exact_time t -> repo_ok (store w) -> expired_all w0 w ls ->
  run (close_event t count older) w (fun r w' => repo_ok (store w') /\ expired_all w0 w' ls).
Proof.
  intros Ht Hok Hall. unfold close_event. apply run_bind, run_lift. rewrite (addEvent_only _ _ _ _ []).
  cbn [app]. apply run_Apply; [done|apply (cs_ok_events _ _ t); [done|by apply Forall_singleton]| |].
  - intros e w' [Hok' Hv Hi _]. split; [done|]. by eapply expired_same; [by rewrite Hv|..].
  - intros w' Hok' Hap Hi _. split; [done|]. eapply expired_same; [apply (ap_legs _ _ _ Hap)|done|done].
Qed.

Lemma run_expire_loop_all t forced ls count w : exact_time t -> world_inv cfg U w ->
  NoDup (ID <$> ls) -> (forall l, l ∈ ls -> byID (ix w) !! ID l = Some l) ->
  run (expire_loop cfg t forced ls count) w (fun r w' => forall n, r = Ok (n, None) ->
    world_inv cfg U w' /\ n = count + Z.of_nat (length ls) /\ expired_all w w' ls).
Proof.
  intros Ht. revert w count. induction ls as [|l ls IH]; intros w count Hw Hnd Hop; cbn [expire_loop].
  { intros n [= <-]. split_and!; [done|cbn; lia|]. by apply expired_none, quiet_refl, Hw. }
  apply NoDup_cons in Hnd as [Hnin Hnd].
  apply run_bind, run_poll; [apply Hw|]. intros [e|] w1 Hq1; [done|].
  assert (Hw1 : world_inv cfg U w1) by (by eapply world_inv_quiet).
  apply run_bind, run_try. eapply run_mono.
  { apply run_expire_one; [done|apply Hw1|by apply (world_inv_open cfg U Hnc)| |].
    - intros id x. eapply inv_sub, Hw1.
    - intros x. rewrite (q_ix _ _ Hq1), Hop by left. congruence. }
  intros [b|e] w2 Hs; [|done]. destruct Hs as (Hok2 & Hrep2 & Hs).
  destruct b; [|destruct Hs as (_ & _ & Hs); by rewrite (q_ix _ _ Hq1), Hop in Hs by left].
  assert (world_inv cfg U w2) as Hw2.
  { constructor; [done|]. eapply (expire_step_inv (rules cfg) U _ _ (wi_inv _ _ _ Hw1) Hnc cfg); [exact Hs|].
    by apply view_is_wf. }
  destruct (expire_step_one _ _ _ _ _ _ Hs) as [Hi2 _].
  eapply run_mono; [apply (IH w2 (count + 1) Hw2 Hnd)|].
  - intros x Hx. rewrite Hi2, ix_Remove_lookup, (q_ix _ _ Hq1), decide_False, Hop; [done|by right|].
    intros Heq%list_elem_of_singleton. apply Hnin. rewrite <- Heq. apply list_elem_of_fmap. by exists x.
  - intros r w3 Hr n Hn. destruct (Hr n Hn) as (Hw3 & -> & Hall). split_and!; [done|cbn; lia|].
    eapply expired_quiet; [exact Hq1|]. by eapply expired_step.
Qed.

(** A sweep that ends without an error has expired exactly the legs it set
    out to expire. *)
Lemma run_expire_all older forced w : world_inv cfg U w ->
  let out := Expired (ix w) (clock cfg (ticks w)) older in
  run (expire cfg older forced) w (fun r w' => forall n, r = Ok (n, None) ->
    n = Z.of_nat (length out) /\ expired_all w w' out).
Proof.
  intros Hw out. pose proof (inv_ix _ _ _ _ (wi_inv _ _ _ Hw)) as Hix.
  assert (forall l, l ∈ out -> byID (ix w) !! ID l = Some l) as Hopen.
  { intros l [Hl _]%elem_of_Expired; done. }
  assert (NoDup (ID <$> out)) as Hnd.
  { apply (open_NoDup (ix w)); [done|]. apply collect_NoDup, (wf_keyed _ Hix). }
  unfold expire. apply run_bind, run_now; [apply Hw|]. intros w1 Hq1.
  assert (Hw1 : world_inv cfg U w1) by (by eapply world_inv_quiet).
  apply run_bind, run_get. rewrite (q_ix _ _ Hq1). fold out. destruct out as [|l0 ls0] eqn:E.
  { intros n [= <-]. split; [done|]. by apply expired_none. }
  rewrite <- E in *. clear l0 ls0 E. apply run_bind. eapply run_mono.
  { apply (run_expire_loop_all (clock cfg (ticks w)) forced out 0 w1 (sc_clock _ Hsane _) Hw1 Hnd).
    intros l Hl. rewrite (q_ix _ _ Hq1). by apply Hopen. }
  intros [[count [e|]]|e] w2 Hall; [done| |done].
  destruct (Hall count eq_refl) as (Hw2 & -> & Hex).
  apply (expired_quiet w w1) in Hex; [|done]. clear Hall. apply run_bind, run_try.
  assert (forall w3, repo_ok (store w3) -> expired_all w w3 out ->
    run (notifyOpen cfg ;;! mret (0 + Z.of_nat (length out), None : option error))%recon w3 (fun r w' =>
      forall n, r = Ok (n, None) -> n = Z.of_nat (length out) /\ expired_all w w' out)) as Hend.
  { intros w3 Hok3 Hex3. apply run_bind, run_notifyOpen; [done|]. intros w4 [_ Hv4 Hi4 _].
    intros n [= <-]. split; [lia|]. eapply expired_same; [| |exact Hex3]; cbn [mret snd]; congruence. }
  destruct forced; [|by apply Hend; [apply Hw2|]].
  eapply run_mono; [apply run_close_event; [apply Hsane|apply Hw2|exact Hex]|].
  intros [[]|e] w3 [Hok3 Hex3]; [by apply Hend|done].
Qed.
End Facts.
