(* ===== verification/ReplaySim.v ===== *)
(** * Replays reproduce

    Two runs of the engine over the in-memory store, side by side: one ingests
    legs as they arrive, the other replays them from the log, under its own
    clock. A relational weakest precondition relates the two; the relation kept
    is that they agree on everything but the times of their decisions. *)

From S2P Require Export EngineReplay MemoryStore.

Local Open Scope recon_scope.

(** ** Two computations side by side *)

(** Both succeed, and their values and states are related. *)
Definition both {S1 S2 A1 A2} (m1 : M S1 A1) (m2 : M S2 A2) (s1 : S1) (s2 : S2)
    (Q : A1 -> A2 -> S1 -> S2 -> Prop) : Prop :=
  exists a1 a2, (m1 s1).1 = Ok a1 /\ (m2 s2).1 = Ok a2 /\ Q a1 a2 (m1 s1).2 (m2 s2).2.

Section Both.
Context {S1 S2 : Type}.

Lemma both_ret {A1 A2} (a1 : A1) (a2 : A2) (s1 : S1) (s2 : S2) Q :
  Q a1 a2 s1 s2 -> both (mret a1) (mret a2) s1 s2 Q.
Proof. intros HQ. exists a1, a2. by split_and!. Qed.

Lemma both_bind {A1 A2 B1 B2} (m1 : M S1 A1) (m2 : M S2 A2) (k1 : A1 -> M S1 B1) (k2 : A2 -> M S2 B2) s1 s2 Q :
  both m1 m2 s1 s2 (fun a1 a2 s1' s2' => both (k1 a1) (k2 a2) s1' s2' Q) ->
  both (mbind m1 k1) (mbind m2 k2) s1 s2 Q.
Proof.
  intros (a1 & a2 & H1' & H2' & HQ). unfold both, mbind. destruct (m1 s1) as [r1 s1'], (m2 s2) as [r2 s2'].
  cbn in *. by subst r1 r2.
Qed.

Lemma both_mono {A1 A2} (m1 : M S1 A1) (m2 : M S2 A2) s1 s2 (Q Q' : A1 -> A2 -> S1 -> S2 -> Prop) :
  both m1 m2 s1 s2 Q -> (forall a1 a2 s1' s2', Q a1 a2 s1' s2' -> Q' a1 a2 s1' s2') -> both m1 m2 s1 s2 Q'.
Proof. intros (a1 & a2 & H1' & H2' & HQ) HQQ. exists a1, a2. auto. Qed.

Lemma both_get (s1 : S1) (s2 : S2) Q : Q s1 s2 s1 s2 -> both mget mget s1 s2 Q.
Proof. intros HQ. by exists s1, s2. Qed.

Lemma both_modify (f1 : S1 -> S1) (f2 : S2 -> S2) s1 s2 Q :
  Q tt tt (f1 s1) (f2 s2) -> both (mmodify f1) (mmodify f2) s1 s2 Q.
Proof. intros HQ. by exists tt, tt. Qed.

Lemma both_wrap {A1 A2} p1 p2 (m1 : M S1 A1) (m2 : M S2 A2) s1 s2 Q :
  both m1 m2 s1 s2 Q -> both (mwrap p1 m1) (mwrap p2 m2) s1 s2 Q.
Proof.
  intros (a1 & a2 & H1' & H2' & HQ). unfold both, mwrap. destruct (m1 s1) as [r1 s1'], (m2 s2) as [r2 s2'].
  cbn in *. subst r1 r2. eauto.
Qed.

Lemma both_try {A1 A2} (m1 : M S1 A1) (m2 : M S2 A2) s1 s2 Q :
  both m1 m2 s1 s2 (fun a1 a2 => Q (Ok a1) (Ok a2)) -> both (mtry m1) (mtry m2) s1 s2 Q.
Proof.
  intros (a1 & a2 & H1' & H2' & HQ). unfold both, mtry. destruct (m1 s1) as [r1 s1'], (m2 s2) as [r2 s2'].
  cbn in *. subst r1 r2. eauto.
Qed.
End Both.

(** One step of the two computations. *)
Ltac both_step :=
  cbv beta iota zeta;
  lazymatch goal with
  | |- both (mbind _ _) (mbind _ _) _ _ _ => apply both_bind; both_step
  | |- both (mret _) (mret _) _ _ _ => apply both_ret
  | |- both mget mget _ _ _ => apply both_get
  | |- both (mmodify _) (mmodify _) _ _ _ => apply both_modify
  | |- both (mwrap _ _) (mwrap _ _) _ _ _ => apply both_wrap
  | |- both (mtry _) (mtry _) _ _ _ => apply both_try
  | |- _ => idtac
  end; cbv beta iota zeta.

(** ** Agreement up to the times of decisions *)

Definition match_shape (m : Match) : Match := set_MatchedAt 0 m.
Definition break_shape (b : Break) : Break :=
  mkBreak (b_ID b) (b_LegIDs b) (b_Currency b) (b_Counterparty b) (b_Category b) (b_Confidence b)
    (b_ClassifierID b) (b_Trigger b) (b_Status b) 0 ((fun _ => 0) <$> b_ResolvedAt b) (b_Reason b)
    (b_Actor b) (b_AgeSeconds b).

Definition same_match (m m' : Match) : Prop := match_shape m = match_shape m'.
Definition same_break (b b' : Break) : Prop := break_shape b = break_shape b'.

Record same_state (s1 s2 : Store) : Prop := {
  ss_legs : legs s1 = legs s2;
  ss_refs : byTxnRef s1 = byTxnRef s2;
  ss_matches : match_shape <$> matches s1 = match_shape <$> matches s2;
  ss_breaks : break_shape <$> breaks s1 = break_shape <$> breaks s2
}.

Record same_changes (c1 c2 : ChangeSet) : Prop := {
  sc_legs : cs_Legs c1 = cs_Legs c2;
  sc_matches : Forall2 same_match (cs_Matches c1) (cs_Matches c2);
  sc_breaks : Forall2 same_break (cs_Breaks c1) (cs_Breaks c2)
}.

Lemma m_ID_shape m m' : same_match m m' -> m_ID m = m_ID m'.
Proof. intros Heq. exact (f_equal m_ID Heq). Qed.
Lemma b_ID_shape b b' : same_break b b' -> b_ID b = b_ID b'.
Proof. intros Heq. exact (f_equal b_ID Heq). Qed.

(** What applying a change set does to each part of the store. *)
Lemma apply_parts cs s : let s' := (mem_Apply cs s).2 in
  legs s' = legs (foldl apply_leg s (cs_Legs cs)) /\
  byTxnRef s' = byTxnRef (foldl apply_leg s (cs_Legs cs)) /\
  matches s' = foldl (fun m x => <[m_ID x := x]> m) (matches s) (cs_Matches cs) /\
  breaks s' = foldl (fun m x => <[b_ID x := x]> m) (breaks s) (cs_Breaks cs) /\
  events s' = foldl (fun evs e => evs ++ [set_Seq (Z.of_nat (length evs) + 1) e]) (events s) (cs_Events cs).
Proof.
  cbv zeta. unfold mem_Apply. cbn [snd]. destruct cs as [ls ms bs es]. cbn [cs_Legs cs_Matches cs_Breaks cs_Events].
  assert (forall xs s, let s' := foldl apply_event s xs in
    legs s' = legs s /\ byTxnRef s' = byTxnRef s /\ matches s' = matches s /\ breaks s' = breaks s /\
    events s' = foldl (fun evs e => evs ++ [set_Seq (Z.of_nat (length evs) + 1) e]) (events s) xs) as He.
  { induction xs as [|e xs IH]; intros s0; [by repeat split|]. exact (IH (apply_event s0 e)). }
  assert (forall xs s, let s' := foldl apply_break s xs in
    legs s' = legs s /\ byTxnRef s' = byTxnRef s /\ matches s' = matches s /\ events s' = events s /\
    breaks s' = foldl (fun m x => <[b_ID x := x]> m) (breaks s) xs) as Hb.
  { induction xs as [|b xs IH]; intros s0; [by repeat split|]. exact (IH (apply_break s0 b)). }
  assert (forall xs s, let s' := foldl apply_match s xs in
    legs s' = legs s /\ byTxnRef s' = byTxnRef s /\ breaks s' = breaks s /\ events s' = events s /\
    matches s' = foldl (fun m x => <[m_ID x := x]> m) (matches s) xs) as Hm.
  { induction xs as [|m xs IH]; intros s0; [by repeat split|]. exact (IH (apply_match s0 m)). }
  assert (forall xs s, let s' := foldl apply_leg s xs in
    matches s' = matches s /\ breaks s' = breaks s /\ events s' = events s) as Hl.
  { induction xs as [|l xs IH]; intros s0; [by repeat split|]. exact (IH (apply_leg s0 l)). }
  cbv zeta in *. destruct (He es (foldl apply_break (foldl apply_match (foldl apply_leg s ls) ms) bs)) as (-> & -> & -> & -> & ->).
  destruct (Hb bs (foldl apply_match (foldl apply_leg s ls) ms)) as (-> & -> & -> & -> & ->).
  destruct (Hm ms (foldl apply_leg s ls)) as (-> & -> & -> & -> & ->).
  by destruct (Hl ls s) as (-> & -> & ->).
Qed.

Lemma apply_legs_same ls s1 s2 : legs s1 = legs s2 -> byTxnRef s1 = byTxnRef s2 ->
  legs (foldl apply_leg s1 ls) = legs (foldl apply_leg s2 ls) /\
  byTxnRef (foldl apply_leg s1 ls) = byTxnRef (foldl apply_leg s2 ls).
Proof.
  revert s1 s2. induction ls as [|l ls IH]; intros s1 s2 Hl Hr; [done|].
  apply IH; cbn; by rewrite ?Hl, ?Hr.
Qed.

(** Inserting values of the same shape under the same keys. *)
Lemma insert_all_same {A} (key : A -> string) (shape : A -> A) xs ys (m1 m2 : gmap string A) :
  Forall2 (fun x y => shape x = shape y) xs ys -> (forall x y, shape x = shape y -> key x = key y) ->
  shape <$> m1 = shape <$> m2 ->
  shape <$> foldl (fun m x => <[key x := x]> m) m1 xs = shape <$> foldl (fun m x => <[key x := x]> m) m2 ys.
Proof.
  intros Hxy Hk. revert m1 m2. induction Hxy as [|x y xs ys Hs _ IH]; intros m1 m2 Hm; [done|].
  cbn [foldl]. apply IH. by rewrite !fmap_insert, Hm, Hs, (Hk x y Hs).
Qed.

Lemma Apply_same c1 c2 s1 s2 : same_changes c1 c2 -> same_state s1 s2 ->
  same_state (mem_Apply c1 s1).2 (mem_Apply c2 s2).2.
Proof.
  intros [Hcl Hcm Hcb] [Hl Hr Hm Hb].
  destruct (apply_parts c1 s1) as (E1 & E2 & E3 & E4 & _), (apply_parts c2 s2) as (F1 & F2 & F3 & F4 & _).
  destruct (apply_legs_same (cs_Legs c1) s1 s2 Hl Hr) as [Hl' Hr'].
  constructor; rewrite ?E1, ?E2, ?E3, ?E4, ?F1, ?F2, ?F3, ?F4, <- ?Hcl; [done|done|..].
  - by apply (insert_all_same m_ID); [|apply m_ID_shape|].
  - by apply (insert_all_same b_ID); [|apply b_ID_shape|].
Qed.

(** The log after a change set: its events, numbered. *)
Lemma Apply_events cs s : exists new, events (mem_Apply cs s).2 = events s ++ new /\ stamped (cs_Events cs) new.
Proof.
  destruct (apply_parts cs s) as (_ & _ & _ & _ & ->). generalize (events s) as evs.
  induction (cs_Events cs) as [|e es IH]; intros evs; cbn [foldl].
  { exists []. split; [by rewrite app_nil_r|constructor]. }
  destruct (IH (evs ++ [set_Seq (Z.of_nat (length evs) + 1) e])) as (new & -> & Hst).
  eexists. split; [by rewrite <- app_assoc|]. by constructor.
Qed.

(** ** The two engines *)

(** A clock reading that JSON can show, and that is not the zero time. *)
Definition good_time (t : Time) : Prop := year_ok t = true /\ IsZero t = false.

(** A log entry that a replay passes over. *)
Definition passive (e : Event) : Prop :=
  ev_Type e <> EvLegIngested /\
  (ev_Type e = EvBreakResolved -> exists p, dec_resolution (ev_Payload e) = Ok p /\ rp_MatchID p <> "").

Lemma passive_other typ t agg j : typ <> EvLegIngested -> typ <> EvBreakResolved -> passive (event typ t agg j).
Proof. by split. Qed.

Definition named_break (b : Break) : Prop :=
  b_ID b <> "" /\ ValidString (b_ID b) = true /\ (b_Status b = BreakOpen \/ b_Status b = BreakResolved).
Definition named (s : Store) : Prop := forall id b, breaks s !! id = Some b -> b_ID b = id /\ named_break b.

Lemma named_Apply cs s : Forall named_break (cs_Breaks cs) -> named s -> named (mem_Apply cs s).2.
Proof.
  intros Hbs Hs id b. destruct (apply_parts cs s) as (_ & _ & _ & -> & _). unfold named in Hs.
  revert Hs. generalize (breaks s) as m. induction Hbs as [|x bs Hx _ IH]; intros m Hm; [by apply Hm|].
  cbn [foldl]. apply IH. intros id' b'. rewrite lookup_insert_Some. intros [[<- <-]|[_ Hb']]; [done|by apply Hm].
Qed.

Section Engines.
Context `{Sha256} `{BreakClassifier} (cfg1 cfg2 : Config).
Context (Hrules : rules cfg1 = rules cfg2).
Context (Hclock1 : forall n, good_time (clock cfg1 n)) (Hclock2 : forall n, good_time (clock cfg2 n)).
(** The window of both. *)
Context (T : Duration).

Abbreviation W := (World Store).

(** The live engine and the replaying one agree. *)
Record sim (w1 w2 : W) : Prop := {
  sim_state : same_state (store w1) (store w2);
  sim_ix : ix w1 = ix w2;
  sim_ttl : ttl (ix w1) = T;
  sim_live : replaying w1 = false;
  sim_replaying : replaying w2 = true;
  sim_named : named (store w1)
}.

Definition log (w : W) : list Event := events (store w).

(** What the live engine logged: [pre], then entries a replay passes over. *)
Definition emits (pre : list Event) (w w' : W) : Prop :=
  exists new rest, log w' = log w ++ new ++ rest /\ stamped pre new /\ Forall passive rest.

Definition agree {A} (pre : list Event) (w1 : W) (a1 a2 : A) (w1' w2' : W) : Prop :=
  a1 = a2 /\ sim w1' w2' /\ emits pre w1 w1'.

Lemma stamped_passive evs new : Forall passive evs -> stamped evs new -> Forall passive new.
Proof. intros He Hs. induction Hs as [|e e' evs new -> _ IH]; [done|]. apply Forall_cons in He as [He ?]. by constructor; [apply He|apply IH]. Qed.

Lemma emits_log pre evs w w' new : log w' = log w ++ new -> stamped (pre ++ evs) new -> Forall passive evs ->
  emits pre w w'.
Proof.
  intros Hw (n1 & n2 & H1' & H2' & ->)%Forall2_app_inv_l He.
  exists n1, n2. split_and!; [done|done|by eapply stamped_passive].
Qed.

Lemma emits_nothing w w' : log w' = log w -> emits [] w w'.
Proof. intros Hw. exists [], []. rewrite Hw, app_nil_r. by split_and!; [|constructor|]. Qed.

Lemma emits_same pre w w1 w2 : log w2 = log w1 -> emits pre w w1 -> emits pre w w2.
Proof. unfold emits. by intros ->. Qed.

(** *** Primitive steps *)

Lemma both_repo {A1 A2} (m1 : M Store A1) (m2 : M Store A2) (w1 w2 : W) Q :
  both m1 m2 (store w1) (store w2) (fun a1 a2 s1 s2 =>
    Q a1 a2 (mkWorld s1 (ix w1) (replaying w1) (ticks w1) (polls w1) (trace w1))
            (mkWorld s2 (ix w2) (replaying w2) (ticks w2) (polls w2) (trace w2))) ->
  both (repo m1) (repo m2) w1 w2 Q.
Proof.
  intros (a1 & a2 & H1' & H2' & HQ). unfold both, repo.
  destruct (m1 (store w1)) as [r1 s1], (m2 (store w2)) as [r2 s2]. cbn in *. subst r1 r2. eauto.
Qed.

Lemma both_Apply c1 c2 w1 w2 (Q : unit -> unit -> W -> W -> Prop) : sim w1 w2 -> same_changes c1 c2 ->
  Forall named_break (cs_Breaks c1) ->
  (forall w1' w2' new, sim w1' w2' -> ix w1' = ix w1 -> log w1' = log w1 ++ new -> stamped (cs_Events c1) new ->
     Q tt tt w1' w2') ->
  both (repo (Apply c1)) (repo (Apply c2)) w1 w2 Q.
Proof.
  intros [Hs Hi Ht Hl Hr Hn] Hc Hb HQ. apply both_repo. exists tt, tt. split_and!; [done..|].
  destruct (Apply_events c1 (store w1)) as (new & He & Hst).
  eapply HQ; [|done|exact He|exact Hst]. constructor; cbn [store ix replaying]; [|done..|].
  - by apply Apply_same.
  - by apply named_Apply.
Qed.

Lemma both_call b1 b2 h1 h2 w1 w2 (Q : unit -> unit -> W -> W -> Prop) : sim w1 w2 ->
  (forall w1' w2', sim w1' w2' -> log w1' = log w1 -> Q tt tt w1' w2') ->
  both (call b1 h1) (call b2 h2) w1 w2 Q.
Proof. intros [] HQ. apply both_modify, HQ; [by constructor|done]. Qed.

Lemma both_set_ix i w1 w2 (Q : unit -> unit -> W -> W -> Prop) : sim w1 w2 -> ttl i = T ->
  (forall w1' w2', sim w1' w2' -> log w1' = log w1 -> Q tt tt w1' w2') ->
  both (set_ix i) (set_ix i) w1 w2 Q.
Proof. intros [] Ht HQ. apply both_modify, HQ; [by constructor|done]. Qed.

Lemma both_now w1 w2 (Q : Time -> Time -> W -> W -> Prop) : sim w1 w2 ->
  (forall w1' w2', sim w1' w2' -> store w1' = store w1 ->
     Q (clock cfg1 (ticks w1)) (clock cfg2 (ticks w2)) w1' w2') ->
  both (now cfg1) (now cfg2) w1 w2 Q.
Proof.
  intros [] HQ. exists (clock cfg1 (ticks w1)), (clock cfg2 (ticks w2)). split_and!; [done..|].
  apply HQ; [by constructor|done].
Qed.

Lemma both_lift {A1 A2} (r1 : result A1) (r2 : result A2) a1 a2 (w1 w2 : W) Q :
  r1 = Ok a1 -> r2 = Ok a2 -> Q a1 a2 w1 w2 -> both (lift r1) (lift r2) w1 w2 Q.
Proof. intros -> -> HQ. by exists a1, a2. Qed.

Lemma both_lift_ret {A} (r1 : result A) a1 (a2 : A) (w1 w2 : W) Q :
  r1 = Ok a1 -> Q a1 a2 w1 w2 -> both (lift r1) (mret a2) w1 w2 Q.
Proof. intros -> HQ. by exists a1, a2. Qed.

(** A read of the legs, by both engines. *)
Lemma both_read {A} (m : M Store A) (w1 w2 : W) (Q : A -> A -> W -> W -> Prop) : sim w1 w2 ->
  (forall s1 s2, same_state s1 s2 -> exists a, m s1 = (Ok a, s1) /\ m s2 = (Ok a, s2)) ->
  (forall a w1' w2', sim w1' w2' -> log w1' = log w1 -> ix w1' = ix w1 -> replaying w1' = replaying w1 ->
     replaying w2' = replaying w2 -> m (store w1) = (Ok a, store w1) -> Q a a w1' w2') ->
  both (repo m) (repo m) w1 w2 Q.
Proof.
  intros [] Hm HQ. destruct (Hm (store w1) (store w2)) as (a & E1 & E2); [done|].
  apply both_repo. exists a, a. rewrite E1, E2. cbn. split_and!; [done..|]. by apply HQ.
Qed.

Lemma HasLeg_read id s1 s2 : same_state s1 s2 -> exists b, HasLeg id s1 = (Ok b, s1) /\ HasLeg id s2 = (Ok b, s2).
Proof. intros [Hl _ _ _]. cbn. unfold mem_HasLeg. rewrite Hl. eauto. Qed.

Lemma LegsByTxnRef_read ref s1 s2 : same_state s1 s2 ->
  exists ls, LegsByTxnRef ref s1 = (Ok ls, s1) /\ LegsByTxnRef ref s2 = (Ok ls, s2).
Proof. intros [Hl Hr _ _]. cbn. unfold mem_LegsByTxnRef. rewrite Hl, Hr. eauto. Qed.

Lemma exists_ref_read a b s1 s2 : same_state s1 s2 ->
  exists x, exists_ref a b s1 = (Ok x, s1) /\ exists_ref a b s2 = (Ok x, s2).
Proof.
  intros Hs. destruct (LegsByTxnRef_read a s1 s2 Hs) as (ls & E1 & E2). unfold exists_ref. rewrite E1, E2. eauto.
Qed.

Lemma find_read r l i s1 s2 : same_state s1 s2 ->
  exists o, find r l i (Some exists_ref) s1 = (Ok o, s1) /\ find r l i (Some exists_ref) s2 = (Ok o, s2).
Proof.
  intros Hs. unfold find. destruct (tier1 _ _); [by eauto|]. destruct (tier2Ref _ _ _); [by eauto|]. cbv zeta.
  assert (exists o, tier2AmountDate r l (inWindow r l (Candidates i l)) i (Some exists_ref) s1 = (Ok o, s1) /\
    tier2AmountDate r l (inWindow r l (Candidates i l)) i (Some exists_ref) s2 = (Ok o, s2)) as (o & E1 & E2).
  { unfold tier2AmountDate. destruct (filterLegs _ _) as [|c [|]]; [by eauto| |by eauto].
    destruct (existsb _ _); [by eauto|]. unfold mbind.
    destruct (exists_ref_read (TxnRef c) (Source l) s1 s2 Hs) as (b1 & -> & ->). destruct b1; [by eauto|].
    destruct (exists_ref_read (TxnRef l) (Source c) s1 s2 Hs) as (b2 & -> & ->). destruct b2; by eauto. }
  unfold mbind. rewrite E1, E2. destruct o; by eauto.
Qed.

(** *** The branches of an ingested leg *)

Abbreviation only pre := (mkChangeSet [] [] [] pre).

Lemma DeriveID_ne p ids : p <> "" -> DeriveID p ids <> "".
Proof. intros Hp. unfold DeriveID. by destruct p. Qed.

Lemma marshal_time_good t : good_time t -> exists j, marshal_time t = Ok j.
Proof. intros [Hy _]. unfold marshal_time. rewrite Hy. eauto. Qed.

Lemma marshal_new_break cfg t trigger related ls : good_time t ->
  exists j, marshal_break (break_of cfg t trigger related ls) = Ok j.
Proof.
  intros (j & E)%marshal_time_good. unfold marshal_break. cbn [break_of b_OpenedAt b_ResolvedAt]. rewrite E.
  cbn [res_bind]. eauto.
Qed.

Lemma marshal_new_match t m : good_time t -> exists j, marshal_match (set_MatchedAt t m) = Ok j.
Proof.
  intros (j & E)%marshal_time_good. unfold marshal_match. cbn [set_MatchedAt m_MatchedAt]. rewrite E. eauto.
Qed.

Lemma marshal_new_resolution b r a t m : good_time t -> exists j, marshal_resolution (mkResolutionPayload b r a t m) = Ok j.
Proof. intros (j & E)%marshal_time_good. unfold marshal_resolution. cbn [rp_At]. rewrite E. eauto. Qed.

(** Two breaks of the same legs. *)
Lemma same_new_break t1 t2 trigger related ls :
  same_break (break_of cfg1 t1 trigger related ls) (break_of cfg2 t2 trigger related ls).
Proof. unfold same_break, break_shape, break_of. cbn. by rewrite Hrules. Qed.

Lemma named_new_break cfg t trigger related ls : named_break (break_of cfg t trigger related ls).
Proof. split_and!; [by apply DeriveID_ne|by apply DeriveID_valid; repeat constructor|by left]. Qed.

(** Both engines open a break, apply it, and go on. *)
Lemma both_open_break pre t1 t2 trigger related ls w1 w2 {A} (k1 k2 : ChangeSet * Break -> M W A) Q :
  sim w1 w2 -> good_time t1 -> good_time t2 ->
  (forall j1 j2, both (k1 (open_break cfg1 t1 trigger related ls pre j1, break_of cfg1 t1 trigger related ls))
                      (k2 (open_break cfg2 t2 trigger related ls [] j2, break_of cfg2 t2 trigger related ls)) w1 w2 Q) ->
  both (let! cb := lift (openBreak cfg1 (only pre) t1 trigger related ls) in k1 cb)
       (let! cb := lift (openBreak cfg2 (only []) t2 trigger related ls) in k2 cb) w1 w2 Q.
Proof.
  intros Hs H1' H2' Hk. destruct (marshal_new_break cfg1 t1 trigger related ls H1') as (j1 & E1).
  destruct (marshal_new_break cfg2 t2 trigger related ls H2') as (j2 & E2).
  apply both_bind. eapply both_lift; [by rewrite openBreak_eq, E1|by rewrite openBreak_eq, E2|]. apply Hk.
Qed.

(** The change set of a new break, applied by both. *)
Lemma both_Apply_break pre t1 t2 trigger related ls j1 j2 w1 w2 (Q : unit -> unit -> W -> W -> Prop) : sim w1 w2 ->
  (forall w1' w2', sim w1' w2' -> ix w1' = ix w1 -> emits pre w1 w1' -> Q tt tt w1' w2') ->
  both (repo (Apply (open_break cfg1 t1 trigger related ls pre j1)))
       (repo (Apply (open_break cfg2 t2 trigger related ls [] j2))) w1 w2 Q.
Proof.
  intros Hs HQ. pose proof (same_new_break t1 t2 trigger related ls) as Hb. apply both_Apply; [done| | |].
  - constructor; cbn [open_break cs_Legs cs_Matches cs_Breaks].
    + by rewrite (b_ID_shape _ _ Hb).
    + constructor.
    + by repeat constructor.
  - cbn [open_break cs_Breaks]. by repeat constructor; apply named_new_break.
  - intros w1' w2' new Hs' Hi Hlog Hst. apply HQ; [done|done|]. eapply emits_log; [exact Hlog|exact Hst|].
    by repeat constructor.
Qed.

Lemma both_ingest_break pre t1 t2 trigger related l w1 w2 : sim w1 w2 -> good_time t1 -> good_time t2 ->
  both (ingest_break cfg1 (only pre) t1 trigger related l) (ingest_break cfg2 (only []) t2 trigger related l)
    w1 w2 (agree pre w1).
Proof.
  intros Hs H1' H2'. apply both_open_break; [done..|]. intros j1 j2. cbn [fst snd]. unfold commit.
  both_step. apply both_Apply_break; [done|]. intros w3 w4 Hs3 _ He3. both_step.
  apply both_call; [done|]. intros w5 w6 Hs5 Hl5. cbn [open_break cs_Breaks last]. both_step.
  apply both_call; [done|]. intros w7 w8 Hs7 Hl7. both_step.
  split_and!; [|done|eapply emits_same; [|exact He3]; congruence].
  by rewrite (b_ID_shape _ _ (same_new_break t1 t2 trigger related [l])).
Qed.

Lemma removed_ttl ps i : ttl (foldl (fun i p => ix_Remove i [ID p]) i ps) = ttl i.
Proof. revert i. induction ps as [|p ps IH]; intros i; [done|]. cbn [foldl]. by rewrite IH, ix_Remove_ttl. Qed.

Lemma both_ingest_conflict pre t1 t2 related partners l w1 w2 : sim w1 w2 -> good_time t1 -> good_time t2 ->
  both (ingest_conflict cfg1 (only pre) t1 related partners l) (ingest_conflict cfg2 (only []) t2 related partners l)
    w1 w2 (agree pre w1).
Proof.
  intros Hs H1' H2'. unfold ingest_conflict. both_step. apply both_open_break; [done..|]. intros j1 j2. cbn [fst snd].
  both_step. apply both_Apply_break; [done|]. intros w3 w4 Hs3 _ He3. both_step.
  rewrite (sim_ix _ _ Hs). apply both_set_ix; [done|by rewrite removed_ttl, <- (sim_ix _ _ Hs), (sim_ttl _ _ Hs)|].
  intros w5 w6 Hs5 Hl5. both_step.
  apply both_call; [done|]. intros w7 w8 Hs7 Hl7. both_step.
  apply both_call; [done|]. intros w9 w10 Hs9 Hl9. both_step.
  split_and!; [|done|eapply emits_same; [|exact He3]; congruence].
  by rewrite (b_ID_shape _ _ (same_new_break t1 t2 TriggerRefConflict related (l :: partners))).
Qed.

Lemma both_ingest_match pre t1 t2 m l w1 w2 : sim w1 w2 -> good_time t1 -> good_time t2 ->
  both (ingest_match cfg1 (only pre) t1 m l) (ingest_match cfg2 (only []) t2 m l) w1 w2 (agree pre w1).
Proof.
  intros Hs H1' H2'. unfold ingest_match. both_step. rewrite (sim_ix _ _ Hs). both_step.
  destruct (marshal_new_match t1 m H1') as (j1 & E1), (marshal_new_match t2 m H2') as (j2 & E2).
  unfold addEvent, NewEvent. rewrite E1, E2. eapply both_lift; [done|done|].
  cbn [add_match add_legs cs_Legs cs_Matches cs_Breaks cs_Events app]. both_step.
  apply both_Apply; [done| |constructor|].
  { constructor; cbn [cs_Legs cs_Matches cs_Breaks]; [done| |constructor]. by repeat constructor. }
  intros w3 w4 new Hs3 _ Hlog Hst. both_step.
  apply both_set_ix; [done|by rewrite ix_Remove_ttl, <- (sim_ix _ _ Hs), (sim_ttl _ _ Hs)|].
  intros w5 w6 Hs5 Hl5. both_step.
  apply both_call; [done|]. intros w7 w8 Hs7 Hl7. both_step.
  apply both_call; [done|]. intros w9 w10 Hs9 Hl9. both_step.
  split_and!; [done|done|]. apply (emits_same _ _ w3); [congruence|].
  eapply emits_log; [exact Hlog|exact Hst|]. by repeat constructor.
Qed.

Lemma both_ingest_open pre l w1 w2 : sim w1 w2 ->
  both (ingest_open cfg1 (only pre) l) (ingest_open cfg2 (only []) l) w1 w2 (agree pre w1).
Proof.
  intros Hs. unfold ingest_open. both_step. rewrite (sim_ix _ _ Hs). both_step.
  apply both_Apply; [done|by repeat constructor|constructor|].
  intros w3 w4 new Hs3 _ Hlog Hst. both_step.
  apply both_set_ix; [done|by rewrite ix_Add_ttl, <- (sim_ix _ _ Hs), (sim_ttl _ _ Hs)|].
  intros w5 w6 Hs5 Hl5. both_step.
  apply both_call; [done|]. intros w7 w8 Hs7 Hl7. both_step.
  split_and!; [done|done|]. apply (emits_same _ _ w3); [congruence|].
  apply (emits_log _ []) with new; [done| |done]. by rewrite app_nil_r.
Qed.

(** A resolution's payload is read back. *)
Lemma late_candidate_same l r : late_candidate cfg1 l r = late_candidate cfg2 l r.
Proof. unfold late_candidate. by rewrite Hrules. Qed.

Lemma both_heal pre t1 t2 l r b1 b2 w1 w2 : sim w1 w2 -> good_time t1 -> good_time t2 ->
  same_break b1 b2 -> named_break b1 ->
  both (heal cfg1 (only pre) t1 l r b1) (heal cfg2 (only []) t2 l r b2) w1 w2 (agree pre w1).
Proof.
  intros Hs H1' H2' Hb Hn. unfold heal. cbv zeta.
  fold (late_match cfg1 t1 l r). fold (late_match cfg2 t2 l r).
  fold (late_resolution t1 b1). fold (late_resolution t2 b2).
  assert (same_match (late_match cfg1 t1 l r) (late_match cfg2 t2 l r)) as Hm
    by (unfold same_match, match_shape, late_match; by rewrite Hrules).
  assert (same_break (late_resolution t1 b1) (late_resolution t2 b2)) as Hb'.
  { unfold same_break, break_shape in *. cbn. by injection Hb as -> -> -> -> -> -> -> -> _ _ _ _ ->. }
  rewrite <- (m_ID_shape _ _ Hm), <- (b_ID_shape _ _ Hb').
  destruct (marshal_new_match t1 (late_match cfg1 t1 l r) H1') as (j1 & E1).
  destruct (marshal_new_match t2 (late_match cfg2 t2 l r) H2') as (j2 & E2).
  change (set_MatchedAt t1 (late_match cfg1 t1 l r)) with (late_match cfg1 t1 l r) in E1.
  change (set_MatchedAt t2 (late_match cfg2 t2 l r)) with (late_match cfg2 t2 l r) in E2.
  set (mid := m_ID (late_match cfg1 t1 l r)). set (bid := b_ID (late_resolution t1 b1)).
  destruct (marshal_new_resolution bid (b_Reason (late_resolution t1 b1)) (b_Actor (late_resolution t1 b1)) t1 mid H1')
    as (j3 & E3).
  destruct (marshal_new_resolution bid (b_Reason (late_resolution t2 b2)) (b_Actor (late_resolution t2 b2)) t2 mid H2')
    as (j4 & E4).
  both_step. unfold addEvent at 1 3, NewEvent. rewrite E1, E2. eapply both_lift; [done|done|].
  both_step. unfold addEvent, NewEvent. rewrite E3, E4. eapply both_lift; [done|done|].
  cbn [add_match add_legs add_break cs_Legs cs_Matches cs_Breaks cs_Events app]. both_step.
  apply both_Apply; [done| | |].
  - constructor; cbn [cs_Legs cs_Matches cs_Breaks]; by repeat constructor.
  - apply Forall_singleton. split_and!; [apply Hn..|by right].
  - intros w3 w4 new Hs3 _ Hlog Hst. both_step.
    apply both_call; [done|]. intros w5 w6 Hs5 Hl5. both_step.
    apply both_call; [done|]. intros w7 w8 Hs7 Hl7. both_step.
    split_and!; [done|done|]. apply (emits_same _ _ w3); [congruence|].
    cbn [cs_Events] in Hst. rewrite <- app_assoc in Hst. eapply emits_log; [exact Hlog|exact Hst|].
    repeat constructor; [done|done|done|]. intros _. eexists. split; [by apply dec_resolution_marshal|].
    cbn [coerce_resolution rp_MatchID]. rewrite coerced_empty. by apply DeriveID_ne.
Qed.

Lemma emits_from w1 w w' pre : log w1 = log w -> emits pre w1 w' -> emits pre w w'.
Proof. unfold emits. by intros ->. Qed.

Lemma both_GetBreak id w1 w2 (Q : result Break -> result Break -> W -> W -> Prop) : sim w1 w2 ->
  (forall r1 r2 w1' w2', sim w1' w2' -> log w1' = log w1 ->
     match r1, r2 with
     | Ok b1, Ok b2 => same_break b1 b2 /\ named_break b1 /\ b_ID b1 = id
     | Err _, Err _ => True
     | _, _ => False
     end -> Q r1 r2 w1' w2') ->
  both (mtry (repo (GetBreak id))) (mtry (repo (GetBreak id))) w1 w2 Q.
Proof.
  intros [Hs Hi Ht Hl Hr Hn] HQ.
  exists (mem_lookup (breaks (store w1)) id), (mem_lookup (breaks (store w2)) id). split_and!; [done..|].
  apply HQ; [by constructor|done|]. unfold mem_lookup. pose proof (ss_breaks _ _ Hs) as Hb.
  apply (f_equal (lookup id)) in Hb. rewrite !lookup_fmap in Hb.
  destruct (breaks (store w1) !! id) as [b1|] eqn:E1, (breaks (store w2) !! id) as [b2|]; try done.
  apply (inj Some) in Hb. by destruct (Hn id b1 E1).
Qed.

(** The loop over the related legs, in both engines. *)
Lemma both_ingest_late pre t1 t2 related l w1 w2 : sim w1 w2 -> good_time t1 -> good_time t2 ->
  both (ingest_late cfg1 (only pre) t1 related l) (ingest_late cfg2 (only []) t2 related l) w1 w2
    (fun a1 a2 w1' w2' => a1 = a2 /\ sim w1' w2' /\
       match a1 with Some _ => emits pre w1 w1' | None => log w1' = log w1 end).
Proof.
  intros Hs H1' H2'. revert w1 w2 Hs. induction related as [|r related IH]; intros w1 w2 Hs; cbn [ingest_late].
  { both_step. by split_and!. }
  rewrite <- late_candidate_same. destruct (late_candidate cfg1 l r); [|by apply IH].
  apply both_bind, both_GetBreak; [done|]. intros r1 r2 w3 w4 Hs3 Hl3 Hr.
  destruct r1 as [b1|e1], r2 as [b2|e2]; try done; cbv beta iota.
  2: { eapply both_mono; [by apply IH|]. intros [a|] a2 w5 w6 (-> & Hs5 & He); split_and!; try done;
       [by apply (emits_from w3)|congruence]. }
  destruct Hr as (Hb & Hn & _).
  assert (b_Status b1 = b_Status b2 /\ b_LegIDs b1 = b_LegIDs b2) as [-> ->]
    by (split; [exact (f_equal b_Status Hb)|exact (f_equal b_LegIDs Hb)]).
  destruct (_ || _).
  - eapply both_mono; [by apply IH|]. intros [a|] a2 w5 w6 (-> & Hs5 & He); split_and!; try done;
      [by apply (emits_from w3)|congruence].
  - both_step. eapply both_mono; [by apply both_heal|]. intros a1 a2 w5 w6 (-> & Hs5 & He). both_step.
    split_and!; [done|done|by apply (emits_from w3)].
Qed.

Lemma both_ingest_new pre t1 t2 related l w1 w2 : sim w1 w2 -> good_time t1 -> good_time t2 ->
  both (ingest_new cfg1 (only pre) t1 related l) (ingest_new cfg2 (only []) t2 related l) w1 w2 (agree pre w1).
Proof.
  intros Hs H1' H2'. unfold ingest_new. rewrite <- Hrules.
  destruct (existsb _ related); [by apply both_ingest_break|].
  both_step. rewrite (sim_ix _ _ Hs). both_step.
  apply both_read; [done|by intros; apply find_read|]. intros m w3 w4 Hs3 Hl3 _ _ _ _.
  assert (forall A (m1 m2 : M W A), both m1 m2 w3 w4 (agree pre w3) -> both m1 m2 w3 w4 (agree pre w1)) as Hfrom.
  { intros A m1 m2 Hm. eapply both_mono; [exact Hm|]. intros a1 a2 w5 w6 (Ha & Hs5 & He).
    split_and!; [done|done|by apply (emits_from w3)]. }
  destruct m as [m|]; [by apply Hfrom, both_ingest_match|].
  destruct (ByRef (ix w2) l) as [|p ps]; [|by apply Hfrom, both_ingest_conflict].
  both_step. eapply both_mono; [by apply both_ingest_late|]. intros a1 a2 w5 w6 (<- & Hs5 & He).
  destruct a1 as [res|].
  { both_step. split_and!; [done|done|by apply (emits_from w3)]. }
  assert (forall A (m1 m2 : M W A), both m1 m2 w5 w6 (agree pre w5) -> both m1 m2 w5 w6 (agree pre w1)) as Hfrom2.
  { intros A m1 m2 Hm. eapply both_mono; [exact Hm|]. intros a1 a2 w7 w8 (Ha & Hs7 & He7).
    split_and!; [done|done|apply (emits_from w5); [congruence|done]]. }
  destruct (existsb _ related); [by apply Hfrom2, both_ingest_break|by apply Hfrom2, both_ingest_open].
Qed.

(** *** One leg, live and replayed *)

Lemma both_ingestOne l j w1 w2 : sim w1 w2 ->
  let t := clock cfg1 (ticks w1) in
  legs (store w1) !! ID l = None -> marshal_leg (arrive t l) = Ok j ->
  both (ingestOne cfg1 l) (ingestOne cfg2 (arrive t l)) w1 w2
    (agree [event EvLegIngested t (ID l) j] w1).
Proof.
  intros Hs t Hn Hj. unfold ingestOne. both_step. apply both_now; [done|]. intros w3 w4 Hs3 Hst3. fold t.
  set (t2 := clock cfg2 (ticks w2)). fold (arrive t l). set (l' := arrive t l) in *.
  assert (IsZero (IngestedAt l') = false) as ->.
  { unfold l', arrive. destruct (IsZero (IngestedAt l)) eqn:E; [|done]. destruct l. apply Hclock1. }
  assert (ID l' = ID l) as Hid by apply (arrive_fields t l).
  both_step. apply both_read; [done|by intros; apply HasLeg_read|]. intros seen w5 w6 Hs5 Hl5 _ _ _ Hseen.
  cbn in Hseen. unfold mem_HasLeg in Hseen. rewrite Hst3, Hid, Hn in Hseen. injection Hseen as <-.
  both_step. apply both_read; [done|by intros; apply LegsByTxnRef_read|]. intros related w7 w8 Hs7 Hl7 _ _ _ _.
  both_step. rewrite (sim_live _ _ Hs7), (sim_replaying _ _ Hs7).
  apply both_bind, both_lift_ret with (only [event EvLegIngested t (ID l) j]).
  { by rewrite Hid, (addEvent_only _ _ _ _ []), Hj. }
  assert (log w7 = log w1) as Hlog by (rewrite Hl7, Hl5; unfold log; by rewrite Hst3).
  eapply both_mono; [by apply both_ingest_new; [|apply Hclock1|apply Hclock2]|].
  intros a1 a2 w9 w10 (Ha & Hs9 & He). split_and!; [done|done|by apply (emits_from w7)].
Qed.

(** The replay of a list of log entries. *)
Fixpoint replay_all (evs : list Event) (res : ReplayResult) : M W ReplayResult :=
  match evs with
  | [] => mret res
  | ev :: evs' => let! res := replay_event cfg2 ev (read_event res) in replay_all evs' res
  end.

Lemma replay_all_app e1 e2 res w : replay_all (e1 ++ e2) res w = (let! res := replay_all e1 res in replay_all e2 res) w.
Proof.
  revert res w. induction e1 as [|e e1 IH]; intros res w; [done|]. cbn [app replay_all]. unfold mbind.
  destruct (replay_event _ _ _ w) as [[r|e'] w']; [|done]. apply IH.
Qed.

Lemma replay_passive evs res w : Forall passive evs -> exists res', replay_all evs res w = (Ok res', w).
Proof.
  intros Hp. revert res. induction Hp as [|e evs [Hne Hbr] _ IH]; intros res; [by exists res|].
  cbn [replay_all]. unfold mbind at 1, replay_event. case_bool_decide as Hb.
  - destruct (Hbr Hb) as (p & Hd & Hm). unfold mbind, reapplyResolution. rewrite Hd.
    rewrite bool_decide_eq_false_2 by done. cbn. apply IH.
  - rewrite (bool_decide_eq_false_2 _ Hne). cbn. apply IH.
Qed.

(** What the live engine has logged since [w1], replayed, takes any engine that
    agreed with it to one that agrees with it again. *)
Definition follows (w1 w1' : W) : Prop := exists new, log w1' = log w1 ++ new /\
  forall w2 res, sim w1 w2 -> exists res', (replay_all new res w2).1 = Ok res' /\ sim w1' (replay_all new res w2).2.

Lemma follows_trans w1 w2 w3 : follows w1 w2 -> follows w2 w3 -> follows w1 w3.
Proof.
  intros (n1 & H1' & F1) (n2 & H2' & F2). exists (n1 ++ n2). split; [by rewrite H2', H1', app_assoc|].
  intros w res Hs. destruct (F1 w res Hs) as (r1 & E1 & S1). destruct (F2 _ r1 S1) as (r2 & E2 & S2).
  exists r2. rewrite replay_all_app. unfold mbind. destruct (replay_all n1 res w) as [r w']. cbn in *. by subst r.
Qed.

(** Nothing but the log has changed, and only by entries a replay passes over. *)
Record same_but_log (w1 w1' : W) (new : list Event) : Prop := {
  sb_legs : legs (store w1') = legs (store w1);
  sb_refs : byTxnRef (store w1') = byTxnRef (store w1);
  sb_matches : matches (store w1') = matches (store w1);
  sb_breaks : breaks (store w1') = breaks (store w1);
  sb_ix : ix w1' = ix w1;
  sb_replaying : replaying w1' = replaying w1;
  sb_log : log w1' = log w1 ++ new;
  sb_passive : Forall passive new
}.

Lemma follows_log w1 w1' new : same_but_log w1 w1' new -> follows w1 w1'.
Proof.
  intros [Hl Hr Hm Hb Hi Hrep Hlog Hp]. exists new. split; [done|]. intros w2 res Hs.
  destruct (replay_passive new res w2 Hp) as (res' & ->). exists res'. split; [done|].
  destruct Hs as [[] Hi2 Ht Hlive Hrep2 Hn]. constructor; cbn; try congruence.
  - constructor; congruence.
  - unfold named. by rewrite Hb.
Qed.

Lemma follows_still w1 w1' : store w1' = store w1 -> ix w1' = ix w1 -> replaying w1' = replaying w1 -> follows w1 w1'.
Proof.
  intros Hs Hi Hr. apply (follows_log _ _ []). constructor; unfold log; rewrite ?Hs, ?app_nil_r; done.
Qed.

(** A live engine, and the engine that replays beside it. *)
Definition live (w : W) : Prop := replaying w = false /\ ttl (ix w) = T /\ named (store w).
Definition twin (w : W) : W := mkWorld (store w) (ix w) true (ticks w) (polls w) (trace w).

Lemma sim_twin w : live w -> sim w (twin w).
Proof. intros (Hr & Ht & Hn). by constructor. Qed.

Lemma follows_live w w' : live w -> follows w w' -> live w'.
Proof. intros Hl (new & _ & F). destruct (F _ zero_replay (sim_twin w Hl)) as (_ & _ & []). done. Qed.

(** A leg as it comes out of validation, without state of its own. *)
Record good_leg (l : Leg) : Prop := {
  gl_wf : wf_leg l;
  gl_amount : in64 (AmountMinor l);
  gl_date : wf_date_range (ValueDate l);
  gl_id : AssignID l = l;
  gl_text : valid_text l;
  gl_status : Status l = "";
  gl_match : MatchID l = "";
  gl_break : BreakID l = ""
}.

Lemma good_arrive t l : good_leg l -> good_leg (arrive t l).
Proof.
  intros Hl. pose proof (AssignID_arrive t l (gl_id _ Hl)) as Hid.
  unfold arrive in *. destruct (IsZero _); [|done]. destruct Hl as [Hwf Ha Hd _ Hv Hs Hm Hb].
  destruct l. constructor; try done; [by destruct Hwf|by destruct Hv].
Qed.

Lemma good_read_back l j : good_leg l -> marshal_leg l = Ok j -> unmarshalLeg j = Ok l.
Proof.
  intros [Hwf Ha Hd Hid Hv Hs Hm Hb] Hj. rewrite (proj2 (unmarshalLeg_marshal_iff l j Hwf Ha Hd Hid Hj)) by done.
  destruct l. cbn in *. by subst.
Qed.

(** An arrival that is not seen: it is in the log, and replaying it follows. *)
Lemma follows_arrival l j w : live w -> good_leg l -> let t := clock cfg1 (ticks w) in
  legs (store w) !! ID l = None -> marshal_leg (arrive t l) = Ok j ->
  follows w (ingestOne cfg1 l w).2.
Proof.
  intros Hw Hg t Hn Hj.
  assert (forall w2, sim w w2 -> exists e rest, log (ingestOne cfg1 l w).2 = log w ++ e :: rest /\
    Forall passive rest /\ forall res, exists res', (replay_event cfg2 e res w2).1 = Ok res' /\
      sim (ingestOne cfg1 l w).2 (replay_event cfg2 e res w2).2) as Hboth.
  { intros w2 Hs. destruct (both_ingestOne l j w w2 Hs Hn Hj) as (a1 & a2 & _ & E2 & _ & Hs' & new & rest & Hlog & Hst & Hp).
    apply Forall2_cons_inv_l in Hst as (e & nil & He & Hnil & ->). apply Forall2_nil_inv_l in Hnil as ->.
    exists e, rest. split_and!; [done|done|]. intros res.
    assert (replay_event cfg2 e res w2 = (Ok (tally_replay a2 res), (ingestOne cfg2 (arrive t l) w2).2)) as ->.
    { unfold replay_event. rewrite He. cbn [logged event ev_Type ev_Payload]. change (kept j) with j.
      rewrite bool_decide_eq_false_2 by done. rewrite bool_decide_eq_true_2 by done. cbn [negb].
      rewrite (good_read_back _ _ (good_arrive t l Hg) Hj). unfold mbind, lift.
      fold t in E2. destruct (ingestOne cfg2 (arrive t l) w2) as [r w2']. cbn [fst snd] in *. by subst r. }
    by eexists. }
  destruct (Hboth _ (sim_twin w Hw)) as (e & rest & Hlog & Hp & _). exists (e :: rest). split; [done|].
  intros w2 res Hs. destruct (Hboth w2 Hs) as (e' & rest' & Hlog' & _ & Hrep).
  rewrite Hlog in Hlog'. apply app_inv_head in Hlog' as [= <- <-].
  destruct (Hrep (read_event res)) as (res1 & E1 & Hs1). cbn [replay_all]. unfold mbind.
  destruct (replay_event cfg2 e (read_event res) w2) as [r w2'] eqn:Ee. cbn in E1, Hs1. subst r.
  destruct (replay_passive rest res1 w2' Hp) as (res2 & ->). by exists res2.
Qed.

Lemma follows_ingestOne l w : live w -> good_leg l -> follows w (ingestOne cfg1 l w).2.
Proof.
  intros Hw Hg. set (t := clock cfg1 (ticks w)).
  assert (ID (arrive t l) = ID l) as Hid by apply (arrive_fields t l).
  destruct (legs (store w) !! ID l) as [x|] eqn:El; [|destruct (marshal_leg (arrive t l)) as [j|e] eqn:Ej].
  - unfold ingestOne, mbind at 1, now. fold t. fold (arrive t l).
    unfold mbind at 1, mwrap, repo. cbn [store HasLeg memory_repository mem_HasLeg].
    unfold mem_HasLeg. rewrite Hid, El. rewrite bool_decide_eq_true_2 by done.
    unfold ingest_duplicate. unfold mbind at 1, mget. cbn [replaying]. destruct Hw as (Hr & _ & _). rewrite Hr.
    unfold mbind at 1 2, lift. rewrite (addEvent_only _ _ _ _ []). cbn [app].
    destruct (marshal_leg (arrive t l)) as [j|e]; [|by apply follows_still].
    destruct (Apply_events (only [event EvLegDuplicate t (ID (arrive t l)) j]) (store w)) as (new & Hlog & Hst).
    destruct (apply_parts (only [event EvLegDuplicate t (ID (arrive t l)) j]) (store w)) as (P1 & P2 & P3 & P4 & _).
    apply (follows_log _ _ new). constructor; try done.
    eapply stamped_passive; [|exact Hst]. by apply Forall_singleton, passive_other.
  - by eapply follows_arrival.
  - unfold ingestOne, mbind at 1, now. fold t. fold (arrive t l).
    unfold mbind at 1, mwrap, repo. cbn [store HasLeg memory_repository mem_HasLeg].
    unfold mem_HasLeg. rewrite Hid, El.
    rewrite bool_decide_eq_false_2 by (by intros []).
    unfold mbind at 1. cbn [store LegsByTxnRef memory_repository]. unfold mem_LegsByTxnRef.
    unfold mbind at 1, mget. cbn [replaying]. destruct Hw as (Hr & _ & _). rewrite Hr.
    unfold mbind at 1, lift. rewrite (addEvent_only _ _ _ _ []), Ej. by apply follows_still.
Qed.

(** *** Whole operations *)

(** A leg as a caller gives it: its amount is an [int64], its date can be
    printed, its text is UTF-8, and it claims no state of its own. *)
Record plain_leg (l : Leg) : Prop := {
  pl_amount : in64 (AmountMinor l);
  pl_date : wf_date_range (ValueDate l);
  pl_text : valid_text l;
  pl_status : Status l = "";
  pl_match : MatchID l = "";
  pl_break : BreakID l = ""
}.

Lemma good_validated l l' : Validate l = (l', Ok tt) -> plain_leg l -> good_leg (AssignID l').
Proof.
  intros [Hwf Heq]%Validate_sound [Ha Hd Hv Hs Hm Hb].
  assert (AmountMinor l' = AmountMinor l /\ ValueDate l' = ValueDate l /\ Status l' = Status l /\
    MatchID l' = MatchID l /\ BreakID l' = BreakID l) as (E1 & E2 & E3 & E4 & E5) by (by rewrite Heq).
  assert (valid_text (AssignID l')) as Hv' by (rewrite Heq; by destruct Hv).
  constructor.
  - by destruct Hwf.
  - change (in64 (AmountMinor l')). by rewrite E1.
  - change (wf_date_range (ValueDate l')). by rewrite E2.
  - apply AssignID_idem.
  - exact Hv'.
  - by rewrite <- Hs, <- E3.
  - by rewrite <- Hm, <- E4.
  - by rewrite <- Hb, <- E5.
Qed.

Lemma good_batch i ls ls' : Forall plain_leg ls -> validate_batch i ls = (ls', None) -> Forall good_leg ls'.
Proof.
  intros Hls. revert i ls'. induction Hls as [|l ls Hl _ IH]; intros i ls'; cbn [validate_batch]; [by intros [= <-]|].
  destruct (Validate l) as [l1 [[]|e]] eqn:E; [|done].
  destruct (validate_batch (i + 1) ls) as [ls1 err] eqn:E1. intros [= <- ->].
  constructor; [by eapply good_validated|by eapply IH].
Qed.

Lemma follows_ingest_loop ls res w : live w -> Forall good_leg ls -> follows w (ingest_loop cfg1 ls res w).2.
Proof.
  intros Hw Hls. revert res w Hw. induction Hls as [|l ls Hl _ IH]; intros res w Hw; cbn [ingest_loop].
  { by apply follows_still. }
  unfold mbind at 1, poll. set (w1 := mkWorld _ _ _ _ _ _).
  assert (follows w w1) as Hw1 by (by apply follows_still).
  destruct (ctx_Err cfg1 (polls w)); [done|]. unfold mbind, mtry.
  pose proof (follows_ingestOne l w1 (follows_live _ _ Hw Hw1) Hl) as Hw2.
  destruct (ingestOne cfg1 l w1) as [[r|e] w2]; cbn [snd] in Hw2.
  - eapply follows_trans; [exact Hw1|]. eapply follows_trans; [exact Hw2|]. apply IH.
    by eapply follows_live; [eapply follows_live; [exact Hw|exact Hw1]|].
  - by eapply follows_trans.
Qed.

Lemma follows_Ingest ls w : live w -> Forall plain_leg ls -> follows w (Ingest cfg1 ls w).2.
Proof.
  intros Hw Hls. unfold Ingest. destruct (validate_batch 0 ls) as [ls' [e|]] eqn:E; [by apply follows_still|].
  apply follows_ingest_loop; [done|by eapply good_batch].
Qed.

(** A manual resolution: its event resolves the break of the replaying engine. *)
Lemma follows_resolved b reason actor t j w w' : live w -> good_time t ->
  ValidString reason = true -> ValidString actor = true ->
  breaks (store w) !! b_ID b = Some b -> b_Status b <> BreakResolved ->
  marshal_resolution (mkResolutionPayload (b_ID b) reason actor t "") = Ok j ->
  let cs := mkChangeSet [] [] [resolve t reason actor b] [event EvBreakResolved t (b_ID b) j] in
  store w' = (mem_Apply cs (store w)).2 -> ix w' = ix w -> replaying w' = replaying w ->
  follows w w'.
Proof.
  intros (Hr & Httl & Hn) Ht Hreason Hactor Hb Hst Hj cs Hs Hi Hrep.
  destruct (Apply_events cs (store w)) as (new & Hlog & Hnew).
  apply Forall2_cons_inv_l in Hnew as (e & nil & He & Hnil & ->). apply Forall2_nil_inv_l in Hnil as ->.
  exists [e]. split; [unfold log; by rewrite Hs|]. intros w2 res Hsim.
  destruct (Hn _ _ Hb) as [_ (Hne & Hval & Hstatus)]. destruct Hstatus as [Hopen|]; [|done].
  pose proof (ss_breaks _ _ (sim_state _ _ Hsim)) as Hbs. apply (f_equal (lookup (b_ID b))) in Hbs.
  rewrite !lookup_fmap, Hb in Hbs. destruct (breaks (store w2) !! b_ID b) as [b2|] eqn:Eb2; [|done].
  apply (inj Some) in Hbs.
  set (cs2 := mkChangeSet [] [] [resolve t reason actor b2] []).
  assert (replay_all [e] res w2 = (Ok (read_event res), (repo (Apply cs2) w2).2)) as ->.
  { cbn [replay_all]. unfold mbind at 1, replay_event. rewrite He.
    cbn [logged event ev_Type ev_Payload]. rewrite bool_decide_eq_true_2 by done.
    unfold mbind at 1, reapplyResolution. cbn [logged event ev_Payload]. change (kept j) with j. rewrite (dec_resolution_marshal _ _ Hj).
    unfold coerce_resolution. cbn [rp_MatchID rp_BreakID rp_Reason rp_Actor rp_At].
    rewrite (coerced_valid _ Hval), (coerced_valid _ Hreason), (coerced_valid _ Hactor).
    rewrite bool_decide_eq_true_2 by done. rewrite bool_decide_eq_false_2 by done. cbn [negb orb].
    unfold mbind at 1, mtry, repo at 1. cbn [GetBreak memory_repository]. unfold mem_GetBreak, mem_lookup.
    rewrite Eb2. cbv beta iota. cbn [store]. rewrite bool_decide_eq_true_2; [by destruct w2|].
    rewrite <- Hopen. symmetry. exact (f_equal b_Status Hbs). }
  eexists. split; [done|]. destruct Hsim as [Hss Hix _ Hlive Hrep2 _].
  constructor; cbn [store ix replaying repo snd]; rewrite ?Hs, ?Hi, ?Hrep; try done.
  - apply Apply_same; [|done]. constructor; [done|constructor|]. repeat constructor.
    unfold same_break, break_shape in *. cbn. by injection Hbs as -> -> -> -> -> -> -> -> _ _ _ _ ->.
  - apply named_Apply; [|done]. apply Forall_singleton. by split_and!; [..|right].
Qed.

Lemma follows_ResolveBreak id reason actor w : live w -> ValidString reason = true -> ValidString actor = true ->
  follows w (ResolveBreak cfg1 id reason actor w).2.
Proof.
  intros Hw Hreason Hactor. unfold ResolveBreak. destruct (_ || _); [by apply follows_still|].
  unfold mbind at 1, mtry, repo. cbn [GetBreak memory_repository]. unfold mem_GetBreak, mem_lookup.
  destruct (breaks (store w) !! id) as [b|] eqn:Eb; [|by apply follows_still].
  case_bool_decide as Hst; [by apply follows_still|]. unfold mbind at 1, now. cbn [ticks].
  set (t := clock cfg1 (ticks w)). change (b_ID (resolve t reason actor b)) with (b_ID b).
  destruct (marshal_new_resolution (b_ID b) reason actor t "" (Hclock1 _)) as (j & Ej).
  unfold mbind at 1 2, mtry, lift. unfold addEvent, NewEvent. rewrite Ej. cbv beta iota.
  pose proof Hw as (_ & _ & Hn). destruct (Hn _ _ Eb) as [<- _].
  by eapply (follows_resolved b reason actor t j); [|apply Hclock1|..].
Qed.
End Engines.
