(* ===== verification/ReplayRun.v ===== *)
(** * A replay is the replay of the log

    The paging loop of a replay applies the entries of the log, in order, even
    though the log grows under it; with ReplaySim.v, a replay reproduces the
    state of the engine that wrote the log. *)

From S2P Require Export ReplaySim.

Local Open Scope recon_scope.

(** ** The log of the in-memory store *)

Definition numbered (evs : list Event) : Prop := forall i e, evs !! i = Some e -> ev_Seq e = Z.of_nat i + 1.

Definition extends (evs evs' : list Event) : Prop :=
  exists new, evs' = evs ++ new /\ (numbered evs -> numbered evs').

Lemma extends_refl evs : extends evs evs.
Proof. exists []. by rewrite app_nil_r. Qed.

Lemma extends_trans e1 e2 e3 : extends e1 e2 -> extends e2 e3 -> extends e1 e3.
Proof. intros (n1 & -> & H1') (n2 & -> & H2'). exists (n1 ++ n2). split; [by rewrite app_assoc|auto]. Qed.

Lemma numbered_snoc evs e : numbered evs -> numbered (evs ++ [set_Seq (Z.of_nat (length evs) + 1) e]).
Proof.
  intros Hn i x. rewrite lookup_app_Some. intros [Hx|[Hle Hx]]; [by apply Hn|].
  apply list_lookup_singleton_Some in Hx as [Hi <-]. cbn. lia.
Qed.

Lemma extends_Apply cs s : extends (events s) (events (mem_Apply cs s).2).
Proof.
  destruct (apply_parts cs s) as (_ & _ & _ & _ & ->). generalize (events s) as evs.
  induction (cs_Events cs) as [|e es IH]; intros evs; [apply extends_refl|]. cbn [foldl].
  eapply extends_trans; [|apply IH]. eexists. split; [done|]. apply numbered_snoc.
Qed.

(** ** Computations under which the log only grows *)

Section Grows.
Context `{Sha256} `{BreakClassifier} (cfg : Config).

Abbreviation W := (World Store).

Definition grows {A} (m : M W A) : Prop := forall w, extends (log w) (log (m w).2).

Lemma grows_still {A} (m : M W A) : (forall w, store (m w).2 = store w) -> grows m.
Proof. intros Hm w. unfold log. rewrite Hm. apply extends_refl. Qed.

Lemma grows_ret {A} (a : A) : grows (mret a).
Proof. by apply grows_still. Qed.
Lemma grows_fail {A} e : grows (mfail (A := A) e).
Proof. by apply grows_still. Qed.
Lemma grows_get : grows mget.
Proof. by apply grows_still. Qed.
Lemma grows_lift {A} (r : result A) : grows (lift r).
Proof. by apply grows_still. Qed.
Lemma grows_now : grows (now cfg).
Proof. by apply grows_still. Qed.
Lemma grows_set_ix i : grows (set_ix i).
Proof. by apply grows_still. Qed.
Lemma grows_call b h : grows (call b h).
Proof. by apply grows_still. Qed.
Lemma grows_bind {A B} (m : M W A) (k : A -> M W B) : grows m -> (forall a, grows (k a)) -> grows (mbind m k).
Proof.
  intros Hm Hk w. unfold mbind. specialize (Hm w). destruct (m w) as [[a|e] w']; [|done].
  eapply extends_trans; [exact Hm|apply Hk].
Qed.
Lemma grows_try {A} (m : M W A) : grows m -> grows (mtry m).
Proof. intros Hm w. unfold mtry. specialize (Hm w). by destruct (m w). Qed.
Lemma grows_wrap {A} p (m : M W A) : grows m -> grows (mwrap p m).
Proof. intros Hm w. unfold mwrap. specialize (Hm w). by destruct (m w) as [[]]. Qed.
Lemma grows_repo {A} (m : M Store A) : (forall s, extends (events s) (events (m s).2)) -> grows (repo m).
Proof. intros Hm w. unfold repo, log. specialize (Hm (store w)). by destruct (m (store w)). Qed.
Lemma grows_read {A} (m : M Store A) : (forall s, (m s).2 = s) -> grows (repo m).
Proof. intros Hm. apply grows_repo. intros s. rewrite Hm. apply extends_refl. Qed.
Lemma grows_Apply cs : grows (repo (Apply cs)).
Proof. apply grows_repo, extends_Apply. Qed.
Lemma grows_HasLeg id : grows (repo (HasLeg id)).
Proof. by apply grows_read. Qed.
Lemma grows_LegsByTxnRef ref : grows (repo (LegsByTxnRef ref)).
Proof. by apply grows_read. Qed.
Lemma grows_GetBreak id : grows (repo (GetBreak id)).
Proof. by apply grows_read. Qed.
Lemma grows_find l i : grows (repo (find (rules cfg) l i (Some exists_ref))).
Proof. apply grows_read. intros s. by destruct (find_read (rules cfg) l i s s) as (o & -> & _). Qed.
Create HintDb grows.
Hint Resolve grows_ret grows_fail grows_get grows_lift grows_now grows_set_ix grows_call grows_try grows_wrap
  grows_Apply grows_HasLeg grows_LegsByTxnRef grows_GetBreak grows_find : grows.

Ltac grows := repeat first
  [ progress auto with grows | apply grows_try | apply grows_bind; [|intros] | progress cbv zeta | case_match ].

Lemma grows_commit cs l r : grows (commit cfg cs l r).
Proof. unfold commit, fire, fire_break. grows. Qed.
Hint Resolve grows_commit : grows.

Lemma grows_ingest_late cs t related l : grows (ingest_late cfg cs t related l).
Proof.
  induction related as [|r related IH]; cbn [ingest_late]; grows; unfold heal, fire, fire_match; grows.
Qed.
Hint Resolve grows_ingest_late : grows.

Lemma grows_ingestOne l : grows (ingestOne cfg l).
Proof.
  unfold ingestOne, ingest_duplicate, ingest_new, ingest_match, ingest_conflict, ingest_open, ingest_break,
    fire, fire_match, fire_break. grows.
Qed.
Hint Resolve grows_ingestOne : grows.

Lemma grows_replay_event ev res : grows (replay_event cfg ev res).
Proof. unfold replay_event, reapplyResolution. grows. Qed.

Lemma grows_ingest_loop ls res : grows (ingest_loop cfg ls res).
Proof.
  revert res. induction ls as [|l ls IH]; intros res; cbn [ingest_loop]; unfold notifyOpen; grows.
Qed.

Lemma grows_Ingest ls : grows (Ingest cfg ls).
Proof. unfold Ingest. destruct (validate_batch 0 ls) as [ls' []]; [apply grows_ret|apply grows_ingest_loop]. Qed.

Lemma grows_ResolveBreak id reason actor : grows (ResolveBreak cfg id reason actor).
Proof. unfold ResolveBreak. grows. Qed.
End Grows.

(** ** The pages *)

Section Pages.
Context `{Sha256} `{BreakClassifier} (cfg : Config).

Abbreviation W := (World Store).

(** A page is applied entry by entry, up to the first one after [through]. *)
Lemma replay_page_all through evs later cursor res res' (w w' : W) :
  Forall (fun e => ev_Seq e <= through) evs -> Forall (fun e => through < ev_Seq e) later ->
  replay_all cfg evs res w = (Ok res', w') ->
  replay_page cfg through (evs ++ later) cursor res w =
    (Ok (match last evs with Some e => ev_Seq e + 1 | None => cursor end, res', None), w').
Proof.
  intros Hevs Hlater. revert cursor res w. induction Hevs as [|e evs He _ IH]; intros cursor res w; cbn [app replay_all].
  - intros [= <- <-]. destruct Hlater as [|e later He _]; [done|]. cbn [replay_page].
    replace (through <? ev_Seq e) with true by lia. done.
  - cbn [replay_page]. replace (through <? ev_Seq e) with false by lia. unfold mbind at 1 2, mtry, mwrap.
    destruct (replay_event cfg e (read_event res) w) as [[r|err] w1]; [|done].
    intros Hall. rewrite (IH _ _ _ Hall), last_cons. by destruct (last evs).
Qed.

Lemma replay_all_log evs res w : extends (log w) (log (replay_all cfg evs res w).2).
Proof.
  revert res w. induction evs as [|e evs IH]; intros res w; [apply extends_refl|]. cbn [replay_all].
  apply (grows_bind _ _ (grows_replay_event cfg e (read_event res))). intros r w'. exact (IH r w').
Qed.

Lemma numbered_drop evs extra k i e : numbered (evs ++ extra) -> (k <= length evs)%nat ->
  drop k evs !! i = Some e -> ev_Seq e = Z.of_nat (k + i) + 1.
Proof.
  intros Hn Hk He. rewrite lookup_drop in He. apply Hn. apply lookup_app_l_Some. exact He.
Qed.

Lemma numbered_extra evs extra : numbered (evs ++ extra) -> Forall (fun e => Z.of_nat (length evs) < ev_Seq e) extra.
Proof.
  intros Hn. apply Forall_lookup. intros i e He. rewrite (Hn (length evs + i)%nat e); [lia|].
  rewrite lookup_app_r by lia. by replace (length evs + i - length evs)%nat with i by lia.
Qed.

Lemma numbered_page evs extra k n : numbered (evs ++ extra) -> (k <= length evs)%nat ->
  Forall (fun e => ev_Seq e <= Z.of_nat (length evs)) (take n (drop k evs)) /\
  forall e, last (take n (drop k evs)) = Some e -> ev_Seq e = Z.of_nat (k + length (take n (drop k evs))).
Proof.
  intros Hn Hk. split.
  - apply Forall_lookup. intros i e He. apply lookup_take_Some in He as [He Hi].
    pose proof (lookup_lt_Some _ _ _ He) as Hlt. rewrite length_drop in Hlt.
    rewrite (numbered_drop _ _ _ _ _ Hn Hk He). lia.
  - intros e He. rewrite last_lookup in He. pose proof (lookup_lt_Some _ _ _ He) as Hlt.
    apply lookup_take_Some in He as [He _]. rewrite (numbered_drop _ _ _ _ _ Hn Hk He). lia.
Qed.

(** The world after the callback that ends a replay. *)
Definition still (w w' : W) : Prop := store w' = store w /\ ix w' = ix w /\ replaying w' = replaying w.

(** A page of the log that begins after the [k]th event: the events up to the
    [n]th, and what was appended since. *)
Lemma page_of_log evs extra k (w : World Store) : log w = evs ++ extra -> (k < length evs)%nat ->
  EventsFrom (Z.of_nat k + 1) 500 (store w) =
  (Ok (take 500 (drop k evs) ++ take (500 - length (drop k evs)) extra), store w).
Proof.
  intros Hlog Hk. cbn [EventsFrom memory_repository]. unfold mem_EventsFrom. fold (log w).
  assert (length (log w) = (length evs + length extra)%nat) as Hlen by (rewrite Hlog, length_app; done).
  replace (Z.of_nat k + 1 <? 1) with false by lia. rewrite Hlen.
  rewrite (proj2 (Z.ltb_ge (Z.of_nat (length evs + length extra)) (Z.of_nat k + 1))) by (clear -Hk; lia).
  replace (Z.to_nat (Z.of_nat k + 1 - 1)) with k by lia.
  rewrite <- take_app, <- (drop_app_le _ extra), <- Hlog by lia. f_equal. f_equal.
  destruct (Z.ltb_spec 500 (Z.of_nat (length (drop k (log w))))) as [_|Hle]; [done|].
  rewrite andb_false_r, take_ge; [done|clear -Hle; lia].
Qed.

Lemma drop_page {A} (xs : list A) k : (k <= length xs)%nat ->
  drop k xs = take 500 (drop k xs) ++ drop (k + length (take 500 (drop k xs))) xs.
Proof.
  intros Hk. rewrite <- (take_drop 500 (drop k xs)) at 1. f_equal. rewrite drop_drop, length_take, length_drop.
  destruct (decide (500 <= length xs - k)%nat); [f_equal; lia|rewrite !drop_ge; [done|lia..]].
Qed.

Lemma replay_loop_all fuel evs extra k res res' w w' :
  log w = evs ++ extra -> numbered (log w) -> (k <= length evs)%nat -> (length evs - k < fuel)%nat ->
  replay_all cfg (drop k evs) res w = (Ok res', w') ->
  exists w2, replay_loop cfg fuel (Z.of_nat (length evs)) (Z.of_nat k + 1) res w = (Ok (Some (res', None)), w2) /\
    still w' w2.
Proof.
  revert extra k res w. induction fuel as [|fuel IH]; intros extra k res w Hlog Hn Hk Hf Hall; [lia|].
  cbn [replay_loop]. set (n := length evs) in *. destruct (Z.ltb_spec (Z.of_nat n) (Z.of_nat k + 1)) as [Hlt|Hge].
  { rewrite drop_ge in Hall by (unfold n in *; lia). injection Hall as <- <-. eexists. split; [reflexivity|done]. }
  set (page := take 500 (drop k evs)). set (later := take (500 - length (drop k evs)) extra).
  assert (EventsFrom (Z.of_nat k + 1) 500 (store w) = (Ok (page ++ later), store w)) as HE
    by (apply page_of_log; [done|unfold n in *; lia]).
  rewrite Hlog in Hn. destruct (numbered_page evs extra k 500 Hn Hk) as [Hpage Hlast]. fold page in Hpage, Hlast.
  assert (Forall (fun e => Z.of_nat n < ev_Seq e) later) as Hlater by (apply Forall_take, numbered_extra, Hn).
  assert (0 < length page)%nat as Hpos by (unfold page; rewrite length_take, length_drop; lia).
  pose proof (length_app page later) as Hlp.
  assert (drop k evs = page ++ drop (k + length page) evs) as Hsplit by (by apply drop_page).
  rewrite Hsplit, replay_all_app in Hall. unfold mbind in Hall.
  pose proof (replay_all_log page res w) as (more & Hmore & Hnum).
  destruct (replay_all cfg page res w) as [[res1|e1] w1] eqn:E1; [|done]. cbn [snd] in Hmore, Hnum.
  assert (exists e, last page = Some e) as [e Hle].
  { destruct (last page) as [e|] eqn:El; [by exists e|]. apply last_None in El. rewrite El in Hpos. cbn in Hpos. lia. }
  pose proof (replay_page_all (Z.of_nat n) page later (Z.of_nat k + 1) res res1 w w1 Hpage Hlater E1) as Hrun.
  rewrite Hle, (Hlast e Hle) in Hrun.
  change Engine.page with 500. unfold mbind at 1, mtry, mwrap, repo. rewrite HE.
  assert (mkWorld (store w) (ix w) (replaying w) (ticks w) (polls w) (trace w) = w) as -> by (by destruct w).
  destruct (page ++ later) as [|ev evs']; [cbn in Hlp; lia|].
  set (pl := ev :: evs') in *. unfold mbind at 1. rewrite Hrun.
  destruct (Z.ltb_spec (Z.of_nat (length pl)) 500) as [Hshort|Hlong].
  - assert (drop (k + length page) evs = []) as Hend.
    { apply drop_ge. rewrite Hlp in Hshort. unfold page in *. rewrite length_take, length_drop in *. unfold n in *. lia. }
    rewrite Hend in Hall. injection Hall as <- <-. eexists. split; [reflexivity|done].
  - replace (Z.of_nat (k + length page)) with (Z.of_nat (k + length page)%nat) by done.
    apply (IH (extra ++ more)); [by rewrite Hmore, Hlog, app_assoc|apply Hnum; by rewrite Hlog| | |exact Hall].
    + unfold page. rewrite length_take, length_drop. unfold n in *. lia.
    + lia.
Qed.
End Pages.

(** ** A whole replay *)

Section Whole.
Context `{Sha256} `{BreakClassifier} (cfg1 cfg2 : Config).
Context (Hrules : rules cfg1 = rules cfg2).
Context (Hclock1 : forall n, good_time (clock cfg1 n)) (Hclock2 : forall n, good_time (clock cfg2 n)).

Abbreviation W := (World Store).
(** The operations a log can tell in full: arrivals, and decisions of an
    operator, their text in UTF-8. *)
Definition replayable (o : op) : Prop :=
  match o with OpIngest ls => Forall plain_leg ls | OpResolve _ reason actor => ValidString reason = true /\ ValidString actor = true | _ => False end.

Lemma follows_op T o w : live T w -> replayable o -> follows cfg2 T w (run_op cfg1 o w).
Proof.
  intros Hw Ho. destruct o; cbn [run_op] in *; try done.
  - by apply follows_Ingest.
  - destruct Ho. by apply follows_ResolveBreak.
Qed.

Lemma grows_op o w : replayable o -> extends (log w) (log (run_op cfg1 o w)).
Proof. intros Ho. destruct o; cbn [run_op] in *; try done; [apply grows_Ingest|apply grows_ResolveBreak]. Qed.

Lemma follows_ops T ops w : live T w -> Forall replayable ops ->
  let w' := foldl (fun w o => run_op cfg1 o w) w ops in
  live T w' /\ follows cfg2 T w w' /\ extends (log w) (log w').
Proof.
  intros Hw Hops. revert w Hw. induction Hops as [|o ops Ho _ IH]; intros w Hw; cbn [foldl].
  { split_and!; [done|by apply follows_still|apply extends_refl]. }
  pose proof (follows_op T o w Hw Ho) as Hf. pose proof (follows_live _ _ _ _ Hw Hf) as Hw1.
  destruct (IH _ Hw1) as (Hl & Hf' & He). split_and!; [done|by eapply follows_trans|].
  eapply extends_trans; [by apply grows_op|done].
Qed.

(** The prologue of a replay, over the in-memory store. *)
Lemma replay_start_runs from (w : W) : exists j n,
  replay_start cfg2 from w = (Ok (Z.of_nat (length (log w))),
    mkWorld (mkStore ∅ ∅ ∅ ∅ (log w ++ [set_Seq (Z.of_nat (length (log w)) + 1)
      (event EvReplayStarted (clock cfg2 (ticks w)) "replay" j)]))
      (NewIndex (ttl (ix w))) (replaying w) n (polls w) (trace w)).
Proof. by eexists _, _. Qed.

(** The log of a live engine, replayed from its start, rebuilds its state. *)
Lemma run_Replay_all (T : Duration) (w : W) :
  live T w -> numbered (log w) -> follows cfg2 T (mkWorld NewStore (NewIndex T) false 0 0 []) w -> exists out w',
    Replay cfg2 1 w = (Ok (Some (out, None)), w') /\ same_state (store w) (store w') /\ ix w' = ix w /\ replaying w' = false.
Proof.
  intros (_ & Ht & _) Hn (new & Hlog & F). cbn in Hlog. subst new.
  unfold Replay. cbv zeta. replace (if 1 <? 1 then 1 else 1) with 1 by done.
  destruct (replay_start_runs 1 w) as (j & n & Hstart). unfold mbind at 1, mtry. rewrite Hstart. rewrite Ht.
  unfold mbind at 1, set_replaying at 1, mmodify. cbn [store ix ticks polls trace].
  set (evs := log w) in *. set (extra := [_]). set (w1 := mkWorld _ _ true n (polls w) (trace w)).
  assert (Hsim : sim T (mkWorld NewStore (NewIndex T) false 0 0 []) w1) by (constructor; by try constructor).
  destruct (F w1 (mkReplayResult 1 (Z.of_nat (length evs)) 0 0 0 0 0) Hsim) as (res' & E & Hsim').
  destruct (replay_all cfg2 evs _ w1) as [r w2] eqn:Er. cbn [fst snd] in E, Hsim'. subst r.
  destruct (replay_loop_all cfg2 (1 + Z.to_nat (Z.of_nat (length evs) - 1 + 1)) evs extra 0
    (mkReplayResult 1 (Z.of_nat (length evs)) 0 0 0 0 0) res' w1 w2) as (w3 & E3 & Hst3 & Hix3 & _).
  - done.
  - change (log w1) with (evs ++ extra). by apply numbered_snoc.
  - lia.
  - lia.
  - exact Er.
  - change (Z.of_nat 0 + 1) with 1 in E3. unfold mbind. rewrite E3.
    eexists _, _. split; [reflexivity|]. cbn. rewrite Hst3, Hix3. destruct Hsim' as [Hss Hi _ _ _ _].
    by split_and!; [|symmetry|].
Qed.
End Whole.
