(* ===== verification/Service.v ===== *)
(** * The service

    cmd/recon-stream/main.go: how the engine is started from the configuration,
    what the consumer and the sweeper do with it, and their interleaving. The
    engine's mutex makes every call atomic, so the service runs as a sequence of
    turns of the consumer loop, ticks of the sweeper and requests of the API. *)

From S2P Require Config.
From S2P Require Export Kafka EngineFacts MemoryStore Postgres.

Local Open Scope recon_scope.

(** [run]: the store the settings name, over the embedded migrations; Postgres
    is at [d]. *)
Definition open_store {DB Tx} `{!Database DB Tx} (files : EmbedFS) (c : Config.Config) (d : DB) : result (Store + DB) :=
  if bool_decide (Config.cf_Store c = Config.StorePostgres) then
    match mwrap "postgres: " (Open (All files) (Config.PostgresDSN c)) d with
    | (Ok _, d') => Ok (inr d')
    | (Err e, _) => Err e
    end
  else Ok (inl NewStore).

Section Service.
Context `{Sha256} `{BreakClassifier} {S : Type} `{RepositoryLaws S}.

Abbreviation W := (World S).

(** ** Starting the engine *)

(** The engine's settings, from the service's. *)
Definition engine_config (c : Config.Config) (h : Hooks) (clk : nat -> Time) (ctx : nat -> option error)
  : Config := mkConfig (Config.cf_Rules c) h clk ctx.

(** [run]: [NewEngine] and [Rebuild] over the opened store. *)
Definition start_engine (c : Config.Config) (h : Hooks) (clk : nat -> Time) (ctx : nat -> option error)
    (s : S) : result W :=
  let cfg := engine_config c h clk ctx in
  res_bind (NewEngine cfg s (Config.WindowTTL c)) (fun w =>
    match Rebuild cfg w with
    | (Ok _, w') => Ok w'
    | (Err e, _) => Err e
    end).

(** The same index with another window. *)
Definition with_ttl (t : Duration) (i : Index) : Index :=
  mkIndex t (byKey i) (byRef i) (byBatch i) (byID i).

Lemma state_inv_ttl r U v i t : state_inv r U v i -> state_inv r U v (with_ttl t i).
Proof. intros [? [] ? ? ? ? ? ? ?]. by constructor. Qed.

(** A service that starts over the store of a consistent engine, with the same
    rules, goes on where that engine was; it fails to start only if the open
    legs cannot be read. *)
Lemma start_engine_spec cfg U c h clk ctx (w : W) : Config.config_ok c -> world_inv cfg U w ->
  rules cfg = Config.cf_Rules c ->
  match start_engine c h clk ctx (store w) with
  | Ok w' => world_inv (engine_config c h clk ctx) U w' /\ view (store w') = view (store w) /\
      ix w' = with_ttl (Config.WindowTTL c) (ix w)
  | Err e => exists e', (OpenLegs (store w)).1 = Err e' /\ e = ErrWrap "load open legs: " e' ""
  end.
Proof.
  intros [_ _ _ Httl _ _ Hrules] [Hok Hi] Heq. unfold start_engine, NewEngine. cbn [rules engine_config].
  rewrite (proj2 (Rules_Validate_ok _) Hrules). replace (Config.WindowTTL c <=? 0) with false by lia.
  cbn [res_bind]. set (cfg' := engine_config c h clk ctx). set (w0 := mkWorld _ _ _ _ _ _).
  rewrite Heq in Hi. apply (state_inv_ttl _ _ _ _ (Config.WindowTTL c)) in Hi.
  pose proof (run_Rebuild cfg' U w0 _ Hok Hi eq_refl) as Hrun. unfold run in Hrun.
  assert (forall e, (Rebuild cfg' w0).1 = Err e ->
    exists e', (OpenLegs (store w)).1 = Err e' /\ e = ErrWrap "load open legs: " e' "") as Herr.
  { intros e. unfold Rebuild, mbind, mwrap, repo. cbn [store w0].
    destruct (OpenLegs (store w)) as [[ls|e'] s']; [done|]. intros [= <-]. by exists e'. }
  destruct (Rebuild cfg' w0) as [[[]|e] w']; cbn [fst snd] in *; [|by apply Herr].
  destruct Hrun as (Hok' & Hv & Hix & _). split_and!; [|done|done]. constructor; [done|]. by rewrite Hv, Hix.
Qed.

Context (cfg : Config).

(** ** The handler and the sweeper *)

(** The handler [run] gives the source. *)
Definition kafka_handler (legs : list Leg) : M W unit :=
  let! r := Ingest cfg legs in
  match r with
  | (_, Some e) => mfail e
  | (_, None) => mret tt
  end.

(** One tick of [sweeper]; a failed sweep is logged and forgotten. *)
Definition sweeper_tick : M W unit :=
  let! r := mtry (Sweep cfg) in
  mret tt.

(** ** Interleavings *)

(** What happens next: a turn of the consumer, a tick, or a request. *)
Inductive happening : Type :=
  | Consume
  | Tick
  | Request (o : op).

Context {C : Type} `{KafkaLaws C} (sourceOf : gmap string string) (ctx_err : nat -> option error).

Abbreviation K := (Consumer C W).

Definition with_engine (f : W -> W) (k : K) : K :=
  mkConsumer (k_client k) (f (k_state k)) (k_polls k) (k_commits k).

(** The turns the consumer took, and where it all led; nothing more happens
    once the consumer has returned, which stops the service. *)
Fixpoint run_service (hs : list happening) (k : K) : list Turn * K :=
  match hs with
  | [] => ([], k)
  | Consume :: hs' =>
      match run_turn sourceOf ctx_err kafka_handler k with
      | (Ok (TurnReturn _ _ as t), k') => ([t], k')
      | (Ok t, k') => let '(ts, k2) := run_service hs' k' in (t :: ts, k2)
      | (Err _, k') => ([], k')
      end
  | Tick :: hs' => run_service hs' (with_engine (fun w => (sweeper_tick w).2) k)
  | Request o :: hs' => run_service hs' (with_engine (run_op cfg o) k)
  end.

(** ** What a commit means *)

Variable U : gset string.
Context (Hsane : sane_config cfg) (Hnc : no_collisions U).

Abbreviation dec r := (Kafka.decode r (source_of sourceOf r)).

Definition record_in_scope (r : KRecord) : Prop := forall l, dec r = Ok l -> leg_in_scope U l.

(** The record is undecodable, its leg is stored, or it is among [failed]. *)
Definition accounted (failed : list KRecord) (w : W) (r : KRecord) : Prop :=
  match dec r with Ok l => stored w (AssignID l) | Err _ => True end \/ r ∈ failed.

Definition happening_in_scope (h : happening) : Prop :=
  match h with Request o => op_in_scope U o /\ is_replay o = false | _ => True end.

Lemma accounted_weaken f f' w w' r : f ⊆ f' -> same_life w w' -> accounted f w r -> accounted f' w' r.
Proof.
  intros Hf Hl [Hd|Hr]; [left|by right; apply Hf]. destruct (dec r); [|done]. by eapply stored_life.
Qed.

(** The legs the handler was given are stored when it succeeds. *)
Lemma decoded_valid r l : dec r = Ok l -> Validate l = (l, Ok tt).
Proof.
  unfold Kafka.decode. destruct (res_bind _ _) as [l0|]; [|done].
  destruct (Validate _) as [l1 [[]|]] eqn:E; [|done]. intros [= <-].
  apply Validate_sound in E as [Hwf _]. by apply Validate_wf.
Qed.

Lemma validate_batch_decoded i ls : (forall l, l ∈ ls -> Validate l = (l, Ok tt)) ->
  validate_batch i ls = (AssignID <$> ls, None).
Proof.
  revert i. induction ls as [|l ls IH]; intros i Hv; cbn [validate_batch]; [done|].
  rewrite Hv by left. rewrite IH; [done|]. intros l' Hl'. apply Hv. by right.
Qed.

Lemma kafka_handler_after ls w : Forall (leg_in_scope U) ls -> world_inv cfg U w ->
  after cfg U same_life w (kafka_handler ls w).2.
Proof.
  intros Hls Hw. assert (keeps cfg U same_life (kafka_handler ls)) as Hk; [|exact (Hk w Hw)].
  assert (step_rel cfg U (S := S) same_life) as HR by (by apply life_step_rel).
  apply keeps_bind; [done|by apply keeps_Ingest|]. intros [b [e|]]; [|by apply keeps_ret].
  intros w1 Hw1. by apply after_refl.
Qed.

Lemma kafka_handler_stored ls w w' : Forall (leg_in_scope U) ls ->
  (forall l, l ∈ ls -> Validate l = (l, Ok tt)) -> world_inv cfg U w ->
  kafka_handler ls w = (Ok tt, w') -> forall l, l ∈ ls -> stored w' (AssignID l).
Proof.
  intros Hls Hv Hw Hh l Hl. pose proof (Ingest_stored cfg U Hsane Hnc ls w Hls Hw) as Hst.
  unfold run in Hst. unfold kafka_handler, mbind in Hh.
  destruct (Ingest cfg ls w) as [[[b [e|]]|e] w1]; try done. injection Hh as <-.
  destruct Hst as [_ Hst]. specialize (Hst b _ eq_refl (validate_batch_decoded 0 ls Hv)).
  rewrite Forall_forall in Hst. apply Hst, list_elem_of_fmap. eauto.
Qed.

(** The consumer's state between turns: the engine is consistent, and every
    record that is committed, or that the next commit covers, is accounted for. *)
Record consumer_inv (failed : list KRecord) (k : K) : Prop := {
  ci_engine : world_inv cfg U (k_state k);
  ci_committed : forall r, r ∈ committed (k_client k) -> accounted failed (k_state k) r;
  ci_pending : forall r, r ∈ uncommitted (k_client k) -> accounted failed (k_state k) r
}.

Lemma consumer_inv_engine failed k f : (forall w, world_inv cfg U w -> after cfg U same_life w (f w)) ->
  consumer_inv failed k -> consumer_inv failed (with_engine f k).
Proof.
  intros Hf [He Hc Hp]. destruct (Hf _ He) as [He' Hl].
  constructor; [done|intros r Hr..]; (eapply accounted_weaken; [done|exact Hl|auto]).
Qed.

(** A turn keeps the accounts; a turn that fails adds its records to the failed
    ones; the last turn may leave polled records uncommitted. *)
Lemma consumer_turn failed k t k' : consumer_inv failed k ->
  turn_effect sourceOf kafka_handler k t k' -> (forall r, r ∈ turn_records t -> record_in_scope r) ->
  world_inv cfg U (k_state k') /\
  (forall r, r ∈ committed (k_client k') -> accounted (failed ++ failed_records [t]) (k_state k') r) /\
  ((forall recs e, t <> TurnReturn recs e) -> consumer_inv (failed ++ failed_records [t]) k').
Proof.
  intros [He Hc Hp] Hturn Hscope. set (failed' := failed ++ failed_records [t]).
  assert (forall recs, turn_records t = recs -> Forall (leg_in_scope U) (decode_all sourceOf recs).1) as Hls.
  { intros recs Heq. apply Forall_forall. intros l (r & Hr & Hd)%elem_of_legs_of. apply (Hscope r); [by rewrite Heq|done]. }
  assert (after cfg U same_life (k_state k) (k_state k')) as [He' Hl].
  { assert (after cfg U same_life (k_state k) (k_state k)) as Hrefl by (by apply after_refl; [apply life_step_rel|]).
    assert (forall recs r, turn_records t = recs ->
      kafka_handler (decode_all sourceOf recs).1 (k_state k) = (r, k_state k') ->
      after cfg U same_life (k_state k) (k_state k')) as Hhandler.
    { intros recs r Heq Hh. pose proof (kafka_handler_after _ _ (Hls recs Heq) He) as Ha. by rewrite Hh in Ha. }
    destruct t as [recs e| |recs|recs ok]; cbn [turn_effect] in Hturn.
    - destruct Hturn as [_ [->|[e' Hh]]]; [done|by eapply (Hhandler recs)].
    - destruct Hturn as (_ & _ & ->). done.
    - destruct Hturn as (_ & _ & e' & Hh). by eapply (Hhandler recs).
    - destruct Hturn as (_ & _ & [[_ ->]|Hh]); [done|by eapply (Hhandler recs)]. }
  assert (forall r, accounted failed (k_state k) r -> accounted failed' (k_state k') r) as Hkeep.
  { intros r. apply accounted_weaken; [apply list_subseteq_app_l|]; done. }
  assert (forall r, r ∈ committed (k_client k) ++ uncommitted (k_client k) -> accounted failed' (k_state k') r) as Hold.
  { intros r [Hr|Hr]%elem_of_app; auto. }
  split; [done|]. destruct t as [recs e| |recs|recs ok]; cbn [turn_effect turn_records] in Hturn, Hscope.
  - destruct Hturn as [-> _]. split; [auto|]. intros Hno. by destruct (Hno recs e).
  - destruct Hturn as (Hcm & Hpm & _). rewrite Hcm. split; [auto|]. intros _.
    constructor; [done|by rewrite Hcm; auto|auto].
  - destruct Hturn as (Hcm & Hpm & _). rewrite Hcm. split; [auto|]. intros _.
    constructor; [done|by rewrite Hcm; auto|]. intros r [Hr|Hr]%Hpm%elem_of_app; [auto|]. right.
    subst failed'. apply elem_of_app. right. cbn. by rewrite app_nil_r.
  - destruct Hturn as (Hcm & Hpm & Hh).
    assert (forall r, r ∈ recs -> accounted failed' (k_state k') r) as Hnew.
    { intros r Hr. left. destruct (dec r) as [l|] eqn:Ed; [|done].
      assert (l ∈ (decode_all sourceOf recs).1) as Hl1 by (apply elem_of_legs_of; eauto).
      destruct Hh as [[Hn _]|Hh]; [by rewrite Hn in Hl1; apply not_elem_of_nil in Hl1|].
      refine (kafka_handler_stored _ _ _ (Hls recs eq_refl) _ He Hh l Hl1).
      intros l' (r' & _ & Hd')%elem_of_legs_of. by eapply decoded_valid. }
    assert (forall r, r ∈ committed (k_client k') \/ r ∈ uncommitted (k_client k') -> accounted failed' (k_state k') r) as Hall.
    { rewrite Hcm. intros r [Hr|Hr%Hpm]; destruct ok; rewrite ?elem_of_app in Hr.
      - destruct Hr as [Hr|[Hr|Hr]]; auto.
      - auto.
      - by apply not_elem_of_nil in Hr.
      - destruct Hr; auto. }
    split; [auto|]. intros _. constructor; auto.
Qed.

Lemma run_service_accounts hs failed k ts k' : consumer_inv failed k ->
  run_service hs k = (ts, k') -> Forall happening_in_scope hs ->
  (forall t r, t ∈ ts -> r ∈ turn_records t -> record_in_scope r) ->
  world_inv cfg U (k_state k') /\
  forall r, r ∈ committed (k_client k') -> accounted (failed ++ failed_records ts) (k_state k') r.
Proof.
  revert failed k ts. induction hs as [|h hs IH]; intros failed k ts Hk Hrun Hhs Hts; cbn [run_service] in Hrun.
  { injection Hrun as <- <-. cbn. rewrite app_nil_r. split; apply Hk. }
  apply Forall_cons in Hhs as [Hh Hhs]. destruct h as [| |o].
  - destruct (run_turn_effect sourceOf ctx_err kafka_handler k) as (t & k1 & E & Hturn). rewrite E in Hrun.
    assert (exists ts', ts = t :: ts') as [ts' Ets].
    { destruct t; try (by injection Hrun as <- <-; eexists); destruct (run_service hs k1) as [ts2 k2];
        injection Hrun as <- <-; by eexists. }
    destruct (consumer_turn failed k t k1 Hk Hturn) as (He1 & Hc1 & Hk1).
    { intros r. apply Hts. rewrite Ets. by left. }
    assert ((exists recs e, t = TurnReturn recs e /\ ts' = [] /\ k' = k1) \/
            (forall recs e, t <> TurnReturn recs e) /\ run_service hs k1 = (ts', k')) as [(recs & e & -> & -> & ->)|[Hno Hrest]].
    { subst ts. destruct t as [recs e| |recs|recs ok]; [left; injection Hrun as <- <-; by repeat eexists|right..];
        (destruct (run_service hs k1) as [ts2 k2]; injection Hrun as <- <-; by split). }
    + subst ts. split; [done|]. intros r Hr. by apply Hc1.
    + destruct (IH _ _ _ (Hk1 Hno) Hrest Hhs) as [He2 Hc2].
      { intros t2 r Ht2. apply Hts. rewrite Ets. by right. }
      split; [done|]. intros r Hr. specialize (Hc2 r Hr). rewrite <- app_assoc, <- failed_records_cons in Hc2. by rewrite Ets.
  - eapply IH; [|exact Hrun|done|done]. apply consumer_inv_engine; [|done]. intros w Hw.
    assert (keeps cfg U same_life sweeper_tick) as Ht; [|exact (Ht w Hw)].
    assert (step_rel cfg U (S := S) same_life) as HR by (by apply life_step_rel).
    apply keeps_bind; [done|by apply keeps_try, keeps_expire|intros _; by apply keeps_ret].
  - eapply IH; [|exact Hrun|done|done]. apply consumer_inv_engine; [|done]. intros w Hw.
    destruct Hh. by apply op_after; [..|apply life_step_rel| | |].
Qed.
End Service.
