(* ===== verification/Shutdown.v ===== *)
(** * Running and stopping

    cmd/recon-stream/main.go, from the goroutines of [run] to its result: the
    sweeper's loop, what each goroutine hands to the group, and what the group's
    error becomes. The group, of a library, is a parameter with the law its
    documentation gives. *)

From S2P Require Export Service.

Local Open Scope recon_scope.

(** ** The sweeper's loop *)

Section Sweeper.
Context `{Sha256} `{BreakClassifier} {S : Type} `{Repository S} (cfg : Config).
Abbreviation W := (World S).

(** What wakes the [select]; when both are ready either may be taken. *)
Inductive woken : Type :=
  | CtxDone
  | TickerFired.

(** The loop, over what wakes it: whether it has returned (nil), or still waits. *)
Fixpoint sweeper (ws : list woken) : M W bool :=
  match ws with
  | [] => mret false
  | CtxDone :: _ => mret true
  | TickerFired :: ws => sweeper_tick cfg ;;! sweeper ws
  end.
End Sweeper.

(** ** The goroutines *)

(** [srv.ListenAndServe]'s error. *)
Definition listen_result (r : error) : option error :=
  if errors_Is r ErrServerClosed then None else Some (ErrWrap "http: " r "").
(** [source.Run]'s error; Run never returns nil. *)
Definition source_result (r : error) : option error := if errors_Is r Canceled then None else Some r.

(** What has become of the goroutines when all have returned: the listener, the
    drain, the sweeper's nil, and the source, if there is one. *)
Record Outcomes : Type := mkOutcomes { oc_listen : error; oc_drain : option error; oc_source : option error }.
Definition group_results (o : Outcomes) : list (option error) :=
  [listen_result (oc_listen o); oc_drain o; None] ++
  match oc_source o with Some r => [source_result r] | None => [] end.

Section Group.
(** [errgroup]: given the results in the order in which the functions returned,
    [Wait]'s error. *)
Variable Wait : list (option error) -> option error.
(** "Wait blocks until all function calls from the Go method have returned, then
    returns the first non-nil error (if any) from them." *)
Hypothesis Wait_first : forall rs, Wait rs = head (omap id rs).

(** The end of [run]: a group stopped by cancellation is no error. *)
Definition run_result (rs : list (option error)) : option error :=
  match Wait rs with
  | Some e => if errors_Is e Canceled then None else Some e
  | None => None
  end.

(** A stop that went as planned, in whatever order the goroutines returned, is
    exit status 0: the listener was closed, the drain had time enough, and the
    source returned because of the cancellation. *)
Lemma clean_stop o rs : rs ≡ₚ group_results o ->
  errors_Is (oc_listen o) ErrServerClosed = true -> oc_drain o = None ->
  (forall r, oc_source o = Some r -> errors_Is r Canceled = true) -> run_result rs = None.
Proof.
  intros Hrs Hl Hd Hs. unfold run_result. rewrite Wait_first.
  assert (forall r, r ∈ rs -> r = None) as Hnone.
  { intros r. rewrite Hrs. unfold group_results, listen_result, source_result. rewrite Hl, Hd.
    destruct (oc_source o) as [e|]; [rewrite (Hs e) by done|]; set_solver. }
  replace (omap id rs) with (@nil error); [done|]. clear Hrs. induction rs as [|r rs IH]; [done|]. cbn.
  rewrite (Hnone r) by left. apply IH. intros r' Hr'. apply Hnone. by right.
Qed.

(** A goroutine that failed, other than by cancellation, is not forgotten. *)
Lemma failure_reported rs e : Some e ∈ rs -> (forall e', Some e' ∈ rs -> errors_Is e' Canceled = false) ->
  exists e', run_result rs = Some e' /\ Some e' ∈ rs.
Proof.
  intros He Hno. unfold run_result. rewrite Wait_first.
  assert (exists e', head (omap id rs) = Some e' /\ Some e' ∈ rs) as (e' & -> & Hin).
  { clear Hno. induction rs as [|[e1|] rs IH]; cbn; [by apply elem_of_nil in He|by exists e1; split; [done|left]|].
    apply elem_of_cons in He as [?|He]; [done|]. destruct (IH He) as (e' & Hh & Hin). exists e'. split; [done|by right]. }
  exists e'. by rewrite (Hno e' Hin).
Qed.
End Group.
