(* ===== verification/Tracing.v ===== *)
(** * Setting up tracing

    internal/observability/tracing.go. The OpenTelemetry libraries are parameters:
    what they build, and whether building it fails. What they keep for the whole
    process, the tracer provider and the propagators, is the state. *)

From S2P Require Export GoString Prelude.

Local Open Scope recon_scope.

(** The options of the exporter, and the propagators. *)
Inductive ExporterOption : Type :=
  | WithEndpoint (endpoint : string)
  | WithInsecure.
Inductive Propagator : Type :=
  | TraceContext
  | Baggage.

Section Tracing.
Context {Exporter Res Provider : Type}.
Context (otlptracehttp_New : list ExporterOption -> result Exporter).
(** [resource.Merge] of the default resource and the service's attributes. *)
Context (resource_Merge : list (string * string) -> result Res).
Context (NewTracerProvider : Exporter -> Res -> Provider) (noop_NewTracerProvider : Provider).

(** The globals of package otel; no provider until one is set. *)
Record Globals : Type := mkGlobals { gl_Provider : option Provider; gl_Propagators : list Propagator }.
Definition SetTextMapPropagator (ps : list Propagator) : M Globals unit :=
  mmodify (fun g => mkGlobals (gl_Provider g) ps).
Definition SetTracerProvider (tp : Provider) : M Globals unit :=
  mmodify (fun g => mkGlobals (Some tp) (gl_Propagators g)).

(** The returned shutdown: nothing to do, or the provider's. *)
Inductive Shutdown : Type :=
  | ShutdownNothing
  | ShutdownProvider (tp : Provider).

Definition lift_result {S A} (r : result A) : M S A := fun s => (r, s).

Definition SetupTracing (service endpoint : string) (insecure : bool) : M Globals (Provider * Shutdown) :=
  SetTextMapPropagator [TraceContext; Baggage] ;;!
  if bool_decide (endpoint = "") then
    let tp := noop_NewTracerProvider in
    SetTracerProvider tp ;;!
    mret (tp, ShutdownNothing)
  else
    let opts := [WithEndpoint endpoint] in
    let opts := if insecure then opts ++ [WithInsecure] else opts in
    let! exp := mwrap "otlp exporter: " (lift_result (otlptracehttp_New opts)) in
    let! res := mwrap "otel resource: " (lift_result (resource_Merge [("service.name", service)])) in
    let tp := NewTracerProvider exp res in
    SetTracerProvider tp ;;!
    mret (tp, ShutdownProvider tp).

(** Without an endpoint, tracing cannot fail to start, and there is nothing to
    shut down. With one, it installs the provider that it returns, or fails and
    leaves the process with the provider it had. *)
Lemma SetupTracing_spec service endpoint insecure g :
  let '(r, g') := SetupTracing service endpoint insecure g in
  gl_Propagators g' = [TraceContext; Baggage] /\
  match r with
  | Ok (tp, stop) => gl_Provider g' = Some tp /\
      stop = (if bool_decide (endpoint = "") then ShutdownNothing else ShutdownProvider tp) /\
      (endpoint = "" -> tp = noop_NewTracerProvider)
  | Err _ => gl_Provider g' = gl_Provider g /\ endpoint <> ""
  end.
Proof.
  unfold SetupTracing, mbind, mwrap, lift_result, mmodify. cbn. case_bool_decide as He; [by cbn|].
  destruct (otlptracehttp_New _) as [exp|e]; [|by cbn].
  destruct (resource_Merge _) as [res|e]; by cbn.
Qed.
End Tracing.
Arguments Globals : clear implicits.
Arguments Shutdown : clear implicits.
