(* ===== verification/Main.v ===== *)
(** * The process

    cmd/recon-stream/main.go from the first line of [run] to its last: what is
    acquired, in which order, what each failure returns, and what the deferred
    calls release. The parts are those of the other files; signals, the listener
    and the libraries are the operating system's and other programs'. *)

From S2P Require Export Shutdown Tracing Logger.

Local Open Scope recon_scope.

(** What [run] must give back: the signal handler, the tracer provider, the
    store and the consumer. *)
Inductive Resource : Type :=
  | Signals
  | TracerProvider
  | StoreHandle
  | ConsumerHandle.
#[export] Instance Resource_eq_dec : EqDecision Resource.
Proof. solve_decision. Defined.

Inductive Action : Type :=
  | Acquire (r : Resource)
  | Release (r : Resource)
  | Logged (ln : LogLine).

(** ** The process's state and defers *)

Section Process.
Context {Provider : Type}.

Record Process : Type := mkProcess { pc_otel : Globals Provider; pc_actions : list Action }.

Definition act (a : list Action) : M Process unit :=
  mmodify (fun p => mkProcess (pc_otel p) (pc_actions p ++ a)).
Definition on_otel {A} (m : M (Globals Provider) A) : M Process A := fun p =>
  let '(r, g) := m (pc_otel p) in (r, mkProcess g (pc_actions p)).
(** [defer]: the call is made when [m] returns, whatever it returns. *)
Definition defer {A} (release : list Action) (m : M Process A) : M Process A := fun p =>
  let '(r, p') := m p in (r, (act release p').2).
End Process.
Arguments Process : clear implicits.

(** The server of net/http, as [run] configures it. *)
Record HTTPServer : Type := mkHTTPServer {
  Addr : string;
  ReadHeaderTimeout : Duration;
  ReadTimeout : Duration;
  WriteTimeout : Duration;
  IdleTimeout : Duration
}.
Definition http_server (c : Config.Config) : HTTPServer :=
  mkHTTPServer (Config.HTTPAddr c) (10 * Second) (60 * Second) (60 * Second) (120 * Second).

Section Main.
Context `{Sha256} `{BreakClassifier} {DB Tx : Type} `{!Database DB Tx}.
Context {Exporter Res Provider : Type}.
Context (otlptracehttp_New : list ExporterOption -> result Exporter)
        (resource_Merge : list (string * string) -> result Res)
        (NewTracerProvider : Exporter -> Res -> Provider) (noop_NewTracerProvider : Provider).
Context {Client : Type} (connect : KafkaConfig -> result Client).
(** The process's environment, the embedded migrations, the database, the clock
    and the context of the start, and the metrics' callbacks. *)
Context (lookup : string -> option string) (files : EmbedFS) (db : DB).
Context (h : Hooks) (clk : nat -> Time) (ctx : nat -> option error) (version : string).

(** What is started when everything is in place: the server, the window's owner
    and, with a consumer, its source. *)
Record Started : Type := mkStarted {
  st_server : HTTPServer;
  st_engine : World Store + World DB;
  st_consumer : option (Client * gmap string string)
}.

(** What the goroutines return, in the order in which they do, and errgroup. *)
Context (goroutines : Started -> list (option error)) (Wait : list (option error) -> option error).

Definition log_line (c : Config.Config) (level : Z) (msg : string) (a : list (string * Attr)) : list Action :=
  Logged <$> slog (NewLogger (Config.LogLevel c)) Background level msg a.
Definition bool_text (b : bool) : string := if b then "true" else "false".
Definition error_attr (e : option error) : Attr :=
  AttrStr (match e with None => "null" | Some e => error_text e end).

(** The store is opened, and over it the engine: [NewEngine] and [Rebuild]. *)
Definition engine_over (c : Config.Config) (s : Store + DB) : result (World Store + World DB) :=
  match s with
  | inl s => res_bind (start_engine (S := Store) c h clk ctx s) (fun w => Ok (inl w))
  | inr d => res_bind (start_engine (S := DB) (H1 := postgres_repository) c h clk ctx d) (fun w => Ok (inr w))
  end.

Definition open_legs (w : World Store + World DB) : Z :=
  Z.of_nat (match w with inl w => Len (ix w) | inr w => Len (ix w) end).

Definition engine_ready (c : Config.Config) (w : World Store + World DB) : list Action :=
  log_line c LevelInfo "engine ready"
    [("store", AttrStr (Config.cf_Store c)); ("open_legs", AttrInt (open_legs w));
     ("window_ttl", AttrStr (Duration_String (Config.WindowTTL c)));
     ("tolerance_bps", AttrInt (ToleranceBps (Config.cf_Rules c)));
     ("tolerance_abs_minor", AttrInt (ToleranceAbsMinor (Config.cf_Rules c)));
     ("value_date_window_days", AttrInt (ValueDateWindowDays (Config.cf_Rules c)));
     ("version", AttrStr version)].

(** The source section; what it logs spells the brokers and the topics. *)
Definition consumer (c : Config.Config) : M (Process Provider) (option (Client * gmap string string)) :=
  if Config.KafkaEnabled c then
    let! ks := lift_result
      (Kafka.New connect (mkKafkaConfig (Config.KafkaBrokers c) (Config.KafkaGroup c) (Config.KafkaTopics c) 0)) in
    act (Acquire ConsumerHandle ::
         log_line c LevelInfo "kafka consumer configured"
           [("brokers", AttrStr (strings_Join (Config.KafkaBrokers c) " ")); ("group", AttrStr (Config.KafkaGroup c));
            ("topics", AttrStr (strings_Join (Config.KafkaTopics c) " "))]) ;;!
    mret (Some ks)
  else mret None.

(** The goroutines have all returned when [g.Wait] does; the source's closes it
    on its way out. *)
Definition serve (c : Config.Config) (st : Started) : M (Process Provider) unit :=
  let err := run_result Wait (goroutines st) in
  act ((if st_consumer st then [Release ConsumerHandle] else []) ++
       log_line c LevelInfo "stopped" [("error", error_attr err)]) ;;!
  match err with
  | None => mret tt
  | Some e => mfail e
  end.

Definition run : M (Process Provider) unit :=
  let! c := lift_result (Config.Load lookup) in
  act [Acquire Signals] ;;!
  defer [Release Signals] (
    let! tracing := on_otel (SetupTracing otlptracehttp_New resource_Merge NewTracerProvider noop_NewTracerProvider
                               (Config.ServiceName c) (Config.OTelEndpoint c) (Config.OTelInsecure c)) in
    act [Acquire TracerProvider] ;;!
    defer [Release TracerProvider] (
      let! s := lift_result (open_store files c db) in
      act [Acquire StoreHandle] ;;!
      defer [Release StoreHandle] (
        let! w := lift_result (engine_over c s) in
        act (engine_ready c w) ;;!
        let! ks := consumer c in
        serve c (mkStarted (http_server c) w ks)))).

(** [main]: the exit status. *)
Definition main (p : Process Provider) : Z := match (run p).1 with Ok _ => 0 | Err _ => 1 end.

(** ** What is acquired and released *)

Definition acquired (a : list Action) : list Resource :=
  omap (fun x => match x with Acquire r => Some r | _ => None end) a.
Definition released (a : list Action) : list Resource :=
  omap (fun x => match x with Release r => Some r | _ => None end) a.

(** The resources held after some actions, the latest first; a release is of the
    latest one. *)
Fixpoint held (a : list Action) (rs : list Resource) : option (list Resource) :=
  match a with
  | [] => Some rs
  | Acquire r :: a => held a (r :: rs)
  | Release r :: a => match rs with
                      | r' :: rs => if decide (r' = r) then held a rs else None
                      | [] => None
                      end
  | Logged _ :: a => held a rs
  end.

Lemma held_app a b rs : held (a ++ b) rs = match held a rs with Some rs' => held b rs' | None => None end.
Proof.
  revert rs. induction a as [|[r|r|ln] a IH]; intros rs; cbn; [done|apply IH| |apply IH].
  destruct rs as [|r' rs]; [done|]. case_decide; [apply IH|done].
Qed.

Lemma held_log c level msg a rs : held (log_line c level msg a) rs = Some rs.
Proof. unfold log_line, slog. by destruct (json_Enabled _ _). Qed.
Lemma acquired_log c level msg a : acquired (log_line c level msg a) = [].
Proof. unfold log_line, slog. by destruct (json_Enabled _ _). Qed.

Definition order : list Resource := [Signals; TracerProvider; StoreHandle; ConsumerHandle].

(** A computation that gives back what it acquires, which is the beginning of [rs]. *)
Definition tidy {A} (rs : list Resource) (m : M (Process Provider) A) : Prop := forall p, exists a,
  pc_actions (m p).2 = pc_actions p ++ a /\ (forall hs, held a hs = Some hs) /\ acquired a `prefix_of` rs.

Lemma tidy_quiet {A} rs (m : M (Process Provider) A) : (forall p, pc_actions (m p).2 = pc_actions p) -> tidy rs m.
Proof. intros Hm p. exists []. rewrite Hm, app_nil_r. split_and!; [done..|apply prefix_nil]. Qed.

(** A step that acquires nothing, and what follows. *)
Lemma tidy_then {A B} rs (m : M (Process Provider) A) (k : A -> M (Process Provider) B) :
  tidy [] m -> (forall a, tidy rs (k a)) -> tidy rs (mbind m k).
Proof.
  intros Hm Hk p. destruct (Hm p) as (a & Ha & Hheld & Hacq). unfold mbind.
  destruct (m p) as [[x|e] p']; cbn in Ha.
  - destruct (Hk x p') as (b & Hb & Hheld' & Hacq'). exists (a ++ b). rewrite Hb, Ha, <- app_assoc.
    split_and!; [done| |].
    + intros hs. by rewrite held_app, Hheld.
    + unfold acquired in *. rewrite omap_app. apply prefix_nil_inv in Hacq as ->. done.
  - exists a. split_and!; [done..|]. apply prefix_nil_inv in Hacq as ->. apply prefix_nil.
Qed.

Lemma tidy_log rs c level msg a : tidy rs (act (log_line c level msg a)).
Proof.
  intros p. eexists. split; [done|]. split; [intros hs; apply held_log|]. rewrite acquired_log. apply prefix_nil.
Qed.

(** An acquisition with its deferred release around the rest. *)
Lemma tidy_defer {A} r rs (m : M (Process Provider) A) : tidy rs m -> tidy (r :: rs) (act [Acquire r] ;;! defer [Release r] m).
Proof.
  intros Hm p. unfold mbind, defer, act, mmodify. set (p1 := mkProcess _ _).
  destruct (Hm p1) as (a & Ha & Hheld & Hacq). destruct (m p1) as [x p']. cbn in *.
  exists (Acquire r :: a ++ [Release r]). rewrite Ha, <- !app_assoc. cbn. split_and!; [done| |].
  - intros hs. rewrite held_app, Hheld. cbn. by rewrite decide_True.
  - unfold acquired. cbn. rewrite omap_app. cbn. rewrite app_nil_r. by apply prefix_cons.
Qed.

Lemma tidy_on_otel {A} (m : M (Globals Provider) A) : tidy [] (on_otel m).
Proof. apply tidy_quiet. intros p. unfold on_otel. by destruct (m _). Qed.

(** The consumer is closed by its goroutine. *)
Lemma tidy_served c w : tidy [ConsumerHandle] (let! ks := consumer c in serve c (mkStarted (http_server c) w ks)).
Proof.
  assert (forall ks p, exists a, pc_actions (serve c (mkStarted (http_server c) w ks) p).2 =
    pc_actions p ++ (if ks then [Release ConsumerHandle] else []) ++ a /\
    (forall hs, held a hs = Some hs) /\ acquired a = []) as Hserve.
  { intros ks p. unfold serve. generalize (run_result Wait (goroutines (mkStarted (http_server c) w ks))).
    intros err. exists (log_line c LevelInfo "stopped" [("error", error_attr err)]). split; [by destruct err|].
    split; [intros hs; apply held_log|apply acquired_log]. }
  intros p. unfold consumer. destruct (Config.KafkaEnabled c).
  - unfold mbind at 1 2, lift_result. destruct (Kafka.New connect _) as [ks|e].
    + cbn -[serve]. match goal with |- context [serve _ _ ?q] => destruct (Hserve (Some ks) q) as (a & -> & Hheld & Hacq) end.
      cbn. rewrite <- app_assoc. eexists. split; [done|]. split.
      * intros hs. cbn. rewrite held_app, held_log. cbn. apply Hheld.
      * unfold acquired in *. cbn. rewrite omap_app. rewrite (acquired_log c). cbn. by rewrite Hacq.
    + exists []. cbn. rewrite app_nil_r. split_and!; [done..|apply prefix_nil].
  - destruct (Hserve None p) as (a & Ha & Hheld & Hacq). exists a. cbn -[serve]. rewrite Ha. cbn.
    split_and!; [done..|]. rewrite Hacq. apply prefix_nil.
Qed.

Lemma run_tidy : tidy order run.
Proof.
  unfold run, order. apply tidy_then; [by apply tidy_quiet|]. intros c. apply tidy_defer.
  apply tidy_then; [apply tidy_on_otel|]. intros tracing. apply tidy_defer.
  apply tidy_then; [by apply tidy_quiet|]. intros s. apply tidy_defer.
  apply tidy_then; [by apply tidy_quiet|]. intros w.
  apply tidy_then; [apply tidy_log|]. intros _. apply tidy_served.
Qed.

(** ** The result *)

Lemma defer_result {A} a (m : M (Process Provider) A) p : (defer a m p).1 = (m p).1.
Proof. unfold defer. by destruct (m p). Qed.

Lemma then_result {A B} (m : M (Process Provider) A) (k : A -> M (Process Provider) B) p b :
  (mbind m k p).1 = Ok b <-> exists a, (m p).1 = Ok a /\ (k a (m p).2).1 = Ok b.
Proof.
  unfold mbind. destruct (m p) as [[a|e] p']; cbn; (split; [|intros (a' & [= <-] & Hk); exact Hk]); [|done].
  intros Hk. by exists a.
Qed.

Lemma then_lift {A B} (r : result A) (k : A -> M (Process Provider) B) p b :
  (mbind (lift_result r) k p).1 = Ok b <-> exists a, r = Ok a /\ (k a p).1 = Ok b.
Proof. apply then_result. Qed.

Lemma then_act {B} a (k : M (Process Provider) B) p b :
  ((act a ;;! k) p).1 = Ok b <-> (k (mkProcess (pc_otel p) (pc_actions p ++ a))).1 = Ok b.
Proof. done. Qed.

Lemma on_otel_result {A} (m : M (Globals Provider) A) p : (on_otel m p).1 = (m (pc_otel p)).1.
Proof. unfold on_otel. by destruct (m _). Qed.

Lemma consumer_result c p ks : (consumer c p).1 = Ok ks <->
  match ks with
  | None => Config.KafkaEnabled c = false
  | Some ks => Config.KafkaEnabled c = true /\ Kafka.New connect
      (mkKafkaConfig (Config.KafkaBrokers c) (Config.KafkaGroup c) (Config.KafkaTopics c) 0) = Ok ks
  end.
Proof.
  unfold consumer. destruct (Config.KafkaEnabled c).
  - unfold mbind, lift_result. destruct (Kafka.New connect _) as [x|e], ks as [ks|]; cbn; (split; [|by intros [_ [= ->]] || done]);
      by intros [= ->].
  - destruct ks as [ks|]; cbn; [|done]. split; [by intros [=]|by intros [[=] _]].
Qed.

Lemma serve_result c st p : (serve c st p).1 = Ok tt <-> run_result Wait (goroutines st) = None.
Proof. unfold serve. by destruct (run_result _ _). Qed.

(** [run] succeeds when every step does, and the group ends without an error. *)
Lemma run_succeeds p : (run p).1 = Ok tt <-> exists c t s w ks,
  Config.Load lookup = Ok c /\
  (SetupTracing otlptracehttp_New resource_Merge NewTracerProvider noop_NewTracerProvider
     (Config.ServiceName c) (Config.OTelEndpoint c) (Config.OTelInsecure c) (pc_otel p)).1 = Ok t /\
  open_store files c db = Ok s /\ engine_over c s = Ok w /\
  match ks with
  | None => Config.KafkaEnabled c = false
  | Some ks => Config.KafkaEnabled c = true /\ Kafka.New connect
      (mkKafkaConfig (Config.KafkaBrokers c) (Config.KafkaGroup c) (Config.KafkaTopics c) 0) = Ok ks
  end /\
  run_result Wait (goroutines (mkStarted (http_server c) w ks)) = None.
Proof.
  unfold run. rewrite then_lift. setoid_rewrite then_act. setoid_rewrite defer_result.
  split.
  - intros (c & Hc & Hrun). apply then_result in Hrun as (t & Ht & Hrun). rewrite on_otel_result in Ht.
    rewrite then_act, defer_result in Hrun. apply then_lift in Hrun as (s & Hs & Hrun).
    rewrite then_act, defer_result in Hrun. apply then_lift in Hrun as (w & Hw & Hrun).
    rewrite then_act in Hrun. apply then_result in Hrun as (ks & Hks & Hrun).
    apply consumer_result in Hks. apply serve_result in Hrun. exists c, t, s, w, ks. by split_and!.
  - intros (c & t & s & w & ks & Hc & Ht & Hs & Hw & Hks & Hr). exists c. split; [done|].
    apply then_result. exists t. rewrite on_otel_result. split; [exact Ht|].
    rewrite then_act, defer_result. apply then_lift. exists s. split; [done|].
    rewrite then_act, defer_result. apply then_lift. exists w. split; [done|].
    rewrite then_act. apply then_result. exists ks. split; [by apply consumer_result|by apply serve_result].
Qed.
End Main.
