(* ===== verification/HttpFacts.v ===== *)
(** * The HTTP API: theorems

    Reads change nothing, refused requests change nothing, every request is
    answered, and what the answer to a batch of legs means. *)

From S2P Require Export EngineFacts Http.

(** ** Errors that are not validation errors *)

Definition plain_error (e : error) : Prop := errors_Is e ErrInvalidLeg = false.

(** A computation whose errors are plain. *)
Definition plain {S A} (m : M S A) : Prop := forall s e s', m s = (Err e, s') -> plain_error e.

Create HintDb plain.

Lemma plain_ret {S A} (a : A) : plain (S := S) (mret a).
Proof. done. Qed.
Lemma plain_get {S} : plain (mget (S := S)).
Proof. done. Qed.
Lemma plain_modify {S} (f : S -> S) : plain (mmodify f).
Proof. done. Qed.
Lemma plain_try {S A} (m : M S A) : plain (mtry m).
Proof. intros s e s'. unfold mtry. by destruct (m s). Qed.
Lemma plain_bind {S A B} (m : M S A) (k : A -> M S B) : plain m -> (forall a, plain (k a)) -> plain (mbind m k).
Proof.
  intros Hm Hk s e s'. unfold mbind. destruct (m s) as [[a|e1] s1] eqn:E; [by apply Hk|].
  intros [= <- <-]. by eapply Hm.
Qed.
Lemma plain_wrap {S A} p (m : M S A) : plain m -> plain (mwrap p m).
Proof.
  intros Hm s e s'. unfold mwrap. destruct (m s) as [[a|e1] s1] eqn:E; [done|].
  intros [= <- <-]. exact (Hm _ _ _ E).
Qed.
#[export] Hint Resolve plain_ret plain_get plain_modify plain_try plain_bind plain_wrap : plain.

Section Plain.
Context `{Sha256} `{BreakClassifier} {S : Type} `{Repository S} (cfg : Config).

Abbreviation W := (World S).

(** The store's errors are its own: none of them wraps [ErrInvalidLeg]. *)
Record plain_store : Prop := {
  plain_Apply cs : plain (Apply cs);
  plain_HasLeg id : plain (HasLeg id);
  plain_LegsByTxnRef ref : plain (LegsByTxnRef ref);
  plain_GetBreak id : plain (GetBreak id)
}.

Context (Hstore : plain_store).

Lemma plain_repo {A} (m : M S A) : plain m -> plain (repo m).
Proof. intros Hm w e w'. unfold repo. destruct (m (store w)) as [r s'] eqn:E. intros [= -> <-]. by eapply Hm. Qed.

Lemma plain_lift {A} (r : result A) : (forall e, r = Err e -> plain_error e) -> plain (lift (S := S) r).
Proof. intros Hr w e w' [= -> <-]. by apply Hr. Qed.

Lemma marshal_time_plain t e : marshal_time t = Err e -> plain_error e.
Proof. unfold marshal_time. by destruct (year_ok t); intros [= <-]. Qed.

Lemma marshal_leg_plain l e : marshal_leg l = Err e -> plain_error e.
Proof.
  unfold marshal_leg. destruct (IsZero _); [done|].
  destruct (marshal_time _) eqn:E; [done|]. intros [= <-]. by eapply marshal_time_plain.
Qed.

Lemma marshal_match_plain m e : marshal_match m = Err e -> plain_error e.
Proof.
  unfold marshal_match. destruct (marshal_time _) eqn:E; [done|]. intros [= <-]. by eapply marshal_time_plain.
Qed.

Lemma marshal_break_plain b e : marshal_break b = Err e -> plain_error e.
Proof.
  unfold marshal_break. destruct (marshal_time (b_OpenedAt b)) eqn:E; cbn [res_bind];
    [|intros [= <-]; by eapply marshal_time_plain].
  destruct (b_ResolvedAt b) as [t|]; [|done]. destruct (marshal_time t) eqn:E2; [done|].
  intros [= <-]. by eapply marshal_time_plain.
Qed.

Lemma marshal_resolution_plain p e : marshal_resolution p = Err e -> plain_error e.
Proof.
  unfold marshal_resolution. destruct (marshal_time _) eqn:E; [done|]. intros [= <-]. by eapply marshal_time_plain.
Qed.

Lemma addEvent_plain typ t agg j cs : (forall e, j = Err e -> plain_error e) ->
  forall e, addEvent typ t agg j cs = Err e -> plain_error e.
Proof.
  intros Hj e. unfold addEvent, NewEvent. destruct j as [j|e']; [done|]. intros [= <-].
  exact (Hj e' eq_refl).
Qed.

Lemma openBreak_plain cs t trigger related ls e :
  openBreak cfg cs t trigger related ls = Err e -> plain_error e.
Proof.
  unfold openBreak. cbv zeta. destruct (addEvent _ _ _ _ _) eqn:E; [done|]. intros [= <-].
  eapply addEvent_plain; [|exact E]. apply marshal_break_plain.
Qed.

Hint Resolve plain_repo plain_lift plain_Apply plain_HasLeg plain_LegsByTxnRef plain_GetBreak : plain.
(* which lemma fits is read off the encoder's name *)
Hint Opaque marshal_leg marshal_match marshal_break marshal_resolution : plain.
Hint Resolve marshal_leg_plain marshal_match_plain marshal_resolution_plain addEvent_plain openBreak_plain : plain.

Lemma plain_call b h : plain (S := W) (call b h).
Proof. done. Qed.
Lemma plain_set_ix i : plain (S := W) (set_ix i).
Proof. done. Qed.
Lemma plain_now : plain (S := W) (now cfg).
Proof. done. Qed.
Lemma plain_poll : plain (S := W) (poll cfg).
Proof. done. Qed.
Hint Resolve plain_now plain_poll plain_call plain_set_ix : plain.

Ltac plain := repeat first [progress cbv zeta | progress eauto 4 with plain | apply plain_bind; [|intros]
  | case_match | apply plain_wrap | apply plain_repo | apply plain_lift; intros].

Lemma plain_notifyOpen : plain (S := W) (notifyOpen cfg).
Proof. unfold notifyOpen. plain. Qed.
Lemma plain_fire l o : plain (S := W) (fire cfg l o).
Proof. done. Qed.
Lemma plain_fire_match m : plain (S := W) (fire_match cfg m).
Proof. done. Qed.
Lemma plain_fire_break b : plain (S := W) (fire_break cfg b).
Proof. done. Qed.
Hint Resolve plain_notifyOpen plain_fire plain_fire_match plain_fire_break : plain.

Lemma plain_commit cs l r : plain (S := W) (commit cfg cs l r).
Proof. unfold commit. plain. Qed.
Hint Resolve plain_commit : plain.

Lemma plain_ingest_break cs t trigger related l : plain (S := W) (ingest_break cfg cs t trigger related l).
Proof. unfold ingest_break. plain. Qed.
Hint Resolve plain_ingest_break : plain.

Lemma plain_find l i : plain (find (rules cfg) l i (Some (exists_ref (S := S)))).
Proof.
  assert (forall a b, plain (exists_ref (S := S) a b)) as Hex.
  { intros a b s e s'. unfold exists_ref. by destruct (LegsByTxnRef a s) as [[]]. }
  unfold find, tier2AmountDate. plain.
Qed.
Hint Resolve plain_find : plain.

Lemma plain_heal cs t l r b : plain (S := W) (heal cfg cs t l r b).
Proof. unfold heal. plain; eapply addEvent_plain; eauto with plain. Qed.
Hint Resolve plain_heal : plain.

Lemma plain_ingest_late cs t related l : plain (S := W) (ingest_late cfg cs t related l).
Proof. induction related; cbn [ingest_late]; plain. Qed.
Hint Resolve plain_ingest_late : plain.

Lemma plain_ingestOne l : plain (S := W) (ingestOne cfg l).
Proof.
  unfold ingestOne, ingest_duplicate, ingest_new, ingest_match, ingest_conflict, ingest_open.
  plain; eauto with plain.
Qed.
End Plain.

(** ** Reads *)

Section Reads.
Context `{Sha256} `{BreakClassifier} `{JSONText} {S : Type} `{StoreReadsLaws S} (cfg : Config).

Abbreviation W := (World S).

(** A computation that gives a value and leaves the world as it was, save for
    the store's bookkeeping; the value satisfies [P] of the world. *)
Definition reading {A} (m : M W A) (P : A -> W -> Prop) : Prop := forall w, repo_ok (store w) ->
  run m w (fun r w' => quiet w w' /\ exists a, r = Ok a /\ P a w).

Definition any {A} (a : A) (w : W) : Prop := True.

Lemma reading_mono {A} (m : M W A) (P Q : A -> W -> Prop) :
  reading m P -> (forall a w, repo_ok (store w) -> P a w -> Q a w) -> reading m Q.
Proof.
  intros Hm HPQ w Hw. destruct (Hm w Hw) as [Hq (a & Ha & HP)].
  split; [done|]. exists a. split; [done|]. by apply HPQ.
Qed.

Lemma reading_ret {A} (a : A) (P : A -> W -> Prop) : (forall w, repo_ok (store w) -> P a w) -> reading (mret a) P.
Proof. intros HP w Hw. split; [by apply quiet_refl|]. eauto. Qed.

Lemma reading_get : reading mget (fun a w => a = w).
Proof. intros w Hw. split; [by apply quiet_refl|]. eauto. Qed.

(** What a predicate says must not depend on the store's bookkeeping. *)
Lemma reading_bind {A B} (m : M W A) (k : A -> M W B) (P : A -> W -> Prop) (Q : B -> W -> Prop) :
  reading m P -> (forall a, reading (k a) (fun b w' => forall w, quiet w w' -> P a w -> Q b w)) ->
  reading (mbind m k) Q.
Proof.
  intros Hm Hk w Hw. apply run_bind. eapply run_mono; [by apply Hm|]. intros r w1 [Hq (a & -> & HP)].
  destruct (Hk a _ (q_ok _ _ Hq)) as [Hq2 (b & Hb & HQ)]. split; [by eapply quiet_trans|]. eauto.
Qed.

Lemma reading_bind_any {A B} (m : M W A) (k : A -> M W B) :
  reading m any -> (forall a, reading (k a) any) -> reading (mbind m k) any.
Proof.
  intros Hm Hk. eapply reading_bind; [exact Hm|]. intros a. by eapply reading_mono; [apply Hk|].
Qed.

Lemma reading_try {A} (m : M S A) (P : result A -> W -> Prop) :
  (forall w r s', repo_ok (store w) -> m (store w) = (r, s') -> repo_ok s' /\ view s' = view (store w) /\ P r w) ->
  reading (mtry (repo m)) P.
Proof.
  intros Hm w Hw. apply run_try. eapply run_read.
  - intros r s' E. by apply Hm.
  - intros r w' Hq HP. eauto.
Qed.

Lemma reading_GetLeg id : reading (mtry (repo (GetLeg id))) (fun r w =>
  match r with
  | Ok l => v_legs (view (store w)) !! id = Some l
  | Err e => errors_Is e ErrNotFound = true -> v_legs (view (store w)) !! id = None
  end).
Proof. apply reading_try. intros w r s' Hw E. by apply GetLeg_law. Qed.

Lemma reading_GetMatch id : reading (mtry (repo (GetMatch id))) (fun r w =>
  match r with
  | Ok m => v_matches (view (store w)) !! id = Some m
  | Err e => errors_Is e ErrNotFound = true -> v_matches (view (store w)) !! id = None
  end).
Proof. apply reading_try. intros w r s' Hw E. by apply GetMatch_law. Qed.

Lemma reading_GetBreak id : reading (mtry (repo (GetBreak id))) (fun r w =>
  match r with
  | Ok b => v_breaks (view (store w)) !! id = Some b
  | Err e => errors_Is e ErrNotFound = true -> v_breaks (view (store w)) !! id = None
  end).
Proof.
  apply reading_try. intros w r s' Hw E. destruct (GetBreak_law _ _ _ _ Hw E) as (H1' & H2' & H3').
  split_and!; [done..|]. destruct r as [b|e]; [by apply H3'|]. by eapply GetBreak_missing.
Qed.

Lemma reading_ListBreaks f : reading (mtry (repo (ListBreaks f))) any.
Proof. apply reading_try. intros w r s' Hw E. destruct (ListBreaks_law _ _ _ _ Hw E). done. Qed.

Lemma reading_ReadStats : reading (mtry (repo ReadStats)) any.
Proof. apply reading_try. intros w r s' Hw E. destruct (ReadStats_law _ _ _ Hw E). done. Qed.

Lemma reading_Ping : reading (mtry (repo Ping)) any.
Proof. apply reading_try. intros w r s' Hw E. destruct (Ping_law _ _ _ Hw E). done. Qed.

Lemma reading_EventsFrom from limit : 0 < limit -> reading (mtry (repo (EventsFrom from limit))) (fun r w =>
  forall evs, r = Ok evs ->
    evs = take (Z.to_nat limit) (filter (fun e => from <= ev_Seq e) (v_events (view (store w))))).
Proof. intros Hl. apply reading_try. intros w r s' Hw E. by eapply EventsFrom_law. Qed.

(** The legs a break or a match lists, looked up one after the other: each is
    there as it is stored, unless its own lookup fails; the store is [s] when the
    first is looked up. *)
Inductive loaded : S -> list string -> list Leg -> Prop :=
  | loaded_nil s : loaded s [] []
  | loaded_found s s1 id l ids ls : GetLeg id s = (Ok l, s1) -> v_legs (view s) !! id = Some l ->
      loaded s1 ids ls -> loaded s (id :: ids) (l :: ls)
  | loaded_lost s s1 id e ids ls : GetLeg id s = (Err e, s1) -> loaded s1 ids ls -> loaded s (id :: ids) ls.

(** A store whose lookups of legs fail only on what is not there. *)
Definition reliable : Prop := forall id s e s', repo_ok s -> GetLeg id s = (Err e, s') -> errors_Is e ErrNotFound = true.

(** From a reliable store, that is every listed leg that is stored. *)
Lemma loaded_all s ids ls : reliable -> repo_ok s -> loaded s ids ls ->
  ls = omap (fun id => v_legs (view s) !! id) ids.
Proof.
  intros Hrel Hs Hl. induction Hl as [s|s s1 id l ids ls Hg Hl _ IH|s s1 id e ids ls Hg _ IH]; [done|..];
    destruct (GetLeg_law _ _ _ _ Hs Hg) as (Hok & Hv & Hr); cbn; rewrite IH, Hv by done.
  - by rewrite Hl.
  - by rewrite (Hr (Hrel _ _ _ _ Hs Hg)).
Qed.

Record shown (s : S) (ids : list string) (ls : list Leg) : Prop := {
  sh_loaded : loaded s ids ls;
  sh_all : reliable -> ls = omap (fun id => v_legs (view s) !! id) ids
}.

(** A lookup and what follows it. *)
Lemma bind_lookup {A B} (m : M S A) (k : result A -> M W B) (w : W) r s1 : m (store w) = (r, s1) ->
  mbind (mtry (repo m)) k w = k r (mkWorld s1 (ix w) (replaying w) (ticks w) (polls w) (trace w)).
Proof. unfold mbind, mtry, repo. by intros ->. Qed.

Lemma run_loadLegs ids (w : W) : repo_ok (store w) ->
  exists ls w', loadLegs ids w = (Ok ls, w') /\ quiet w w' /\ shown (store w) ids ls.
Proof.
  intros Hw. cut (exists ls w', loadLegs ids w = (Ok ls, w') /\ quiet w w' /\ loaded (store w) ids ls).
  { intros (ls & w' & E & Hq & Hl). exists ls, w'. split_and!; [done..|]. constructor; [done|]. intros Hrel.
    by apply loaded_all. }
  revert w Hw. induction ids as [|id ids IH]; intros w Hw; cbn [loadLegs].
  { exists [], w. split_and!; [done|by apply quiet_refl|constructor]. }
  destruct (GetLeg id (store w)) as [r s1] eqn:E.
  destruct (GetLeg_law _ _ _ _ Hw E) as (Hok & Hv & Hr). rewrite (bind_lookup _ _ _ _ _ E). set (w1 := mkWorld s1 _ _ _ _ _).
  destruct (IH w1 Hok) as (ls & w2 & E2 & Hq & Hl). unfold mbind. rewrite E2.
  assert (quiet w w2) as Hq' by (eapply quiet_trans; [|exact Hq]; by constructor).
  destruct r as [l|e]; eexists _, w2; (split_and!; [done|done|]); [by eapply loaded_found|by eapply loaded_lost].
Qed.

Lemma reading_weaken {A} (m : M W A) (P : A -> W -> Prop) : reading m P -> reading m any.
Proof. intros Hm. by eapply reading_mono. Qed.
End Reads.

(** ** The read routes *)

Section Routes.
Context `{Sha256} `{BreakClassifier} `{JSONText} {S : Type} `{StoreReadsLaws S} (cfg : Config).
Context (Version : string) (Ready : option (Time -> option error)).

Abbreviation W := (World S).

(** What the answer of a read route says of the store. *)
Definition answer_true (r : Route) (rq : Request) (rsp : Response) (w : W) : Prop :=
  let v := view (store w) in
  match r with
  | GetLegRoute id =>
      (rs_status rsp = StatusOK -> exists l, v_legs v !! id = Some l /\ rs_body rsp = marshal_leg l) /\
      (rs_status rsp = StatusNotFound -> v_legs v !! id = None)
  | GetMatchRoute id =>
      (rs_status rsp = StatusOK -> exists m ls, v_matches v !! id = Some m /\
         shown (GetMatch id (store w)).2 (m_LegIDs m) ls /\
         rs_body rsp = res_bind (marshal_array marshal_leg ls) (fun jl =>
           res_bind (marshal_match m) (fun jm => Ok (JObj [("legs", jl); ("match", jm)])))) /\
      (rs_status rsp = StatusNotFound -> v_matches v !! id = None)
  | GetBreakRoute id =>
      (rs_status rsp = StatusOK -> exists b ls, v_breaks v !! id = Some b /\
         shown (GetBreak id (store w)).2 (b_LegIDs b) ls /\
         rs_body rsp = res_bind (marshal_break (set_AgeSeconds (rq_now rq) b)) (fun jb =>
           res_bind (marshal_array marshal_leg ls) (fun jl => Ok (JObj [("break", jb); ("legs", jl)])))) /\
      (rs_status rsp = StatusNotFound -> v_breaks v !! id = None)
  | EventsRoute =>
      rs_status rsp = StatusOK -> exists from limit,
        from_param (rq_query rq "from") = Some from /\ limit_param (rq_query rq "limit") = Some limit /\
        let evs := take (Z.to_nat limit) (filter (fun e => from <= ev_Seq e) (v_events v)) in
        rs_body rsp = res_bind (marshal_array marshal_event evs) (fun j =>
          Ok (JObj [("count", JInt (Z.of_nat (length evs))); ("events", j)]))
  | _ => True
  end.

Lemma lookupFailed_status e what : rs_status (lookupFailed e what) =
  if errors_Is e ErrNotFound then StatusNotFound else StatusInternalServerError.
Proof. unfold lookupFailed. by destruct (errors_Is e ErrNotFound). Qed.

(** A failed lookup's answer, from what the lookup's error says. *)
Lemma lookupFailed_true e what (P Q : Prop) : (errors_Is e ErrNotFound = true -> Q) ->
  (rs_status (lookupFailed e what) = StatusOK -> P) /\ (rs_status (lookupFailed e what) = StatusNotFound -> Q).
Proof. intros HQ. rewrite lookupFailed_status. destruct (errors_Is e ErrNotFound); split; auto; done. Qed.

Lemma getLeg_true id rq : reading (getLeg id rq) (answer_true (GetLegRoute id) rq).
Proof.
  eapply reading_bind; [apply reading_GetLeg|]. intros [l|e]; apply reading_ret; intros w _ w0 Hq Hr.
  - split; [by eauto|done].
  - by apply lookupFailed_true.
Qed.

Lemma getMatch_true id rq : reading (getMatch id rq) (answer_true (GetMatchRoute id) rq).
Proof.
  intros w Hw. cbn [answer_true]. destruct (GetMatch id (store w)) as [r s1] eqn:E.
  destruct (GetMatch_law _ _ _ _ Hw E) as (Hok & Hv & Hr). unfold run, getMatch. rewrite (bind_lookup _ _ _ _ _ E).
  set (w1 := mkWorld s1 _ _ _ _ _). assert (quiet w w1) as Hq1 by (by constructor). destruct r as [m|e].
  - destruct (run_loadLegs (m_LegIDs m) w1 Hok) as (ls & w2 & E2 & Hq & Hl). unfold mbind. rewrite E2.
    split; [by eapply quiet_trans|]. eexists. split; [done|]. split; [|done]. intros _. by exists m, ls.
  - split; [done|]. eexists. split; [done|]. by apply lookupFailed_true.
Qed.

Lemma getBreak_true id rq : reading (getBreak id rq) (answer_true (GetBreakRoute id) rq).
Proof.
  intros w Hw. cbn [answer_true]. destruct (GetBreak id (store w)) as [r s1] eqn:E.
  destruct (GetBreak_law _ _ _ _ Hw E) as (Hok & Hv & Hr). unfold run, getBreak. rewrite (bind_lookup _ _ _ _ _ E).
  set (w1 := mkWorld s1 _ _ _ _ _). assert (quiet w w1) as Hq1 by (by constructor). destruct r as [b|e].
  - destruct (run_loadLegs (b_LegIDs b) w1 Hok) as (ls & w2 & E2 & Hq & Hl). unfold mbind. rewrite E2.
    split; [by eapply quiet_trans|]. eexists. split; [done|]. split; [|done]. intros _. exists b, ls.
    by split; [apply Hr|].
  - split; [done|]. eexists. split; [done|]. apply lookupFailed_true. by eapply GetBreak_missing.
Qed.

Lemma query_param_spec {A} parse ok (def : A) v a : query_param parse ok def v = Some a <->
  (v = "" /\ a = def) \/ (v <> "" /\ parse v = Ok a /\ ok a = true).
Proof.
  unfold query_param. case_bool_decide as Hv.
  - split; [intros [= <-]; by left|]. intros [[_ ->]|[? _]]; done.
  - destruct (parse v) as [x|]; [destruct (ok x) eqn:E|]; split; try done;
      intros; destruct_and?; destruct_or?; destruct_and?; simplify_eq; auto; try congruence.
Qed.

Lemma limit_range v n : limit_param v = Some n -> 1 <= n <= 1000.
Proof. intros [[_ ->]|(_ & _ & Hn)]%query_param_spec; lia. Qed.
Lemma offset_range v n : offset_param v = Some n -> 0 <= n.
Proof. intros [[_ ->]|(_ & _ & Hn)]%query_param_spec; lia. Qed.
Lemma duration_range v d : duration_param v = Some d -> 0 <= d.
Proof. intros [[_ ->]|(_ & _ & Hn)]%query_param_spec; lia. Qed.
Lemma from_range v n : from_param v = Some n -> 1 <= n.
Proof. intros [[_ ->]|(_ & _ & Hn)]%query_param_spec; lia. Qed.

Lemma events_true rq : reading (events rq) (answer_true EventsRoute rq).
Proof.
  unfold events. destruct (from_param _) as [from|] eqn:Ef; [|by apply reading_ret].
  destruct (limit_param _) as [limit|] eqn:El; [|by apply reading_ret].
  eapply reading_bind; [apply reading_EventsFrom; apply limit_range in El; lia|].
  intros [evs|e]; apply reading_ret; intros w _ w0 Hq Hr; [|done].
  intros _. exists from, limit. split_and!; [done..|]. by rewrite <- (Hr evs eq_refl).
Qed.

Ltac reads := repeat first
  [ by apply reading_ret | apply reading_bind_any; [|intros]
  | by eapply reading_weaken, reading_ListBreaks | by eapply reading_weaken, reading_ReadStats
  | by eapply reading_weaken, reading_Ping | by eapply reading_weaken, reading_get | case_match ].

(** Every read route is answered, truthfully, and leaves the engine alone. *)
Lemma read_routes r rq : is_read r = true ->
  reading (handle cfg Version Ready r rq) (fun o w => exists rsp, o = Some rsp /\ answer_true r rq rsp w).
Proof.
  assert (forall m P, reading m P -> reading (let! resp := m in mret (Some resp))%recon
    (fun (o : option Response) (w : W) => exists rsp, o = Some rsp /\ P rsp w)) as Hsome.
  { intros m P Hm. eapply reading_bind; [exact Hm|]. intros rsp. apply reading_ret. eauto. }
  intros Hr. destruct r; try done; cbn [handle]; apply Hsome;
    first [apply getLeg_true|apply getMatch_true|apply getBreak_true|apply events_true|idtac].
  - unfold healthz. reads.
  - unfold readyz. reads.
  - unfold listBreaks. reads.
  - unfold stats. reads.
Qed.
End Routes.

(** ** Computations that always give a value *)

Definition returns {S A} (m : M S A) : Prop := forall s, exists a, (m s).1 = Ok a.

Create HintDb returns.

Lemma returns_ret {S A} (a : A) : returns (S := S) (mret a).
Proof. intros s. by exists a. Qed.
Lemma returns_get {S} : returns (mget (S := S)).
Proof. intros s. by exists s. Qed.
Lemma returns_try {S A} (m : M S A) : returns (mtry m).
Proof. intros s. unfold mtry. destruct (m s) as [r s']. by exists r. Qed.
Lemma returns_bind {S A B} (m : M S A) (k : A -> M S B) : returns m -> (forall a, returns (k a)) -> returns (mbind m k).
Proof.
  intros Hm Hk s. unfold mbind. destruct (Hm s) as [a Ha]. destruct (m s) as [r s']. cbn in Ha. subst r. apply Hk.
Qed.
#[export] Hint Resolve returns_ret returns_get returns_try : returns.

Ltac returns := repeat first
  [ progress auto with returns | apply returns_bind; [|intros] | progress cbv zeta | case_match ].

Section Returns.
Context `{Sha256} `{BreakClassifier} {S : Type} `{Repository S} (cfg : Config).

Abbreviation W := (World S).

Lemma returns_now : returns (S := W) (now cfg).
Proof. intros w. by eexists. Qed.
Lemma returns_poll : returns (S := W) (poll cfg).
Proof. intros w. by eexists. Qed.
Lemma returns_notifyOpen : returns (S := W) (notifyOpen cfg).
Proof. intros w. by eexists. Qed.
Hint Resolve returns_now returns_poll returns_notifyOpen : returns.

Lemma returns_ingest_loop ls res : returns (S := W) (ingest_loop cfg ls res).
Proof. revert res. induction ls as [|l ls IH]; intros res; cbn [ingest_loop]; returns. Qed.
Lemma returns_Ingest ls : returns (S := W) (Ingest cfg ls).
Proof. unfold Ingest. pose proof returns_ingest_loop. returns. Qed.
Lemma returns_expire_loop t forced ls n : returns (S := W) (expire_loop cfg t forced ls n).
Proof. revert n. induction ls as [|l ls IH]; intros n; cbn [expire_loop]; returns. Qed.
Lemma returns_CloseWindow d : returns (S := W) (CloseWindow cfg d).
Proof. unfold CloseWindow, expire. pose proof returns_expire_loop. returns. Qed.
Lemma returns_ResolveBreak id reason actor : returns (S := W) (ResolveBreak cfg id reason actor).
Proof. unfold ResolveBreak. returns. Qed.
End Returns.
#[export] Hint Resolve returns_Ingest returns_CloseWindow returns_ResolveBreak : returns.

(** ** Writes *)

Section Writes.
Context `{Sha256} `{BreakClassifier} `{JSONText} {S : Type} `{StoreReadsLaws S} (cfg : Config).
Context (Version : string) (Ready : option (Time -> option error)).

Abbreviation W := (World S).

Definition refusal (rsp : Response) : Prop := 400 <= rs_status rsp < 500.

Lemma answered_error {A} (m : M W A) status msg (w : W) Q :
  Q (Ok (Some (writeError status msg))) w ->
  run (let! resp := mret (writeError status msg) in mret (Some resp))%recon w Q.
Proof. done. Qed.

(** The legs of a request that [postLegs] hands to the engine. *)
Definition posted (rq : Request) (legs : list Leg) : Prop :=
  exists text stale, readBody rq = Ok text /\
    res_bind (json_parse text) (if HasPrefix (TrimSpace text) "[" then dec_leg_list ([], []) else dec_legs_request)
      = Ok (legs, stale) /\
    (1 <= length legs <= 5000)%nat.

Definition plain_context : Prop := forall n e, ctx_Err cfg n = Some e -> plain_error e.

(** Once the batch is valid, no error looks like a validation error. *)
Lemma ingest_loop_plain ls res : plain_store (S := S) -> plain_context -> forall (w : W) res' e w',
  ingest_loop cfg ls res w = (Ok (res', Some e), w') -> plain_error e.
Proof.
  intros Hs Hc. revert res. induction ls as [|l ls IH]; intros res w res' e w'; cbn [ingest_loop]; [by intros [=]|].
  unfold mbind at 1, poll. destruct (ctx_Err cfg (polls w)) as [e1|] eqn:Ee.
  { intros [= _ <- _]. by eapply Hc. }
  unfold mbind, mtry. destruct (ingestOne cfg l _) as [[r|e1] w1] eqn:Ei; [apply IH|].
  intros [= _ <- _]. by apply (plain_ingestOne cfg Hs l) in Ei.
Qed.

Lemma Ingest_refused legs (w : W) res e w' : plain_store (S := S) -> plain_context ->
  Ingest cfg legs w = (Ok (res, Some e), w') -> errors_Is e ErrInvalidLeg = true -> w' = w.
Proof.
  intros Hs Hc. unfold Ingest. destruct (validate_batch 0 legs) as [ls [e1|]]; [by intros [= _ _ <-]|].
  intros Hi He. apply ingest_loop_plain in Hi; [|done..]. unfold plain_error in Hi. congruence.
Qed.

(** An accepted request: its legs, and what the engine answered. *)
Definition ingested_answer (rq : Request) (w w' : W) (rsp : Response) : Prop :=
  exists legs res, posted rq legs /\ Ingest cfg legs w = (Ok (res, None), w') /\ rs_body rsp = Ok (marshal_batch res).

Lemma run_postLegs rq (w : W) : plain_store (S := S) -> plain_context ->
  run (postLegs cfg rq) w (fun r w' => exists rsp, r = Ok rsp /\
    (refusal rsp -> w' = w) /\ (rs_status rsp = StatusOK -> ingested_answer rq w w' rsp)).
Proof.
  intros Hs Hc. unfold postLegs. destruct (readBody rq) as [text|e] eqn:Eb; [|by eexists].
  destruct (res_bind _ _) as [[legs stale]|e] eqn:Ej; [|by eexists].
  case_bool_decide as H0'; [by eexists|]. destruct (5000 <? _) eqn:E5; [by eexists|].
  apply Z.ltb_ge in E5.
  apply run_bind. unfold run at 1. destruct (Ingest cfg legs w) as [r w'] eqn:Ei.
  destruct (returns_Ingest cfg legs w) as [[res oe] Hr]. rewrite Ei in Hr. cbn in Hr. subst r. cbn [fst snd].
  destruct oe as [e|].
  - destruct (errors_Is e ErrInvalidLeg) eqn:Ee.
    + eexists. split; [done|]. split; [|done]. intros _. by eapply Ingest_refused.
    + eexists. split; [done|]. split; [|done]. by intros [_ ?%Z.lt_irrefl].
  - eexists. split; [done|]. split; [by intros [Hle _]; apply Zle_not_lt in Hle|]. intros _.
    exists legs, res. split_and!; [|done..]. exists text, stale. split_and!; [done..| |]; lia.
Qed.

(** The break that a resolution is about, before and after. *)
Definition resolution_answer (id : string) (rq : Request) (w w' : W) (rsp : Response) : Prop :=
  exists text reason actor b,
    readBody rq = Ok text /\ res_bind (json_parse text) dec_resolve_request = Ok (reason, actor) /\
    TrimSpace reason <> "" /\ TrimSpace actor <> "" /\
    resolved cfg w id (TrimSpace reason) (TrimSpace actor) b (view (store w')) /\
    rs_body rsp = marshal_break (set_AgeSeconds (rq_now rq) b).

Lemma run_resolveBreak id rq (w : W) : (forall n, exact_time (clock cfg n)) -> repo_ok (store w) ->
  run (resolveBreak cfg id rq) w (fun r w' => exists rsp, r = Ok rsp /\ ix w' = ix w /\
    (rs_status rsp <> StatusOK -> view (store w') = view (store w)) /\
    (rs_status rsp = StatusOK -> resolution_answer id rq w w' rsp)).
Proof.
  intros Hclock Hw. unfold resolveBreak. destruct (readBody rq) as [text|e] eqn:Eb; [|by eexists].
  destruct (res_bind _ _) as [[reason actor]|e] eqn:Ej; [|by eexists].
  cbv zeta. destruct (bool_decide _ || bool_decide _) eqn:Er; [by eexists|].
  apply orb_false_iff in Er as [H1'%bool_decide_eq_false H2'%bool_decide_eq_false].
  apply run_bind. pose proof (run_ResolveBreak cfg w id (TrimSpace reason) (TrimSpace actor) Hclock Hw) as Hrun.
  unfold run in *. destruct (returns_ResolveBreak cfg id (TrimSpace reason) (TrimSpace actor) w) as [[b oe] Hr].
  rewrite Hr in *. destruct Hrun as (_ & _ & Hi & Hrun). destruct oe as [e|].
  - destruct (errors_Is e ErrNotFound); [|destruct (errors_Is e ErrBreakResolved)];
      eexists; by split_and!.
  - destruct Hrun as (_ & _ & Hres). eexists. split_and!; [done|done|done|]. intros _.
    exists text, reason, actor, b. by split_and!.
Qed.

Lemma run_closeWindow rq (w : W) :
  run (closeWindow cfg rq) w (fun r w' => exists rsp, r = Ok rsp /\ (refusal rsp -> w' = w)).
Proof.
  unfold closeWindow. destruct (duration_param _) as [d|]; [|by eexists].
  apply run_bind. unfold run at 1. destruct (returns_CloseWindow cfg d w) as [[n [e|]] ->];
    (eexists; split; [done|]).
  - by intros [_ ?%Z.lt_irrefl].
  - by intros [Hle _]; apply Zle_not_lt in Hle.
Qed.

(** A replay's answer needs the log in order, as it is in every engine. *)
Lemma run_replay U rq (w : W) : sane_config cfg -> no_collisions U -> world_inv cfg U w ->
  run (replay cfg rq) w (fun r w' => exists rsp, r = Ok (Some rsp) /\ (refusal rsp -> w' = w)).
Proof.
  intros Hsane Hnc Hw. unfold replay. destruct (from_param _) as [from|]; [|by eexists].
  apply run_bind. eapply run_mono; [by eapply Replay_answers|].
  intros r w' (out & oe & -> & _). destruct oe as [e|]; (eexists; split; [done|]).
  - by intros [_ ?%Z.lt_irrefl].
  - by intros [Hle _]; apply Zle_not_lt in Hle.
Qed.

(** What every route does for a request it refuses: nothing. *)
Lemma run_handle U r rq (w : W) : sane_config cfg -> no_collisions U -> world_inv cfg U w ->
  plain_store (S := S) -> plain_context ->
  run (handle cfg Version Ready r rq) w (fun res w' => exists rsp, res = Ok (Some rsp) /\
    (refusal rsp -> view (store w') = view (store w) /\ ix w' = ix w)).
Proof.
  intros Hsane Hnc Hw Hs Hc. pose proof (wi_ok _ _ _ Hw) as Hok.
  assert (forall m, run m w (fun r w' => exists rsp, r = Ok rsp /\
      (refusal rsp -> view (store w') = view (store w) /\ ix w' = ix w)) ->
    run (let! resp := m in mret (Some resp))%recon w (fun res w' => exists rsp, res = Ok (Some rsp) /\
      (refusal rsp -> view (store w') = view (store w) /\ ix w' = ix w))) as Hsome.
  { intros m Hm. apply run_bind. eapply run_mono; [exact Hm|]. intros r' w' (rsp & -> & Hr). by exists rsp. }
  destruct (is_read r) eqn:Er.
  { eapply run_mono; [by apply read_routes|]. intros res w' [[_ Hv Hi _] (o & -> & rsp & -> & _)]. by exists rsp. }
  destruct r; try done; cbn [handle].
  - apply Hsome. eapply run_mono; [by apply run_postLegs|]. intros r' w' (rsp & -> & Hr & _).
    exists rsp. split; [done|]. by intros ->%Hr.
  - apply Hsome. eapply run_mono; [by apply run_resolveBreak; [apply Hsane|]|]. intros r' w' (rsp & -> & Hi & Hr & _).
    exists rsp. split; [done|]. intros [Hle _]. split; [|done]. apply Hr. intros Heq. by rewrite Heq in Hle.
  - eapply run_mono; [by eapply run_replay|]. intros r' w' (rsp & -> & Hr).
    exists rsp. split; [done|]. by intros ->%Hr.
  - apply Hsome. eapply run_mono; [by apply run_closeWindow|]. intros r' w' (rsp & -> & Hr).
    exists rsp. split; [done|]. by intros ->%Hr.
Qed.

(** The legs of an accepted request are valid, and stored. *)
Lemma accepted_stored U rq w w' rsp legs : sane_config cfg -> no_collisions U -> world_inv cfg U w ->
  posted rq legs -> Forall (leg_in_scope U) legs ->
  ingested_answer rq w w' rsp ->
  Forall (fun l => valid l /\ stored w' (AssignID (Validate l).1)) legs.
Proof.
  intros Hsane Hnc Hw Hp Hls (legs' & res & Hp' & Hi & _).
  assert (legs' = legs) as ->.
  { destruct Hp as (t1 & s1 & Ht1 & Hd1 & _), Hp' as (t2 & s2 & Ht2 & Hd2 & _).
    rewrite Ht1 in Ht2. injection Ht2 as <-. rewrite Hd1 in Hd2. by injection Hd2. }
  pose proof (Ingest_stored cfg U Hsane Hnc legs w Hls Hw) as Hst. unfold run in Hst. rewrite Hi in Hst.
  destruct (validate_batch 0 legs) as [ls [e|]] eqn:Ev.
  { exfalso. unfold Ingest in Hi. rewrite Ev in Hi. by injection Hi. }
  destruct Hst as [_ Hst]. specialize (Hst res ls eq_refl eq_refl).
  clear Hi Hls Hp Hp'. revert ls Hst Ev. generalize 0. induction legs as [|l legs IH]; intros i ls Hst Ev; [done|].
  cbn [validate_batch] in Ev. destruct (Validate l) as [l' [[]|e]] eqn:El; [|done].
  destruct (validate_batch (i + 1) legs) as [ls2 e2] eqn:E2. injection Ev as <- ->.
  apply Forall_cons in Hst as [Hl Hst]. constructor; [|by eapply IH].
  unfold valid. by rewrite El.
Qed.
End Writes.
