(* ===== verification/MiddlewareFacts.v ===== *)
(** * The chain around a handler

    What [chain] does to any handler, as one equation; which handlers keep the
    recorded status equal to the status on the wire; and that no two patterns of
    the mux match the same request. *)

From S2P Require Export Middleware HttpFacts.

Local Open Scope recon_scope.

Section Chain.
Context {W C H : Type} `{!CounterVec C} `{!HistogramVec H}.
Context (logger : traceHandler) (NewString : nat -> string).
Context (Extract : (string -> string) -> SpanContext -> SpanContext) (Start : nat -> SpanContext -> SpanContext).
Context (clk : nat -> Time) (json_text : json -> string) (stack : string).

Abbreviation X := (Exchange W C H).
Abbreviation Hdl := (Handler (W := W) (C := C) (H := H)).
Abbreviation serve_chain := (chain logger NewString Extract Start clk json_text stack).

(** ** Entering and leaving *)

Definition inbound_ok (r : HttpRequest) : bool :=
  negb (bool_decide (Header_Get r "X-Request-ID" = "") || (128 <? Z.of_nat (String.length (Header_Get r "X-Request-ID")))).

(** The identifier of a request: the inbound one, or a fresh one. *)
Definition request_id (r : HttpRequest) (x : X) : string :=
  if inbound_ok r then Header_Get r "X-Request-ID" else NewString (x_uuids x).

Lemma request_id_nonempty r x : (forall n, NewString n <> "") -> request_id r x <> "".
Proof.
  intros Hn. unfold request_id, inbound_ok. destruct (bool_decide_reflect (Header_Get r "X-Request-ID" = "")) as [E|E];
    [apply Hn|]. case_match; [exact E|apply Hn].
Qed.

(** The request the handler sees, and the exchange it starts from. *)
Definition entered (r : HttpRequest) (x : X) : HttpRequest :=
  WithContext (mkLogContext (Some (request_id r x)) (Start (x_started x) (Extract (Header_Get r) (ctx_span (rq_ctx r))))) r.
Definition span_opened (r : HttpRequest) (x : X) : span_event :=
  SpanStarted (x_started x) (Method r +:+ " " +:+ URL_Path r)
    [("http.method", AttrStr (Method r)); ("http.target", AttrStr (URL_Path r))].
Definition entry (r : HttpRequest) (x : X) : X :=
  mkExchange (x_engine x) (x_metrics x) (x_lines x) (x_spans x ++ [span_opened r x])
    (set_header "X-Request-ID" (request_id r x) (x_wire x)) (x_rws x ++ [zero_rw])
    (1 + x_started x)%nat (1 + x_clock x)%nat (if inbound_ok r then x_uuids x else 1 + x_uuids x)%nat.

Definition route_label (rw : responseWriter) : string :=
  if bool_decide (rw_route rw = "") then "unmatched" else rw_route rw.
(** The line of the access log, but for the requests that have none. *)
Definition access_line (r : HttpRequest) (ctx : LogContext) (rw : responseWriter) (d : Duration) : list LogLine :=
  if bool_decide (route_label rw ∈ ["GET /metrics"; "GET /healthz"; "GET /readyz"]) then []
  else InfoContext logger ctx "http request"
    [("method", AttrStr (Method r)); ("path", AttrStr (URL_Path r)); ("route", AttrStr (route_label rw));
     ("status", AttrInt (rw_status rw)); ("bytes", AttrInt (rw_bytes rw));
     ("duration_ms", AttrFloat (duration_ms d)); ("remote", AttrStr (RemoteAddr r))].

Definition elapsed (x y : X) : Duration := Sub (clk (x_clock y)) (clk (x_clock x)).

(** The struct of a request as [observe] reports it. *)
Definition final_rw (p : nat) (y : X) : responseWriter := rw_at p (with_rw p (see_status StatusOK) y).

(** What [observe] and [tracing] leave after the handler returned in [y]. *)
Definition left_normally (r : HttpRequest) (x y : X) : X :=
  let rw := final_rw (length (x_rws x)) y in
  let d := elapsed x y in
  mkExchange (x_engine y) (ObserveHTTP (route_label rw) (Method r) (rw_status rw) d (x_metrics y))
    (x_lines y ++ access_line r (rq_ctx (entered r x)) rw d) (x_spans y ++ [SpanEnded (x_started x)])
    (x_wire y) (alter (see_status StatusOK) (length (x_rws x)) (x_rws y)) (x_started y) (1 + x_clock y)%nat (x_uuids y).

(** What [tracing] and [recoverer] leave after the handler panicked in [y]. *)
Definition left_panicking (r : HttpRequest) (x y : X) (e : error) : result unit * X :=
  respond json_text Raw (writeError StatusInternalServerError "internal error")
    (add_lines (ErrorContext logger (rq_ctx r) "panic recovered" [("panic", AttrStr (error_text e)); ("stack", AttrStr stack)])
       (add_span (SpanEnded (x_started x)) y)).

Lemma observe_eq (core : Hdl) w r x :
  observe logger clk core w r x =
  match core (Wrapped (length (x_rws x)) w) r (set_rws (x_rws x ++ [zero_rw]) (next_tick x)) with
  | (Ok _, y) =>
      let rw := final_rw (length (x_rws x)) y in
      let d := elapsed x y in
      (Ok tt, add_lines (access_line r (rq_ctx r) rw d)
        (set_metrics (ObserveHTTP (route_label rw) (Method r) (rw_status rw) d (x_metrics y))
          (next_tick (with_rw (length (x_rws x)) (see_status StatusOK) y))))
  | (Err e, y) => (Err e, y)
  end.
Proof.
  unfold observe, tick, mbind at 1 2 3 4, mget, mmodify, mret. cbn [x_rws next_tick].
  destruct (core _ _ _) as [[[]|e] y]; [|done]. unfold access_line, route_label, final_rw, elapsed.
  unfold mbind, write_log, mmodify. cbn [x_clock next_tick with_rw set_rws x_metrics].
  destruct (bool_decide (_ ∈ _)); [|done]. unfold add_lines. cbn. by rewrite app_nil_r.
Qed.

Lemma chain_eq (core : Hdl) r x :
  serve_chain core Raw r x =
  match core (Wrapped (length (x_rws x)) Raw) (entered r x) (entry r x) with
  | (Ok _, y) => (Ok tt, left_normally r x y)
  | (Err e, y) => left_panicking r x y e
  end.
Proof.
  unfold chain, recoverer, requestID, tracing, deferred, Header_Set.
  unfold left_normally, entered, entry, request_id, inbound_ok.
  destruct (bool_decide _ || _); unfold mbind, mget, mmodify, mret; cbn [negb]; rewrite observe_eq;
    match goal with |- _ = (let (_, _) := core ?p ?q ?z in _) =>
      match goal with |- context [core ?p' ?q' ?z'] => change (core p' q' z') with (core p q z) end;
      destruct (core p q z) as [[[]|e] y]
    end; reflexivity.
Qed.

(** ** What is recorded is what is sent *)

(** The struct [p] records the final status that was sent, if one was. *)
Definition tracked (p : nat) (x : X) : Prop :=
  exists rw, x_rws x !! p = Some rw /\
    match wi_sent (x_wire x) with None => rw_status rw = 0 | Some (c, _) => rw_status rw = c /\ c <> 0 end.

Lemma tracked_entry r x m : x_wire x = new_wire m -> tracked (length (x_rws x)) (entry r x).
Proof.
  intros Hw. exists zero_rw. cbn [entry x_rws x_wire]. rewrite Hw. split; [|done]. by rewrite lookup_app_r, Nat.sub_diag.
Qed.

Lemma rw_at_lookup p (x : X) rw : x_rws x !! p = Some rw -> rw_at p x = rw.
Proof. unfold rw_at. by intros ->. Qed.
Lemma rw_at_with p f (x : X) : is_Some (x_rws x !! p) -> rw_at p (with_rw p f x) = f (rw_at p x).
Proof. intros [rw Hrw]. unfold rw_at. cbn. by rewrite list_lookup_alter_eq, Hrw. Qed.

(** The status [observe] reports is the one on the wire. *)
Lemma final_status p y : tracked p y -> rw_status (final_rw p y) = wire_status (x_wire y).
Proof.
  intros (rw & Hrw & Hs). unfold final_rw. rewrite rw_at_with by (by exists rw). rewrite (rw_at_lookup _ _ _ Hrw).
  unfold see_status, wire_status. destruct (wi_sent (x_wire y)) as [[c h]|].
  - destruct Hs as [Hs Hc]. by rewrite Hs, (proj2 (Z.eqb_neq _ _) Hc).
  - by rewrite Hs.
Qed.
Lemma final_route p y : tracked p y -> rw_route (final_rw p y) = rw_route (rw_at p y).
Proof.
  intros (rw & Hrw & _). unfold final_rw. rewrite rw_at_with by (by exists rw). unfold see_status. by case_match.
Qed.

(** A handler keeps the rest of the exchange: it writes through its writer and
    works on the engine. *)
Record kept (p : nat) (x y : X) : Prop := {
  kp_metrics : x_metrics y = x_metrics x;
  kp_lines : x_lines y = x_lines x;
  kp_spans : x_spans y = x_spans x;
  kp_tracked : tracked p y;
  kp_id : wi_header (x_wire y) !! "X-Request-ID" = wi_header (x_wire x) !! "X-Request-ID";
  kp_sent_id : match wi_sent (x_wire x) with Some s => wi_sent (x_wire y) = Some s | None =>
                 match wi_sent (x_wire y) with None => True | Some (_, hd) => hd !! "X-Request-ID" = wi_header (x_wire x) !! "X-Request-ID" end
               end
}.
Definition faithful (core : Hdl) : Prop := forall p r x, tracked p x -> kept p x (core (Wrapped p Raw) r x).2.

Lemma kept_refl p x : tracked p x -> kept p x x.
Proof. intros Hx. split; try done. by destruct (wi_sent (x_wire x)) as [[]|]. Qed.
Lemma kept_trans p x y z : kept p x y -> kept p y z -> kept p x z.
Proof.
  intros [? ? ? ? H1 H2] [? ? ? ? H3 H4]. split; try congruence.
  destruct (wi_sent (x_wire x)) as [[]|]; [by rewrite H2 in H4|]. destruct (wi_sent (x_wire y)) as [[]|].
  - by rewrite H4.
  - destruct (wi_sent (x_wire z)) as [[]|]; [congruence|done].
Qed.

Definition faithfully {A} (p : nat) (m : M X A) : Prop := forall x, tracked p x -> kept p x (m x).2.

Lemma faithful_bind {A B} p (m : M X A) (k : A -> M X B) :
  faithfully p m -> (forall a, faithfully p (k a)) -> faithfully p (mbind m k).
Proof.
  intros Hm Hk x Hx. unfold mbind. specialize (Hm x Hx). destruct (m x) as [[a|e] y]; cbn [snd] in Hm; [|done].
  eapply kept_trans; [exact Hm|]. apply Hk, Hm.
Qed.
Lemma faithful_ret {A} p (a : A) : faithfully p (mret a).
Proof. intros x Hx. by apply kept_refl. Qed.

Lemma faithful_Header_Set p k v : k <> "X-Request-ID" -> faithfully p (Header_Set (Wrapped p Raw) k v).
Proof.
  intros Hk x Hx. split; try done; cbn.
  - by rewrite lookup_insert_ne.
  - by destruct (wi_sent (x_wire x)) as [[]|].
Qed.

Definition final_code (code : Z) : Prop := 100 <= code <= 999 /\ informational code = false.

Lemma faithful_WriteHeader p code : final_code code -> faithfully p (WriteHeader (Wrapped p Raw) code).
Proof.
  intros [Hc Hi] x (rw & Hrw & Hs). cbn. unfold mbind, mmodify, raw_WriteHeader. cbn.
  unfold valid_code. rewrite Hi. replace ((100 <=? code) && (code <=? 999)) with true by lia. cbn [negb].
  destruct (wi_sent (x_wire x)) as [[c h]|] eqn:E; cbn.
  all: split; cbn; rewrite ?E; try done.
  - exists (see_status code rw). cbn. rewrite list_lookup_alter_eq, Hrw, E. split; [done|]. unfold see_status.
    destruct Hs as [Hs Hc0]. by rewrite Hs, (proj2 (Z.eqb_neq _ _) Hc0).
  - exists (see_status code rw). cbn. rewrite list_lookup_alter_eq, Hrw. split; [done|]. unfold see_status. rewrite Hs. cbn. lia.
Qed.

Lemma faithful_Write p b : faithfully p (Write_ (Wrapped p Raw) b).
Proof.
  intros x (rw & Hrw & Hs). cbn. unfold mbind, mmodify, raw_Write. cbn.
  set (sent := match wi_sent (x_wire x) with Some s => s | None => _ end).
  assert (rw_status (see_status StatusOK rw) = sent.1 /\ sent.1 <> 0) as [Hst Hnz].
  { unfold sent, see_status. destruct (wi_sent (x_wire x)) as [[c h]|]; [|by rewrite Hs].
    destruct Hs as [Hs Hc]. by rewrite Hs, (proj2 (Z.eqb_neq _ _) Hc). }
  destruct (bodyAllowed sent.1); cbn; (split; try done; cbn;
    [eexists; cbn; rewrite !list_lookup_alter_eq, Hrw; split; [done|]; by destruct sent
    |unfold sent; by destruct (wi_sent (x_wire x)) as [[]|]]).
Qed.

Lemma faithful_respond p rsp : final_code (rs_status rsp) -> faithfully p (respond json_text (Wrapped p Raw) rsp).
Proof.
  intros Hc. unfold respond. apply faithful_bind; [by apply faithful_Header_Set|intros _].
  apply faithful_bind; [by apply faithful_WriteHeader|intros _]. destruct (rs_body rsp); [|apply faithful_ret].
  apply faithful_bind; [apply faithful_Write|intros _; apply faithful_ret].
Qed.

Lemma faithful_Error p msg code : final_code code -> faithfully p (Error_ (Wrapped p Raw) msg code).
Proof.
  intros Hc. unfold Error_. do 2 (apply faithful_bind; [by apply faithful_Header_Set|intros _]).
  apply faithful_bind; [by apply faithful_WriteHeader|intros _].
  apply faithful_bind; [apply faithful_Write|intros _; apply faithful_ret].
Qed.

(** The body of an answer, and what a client whose request was [HEAD] or not
    gets of it. *)
Definition answer_text (rsp : Response) : string :=
  match rs_body rsp with Ok j => json_text j +:+ bytes [10%nat] | Err _ => "" end.
Definition body_sent (head : bool) (rsp : Response) : string := if head then "" else answer_text rsp.

(** The whole answer of [respond] on a fresh wire. *)

Lemma respond_writes p rsp (x : X) : final_code (rs_status rsp) -> bodyAllowed (rs_status rsp) = true ->
  wi_sent (x_wire x) = None -> wi_body (x_wire x) = "" ->
  (respond json_text (Wrapped p Raw) rsp x).1 = Ok tt /\
  let y := (respond json_text (Wrapped p Raw) rsp x).2 in
  x_engine y = x_engine x /\ wire_status (x_wire y) = rs_status rsp /\ wi_body (x_wire y) = body_sent (wi_head (x_wire x)) rsp /\
  rw_route (rw_at p y) = rw_route (rw_at p x) /\ exists hd, wi_sent (x_wire y) = Some (rs_status rsp, hd).
Proof.
  intros [Hc Hi] Hb Hs Hw. unfold respond, body_sent, answer_text, Header_Set, mbind, mmodify. cbn. unfold raw_WriteHeader, valid_code. cbn.
  rewrite Hs, Hi. replace ((100 <=? rs_status rsp) && (rs_status rsp <=? 999)) with true by lia. cbn.
  destruct (rs_body rsp) as [j|e]; cbn; unfold mbind, mmodify, raw_Write; cbn -[bodyAllowed]; rewrite ?Hb; cbn; unfold body_with; cbn; rewrite Hw.
  all: split_and!; try done; try (by eexists); try (by destruct (wi_head (x_wire x))).
  all: unfold rw_at; cbn; rewrite !list_lookup_alter_eq; destruct (x_rws x !! p); cbn; unfold see_status; by repeat case_match.
Qed.

(** ** What the client, the counters and the spans show of a request *)

(** On the server's own writer: a status that was sent stays. *)
Lemma respond_raw rsp (x : X) : final_code (rs_status rsp) -> exists wi,
  respond json_text Raw rsp x = (Ok tt, set_wire wi x) /\
  wi_sent wi = match wi_sent (x_wire x) with
               | Some s => Some s
               | None => Some (rs_status rsp, <["Content-Type" := "application/json"]> (wi_header (x_wire x)))
               end.
Proof.
  intros [Hc Hi]. destruct x as [e m ls ss [head hd inf sent body] rws n1 n2 n3].
  unfold respond, Header_Set, mbind, mmodify. cbn. unfold raw_WriteHeader, valid_code. cbn.
  rewrite Hi. replace ((100 <=? rs_status rsp) && (rs_status rsp <=? 999)) with true by lia.
  destruct sent as [[c h]|]; cbn; (destruct (rs_body rsp) as [j|]; [|eexists; split; reflexivity]);
    unfold raw_Write; cbn -[bodyAllowed]; destruct (bodyAllowed _); eexists; split; reflexivity.
Qed.

(** The recoverer's answer never panics, and adds nothing to the counters. *)
Lemma left_panicking_eq r x y e : exists wi, left_panicking r x y e =
    (Ok tt, set_wire wi (add_lines (ErrorContext logger (rq_ctx r) "panic recovered"
       [("panic", AttrStr (error_text e)); ("stack", AttrStr stack)]) (add_span (SpanEnded (x_started x)) y))) /\
  wi_sent wi = match wi_sent (x_wire y) with
               | Some s => Some s
               | None => Some (StatusInternalServerError, <["Content-Type" := "application/json"]> (wi_header (x_wire y)))
               end.
Proof.
  unfold left_panicking. set (z := add_lines _ _).
  destruct (respond_raw (writeError StatusInternalServerError "internal error") z) as (wi & E & Hs); [done|].
  exists wi. split; [exact E|exact Hs].
Qed.

(** Nothing escapes, whatever the handler does. *)
Lemma chain_total (core : Hdl) r x : exists z, serve_chain core Raw r x = (Ok tt, z).
Proof.
  rewrite chain_eq. destruct (core _ _ _) as [[[]|e] y]; [by eexists|].
  destruct (left_panicking_eq r x y e) as (wi & -> & _). by eexists.
Qed.
End Chain.

(** ** Log lines *)

(** A line of the access log for a request: what was answered, under which
    route and which identifier. *)
Definition access_record (h : traceHandler) (r : HttpRequest) (id pat : string) (status : Z) (ln : LogLine) : Prop :=
  ll_Message ln = "http request" /\ ll_Level ln = LevelInfo /\
  forall kv, kv ∈ [("method", AttrStr (Method r)); ("path", AttrStr (URL_Path r)); ("route", AttrStr pat); ("status", AttrInt status);
                   ("request_id", AttrStr id)] ->
    (jh_groups (th_Handler h), kv) ∈ ll_Attrs ln.

(** Which patterns leave no line in the access log. *)
Definition unlogged (pat : string) : bool := bool_decide (pat ∈ ["GET /metrics"; "GET /healthz"; "GET /readyz"]).

Lemma correlated h ctx r id : ctx_id ctx = Some id -> id <> "" -> forall kv,
  kv ∈ lr_Attrs r \/ kv = ("request_id", AttrStr id) -> (jh_groups (th_Handler h), kv) ∈ ll_Attrs (Handle h ctx r).
Proof.
  intros Hi Hn kv Hkv. unfold Handle, json_Handle, AddAttrs, correlation. cbn. rewrite Hi, bool_decide_eq_false_2 by done.
  apply elem_of_app. right. apply list_elem_of_fmap. exists kv. split; [done|].
  rewrite !elem_of_app, list_elem_of_singleton. tauto.
Qed.

Lemma access_line_spec h r ctx rw d id : ctx_id ctx = Some id -> id <> "" ->
  length (access_line h r ctx rw d) =
    (if unlogged (route_label rw) || negb (json_Enabled (th_Handler h) LevelInfo) then 0 else 1)%nat /\
  Forall (access_record h r id (route_label rw) (rw_status rw)) (access_line h r ctx rw d).
Proof.
  intros Hi Hn. unfold access_line. fold (unlogged (route_label rw)). destruct (unlogged _); [done|].
  unfold InfoContext, slog. destruct (json_Enabled _ _); [|done]. split; [done|]. apply Forall_singleton.
  split; [done|]. split; [done|]. intros kv Hkv. apply (correlated h ctx _ id Hi Hn). cbn. set_solver.
Qed.

(** ** The patterns of the mux *)

(** Two paths that a literal or the length tells apart. *)
Fixpoint paths_apart (p q : list segment) : bool :=
  match p, q with
  | [], [] => false
  | a :: p', b :: q' =>
      match a, b with Literal s, Literal t => negb (bool_decide (s = t)) | _, _ => false end || paths_apart p' q'
  | _, _ => true
  end.
Definition methods_apart (m n : string) : bool := negb (match_method m n) && negb (match_method n m).
Definition patterns_apart (p q : string) : bool :=
  methods_apart (parse_pattern p).1 (parse_pattern q).1 || paths_apart (parse_pattern p).2 (parse_pattern q).2.

Lemma paths_apart_sound p q path : paths_apart p q = true -> match_path p path = None \/ match_path q path = None.
Proof.
  revert q path. induction p as [|a p IH]; intros [|b q] [|x path]; cbn [paths_apart]; intros Ha;
    try done; try (destruct a; auto; fail); try (destruct b; auto; fail).
  apply orb_true_iff in Ha as [Ha|Ha].
  - destruct a as [s|s], b as [t|t]; try done. apply negb_true_iff, bool_decide_eq_false in Ha. cbn.
    repeat case_bool_decide; subst; auto.
  - cbn. destruct (IH _ path Ha) as [-> | ->]; [left; destruct a|right; destruct b]; by case_bool_decide.
Qed.

Lemma match_method_true p m : match_method p m = true <-> p = m \/ (p = "GET" /\ m = "HEAD").
Proof. unfold match_method. by rewrite orb_true_iff, andb_true_iff, !bool_decide_eq_true. Qed.

Lemma methods_apart_sound m n x : methods_apart m n = true -> match_method m x = true -> match_method n x = false.
Proof.
  unfold methods_apart. rewrite andb_true_iff, !negb_true_iff. intros [Hmn Hnm] Hm.
  destruct (match_method n x) eqn:Hn; [exfalso|done].
  assert (~ (m = n \/ (m = "GET" /\ n = "HEAD"))) by (rewrite <- match_method_true; congruence).
  assert (~ (n = m \/ (n = "GET" /\ m = "HEAD"))) by (rewrite <- match_method_true; congruence).
  apply match_method_true in Hm, Hn. naive_solver.
Qed.

(** A pattern takes a request: what its wildcards are bound to. *)
Definition takes (pat : string) (r : HttpRequest) : option (list (string * string)) :=
  if match_method (parse_pattern pat).1 (Method r) then match_path (parse_pattern pat).2 (Segments r) else None.

Lemma apart_takes p q r : patterns_apart p q = true -> is_Some (takes p r) -> takes q r = None.
Proof.
  unfold patterns_apart, takes. rewrite orb_true_iff. intros [Ha|Ha] [vs Hp].
  - destruct (match_method (parse_pattern p).1 _) eqn:E; [|done]. by rewrite (methods_apart_sound _ _ _ Ha E).
  - destruct (match_method (parse_pattern p).1 _); [|done]. case_match; [|done].
    destruct (paths_apart_sound _ _ (Segments r) Ha); congruence.
Qed.

Section Mux.
Context {W C H : Type}.
Abbreviation Reg := (registration (W := W) (C := C) (H := H)).

(** The mux hands a request to the one pattern that takes it. *)
Lemma mux_unique (regs : list Reg) g vs w r :
  ForallOrdPairs (fun p q => patterns_apart (rg_pattern p) (rg_pattern q) = true) regs ->
  g ∈ regs -> takes (rg_pattern g) r = Some vs ->
  ServeMux regs w r = rg_handler g w (WithPathValues vs r).
Proof.
  intros Hap Hg Ht. unfold ServeMux. set (f := fun h => if match_method _ _ then _ else _).
  assert (forall h, f h = (fun vs => (h, vs)) <$> takes (rg_pattern h) r) as Hf.
  { intros h. unfold f, takes. fold (rg_method h) (rg_path h). by case_match. }
  replace (omap f regs) with [(g, vs)]; [done|]. revert Hg.
  assert (forall l, Forall (fun q => patterns_apart (rg_pattern g) (rg_pattern q) = true) l -> omap f l = []) as Hnone.
  { induction 1 as [|q l Hq _ IH]; cbn; [done|]. by rewrite Hf, (apart_takes _ _ r Hq) by (by exists vs). }
  induction Hap as [|g0 regs H0 Hap IH]; [by intros ?%elem_of_nil|]. intros [<-|Hg]%elem_of_cons; cbn; rewrite Hf.
  - rewrite Ht. cbn. by rewrite Hnone.
  - destruct (takes (rg_pattern g0) r) as [vs0|] eqn:E0; [|by apply IH].
    rewrite Forall_forall in H0. by rewrite (apart_takes _ _ r (H0 g Hg)) in Ht by (by exists vs0).
Qed.
End Mux.

(** ** The server *)

Section Server.
Context `{Sha256} `{BreakClassifier} `{JSONText} {S : Type} `{Repository S} `{StoreReads S}.
Context {C Hg : Type} `{!CounterVec C} `{!HistogramVec Hg}.
Context (cfg : Config) (Version : string) (Ready : option (Time -> option error)).
Context (logger : traceHandler) (NewString : nat -> string).
Context (Extract : (string -> string) -> SpanContext -> SpanContext) (Start : nat -> SpanContext -> SpanContext).
Context (clk : nat -> Time) (json_text : json -> string) (stack : string).

Abbreviation X := (Exchange (World S) C Hg).
Abbreviation New := (New (C := C) (Hg := Hg) cfg Version Ready json_text).

Lemma New_apart page : ForallOrdPairs (fun p q => patterns_apart (rg_pattern p) (rg_pattern q) = true) (New page).
Proof. repeat constructor. Qed.

Lemma New_named page g : g ∈ New page -> rg_pattern g <> "".
Proof. intros Hin. repeat (apply elem_of_cons in Hin as [->|Hin]; [done|]). by apply elem_of_nil in Hin. Qed.

(** The statuses the handlers answer with. *)
Definition statuses : list Z :=
  [StatusOK; StatusBadRequest; StatusNotFound; StatusConflict; StatusRequestEntityTooLarge; StatusInternalServerError;
   StatusServiceUnavailable].
Definition answers_in {A} (status : A -> Prop) (m : M (World S) A) : Prop := forall w a, (m w).1 = Ok a -> status a.
Abbreviation answered_in := (answers_in (fun rsp => rs_status rsp ∈ statuses)).

Lemma answers_in_bind {A B} (st : B -> Prop) (m : M (World S) A) k :
  (forall a, answers_in st (k a)) -> answers_in st (mbind m k).
Proof. intros Hk w b. unfold mbind. destruct (m w) as [[a|e] w']; [apply Hk|done]. Qed.
Lemma answers_in_ret {A} (st : A -> Prop) a : st a -> answers_in st (mret a).
Proof. by intros Ha w b [= <-]. Qed.
Lemma status_in n : bool_decide (n ∈ statuses) = true -> n ∈ statuses.
Proof. apply bool_decide_eq_true. Qed.

Ltac answers := repeat first
  [ apply answers_in_bind; intros | apply answers_in_ret, status_in; reflexivity | progress cbv zeta
  | progress cbn [handle lookupFailed] | case_match ].

Lemma handle_status rt rq : answers_in (fun o => forall rsp, o = Some rsp -> rs_status rsp ∈ statuses)
  (handle cfg Version Ready rt rq).
Proof.
  assert (forall m : M (World S) Response, answered_in m ->
    answers_in (fun o => forall rsp, o = Some rsp -> rs_status rsp ∈ statuses) (let! resp := m in mret (Some resp))%recon) as Hs.
  { intros m Hm w o. unfold mbind. specialize (Hm w). destruct (m w) as [[a|e] w']; [|done].
    intros [= <-] rsp [= <-]. by apply Hm. }
  destruct rt; cbn [handle]; try apply Hs.
  - unfold healthz. answers.
  - unfold readyz. answers.
  - unfold postLegs. answers.
  - unfold listBreaks. answers.
  - unfold getBreak, lookupFailed. answers.
  - unfold resolveBreak. answers.
  - unfold getMatch, lookupFailed. answers.
  - unfold getLeg, lookupFailed. answers.
  - unfold stats. answers.
  - unfold events. answers.
  - unfold replay. case_match; [apply answers_in_bind; intros [[res [e|]]|]|]; apply answers_in_ret; intros rsp Hr;
      simplify_eq; by apply status_in.
  - unfold closeWindow. answers.
Qed.

(** ** One request, end to end *)

Lemma statuses_final c : c ∈ statuses -> final_code c /\ bodyAllowed c = true.
Proof. intros Hc. repeat (apply elem_of_cons in Hc as [->|Hc]; [done|]). by apply elem_of_nil in Hc. Qed.

Lemma handle_answers rt rq w rsp e : handle cfg Version Ready rt rq w = (Ok (Some rsp), e) -> rs_status rsp ∈ statuses.
Proof. intros Hh. pose proof (handle_status rt rq w (Some rsp)) as Ht. rewrite Hh in Ht. by apply Ht. Qed.

(** The exchange the handler of a route starts from. *)
Definition routed_entry (pat : string) (p : nat) (x : X) : X :=
  with_rw p (fun rw => mkResponseWriter (rw_status rw) (rw_bytes rw) pat) x.

Lemma tracked_with p f (x : X) : (forall rw, rw_status (f rw) = rw_status rw) -> tracked p x -> tracked p (with_rw p f x).
Proof.
  intros Hf (rw & Hrw & Hs). exists (f rw). cbn. rewrite list_lookup_alter_eq, Hrw. split; [done|]. by rewrite Hf.
Qed.

Lemma route_serve pat mk p r x rsp e : tracked p x -> wi_sent (x_wire x) = None -> wi_body (x_wire x) = "" ->
  handle cfg Version Ready (mk (PathValue r)) (rq_rest r) (x_engine x) = (Ok (Some rsp), e) ->
  exists y, route pat (serve cfg Version Ready json_text mk) (Wrapped p Raw) r x = (Ok tt, y) /\
    kept p (set_engine e (routed_entry pat p x)) y /\ x_engine y = e /\
    wire_status (x_wire y) = rs_status rsp /\ wi_body (x_wire y) = body_sent json_text (wi_head (x_wire x)) rsp /\
    rw_route (rw_at p y) = pat /\ exists hd, wi_sent (x_wire y) = Some (rs_status rsp, hd).
Proof.
  intros Hx Hs Hb Hh. destruct (statuses_final (rs_status rsp)) as [Hf Hba].
  { by apply (handle_answers _ _ _ _ _ Hh). }
  unfold route, serve, mbind, mmodify. cbn beta iota. fold (routed_entry pat p x).
  change (x_engine (routed_entry pat p x)) with (x_engine x). rewrite Hh. set (z := set_engine e _).
  destruct (respond_writes json_text p rsp z Hf Hba Hs Hb) as (Ho & He & Hst & Hbd & Hrt & Hsn).
  pose proof (faithful_respond json_text p rsp Hf z) as Hk.
  destruct (respond json_text (Wrapped p Raw) rsp z) as [o y]. cbn [fst snd] in *. subst o. exists y. split_and!; try done.
  - apply Hk. by apply tracked_with.
  - rewrite Hrt. change (rw_route (rw_at p (routed_entry pat p x)) = pat). unfold routed_entry.
    destruct Hx as (rw & Hrw & _). rewrite rw_at_with by (by exists rw). done.
Qed.
End Server.
