(* ===== verification/Fixtures.v ===== *)
(** * Fixtures

    A small run of the engine over the in-memory store, on which the theorems
    of the properties files are evaluated: a ledger leg, a rail leg that
    reconciles with it, a rail leg that conflicts. *)

From S2P Require Export EngineFacts MemoryStore Heuristic.

#[local] Existing Instance checksum.

(** A formatter that shows the format only. *)
#[export] Instance plain_format : Formatting := fun f _ => f.
#[export] Instance fixture_classifier : BreakClassifier := heuristic_classifier NewHeuristic.

(** The fixtures' value date. *)
Example fixture_date : date_of_day 739873 = NewDate 2026 9 15.
Proof. reflexivity. Qed.

Definition leg (src ref : string) (amt : Z) : Leg :=
  AssignID (mkLeg "" src ref amt "USD" (date_of_day 739873) Debit "VISA" ∅ 0 "" "" "").

Definition ledger1 : Leg := leg "ledger" "R1" 100000.
Definition rail1 : Leg := leg "rail" "R1" 100050.
Definition rail2 : Leg := leg "rail" "R2" 70000.

Definition fixture_rules : Rules := DefaultRules.
(** The clock starts at the fixtures' value date and ticks every second. *)
Definition fixture_cfg : Config :=
  mkConfig fixture_rules (mkHooks true true true true)
    (fun n => 739873 * Day + Z.of_nat n * Second) (fun _ => None).

Definition fixture_ids : list string := [ID ledger1; ID rail1; ID rail2].
Definition fixture_U : gset string := list_to_set fixture_ids.

Definition w0 : World Store := mkWorld NewStore (NewIndex Hour) false 0 0 [].

Lemma w0_new : NewEngine fixture_cfg NewStore Hour = Ok w0.
Proof. reflexivity. Qed.

(** ** Collisions *)

(** The sublists of a list. *)
Fixpoint sublists {A} (l : list A) : list (list A) :=
  match l with
  | [] => [[]]
  | x :: l' => (cons x <$> sublists l') ++ sublists l'
  end.

Lemma filter_sublists {A} (P : A -> Prop) `{!forall x, Decision (P x)} l : filter P l ∈ sublists l.
Proof.
  induction l as [|x l IH]; [by left|]. rewrite filter_cons. cbn. apply elem_of_app.
  destruct (decide (P x)); [left|by right]. apply list_elem_of_fmap. by exists (filter P l).
Qed.

(** The hash of a list of identifiers, without the prefix. *)
Definition id_hash `{Sha256} (ids : list string) : string :=
  str_take 20 (hex_EncodeToString (sha256_sum (strings_Join (sort_Strings ids) NUL))).

Lemma no_collisions_check `{Sha256} us : NoDup us -> NoDup (id_hash <$> sublists us) ->
  no_collisions (list_to_set us).
Proof.
  intros Hus Hh p ids1 ids2 H1 H2 Hs1 Hs2 Heq.
  assert (forall ids, NoDup ids -> (forall x, x ∈ ids -> x ∈ (list_to_set us : gset string)) ->
    ids ≡ₚ filter (fun x => x ∈ ids) us) as Hcanon.
  { intros ids Hn Hs. apply NoDup_Permutation; [done|by apply NoDup_filter|]. intros x.
    rewrite list_elem_of_filter. specialize (Hs x). rewrite elem_of_list_to_set in Hs. naive_solver. }
  rewrite (Hcanon ids1 H1 Hs1), (Hcanon ids2 H2 Hs2).
  rewrite (DeriveID_perm _ _ _ (Hcanon ids1 H1 Hs1)), (DeriveID_perm _ _ _ (Hcanon ids2 H2 Hs2)) in Heq.
  assert (id_hash (filter (fun x => x ∈ ids1) us) = id_hash (filter (fun x => x ∈ ids2) us)) as He.
  { unfold DeriveID in Heq. apply (inj (String.app p)) in Heq.
    by apply (inj (String.app "_")) in Heq. }
  assert (filter (fun x => x ∈ ids1) us = filter (fun x => x ∈ ids2) us) as ->; [|done].
  pose proof (filter_sublists (fun x => x ∈ ids1) us) as [i Hi]%list_elem_of_lookup.
  pose proof (filter_sublists (fun x => x ∈ ids2) us) as [j Hj]%list_elem_of_lookup.
  assert (i = j) as ->; [|congruence].
  eapply (NoDup_lookup _ _ _ _ Hh); rewrite list_lookup_fmap; [by rewrite Hi|rewrite Hj; cbn; by rewrite He].
Qed.

Lemma fixture_no_collisions : no_collisions fixture_U.
Proof.
  apply no_collisions_check.
  - apply (bool_decide_unpack _). vm_compute. done.
  - apply (bool_decide_unpack _). vm_compute. done.
Qed.

Lemma fixture_sane : sane_config fixture_cfg.
Proof. split; [|done]. split; [apply DefaultRules_wf|done]. Qed.
