(* ===== verification/PgFixture.v ===== *)
(** * A database to run the Postgres store on

    A small database in memory that does what Sql.v says of the statements: it
    shows that the laws can hold together, and the properties of the Postgres
    store are evaluated on it. *)

From S2P Require Export StatsFacts Fixtures.

Local Open Scope recon_scope.

(** ** JSONB *)

(** The fields of an object by key, the last of each. *)
Definition last_fields (fs : list (string * json)) : list (string * json) :=
  map_to_list (list_to_map (reverse fs) : gmap string json).

Fixpoint plain_jsonb (j : json) : json :=
  match j with
  | JArr l => JArr (plain_jsonb <$> l)
  | JObj fs => JObj (last_fields ((fun kj => match kj with (k, v) => (k, plain_jsonb v) end) <$> fs))
  | _ => j
  end.

Lemma plain_jsonb_law : keeps_json plain_jsonb.
Proof.
  constructor.
  - by intros [].
  - done.
  - intros fs. eexists. split; [reflexivity|]. split; [apply NoDup_fst_map_to_list|]. intros k.
    unfold last_fields, field. set (gs := _ <$> fs).
    assert (list_to_map (reverse (map_to_list (list_to_map (reverse gs) : gmap string json))) =
            (list_to_map (reverse gs) : gmap string json)) as ->.
    { rewrite <- (list_to_map_to_list (list_to_map (reverse gs) : gmap string json)) at 2.
      apply list_to_map_proper; [|by rewrite reverse_Permutation].
      rewrite reverse_Permutation. apply NoDup_fst_map_to_list. }
    assert (reverse gs = prod_map id plain_jsonb <$> reverse fs) as ->.
    { unfold gs. rewrite <- fmap_reverse. apply list_fmap_ext. by intros i [] _. }
    by rewrite list_to_map_fmap, lookup_fmap.
Qed.

(** ** Order *)

#[export] Instance leg_row_le_dec : RelDecision (leg_row_le String.le).
Proof. intros a b. unfold leg_row_le. apply _. Defined.
#[export] Instance break_row_le_dec : RelDecision (break_row_le String.le).
Proof. intros a b. unfold break_row_le. apply _. Defined.
#[export] Instance leg_row_le_trans : Transitive (leg_row_le String.le).
Proof. by apply (by_time_trans lr_ingested_at lr_id). Qed.
#[export] Instance leg_row_le_total : Total (leg_row_le String.le).
Proof. by apply (by_time_total lr_ingested_at lr_id). Qed.
#[export] Instance break_row_le_trans : Transitive (break_row_le String.le).
Proof. by apply (by_time_trans br_opened_at br_id). Qed.
#[export] Instance break_row_le_total : Total (break_row_le String.le).
Proof. by apply (by_time_total br_opened_at br_id). Qed.

Lemma sorted_ordered {R} (le : relation R) `{!RelDecision le, !Transitive le, !Total le} rows :
  ordered le rows (merge_sort le rows).
Proof. split; [apply merge_sort_Permutation|by apply StronglySorted_merge_sort]. Qed.

(** ** Executing the statements *)

Record PlainDB : Type := mkPlainDB { pd_tables : Tables; pd_now : Time }.
Record PlainTx : Type := mkPlainTx { pt_tables : Tables; pt_pending : list Statement }.

Definition all_commands : list Command :=
  [InsertLeg; InsertMatch; InsertBreak; InsertEvent; InsertVersion; TruncateProjections].

Definition run_command (c : Command) (args : list Value) (t : Tables) : option Tables :=
  match c with
  | InsertLeg => r ← leg_row Some plain_jsonb args; Some (upsert_leg r t)
  | InsertMatch => r ← match_row Some args; Some (insert_match r t)
  | InsertBreak => r ← break_row Some args; Some (upsert_break r t)
  | InsertEvent => r ← event_row plain_jsonb (max_seq (t_events t) + 1) args; Some (append_event r t)
  | InsertVersion => match args with [VText v] => Some (add_version v t) | _ => None end
  | TruncateProjections => match args with [] => Some (truncate_projections t) | _ => None end
  end.

(** The command a text is; a text that is none, without arguments, is a
    definition of tables that are there. *)
Definition run_sql (st : Statement) (t : Tables) : option Tables :=
  match list_find (fun c => command_sql c = st.1) all_commands with
  | Some (_, c) => run_command c st.2 t
  | None => if bool_decide (st.2 = []) then Some t else None
  end.

Definition all_listings : list Listing :=
  cols ← sublists all_columns; l ← [false; true]; o ← [false; true]; [mkListing cols l o].
Definition all_selects : list Select :=
  [SelHasLeg; SelLeg; SelLegsByRef; SelOpenLegs; SelMatch; SelBreak; SelEvents; SelLastSeq; CountLegs;
   CountLegsBySource; CountMatchesByTier; CountMatchesByRule; CountBreaksByCategory; CountBreaks; CountEvents] ++
  (SelBreaks <$> all_listings).
Definition select_texts : list (string * Select) := Eval vm_compute in (fun s => (select_sql s, s)) <$> all_selects.

Definition groups (ks : list string) : list Row := count_values <$> map_to_list (occurrences ks).
Definition run_page (now : Time) (cols : list BreakColumn) (vs : list Value) (limit offset : option Z) (t : Tables)
  : option (list Row) :=
  let out := merge_sort (break_row_le String.le)
    (filter (fun r => Forall (fun cv => cond_holds now cv.1 cv.2 r = true) (zip cols vs)) (rows_of (t_breaks t))) in
  if bool_decide (length vs = length cols) then
    Some (break_values <$>
      (match limit with Some n => take (Z.to_nat n) | None => id end) (drop (Z.to_nat (default 0 offset)) out))
  else None.

Definition run_listing (now : Time) (q : Listing) (args : list Value) (t : Tables) : option (list Row) :=
  let cols := ls_columns q in
  let vs := take (length cols) args in
  match ls_limit q, ls_offset q, drop (length cols) args with
  | false, false, [] => run_page now cols vs None None t
  | true, false, [VInt n] => run_page now cols vs (Some n) None t
  | false, true, [VInt m] => run_page now cols vs None (Some m) t
  | true, true, [VInt n; VInt m] => run_page now cols vs (Some n) (Some m) t
  | _, _, _ => None
  end.

Definition run_select (now : Time) (s : Select) (args : list Value) (t : Tables) : option (list Row) :=
  let ls := rows_of (t_legs t) in
  let bs := rows_of (t_breaks t) in
  let open := filter (fun r => is_break_status "open" r = true) bs in
  match s, args with
  | SelHasLeg, [VText id] => Some [[VBool (bool_decide (is_Some (t_legs t !! id)))]]
  | SelLeg, [VText id] => Some (leg_values <$> option_list (t_legs t !! id))
  | SelLegsByRef, [VText ref] =>
      Some (leg_values <$> merge_sort (leg_row_le String.le) (filter (fun r => lr_txn_ref r = ref) ls))
  | SelOpenLegs, [] =>
      Some (leg_values <$> merge_sort (leg_row_le String.le) (filter (fun r => lr_status r = "open") ls))
  | SelMatch, [VText id] => Some (match_values <$> option_list (t_matches t !! id))
  | SelBreak, [VText id] => Some (break_values <$> option_list (t_breaks t !! id))
  | SelBreaks q, _ => run_listing now q args t
  | SelEvents, [VInt from; VInt limit] =>
      Some (event_values <$> take (Z.to_nat limit) (filter (fun e => from <= er_seq e) (t_events t)))
  | SelLastSeq, [] => Some [[VInt (max_seq (t_events t))]]
  | CountLegs, [] =>
      Some [[VInt (Z.of_nat (length ls)); VInt (count_if (is_status "open") ls); VInt (count_if (is_status "matched") ls);
             VInt (count_if (is_status "break") ls)]]
  | CountLegsBySource, [] => Some (groups (lr_source <$> ls))
  | CountMatchesByTier, [] => Some (groups ((fun r => tier_text (mr_tier r)) <$> rows_of (t_matches t)))
  | CountMatchesByRule, [] => Some (groups (mr_rule_id <$> rows_of (t_matches t)))
  | CountBreaksByCategory, [] => Some (groups (br_category <$> open))
  | CountBreaks, [] =>
      Some [[VInt (count_if (is_break_status "open") bs); VInt (count_if (is_break_status "resolved") bs);
             nullable_time (min_time (br_opened_at <$> open))]]
  | CountEvents, [] => Some [[VInt (Z.of_nat (length (t_events t)))]]
  | _, _ => None
  end.

Definition run_query (sql : string) (args : list Value) (d : PlainDB) : option (list Row) :=
  match list_find (fun ts => ts.1 = sql) select_texts with
  | Some (_, (_, s)) => run_select (pd_now d) s args (pd_tables d)
  | None => None
  end.

Definition pd_error {A} : result A := Err (ErrText "ERROR: syntax error (SQLSTATE 42601)").
Definition or_error {A} (o : option A) : result A := match o with Some a => Ok a | None => pd_error end.

Definition pt_run (st : Statement) (pending : list Statement) (x : PlainTx) : result unit * PlainTx :=
  match run_sql st (pt_tables x) with
  | Some t => (Ok tt, mkPlainTx t pending)
  | None => (pd_error, mkPlainTx (pt_tables x) pending)
  end.

#[export] Instance plain_database : Database PlainDB PlainTx := {|
  ParseDSN := fun dsn => if bool_decide (dsn = "") then Err (ErrText "cannot parse dsn") else Ok tt;
  PoolNew := fun _ => mret tt;
  PoolPing := mret tt;
  PoolClose := id;
  Query := fun sql args d => (or_error ((fun rows => (rows, None)) <$> run_query sql args d), d);
  QueryRow := fun sql args d => (or_error (head <$> run_query sql args d), d);
  Exec := fun sql args d =>
    match run_sql (sql, args) (pd_tables d) with
    | Some t => (Ok tt, mkPlainDB t (pd_now d))
    | None => (pd_error, d)
    end;
  BeginFunc := fun f d =>
    match f (mkPlainTx (pd_tables d) []) with
    | (Ok _, x) => (Ok tt, mkPlainDB (pt_tables x) (pd_now d))
    | (Err e, _) => (Err e, d)
    end;
  TxQueryRow := fun sql args x =>
    match args with
    | [VText v] =>
        if bool_decide (sql = version_applied_sql)
        then (Ok (Some [VBool (bool_decide (v ∈ t_versions (pt_tables x)))]), x) else (pd_error, x)
    | _ => (pd_error, x)
    end;
  TxExec := fun sql args x => pt_run (sql, args) (pt_pending x) x;
  TxSendBatch := fun q x => mkPlainTx (pt_tables x) q;
  TxBatchExec := fun x =>
    match pt_pending x with
    | [] => (pd_error, x)
    | st :: q => pt_run st q x
    end;
  TxBatchClose := fun x => (Ok tt, mkPlainTx (pt_tables x) []);
  PgError := fun e => match e with ErrText m => Some (m, "42601") | _ => None end
|}.

(** ** It keeps the laws *)

Lemma find_command c : list_find (fun c' => command_sql c' = command_sql c) all_commands = Some (match c with
  InsertLeg => 0 | InsertMatch => 1 | InsertBreak => 2 | InsertEvent => 3 | InsertVersion => 4 | TruncateProjections => 5 end, c)%nat.
Proof. destruct c; vm_compute; reflexivity. Qed.

Lemma max_seq_bound es : Forall (fun e => er_seq e < max_seq es + 1) es.
Proof.
  unfold max_seq. assert (forall n, n <= foldl Z.max n (er_seq <$> es) /\
    Forall (fun e => er_seq e < foldl Z.max n (er_seq <$> es) + 1) es) as H; [|by apply H].
  induction es as [|e es IH]; intros n; [by split|]. cbn. destruct (IH (Z.max n (er_seq e))) as [H1 H2].
  split; [lia|]. constructor; [lia|done].
Qed.

Lemma max_seq_nonneg es : 0 <= max_seq es.
Proof.
  unfold max_seq. assert (forall n, 0 <= n -> 0 <= foldl Z.max n (er_seq <$> es)) as H; [|by apply H].
  induction es as [|e es IH]; intros n Hn; [done|]. cbn. apply IH. lia.
Qed.

Lemma run_command_executes c args t t' : run_command c args t = Some t' -> executes Some plain_jsonb c args t t'.
Proof.
  destruct c; cbn [run_command]; intros H.
  1-4: apply bind_Some in H as (r & Hr & [= <-]).
  - by constructor.
  - by constructor.
  - by constructor.
  - econstructor; [|apply max_seq_bound|exact Hr]. pose proof (max_seq_nonneg (t_events t)). lia.
  - destruct args as [|[] [|]]; try done. injection H as <-. constructor.
  - destruct args; [|done]. injection H as <-. constructor.
Qed.

Lemma run_sql_executes c args t t' : run_sql (command_sql c, args) t = Some t' -> executes Some plain_jsonb c args t t'.
Proof. unfold run_sql. cbn [fst snd]. rewrite find_command. apply run_command_executes. Qed.

Lemma grouped_occurrences_list ks : grouped ks (map_to_list (occurrences ks)).
Proof.
  split; [apply NoDup_fst_map_to_list|]. intros k n. rewrite elem_of_map_to_list, occurrences_lookup.
  destruct (decide (k ∈ ks)); [|naive_solver]. unfold count. naive_solver.
Qed.

Lemma run_page_selects now cols vs limit offset t rows : run_page now cols vs limit offset t = Some rows ->
  selects String.le now t (SelBreaks (mkListing cols (bool_decide (is_Some limit)) (bool_decide (is_Some offset))))
    (vs ++ (VInt <$> option_list limit) ++ (VInt <$> option_list offset)) rows.
Proof.
  unfold run_page. case_bool_decide as Hlen; [|done]. intros [= <-]. apply sel_breaks; [done|exact (sorted_ordered _ _)].
Qed.

Lemma run_listing_selects now q args t rows : run_listing now q args t = Some rows ->
  selects String.le now t (SelBreaks q) args rows.
Proof.
  unfold run_listing. destruct q as [cols l o]. cbn [ls_columns ls_limit ls_offset]. intros H.
  rewrite <- (take_drop (length cols) args). generalize dependent (take (length cols) args). intros vs H.
  destruct l, o, (drop (length cols) args) as [|[] [|[] [|]]]; try done; by apply run_page_selects in H.
Qed.

Lemma run_select_selects now s args t rows : run_select now s args t = Some rows -> selects String.le now t s args rows.
Proof.
  destruct s; cbn [run_select]; try apply run_listing_selects;
    destruct args as [|[] [|[] [|]]]; try done; intros [= <-]; unfold groups;
    constructor; first [exact (sorted_ordered _ _)|apply grouped_occurrences_list].
Qed.

Lemma select_texts_distinct : NoDup select_texts.*1.
Proof. apply (bool_decide_unpack _). vm_compute. reflexivity. Qed.

Lemma elem_of_sublists {A} (l k : list A) : l `sublist_of` k -> l ∈ sublists k.
Proof.
  induction 1 as [|x l k _ IH|x l k _ IH]; cbn; [by left|..]; apply elem_of_app; [left|by right].
  apply list_elem_of_fmap. by exists l.
Qed.

Lemma listing_known q : ls_columns q `sublist_of` all_columns -> q ∈ all_listings.
Proof.
  intros Hq. unfold all_listings. destruct q as [cols l o]. apply list_elem_of_bind. exists cols.
  split; [|by apply elem_of_sublists]. apply list_elem_of_bind. exists l. split; [|destruct l; set_solver].
  apply list_elem_of_bind. exists o. split; [|destruct o; set_solver]. by left.
Qed.

Lemma select_texts_eq : select_texts = (fun s => (select_sql s, s)) <$> all_selects.
Proof. vm_compute. reflexivity. Qed.

Lemma select_known s : select_ok s -> (select_sql s, s) ∈ select_texts.
Proof.
  intros Hs. rewrite select_texts_eq. apply list_elem_of_fmap. exists s. split; [done|].
  unfold all_selects. apply elem_of_app.
  destruct s as [| | | | | |q| | | | | | | | |].
  7: { right. apply list_elem_of_fmap. exists q. split; [done|]. by apply listing_known. }
  all: left; repeat (first [left|right]).
Qed.

(** A query the laws speak of is recognised by its text. *)
Lemma run_query_selects s args d rows : select_ok s -> run_query (select_sql s) args d = Some rows ->
  selects String.le (pd_now d) (pd_tables d) s args rows.
Proof.
  intros Hs. unfold run_query. destruct (list_find _ _) as [[i [txt s']]|] eqn:E; [|done].
  apply list_find_Some in E as (Hi & Htxt & _). cbn in Htxt. subst txt.
  assert (s' = s) as ->; [|apply run_select_selects].
  pose proof (select_known s Hs) as [j Hj]%list_elem_of_lookup.
  assert (i = j) as ->.
  { eapply (NoDup_lookup _ _ _ _ select_texts_distinct); rewrite list_lookup_fmap; [by rewrite Hi|by rewrite Hj]. }
  congruence.
Qed.

Lemma read_batch_executes cs x x' : pt_pending x = statement <$> cs ->
  read_batch (DB := PlainDB) (length cs) x = (Ok tt, x') -> executes_all Some plain_jsonb cs (pt_tables x) (pt_tables x').
Proof.
  unfold read_batch. revert x. induction cs as [|[c args] cs IH]; intros x Hp; [by intros [= <-]|].
  cbn [length read_results]. unfold mbind in *. cbn [TxBatchExec plain_database]. rewrite Hp. cbn [fmap list_fmap].
  unfold pt_run. destruct (run_sql _ _) as [t|] eqn:E; [|done].
  intros H. exists t. split; [by apply run_sql_executes|]. by apply (IH (mkPlainTx t (statement <$> cs))).
Qed.

#[export] Instance plain_laws : DatabaseLaws PlainDB PlainTx.
Proof.
  refine {| char3 := Some; jsonb := plain_jsonb; collate := String.le; tables := pd_tables; tx_tables := pt_tables;
            db_now := pd_now; ddl := fun sql t => default t (run_sql (sql, []) t) |}.
  - done.
  - apply plain_jsonb_law.
  - intros s args d r d' Hs [= <- <-]. split; [done|]. intros rows H.
    destruct (run_query _ _ _) as [rs|] eqn:E; [|done]. injection H as <-. by apply run_query_selects.
  - intros s args d r d' Hs [= <- <-]. split; [done|].
    destruct (run_query _ _ _) as [rs|] eqn:E; [|done]. cbn. exists rs. split; [by apply run_query_selects|done].
  - intros c args d r d'. cbn. destruct (run_sql _ _) as [t|] eqn:E; intros [= <- <-]; [|done].
    by apply run_sql_executes.
  - intros f d r d'. cbn. destruct (f _) as [[[]|e] x] eqn:E; intros [= <- <-]; [|done].
    by exists (mkPlainTx (pd_tables d) []), x.
  - intros c args x x'. cbn. unfold pt_run. destruct (run_sql _ _) as [t|] eqn:E; [|done]. intros [= <-].
    by apply run_sql_executes.
  - intros sql x x'. cbn. unfold pt_run. destruct (run_sql _ _) as [t|] eqn:E; [|done]. by intros [= <-].
  - intros v x r x'. cbn. intros [= <- <-]. split; [done|]. by intros row [= <-].
  - intros cs x x' H. by apply (read_batch_executes cs (mkPlainTx (pt_tables x) (statement <$> cs))).
  - by intros d r d' [= <- <-].
  - by intros dsn d r d' [= <- <-].
  - done.
Defined.
