(* ===== verification/Walkthrough.v ===== *)
(** * The walkthrough of the README

    README.md shows the answers of the service to its sample file,
    examples/legs.json: 200 legs, with SHA-256 identifiers. Here the handlers are
    run on the same requests, with the hash itself, and their answers are compared
    with the ones shown there. *)

From S2P Require Export Http MemoryStore Heuristic Sample.

Local Open Scope recon_scope.

(** ** The requests *)

#[local] Existing Instance sha256.

(** [fmt.Sprintf], of the verbs that the reason of a fee break uses. *)
Fixpoint sprintf (f : string) (args : list fmt_arg) : string :=
  match f with
  | EmptyString => ""
  | String p f0 =>
      match f0, args with
      | String _ f', AStr s :: args' =>
          if bool_decide (p = byte 37) then bytes [34%nat] +:+ s +:+ bytes [34%nat] +:+ sprintf f' args'
          else String p (sprintf f0 args)
      | String _ f', AInt z :: args' =>
          if bool_decide (p = byte 37) then FormatInt z +:+ sprintf f' args' else String p (sprintf f0 args)
      | _, _ => String p (sprintf f0 args)
      end
  end.
#[local] Instance sample_format : Formatting := sprintf.
#[local] Instance sample_classifier : BreakClassifier := heuristic_classifier NewHeuristic.
#[local] Instance sample_reads : StoreReads Store := memory_reads (739875 * Day).

(** The bodies of the walkthrough; its names stand for the texts. *)
#[local] Instance sample_bodies : JSONText := fun text =>
  if bool_decide (text = "@examples/legs.json") then Ok sample_file
  else if bool_decide (text = "{resolution}")
  then Ok (JObj [("reason", JStr "interchange netted by scheme; booked to 4210"); ("actor", JStr "ops@example.bank")])
  else Err (ErrText "invalid character").

(** The default settings, and a clock that ticks every millisecond. *)
Definition sample_cfg : Config :=
  mkConfig DefaultRules (mkHooks true true true true) (fun n => 739875 * Day + Z.of_nat n * 1000000) (fun _ => None).
Definition sample_world : World Store := mkWorld NewStore (NewIndex (48 * Hour)) false 0 0 [].

Definition ask_with (text : string) (query : list (string * string)) : Request :=
  mkRequest (fun k => default "" (list_to_map (M := gmap string string) query !! k))
    (if bool_decide (text = "") then NoBody else Body text) (739875 * Day).

(** The body of an answer with status 200. *)
Definition answer_json (r : result (option Response)) : option json :=
  match r with
  | Ok (Some rsp) => if rs_status rsp =? 200 then match rs_body rsp with Ok j => Some j | Err _ => None end else None
  | _ => None
  end.
Definition ask (rt : Route) (rq : Request) : M (World Store) (option json) := fun w =>
  let '(r, w') := handle sample_cfg "dev" None rt rq w in (Ok (answer_json r), w').

(** The members of an answer, by name. *)
Definition read_member (k : string) (j : json) : option json :=
  match j with JObj fs => snd <$> head (filter (fun kv => kv.1 = k) fs) | _ => None end.
Definition read_members (ks : list string) (o : option json) : option (list json) :=
  match o with Some j => mapM (fun k => read_member k j) ks | None => None end.

(** The element of a page of one. *)
Definition single (j : json) : option json := match j with JArr [b] => Some b | _ => None end.

Definition inside (f : json -> option json) (o : option json) : option json :=
  match o with Some j => f j | None => None end.

Definition fee_break : string := "brk_4f6a83e274ec59a5658c".

(** The requests of the walkthrough, in its order. *)
Definition walk : M (World Store) (list (option (list json))) :=
  let! posted := ask PostLegs (ask_with "@examples/legs.json" []) in
  let! closed := ask CloseRoute (ask_with "" []) in
  let! st := ask StatsRoute (ask_with "" []) in
  let! fees := ask ListBreaksRoute (ask_with "" [("status", "open"); ("category", "fee")]) in
  let! resolved := ask (ResolveRoute fee_break) (ask_with "{resolution}" []) in
  let! replayed := ask ReplayRoute (ask_with "" [("from", "1")]) in
  mret [read_members ["accepted"; "matched"; "breaks"; "open"; "duplicates"] posted;
        read_members ["expired"; "older_than"] closed;
        read_members ["auto_match_rate"; "matches_by_rule"; "breaks_open_by_category"] (inside (read_member "stats") st);
        read_members ["id"; "category"; "confidence"; "classifier_id"; "trigger"; "status"; "reason"]
          (inside single (inside (read_member "breaks") fees));
        read_members ["id"; "status"; "actor"] resolved;
        read_members ["from_seq"; "through_seq"; "events_read"; "legs_replayed"; "matched"; "breaks"; "open"] replayed].

(** The answers shown in README.md: the counts of the batch, the two legs left
    when the window is closed, the match rate of 95.5% with its rules and
    categories, the fee break under the identifier printed there, its resolution,
    and the replay of the 301 events. *)
Example walkthrough_as_documented :
  (walk sample_world).1 =
  Ok [Some [JInt 200; JInt 91; JInt 4; JInt 105; JInt 0];
      Some [JInt 2; JStr "0s"];
      Some [JFloat (fconst (955 # 1000));
            JObj [("T1.exact@v1", JInt 76); ("T2.amount-date@v1", JInt 2); ("T2.ref-tolerant@v1", JInt 9);
                  ("T3.subset-sum@v1", JInt 4)];
            JObj [("duplicate", JInt 1); ("fee", JInt 1); ("fx_drift", JInt 1); ("missing_counterparty", JInt 2);
                  ("timing", JInt 1)]];
      Some [JStr fee_break; JStr "fee"; JFloat (fconst (95 # 100)); JStr "heuristic@v1"; JStr "ref_conflict"; JStr "open";
            JStr ("fee attribute " +:+ bytes [34%nat] +:+ "interchange_minor" +:+ bytes [34%nat] +:+
                  " present; amount difference 3820")];
      Some [JStr fee_break; JStr "resolved"; JStr "ops@example.bank"];
      Some [JInt 1; JInt 301; JInt 301; JInt 200; JInt 91; JInt 4; JInt 105]].
Proof. vm_cast_no_check (eq_refl (walk sample_world).1). Qed.
