(* ===== verification/MatchingProperties.v ===== *)
(** * Properties of matching

    The matcher against its declarative rules, the subset-sum search against
    exhaustive enumeration, the open-leg index against the set of open legs, and
    the classifier's labels; each with an instance on the fixtures. *)

From S2P Require Export Fixtures.

#[local] Existing Instance checksum.

(** ** An index to look things up in *)

Definition ix1 : Index := ix_Add (NewIndex Hour) ledger1.

Lemma ix1_wf : ix_wf ix1.
Proof. apply ix_Add_wf, NewIndex_wf. Qed.

Lemma ix1_open id l : byID ix1 !! id = Some l -> l = ledger1 /\ id = ID ledger1.
Proof.
  unfold ix1. rewrite ix_Add_byID by done. intros [[<- <-]|[_ Hl]]%lookup_insert_Some; [done|].
  change (byID (NewIndex Hour)) with (∅ : gmap string Leg) in Hl. by rewrite lookup_empty in Hl.
Qed.

Lemma ix1_amounts : amounts_ok ix1.
Proof. intros id l [-> _]%ix1_open. done. Qed.

Lemma default_sane : sane_rules DefaultRules.
Proof. split; [apply DefaultRules_wf|done]. Qed.

(** The store has never heard of any reference. *)
Definition never : refExists unit := fun _ _ s => (Ok false, s).

Definition small_leg (amt : Z) : Leg := mkLeg "" "rail" "R" amt "USD" 0 Debit "VISA" ∅ 0 "" "" "".
Definition small_pool : list Leg := small_leg <$> [70; 40; 30; 25].

(** The amounts of a subset found. *)
Definition amounts (o : option (list Leg)) : option (list Z) :=
  match o with Some ls => Some (AmountMinor <$> ls) | None => None end.

Lemma small_pool_positive : positive_amounts small_pool.
Proof. by repeat constructor. Qed.

(** The rule and the residual of a match found. *)
Definition found (r : result (option Match)) : option (option (string * Z)) :=
  match r with Ok o => Some ((fun m => (m_RuleID m, m_ResidualMinor m)) <$> o) | Err _ => None end.

Lemma rail1_amount : amount_ok (AmountMinor rail1).
Proof. done. Qed.

Lemma rail1_fresh : byID ix1 !! ID rail1 = None.
Proof. reflexivity. Qed.

Lemma rail1_key : settlementKey rail1 <> "".
Proof. by apply settlementKey_ne. Qed.

Lemma rail1_matches : exists m, rule_match DefaultRules ix1 rail1 m.
Proof.
  destruct (find DefaultRules rail1 ix1 (Some never) tt) as [[[m|]|e] s'] eqn:E; [|by vm_compute in E..].
  exists m. exact (find_rule_match DefaultRules ix1 rail1 ix1_wf default_sane ix1_amounts
    rail1_amount rail1_fresh rail1_key (Some never) tt s' m E).
Qed.

(** ** The matcher *)

(** C5. [find] is sound: every match it returns, whatever the store answers, is
    one its tiers allow: the least exact partner (T1), the closest partner of
    the reference within the tolerance (T2), the only partner of that amount
    when the leg is the only one of its side (T2, no reference), or two or more
    legs of one side that add up to the other within the tolerance (T3). *)
Theorem find_sound `{Sha256} rules ix l {S} (ex : option (refExists S)) s s' m :
  ix_wf ix -> sane_rules rules -> amounts_ok ix -> amount_ok (AmountMinor l) ->
  byID ix !! ID l = None -> TxnRef l <> "" ->
  find rules l ix ex s = (Ok (Some m), s') -> rule_match rules ix l m.
Proof. intros Hwf Hs Hix Hl Hf Hr. apply find_rule_match; try done. by apply settlementKey_ne. Qed.

Lemma find_sound_witness : exists m s', find DefaultRules rail1 ix1 (Some never) tt = (Ok (Some m), s') /\
  rule_match DefaultRules ix1 rail1 m.
Proof.
  destruct (find DefaultRules rail1 ix1 (Some never) tt) as [[[m|]|e] s'] eqn:E; [|by vm_compute in E..].
  exists m, s'. split; [reflexivity|]. revert E.
  apply (find_sound DefaultRules ix1 rail1 (Some never) tt s' m ix1_wf default_sane ix1_amounts);
    [done|reflexivity|discriminate].
Defined.

(** C6. [find] is complete: when it returns nothing, no partner of the reference
    is within the tolerance; no partner is the only one of the leg's amount with
    no rival, unless the store knows either reference on the other side; and no
    admissible choice of legs adds up, wherever the candidates were not cut off
    and the caps are at most the default ones. *)
Theorem find_complete `{Sha256} rules ix l {S} (ex : option (refExists S)) s s' :
  ix_wf ix -> sane_rules rules -> amounts_ok ix -> amount_ok (AmountMinor l) ->
  byID ix !! ID l = None -> TxnRef l <> "" -> T3MaxCandidates rules <= 24 /\ T3MaxSubset rules <= 6 ->
  find rules l ix ex s = (Ok None, s') ->
  (forall c, partner rules ix l c -> TxnRef c = TxnRef l -> Tolerance rules (AmountMinor l) < gap l c) /\
  no_amount_date rules ix l ex s /\ no_subset rules ix l.
Proof. intros Hwf Hs Hix Hl Hf Hr Hc. apply find_none_complete; try done. by apply settlementKey_ne. Qed.

Lemma find_complete_witness : (find DefaultRules rail2 ix1 (Some never) tt).1 = Ok None /\
  (forall c, partner DefaultRules ix1 rail2 c -> TxnRef c = TxnRef rail2 ->
     Tolerance DefaultRules (AmountMinor rail2) < gap rail2 c) /\
  no_amount_date DefaultRules ix1 rail2 (Some never) tt /\ no_subset DefaultRules ix1 rail2.
Proof.
  destruct (find DefaultRules rail2 ix1 (Some never) tt) as [[[m|]|e] s'] eqn:E; [by vm_compute in E| |by vm_compute in E].
  split; [reflexivity|]. revert E.
  apply (find_complete DefaultRules ix1 rail2 (Some never) tt s' ix1_wf default_sane ix1_amounts);
    [done|reflexivity|discriminate|done].
Defined.

(** The tiers are tried in order: when a partner of the leg's reference is
    within the tolerance, [find] answers without asking the store, by the exact
    rule if some partner of the reference has the very amount and by the
    tolerant rule otherwise; the heuristic tiers never see the leg. *)
Theorem find_order `{Sha256} rules ix l {S} (ex : option (refExists S)) s c :
  ix_wf ix -> sane_rules rules -> amounts_ok ix -> amount_ok (AmountMinor l) ->
  partner rules ix l c -> TxnRef c = TxnRef l -> gap l c <= Tolerance rules (AmountMinor l) ->
  exists m, find rules l ix ex s = (Ok (Some m), s) /\
    (m_RuleID m = RuleT1Exact /\
       (exists c', partner rules ix l c' /\ TxnRef c' = TxnRef l /\ AmountMinor c' = AmountMinor l) \/
     m_RuleID m = RuleT2Tolerant /\
       forall c', partner rules ix l c' -> TxnRef c' = TxnRef l -> AmountMinor c' <> AmountMinor l).
Proof. intros Hwf _ Hix Hl. by apply find_ordered. Qed.

Lemma ledger1_partner : partner DefaultRules ix1 rail1 ledger1.
Proof.
  unfold partner. split_and!; [|done|discriminate|vm_compute; reflexivity].
  unfold ix1. by rewrite ix_Add_byID, lookup_insert_eq by done.
Qed.

Lemma find_order_witness : exists m, find DefaultRules rail1 ix1 (Some never) tt = (Ok (Some m), tt) /\
  (m_RuleID m = RuleT1Exact /\
     (exists c', partner DefaultRules ix1 rail1 c' /\ TxnRef c' = TxnRef rail1 /\ AmountMinor c' = AmountMinor rail1) \/
   m_RuleID m = RuleT2Tolerant /\
     forall c', partner DefaultRules ix1 rail1 c' -> TxnRef c' = TxnRef rail1 -> AmountMinor c' <> AmountMinor rail1).
Proof.
  apply (find_order DefaultRules ix1 rail1 (Some never) tt ledger1 ix1_wf default_sane ix1_amounts);
    [done|apply ledger1_partner|reflexivity|vm_compute; discriminate].
Defined.

(** Whatever rule found it, a match puts one leg against one or more legs of
    a single other source, all of one window, lists exactly these legs in
    sorted order, derives its identifier from them, has the exact difference of
    the two sides as its residual, within the anchor's tolerance, and a
    confidence between 0.70 and 1. *)
Theorem match_reconciles `{Sha256} rules ix l m :
  sane_rules rules -> amounts_ok ix -> amount_ok (AmountMinor l) -> byID ix !! ID l = None ->
  rule_match rules ix l m ->
  (exists anchor group partners, reconciles rules ix l m anchor group partners) /\
  (fconst (70 # 100) <= m_Confidence m <= 1)%Q.
Proof.
  intros Hs Hix Hl Hf Hm. split; [by apply rule_match_reconciles|by eapply rule_match_confidence].
Qed.

Lemma match_reconciles_witness : exists m, rule_match DefaultRules ix1 rail1 m /\
  (exists anchor group partners, reconciles DefaultRules ix1 rail1 m anchor group partners) /\
  (fconst (70 # 100) <= m_Confidence m <= 1)%Q.
Proof.
  destruct rail1_matches as [m Hm]. exists m. split; [exact Hm|].
  exact (match_reconciles DefaultRules ix1 rail1 m default_sane ix1_amounts rail1_amount rail1_fresh Hm).
Defined.

(** The matches of the two fixtures' rail legs against the ledger leg. *)
Example find_runs :
  found (find DefaultRules rail1 ix1 (Some never) tt).1 = Some (Some ("T2.ref-tolerant@v1", - 50)) /\
  found (find DefaultRules rail2 ix1 (Some never) tt).1 = Some None.
Proof. split; vm_compute; reflexivity. Qed.

(** ** The subset-sum search *)

(** C7. The pruned, budgeted depth-first search is exhaustive search: within the
    default caps (24 candidates, 6 legs), [subsetSum] returns the first
    combination, in the enumeration by descending amount, whose size and sum
    are admissible, and the node budget is never exhausted. *)
Theorem subset_search_exact pool target tol minSize maxSize :
  positive_amounts pool -> 0 <= tol < 2 ^ 63 -> - tol <= target -> target + tol < 2 ^ 63 ->
  (length pool <= 24)%nat -> maxSize <= 6 ->
  subsetSum pool target tol minSize maxSize = first_hit pool target tol minSize maxSize.
Proof. intros. apply subsetSum_first_hit; try done. by apply default_budget. Qed.

Lemma subset_search_exact_witness :
  subsetSum small_pool 95 2 2 6 = first_hit small_pool 95 2 2 6.
Proof.
  apply (subset_search_exact small_pool 95 2 2 6 small_pool_positive);
    [lia|lia|lia|vm_compute; lia|lia].
Defined.

Example subset_search_runs : amounts (subsetSum small_pool 95 2 2 6) = Some [70; 25] /\
  amounts (subsetSum small_pool 200 2 2 6) = None.
Proof. split; vm_compute; reflexivity. Qed.

(** With the default caps giving up is a proof: when [subsetSum] returns
    nothing, no choice of between [minSize] and [maxSize] legs of the pool comes
    within the tolerance of the target. *)
Theorem subset_search_complete pool target tol minSize maxSize s :
  positive_amounts pool -> 0 <= tol < 2 ^ 63 -> - tol <= target -> target + tol < 2 ^ 63 ->
  0 < minSize -> (length pool <= 24)%nat -> maxSize <= 6 ->
  subsetSum pool target tol minSize maxSize = None ->
  s ⊆+ pool -> minSize <= Z.of_nat (length s) <= maxSize ->
  tol < Z.abs (sum_amounts s - target).
Proof. intros. eapply subsetSum_none; try done. by apply default_budget. Qed.

Lemma subset_search_complete_witness : 2 < Z.abs (sum_amounts (take 2 small_pool) - 200).
Proof.
  apply (subset_search_complete small_pool 200 2 2 6 (take 2 small_pool) small_pool_positive);
    [lia|lia|lia|lia|vm_compute; lia|lia|vm_compute; reflexivity| |vm_compute; split; discriminate].
  apply sublist_submseteq, sublist_take.
Defined.

(** A subset that is returned is admissible for every caps, even where the
    budget may cut the search short: its legs are in the pool, its size is
    between the bounds and its sum within the tolerance. *)
Theorem subset_search_sound pool target tol minSize maxSize s :
  positive_amounts pool -> 0 <= tol < 2 ^ 63 -> - tol <= target -> target + tol < 2 ^ 63 -> 0 < minSize ->
  subsetSum pool target tol minSize maxSize = Some s ->
  s ⊆+ pool /\ minSize <= Z.of_nat (length s) <= maxSize /\ Z.abs (sum_amounts s - target) <= tol.
Proof.
  intros Hp Ht Hlo Hhi Hm Hs. pose proof (subsetSum_ok _ _ _ _ _ _ Hp Ht Hlo Hhi Hm Hs) as Hok.
  split; [by eapply subset_ok_submseteq|]. by destruct Hok.
Qed.

Lemma subset_search_sound_witness : exists s, subsetSum small_pool 95 2 2 12 = Some s /\
  s ⊆+ small_pool /\ 2 <= Z.of_nat (length s) <= 12 /\ Z.abs (sum_amounts s - 95) <= 2.
Proof.
  destruct (subsetSum small_pool 95 2 2 12) as [s|] eqn:E; [|by vm_compute in E].
  exists s. split; [reflexivity|]. revert E.
  apply (subset_search_sound small_pool 95 2 2 12 s small_pool_positive); lia.
Defined.

(** ** The open-leg index *)

(** The index implements a set of open legs: after any sequence of additions
    and removals, known and unknown legs alike, its four maps are consistent
    with each other, with no empty bucket left behind, and hold exactly the
    legs the same operations leave in a plain map. *)
Theorem index_implements_set t ops :
  ix_wf (foldl ix_step (NewIndex t) ops) /\
  byID (foldl ix_step (NewIndex t) ops) = foldl open_step ∅ ops.
Proof. split; [apply ix_run_wf|apply ix_run_open]. Qed.

(** The index has no memory: two histories that leave the same open legs
    leave the very same index, so that nothing the matcher sees depends on the
    order in which legs came and went. *)
Theorem index_forgets_history t ops1 ops2 :
  foldl open_step ∅ ops1 = foldl open_step ∅ ops2 ->
  foldl ix_step (NewIndex t) ops1 = foldl ix_step (NewIndex t) ops2.
Proof.
  intros Hops. apply ix_wf_ext; [apply ix_run_wf..| |by rewrite !ix_run_open].
  assert (forall ops i, ttl (foldl ix_step i ops) = ttl i) as Httl; [|by rewrite !Httl].
  induction ops as [|o ops IH]; intros i; [done|]. cbn [foldl]. rewrite IH.
  destruct o; [apply ix_Add_ttl|apply ix_Remove_ttl].
Qed.

Lemma index_forgets_history_witness :
  foldl ix_step (NewIndex Hour) [OpAdd ledger1; OpAdd rail2; OpRemove [ID ledger1]] =
  foldl ix_step (NewIndex Hour) [OpAdd rail2].
Proof.
  apply (index_forgets_history Hour [OpAdd ledger1; OpAdd rail2; OpRemove [ID ledger1]] [OpAdd rail2]).
  vm_compute. reflexivity.
Defined.

(** Every query of the index is a scan of the open legs, sorted by value
    date, reference and identifier: the secondary maps lose and invent nothing. *)
Theorem queries_are_scans ix l r b :
  ix_wf ix ->
  Candidates ix l = collect (byID ix) (fun c =>
    bool_decide (Key c = Key l) && bool_decide (Source c <> Source l)) /\
  CandidatesByRef ix l = collect (byID ix) (fun c =>
    bool_decide (TxnRef c = TxnRef l) && (bool_decide (Source c <> Source l) && bool_decide (Key c = Key l))) /\
  SameSourceInWindow ix l = collect (byID ix) (fun c =>
    bool_decide (Key c = Key l /\ Source c = Source l) && bool_decide (ID c <> ID l)) /\
  ByRef ix l = collect (byID ix) (fun c =>
    bool_decide (TxnRef c = TxnRef l) && bool_decide (ID c <> ID l)) /\
  RefLegs ix r = collect (byID ix) (fun c => bool_decide (TxnRef c = r)) /\
  ByBatch ix l b = collect (byID ix) (fun c =>
    bool_decide (batch_of c = b /\ b <> "") && (bool_decide (ID c <> ID l) && bool_decide (Key c = Key l))).
Proof.
  intros Hwf. split_and!; [by apply Candidates_scan|by apply CandidatesByRef_scan
    |by apply SameSourceInWindow_scan|by apply ByRef_scan|by apply RefLegs_scan|by apply ByBatch_scan].
Qed.

Lemma queries_are_scans_witness : Candidates ix1 rail1 = collect (byID ix1) (fun c =>
    bool_decide (Key c = Key rail1) && bool_decide (Source c <> Source rail1)).
Proof. exact (proj1 (queries_are_scans ix1 rail1 "R1" "" ix1_wf)). Defined.

(** ** The heuristic classifier *)

(** C27. The classifier labels a break with a category exactly when the category
    explains it: no legs, a re-used reference, a currency or FX attribute that
    differs, amounts that agree on distant dates, a fee attribute or a
    difference in the fee band, a counterparty missing at expiry, or none of
    these, in this order of precedence. *)
Theorem classification_explained `{Formatting} h i cat :
  c_Category (Heuristic_Classify h i) = cat <-> explains h i cat.
Proof.
  split; [intros <-; apply Classify_explains|].
  intros He. eapply explains_unique; [apply Classify_explains|done].
Qed.

(** Every classification can be audited: it names the classifier's version
    and carries a confidence between 0 and 0.95. *)
Theorem classification_auditable `{Formatting} h i :
  c_ClassifierID (Heuristic_Classify h i) = HeuristicID /\
  (0 <= c_Confidence (Heuristic_Classify h i) <= fconst (95 # 100))%Q.
Proof. apply Classify_auditable_aux. Qed.

(** The cases of heuristic_test.go that a fee or a date decides. *)
Example classification_runs :
  let classify a b := c_Category (Heuristic_Classify NewHeuristic
    (mkClassifyInput [leg "ledger" "F" a; leg "rail" "F" b] [] TriggerRefConflict DefaultRules)) in
  classify 100000 97500 = CatFee /\ classify 100000 50000 = CatUnclassified /\
  c_Category (Heuristic_Classify NewHeuristic
    (mkClassifyInput [ledger1] [rail1] TriggerDuplicate DefaultRules)) = CatUnclassified /\
  c_Category (Heuristic_Classify NewHeuristic
    (mkClassifyInput [ledger1] [] TriggerWindowExpired DefaultRules)) = CatMissingCounterparty.
Proof. repeat split; vm_compute; reflexivity. Qed.
