(* ===== verification/DataProperties.v ===== *)
(** * Properties of the data

    Legs, dates, tolerances, scores and payloads: what validation accepts, what
    identifies a leg, and the bounds within which integer and floating-point
    arithmetic are exact. *)

From S2P Require Export Fixtures.

#[local] Existing Instance checksum.

(** ** Validation *)

(** [Validate] accepts a leg exactly when its seven conditions hold, and
    then returns it with currency and direction in normal form and nothing else
    changed; every refusal is an ErrInvalidLeg. *)
Theorem validation_exact l l' r :
  Validate l = (l', r) ->
  l' = set_norm (ToUpper (TrimSpace (Currency l))) (ToLower (Dir l)) l /\
  match r with
  | Ok _ => TrimSpace (Source l) <> "" /\ TrimSpace (TxnRef l) <> "" /\ 0 < AmountMinor l /\
      (String.length (Currency l') = 3%nat /\ Trim (Currency l') letters = "") /\
      ValueDate l <> 0 /\ (Dir l' = Debit \/ Dir l' = Credit) /\ TrimSpace (Counterparty l) <> ""
  | Err e => errors_Is e ErrInvalidLeg = true /\
      ~ (TrimSpace (Source l) <> "" /\ TrimSpace (TxnRef l) <> "" /\ 0 < AmountMinor l /\
         (String.length (Currency l') = 3%nat /\ Trim (Currency l') letters = "") /\
         ValueDate l <> 0 /\ (Dir l' = Debit \/ Dir l' = Credit) /\ TrimSpace (Counterparty l) <> "")
  end.
Proof.
  intros Hv. assert (l' = set_norm (ToUpper (TrimSpace (Currency l))) (ToLower (Dir l)) l) as Hl
    by (by injection Hv).
  split; [done|]. destruct r as [[]|e].
  - by apply Validate_ok_iff in Hv as [_ ?].
  - split; [by eapply Validate_error|]. intros Hall.
    assert (Validate l = (l', Ok tt)) by (by apply Validate_ok_iff). congruence.
Qed.

(** A leg as a client may send it. *)
Definition raw_leg : Leg :=
  mkLeg "" "ledger" "R1" 100000 " usd" (date_of_day 739873) "DEBIT" "VISA" ∅ 0 "" "" "".

Lemma validation_exact_witness : exists l', Validate raw_leg = (l', Ok tt) /\
  l' = set_norm "USD" Debit raw_leg.
Proof.
  exists (Validate raw_leg).1. assert (Validate raw_leg = ((Validate raw_leg).1, Ok tt)) as E
    by (vm_compute; reflexivity).
  split; [exact E|]. exact (proj1 (validation_exact raw_leg _ _ E)).
Defined.

(** Validation is idempotent: an accepted leg is in normal form (a currency
    of three capital letters, a known direction) and is accepted again as it is. *)
Theorem validation_idempotent l l' :
  Validate l = (l', Ok tt) -> wf_leg l' /\ Validate l' = (l', Ok tt).
Proof. intros [Hwf _]%Validate_sound. split; [done|by apply Validate_wf]. Qed.

Lemma validation_idempotent_witness :
  wf_leg (Validate raw_leg).1 /\ Validate (Validate raw_leg).1 = ((Validate raw_leg).1, Ok tt).
Proof. apply (validation_idempotent raw_leg). vm_compute. reflexivity. Defined.

(** ** Identity *)

(** The hashed text identifies the leg: for legs without NUL bytes and with
    value dates of four-digit years, two legs hash the same bytes exactly when
    all their business fields and attributes agree, whatever the order the
    attribute map is read in. *)
Theorem content_identity l1 l2 :
  nul_free l1 -> nul_free l2 -> wf_date_range (ValueDate l1) -> wf_date_range (ValueDate l2) ->
  nul_terminated (content_fields l1) = nul_terminated (content_fields l2) <-> same_content l1 l2.
Proof.
  intros N1 N2 D1 D2. split.
  - intros Heq. apply content_fields_inj; [done|done|].
    by apply nul_terminated_inj; [apply content_fields_no_nul..|].
  - intros Hs. by rewrite (same_content_fields _ _ Hs).
Qed.

Lemma no_nul_check s : bool_decide (byte 0 ∉ chars s) = true -> no_nul s.
Proof. by intros ?%bool_decide_eq_true. Qed.

Lemma fixture_nul_free l : l ∈ [ledger1; rail1] -> nul_free l.
Proof.
  intros Hl. assert (Attrs l = ∅) as Hattrs.
  { by repeat (apply elem_of_cons in Hl as [->|Hl]; [done|]); apply not_elem_of_nil in Hl. }
  constructor; [..|intros k v; by rewrite Hattrs, lookup_empty];
    apply no_nul_check; clear Hattrs;
    repeat (apply elem_of_cons in Hl as [->|Hl]; [vm_compute; reflexivity|]); by apply not_elem_of_nil in Hl.
Qed.

Lemma fixture_date_range l : l ∈ [ledger1; rail1] -> wf_date_range (ValueDate l).
Proof.
  intros Hl. exists 739873. split; [done|].
  by repeat (apply elem_of_cons in Hl as [->|Hl]; [done|]); apply not_elem_of_nil in Hl.
Qed.

Lemma content_identity_witness :
  nul_terminated (content_fields ledger1) = nul_terminated (content_fields rail1) <-> same_content ledger1 rail1.
Proof.
  apply content_identity; [apply fixture_nul_free; left|apply fixture_nul_free; right; left
    |apply fixture_date_range; left|apply fixture_date_range; right; left].
Defined.

(** The separator is not escaped, though: these two legs pass validation, differ
    in counterparty and attributes, and get the same identifier whatever the
    hash, so that the second one would be taken for a duplicate of the first. *)
Definition forged_leg (cp : string) (attrs : gmap string string) : Leg :=
  mkLeg "" "ledger" "R1" 100000 "USD" (date_of_day 739873) Debit cp attrs 0 "" "" "".

Theorem separator_ambiguity `{Sha256} :
  let l1 := forged_leg ("VISA" +:+ NUL +:+ "fee" +:+ NUL +:+ "7") ∅ in
  let l2 := forged_leg "VISA" {["fee" := "7"]} in
  (Validate l1).2 = Ok tt /\ (Validate l2).2 = Ok tt /\ ~ same_content l1 l2 /\
  ID (AssignID l1) = ID (AssignID l2).
Proof.
  cbv zeta. split; [vm_compute; reflexivity|]. split; [vm_compute; reflexivity|]. split.
  { intros (_ & _ & _ & _ & _ & _ & Hcp & _). discriminate. }
  unfold AssignID, ContentHash. cbn [ID set_ID].
  set (l1 := forged_leg (_ +:+ _) _). set (l2 := forged_leg _ {[_ := _]}).
  assert (nul_terminated (content_fields l1) = nul_terminated (content_fields l2)) as -> by (vm_compute; reflexivity).
  done.
Qed.

(** ** Dates and payloads *)

(** [ParseDate] reads back what [String] prints, for every date of the years
    0000 to 9999, and two such dates print alike only when they are equal. *)
Theorem date_round_trip i j :
  -366 <= i < 3652059 -> -366 <= j < 3652059 ->
  ParseDate (Date_String (date_of_day i)) = Ok (date_of_day i) /\
  (Date_String (date_of_day i) = Date_String (date_of_day j) -> i = j).
Proof. intros Hi Hj. split; [by apply ParseDate_String|by apply Date_String_inj]. Qed.

Lemma date_round_trip_witness :
  ParseDate (Date_String (date_of_day 739873)) = Ok (date_of_day 739873) /\
  (Date_String (date_of_day 739873) = Date_String (date_of_day 0) -> 739873 = 0).
Proof. apply (date_round_trip 739873 0); lia. Defined.

Example date_runs : Date_String (date_of_day 739873) = "2026-09-15" /\
  ParseDate "2026-02-29" = Err (ErrWrap "parse value_date 2026-02-29: " (ErrText "parsing time") "").
Proof. split; vm_compute; reflexivity. Qed.

(** C40. The log keeps the whole leg as far as JSON can: decoding the payload of
    a leg.ingested entry, as a replay does, gives back the leg that was
    recorded, identifier and attributes included, stripped of its derived
    state, exactly when its source, reference, counterparty and attributes are
    valid UTF-8. Any other byte is printed as U+FFFD, and the leg comes back
    with other text. *)
Theorem payload_round_trip `{Sha256} l j :
  wf_leg l -> in64 (AmountMinor l) -> wf_date_range (ValueDate l) -> AssignID l = l ->
  marshal_leg l = Ok j ->
  (unmarshalLeg j = Ok (set_state "" "" "" l) <-> valid_text l).
Proof. apply unmarshalLeg_marshal_iff. Qed.

Lemma payload_round_trip_witness : exists j, marshal_leg ledger1 = Ok j /\
  (unmarshalLeg j = Ok (set_state "" "" "" ledger1) <-> valid_text ledger1).
Proof.
  destruct (marshal_leg ledger1) as [j|e] eqn:E; [|by vm_compute in E].
  exists j. split; [reflexivity|]. revert E.
  apply (payload_round_trip ledger1 j);
    [apply (Validate_sound ledger1); vm_compute; reflexivity|split; vm_compute; congruence
    |apply fixture_date_range; left|vm_compute; reflexivity].
Defined.

(** A reference that is not UTF-8, as the key of a Kafka record may be: the leg
    read back from its payload has another reference and another identifier. *)
Definition bytes_leg : Leg := leg "rail" (bytes [82; 255]%nat) 70000.

Example raw_reference_lost :
  res_bind (res_bind (marshal_leg bytes_leg) unmarshalLeg) (fun l =>
    Ok (TxnRef l, bool_decide (ID l = ID bytes_leg))) = Ok ("R" +:+ RuneError, false).
Proof. vm_compute. reflexivity. Qed.

(** [DaysBetween] computes in floating point and loses nothing: between UTC
    midnights at most 106751 days (292 years) apart it is the exact number of
    days. *)
Theorem days_between_exact i j :
  Z.abs (i - j) <= 106751 -> DaysBetween (date_of_day i) (date_of_day j) = Z.abs (i - j).
Proof. apply DaysBetween_days. Qed.

Lemma days_between_exact_witness : DaysBetween (date_of_day 739873) (date_of_day 739863) = 10.
Proof. apply (days_between_exact 739873 739863). lia. Defined.

(** ** Tolerances and scores *)

(** The tolerance is the larger of the absolute tolerance and of
    [amount * bps / 10000] rounded half up, exactly, as long as [amount * bps]
    is at most 2^53. *)
Theorem tolerance_exact r a :
  wf_rules r -> 0 <= a <= 2 ^ 62 -> a * ToleranceBps r <= 2 ^ 53 ->
  Tolerance r a = Z.max ((a * ToleranceBps r + 5000) / 10000) (ToleranceAbsMinor r).
Proof. intros Hr [Ha Hb] Hp. by apply Tolerance_exact_aux. Qed.

Lemma tolerance_exact_witness : Tolerance DefaultRules 1234567 = 1235.
Proof. apply (tolerance_exact DefaultRules 1234567 DefaultRules_wf); vm_compute; split || idtac; congruence. Defined.

(** For amounts from 1 to 2^62 the tolerance grows with the amount, stays
    between 0 and 2^62, and the test of two amounts against it overflows
    nowhere: it holds exactly when they differ by at most the tolerance of the
    first one. *)
Theorem tolerance_safe r a b :
  wf_rules r -> ToleranceAbsMinor r <= 2 ^ 62 -> amount_ok a -> amount_ok b ->
  (WithinTolerance r a b = true <-> Z.abs (a - b) <= Tolerance r a) /\
  0 <= Tolerance r a <= 2 ^ 62 /\ (a <= b -> Tolerance r a <= Tolerance r b).
Proof.
  intros Hr Habs Ha Hb. split; [by apply WithinTolerance_iff|]. unfold amount_ok in *.
  split; [by apply Tolerance_bound; [|lia|]|]. intros Hab. apply Tolerance_mono; [done|lia..].
Qed.

Lemma tolerance_safe_witness :
  (WithinTolerance DefaultRules 100000 100050 = true <-> Z.abs (100000 - 100050) <= Tolerance DefaultRules 100000) /\
  0 <= Tolerance DefaultRules 100000 <= 2 ^ 62 /\
  (100000 <= 100050 -> Tolerance DefaultRules 100000 <= Tolerance DefaultRules 100050).
Proof. apply (tolerance_safe DefaultRules 100000 100050 DefaultRules_wf); vm_compute; split || idtac; congruence. Defined.

(** The test is not symmetric: the order of the arguments decides. *)
Example tolerance_asymmetric :
  WithinTolerance (mkRules 10000 0 0 2 2 true) 100 250 = false /\
  WithinTolerance (mkRules 10000 0 0 2 2 true) 250 100 = true.
Proof. split; vm_compute; reflexivity. Qed.

(** The score of a tolerant match lies between 0.80 and 0.95, rounding
    included, and a larger residual never scores higher. *)
Theorem confidence_bounds res res' tol :
  0 < tol -> in64 (Z.abs res) -> in64 (Z.abs res') ->
  (fconst (80 # 100) <= tolerantConfidence res tol <= fconst (95 # 100))%Q /\
  (Z.abs res <= Z.abs res' -> (tolerantConfidence res' tol <= tolerantConfidence res tol)%Q).
Proof.
  intros Ht Hr Hr'. split; [by apply tolerantConfidence_range|]. intros Hle.
  rewrite !tolerantConfidence_score by done. apply score_antitone; [by apply ratio_range| |by apply ratio_range].
  by apply ratio_mono.
Qed.

Lemma confidence_bounds_witness :
  (fconst (80 # 100) <= tolerantConfidence 7 10 <= fconst (95 # 100))%Q /\
  (Z.abs 7 <= Z.abs (-9) -> (tolerantConfidence (-9) 10 <= tolerantConfidence 7 10)%Q).
Proof. apply (confidence_bounds 7 (-9) 10); vm_compute; split || idtac; congruence. Defined.
