(* ===== verification/EngineProperties.v ===== *)
(** * Properties of the engine

    What the engine guarantees over any store that keeps the repository
    contract (Repository.v), for any classifier and any hash without collisions
    on the identifiers in use; each property is then applied to the run of
    Fixtures.v over the in-memory store. *)

From S2P Require Export Fixtures.

(** The worlds of an engine started over an empty store. *)
Definition reachable `{Sha256} `{BreakClassifier} {S} `{RepositoryLaws S} (cfg : Config)
    (U : gset string) (w : World S) : Prop :=
  exists s ttl w1, repo_ok s /\ view s = mkView ∅ ∅ ∅ [] /\ NewEngine cfg s ttl = Ok w1 /\
    rtc (step cfg U) w1 w.

(** ** The run of the fixtures *)

#[local] Existing Instance checksum.

Definition w1 : World Store := run_op fixture_cfg (OpIngest [ledger1]) w0.
Definition w2 : World Store := run_op fixture_cfg (OpIngest [rail1; rail2]) w1.

(** A break to resolve: the fixtures' open leg, expired. *)
Definition w3 : World Store := run_op fixture_cfg (OpCloseWindow 0) w2.
Definition fixture_break : string := DeriveID "brk" [ID rail2].

(** The identifier of the fixtures' match. *)
Definition fixture_match : string := DeriveID "m" [ID ledger1; ID rail1].

(** The counters of a batch that went through. *)
Definition counts (r : result (BatchResult * option error)) : option (Z * Z * Z * Z * Z) :=
  match r with
  | Ok (b, None) => Some (br_Accepted b, br_Duplicates b, br_Matched b, br_Breaks b, br_Open b)
  | _ => None
  end.

(** The counters of a replay that went through. *)
Definition replay_counts (r : result (option (ReplayResult * option error))) : option (Z * Z * Z * Z * Z) :=
  match r with
  | Ok (Some (out, None)) =>
      Some (rr_EventsRead out, rr_LegsReplayed out, rr_Matched out, rr_Breaks out, rr_Open out)
  | _ => None
  end.

(** The status of the break a resolution returned, and its error. *)
Definition resolution (r : result (Break * option error)) : option (BreakStatus * option error) :=
  match r with Ok (b, e) => Some (b_Status b, e) | Err _ => None end.

Lemma in_scope_fixture l : l ∈ [ledger1; rail1; rail2] -> leg_in_scope fixture_U l.
Proof.
  intros Hl. unfold leg_in_scope.
  assert (amount_ok (AmountMinor l) /\ ValueDate l = date_of_day 739873 /\ ID (AssignID (Validate l).1) = ID l /\
    ID (AssignID (coerce_leg (Validate l).1)) = ID l) as (Ha & Hd & Hid & Hlog).
  { repeat (apply elem_of_cons in Hl as [->|Hl]; [split_and!; vm_compute; reflexivity || split; congruence|]).
    by apply not_elem_of_nil in Hl. }
  assert (ID l ∈ fixture_U) as Hin.
  { apply elem_of_list_to_set. assert (ID <$> [ledger1; rail1; rail2] = fixture_ids) as <- by done.
    by apply list_elem_of_fmap_2. }
  rewrite Hid, Hlog. clear Hid Hlog. split; [exact Ha|]. split; [exists 739873; split; [lia|exact Hd]|].
  split_and!; [exact Hin|exact I|exact I|exact Hin].
Qed.

Lemma w1_step : step fixture_cfg fixture_U w0 w1.
Proof.
  unfold w1. apply step_op. cbn [op_in_scope].
  apply Forall_singleton, in_scope_fixture. left.
Qed.

Lemma w2_step : step fixture_cfg fixture_U w1 w2.
Proof.
  unfold w2. apply step_op. cbn [op_in_scope].
  apply Forall_forall. intros l Hl. apply in_scope_fixture. by right.
Qed.

Lemma w2_reachable : reachable fixture_cfg fixture_U w2.
Proof.
  exists NewStore, Hour, w0. split; [apply NewStore_ok|]. split; [done|]. split; [apply w0_new|].
  eapply rtc_l; [apply w1_step|]. eapply rtc_l; [apply w2_step|]. apply rtc_refl.
Qed.

Lemma w1_inv : world_inv fixture_cfg fixture_U w1.
Proof.
  eapply (steps_inv _ _ fixture_sane fixture_no_collisions); [apply rtc_once, w1_step|].
  by eapply NewEngine_inv; [apply w0_new|apply NewStore_ok|].
Qed.

Lemma w2_inv : world_inv fixture_cfg fixture_U w2.
Proof.
  eapply (steps_inv _ _ fixture_sane fixture_no_collisions); [apply rtc_once, w2_step|apply w1_inv].
Qed.

Lemma fixture_batch_in_scope : Forall (leg_in_scope fixture_U) [rail1; rail2].
Proof. apply Forall_forall. intros l Hl. apply in_scope_fixture. by right. Qed.

Lemma fixture_matched : exists m, v_matches (view (store w2)) !! fixture_match = Some m /\
  m_LegIDs m = [ID ledger1; ID rail1] /\ m_ResidualMinor m = - 50.
Proof. eexists. split; [vm_compute; reflexivity|]. split; vm_compute; reflexivity. Qed.

(** ** Consistency *)

Section Consistency.
Context `{Sha256} `{BreakClassifier} {S : Type} `{RepositoryLaws S} (cfg : Config).
Variable U : gset string.
Context (Hsane : sane_config cfg) (Hnc : no_collisions U).

Lemma reachable_inv (w : World S) : reachable cfg U w -> world_inv cfg U w.
Proof.
  intros (s & t & w0 & Hs & Hv & Hn & Hsteps). eapply (steps_inv cfg U Hsane Hnc); [done|].
  by eapply NewEngine_inv.
Qed.

Lemma inv_match_legs (w : World S) mid m id : world_inv cfg U w ->
  v_matches (view (store w)) !! mid = Some m -> id ∈ m_LegIDs m ->
  exists l, v_legs (view (store w)) !! id = Some l /\ Status l = LegMatched /\ MatchID l = mid.
Proof.
  intros [_ Hi] Hm Hid. destruct (inv_match _ _ _ _ Hi _ _ Hm) as [_ _ (anchor & group & [Hl Hids _ _ _ _ _])].
  rewrite Hids in Hid. apply list_elem_of_fmap in Hid as (c & -> & Hc).
  destruct (Hl c Hc) as (H1' & H2' & H3'). exists c. split_and!; [done|done|].
  by rewrite H3', (vw_matches _ (inv_view _ _ _ _ Hi) _ _ Hm).
Qed.
End Consistency.

(** C1. Consistency. Whatever sequence of batches, sweeps, window closings,
    resolutions, replays and restarts an engine has been through, failures
    included, the store and the index agree: the index holds exactly the open
    legs, matched and broken legs point to the match and the break that list
    them and are listed by them, and the log is in order. *)
Theorem reachable_consistent `{Sha256} `{BreakClassifier} {S} `{RepositoryLaws S} cfg U (w : World S) :
  sane_config cfg -> no_collisions U -> reachable cfg U w ->
  state_inv (rules cfg) U (view (store w)) (ix w).
Proof. intros Hr Hn Hw. by apply wi_inv, reachable_inv. Qed.

Lemma reachable_consistent_witness : state_inv (rules fixture_cfg) fixture_U (view (store w2)) (ix w2).
Proof. apply reachable_consistent; [apply fixture_sane|apply fixture_no_collisions|apply w2_reachable]. Defined.

(** C2. No leg is reconciled twice: two stored matches that list the same leg
    are one match, and the leg is stored as matched with that match. *)
Theorem reconciled_once `{Sha256} `{BreakClassifier} {S} `{RepositoryLaws S} cfg U (w : World S) mid1 mid2 m1 m2 id :
  sane_config cfg -> no_collisions U -> reachable cfg U w ->
  v_matches (view (store w)) !! mid1 = Some m1 -> v_matches (view (store w)) !! mid2 = Some m2 ->
  id ∈ m_LegIDs m1 -> id ∈ m_LegIDs m2 ->
  mid1 = mid2 /\ m1 = m2 /\
  exists l, v_legs (view (store w)) !! id = Some l /\ Status l = LegMatched /\ MatchID l = mid1.
Proof.
  intros Hr Hn Hw%reachable_inv H1' H2' Hi1 Hi2; [|done..].
  destruct (inv_match_legs cfg U w _ _ _ Hw H1' Hi1) as (l & Hl & Hst & <-).
  destruct (inv_match_legs cfg U w _ _ _ Hw H2' Hi2) as (l2 & Hl2 & _ & <-).
  assert (l2 = l) as -> by congruence. split_and!; [done|congruence|by exists l].
Qed.

Lemma reconciled_once_witness : exists m, v_matches (view (store w2)) !! fixture_match = Some m /\
  fixture_match = fixture_match /\ m = m /\
  exists l, v_legs (view (store w2)) !! ID rail1 = Some l /\ Status l = LegMatched /\ MatchID l = fixture_match.
Proof.
  destruct fixture_matched as (m & Hm & Hids & _). exists m. split; [exact Hm|].
  assert (ID rail1 ∈ m_LegIDs m) as Hin by (rewrite Hids; right; left).
  exact (reconciled_once fixture_cfg fixture_U w2 _ _ m m (ID rail1) fixture_sane fixture_no_collisions
           w2_reachable Hm Hm Hin Hin).
Defined.

(** C3. Every stored match balances: it joins one stored leg with one or more
    stored legs of one other source, all in the match's currency and all
    pointing back to it; it lists exactly these legs, its residual is the
    difference of the two sides, and the residual is within the tolerance. *)
Theorem matches_balance `{Sha256} `{BreakClassifier} {S} `{RepositoryLaws S} cfg U (w : World S) mid m :
  sane_config cfg -> no_collisions U -> reachable cfg U w ->
  v_matches (view (store w)) !! mid = Some m ->
  m_ID m = mid /\ m_ID m = DeriveID "m" (m_LegIDs m) /\ NoDup (m_LegIDs m) /\
  exists anchor group, booked (rules cfg) (view (store w)) m anchor group.
Proof.
  intros Hr Hn Hw%reachable_inv Hm; [|done..]. destruct Hw as [_ Hi].
  split; [by apply (vw_matches _ (inv_view _ _ _ _ Hi))|].
  by destruct (inv_match _ _ _ _ Hi _ _ Hm) as [H1' H2' H3'].
Qed.

Lemma matches_balance_witness : exists m, v_matches (view (store w2)) !! fixture_match = Some m /\
  m_ID m = fixture_match /\ m_ID m = DeriveID "m" (m_LegIDs m) /\ NoDup (m_LegIDs m) /\
  exists anchor group, booked (rules fixture_cfg) (view (store w2)) m anchor group.
Proof.
  destruct fixture_matched as (m & Hm & _). exists m. split; [exact Hm|].
  exact (matches_balance fixture_cfg fixture_U w2 _ m fixture_sane fixture_no_collisions w2_reachable Hm).
Defined.

(** C24. Breaks are accounted for: a stored break lists distinct stored legs,
    each still in the break, or matched since the break was resolved; and a
    broken leg's break lists it. *)
Theorem breaks_accounted `{Sha256} `{BreakClassifier} {S} `{RepositoryLaws S} cfg U (w : World S) :
  sane_config cfg -> no_collisions U -> reachable cfg U w ->
  (forall bid b, v_breaks (view (store w)) !! bid = Some b ->
     b_LegIDs b <> [] /\ NoDup (b_LegIDs b) /\
     forall id, id ∈ b_LegIDs b -> exists l, v_legs (view (store w)) !! id = Some l /\
       (Status l = LegBroken /\ BreakID l = bid \/ Status l = LegMatched /\ b_Status b = BreakResolved)) /\
  (forall id l, v_legs (view (store w)) !! id = Some l -> Status l = LegBroken ->
     exists b, v_breaks (view (store w)) !! BreakID l = Some b /\ id ∈ b_LegIDs b).
Proof.
  intros Hr Hn Hw%reachable_inv; [|done..]. destruct Hw as [_ Hi]. split; [|apply (inv_broken _ _ _ _ Hi)].
  intros bid b Hb. pose proof (vw_breaks _ (inv_view _ _ _ _ Hi) _ _ Hb) as <-.
  by destruct (inv_break _ _ _ _ Hi _ _ Hb).
Qed.

Lemma breaks_accounted_witness :
  (forall bid b, v_breaks (view (store w2)) !! bid = Some b ->
     b_LegIDs b <> [] /\ NoDup (b_LegIDs b) /\
     forall id, id ∈ b_LegIDs b -> exists l, v_legs (view (store w2)) !! id = Some l /\
       (Status l = LegBroken /\ BreakID l = bid \/ Status l = LegMatched /\ b_Status b = BreakResolved)) /\
  (forall id l, v_legs (view (store w2)) !! id = Some l -> Status l = LegBroken ->
     exists b, v_breaks (view (store w2)) !! BreakID l = Some b /\ id ∈ b_LegIDs b).
Proof. apply (breaks_accounted fixture_cfg fixture_U w2 fixture_sane fixture_no_collisions w2_reachable). Defined.

(** ** Ingestion *)

(** C4. [ingestOne] refines its specification: over any store that keeps the
    contract, an ingested leg takes exactly one of the steps of EngineSpec.v
    (duplicate, re-used reference, match, conflict, healed break, refused or
    open), the store and the index moving together; after an error the stored
    data and the index are as they were. *)
Theorem ingestOne_refines `{Sha256} `{BreakClassifier} {S} `{RepositoryLaws S} cfg U (w : World S) l :
  sane_config cfg -> no_collisions U -> world_inv cfg U w -> content_ok U l ->
  run (ingestOne cfg l) w (fun r w' => repo_ok (store w') /\
    match r with
    | Ok res => ingest_step cfg (rule_match (rules cfg)) (view (store w)) (ix w) (replaying w)
                  (clock cfg (ticks w)) (arrive (clock cfg (ticks w)) l) res (view (store w')) (ix w')
    | Err _ => view (store w') = view (store w) /\ ix w' = ix w
    end).
Proof.
  intros Hr Hn Hw Hl. eapply run_mono; [by apply (run_ingestOne_inv cfg U)|].
  intros r w' (Hok & _ & Hs). by split.
Qed.

Lemma fixture_content l : l ∈ [ledger1; rail1; rail2] -> content_ok fixture_U l.
Proof.
  intros Hl. pose proof (in_scope_fixture l Hl) as Hs.
  assert (Validate l = (l, Ok tt) /\ AssignID l = l) as [Hv Hid].
  { repeat (apply elem_of_cons in Hl as [->|Hl]; [by vm_compute|]). by apply not_elem_of_nil in Hl. }
  rewrite <- Hid. by apply (validated_content fixture_U l l).
Qed.

Lemma ingestOne_refines_witness :
  run (ingestOne fixture_cfg rail1) w1 (fun r w' => repo_ok (store w') /\
    match r with
    | Ok res => ingest_step fixture_cfg (rule_match (rules fixture_cfg)) (view (store w1)) (ix w1) (replaying w1)
                  (clock fixture_cfg (ticks w1)) (arrive (clock fixture_cfg (ticks w1)) rail1) res
                  (view (store w')) (ix w')
    | Err _ => view (store w') = view (store w1) /\ ix w' = ix w1
    end).
Proof.
  apply (ingestOne_refines fixture_cfg fixture_U w1 rail1); [apply fixture_sane|apply fixture_no_collisions
    |apply w1_inv|apply fixture_content; right; left].
Defined.

(** C8. At-least-once delivery is harmless: when a batch has been ingested
    without an error, delivering it again changes no leg, match, break or open
    window, appends nothing but duplicate markers to the log, and counts every
    leg as a duplicate. *)
Theorem redelivery_harmless `{Sha256} `{BreakClassifier} {S} `{RepositoryLaws S} cfg U (w : World S) ls :
  sane_config cfg -> no_collisions U -> world_inv cfg U w -> Forall (leg_in_scope U) ls ->
  run (Ingest cfg ls) w (fun r w1 => forall b, r = Ok (b, None) ->
    run (Ingest cfg ls) w1 (fun r2 w2 =>
      same_projections (view (store w1)) (view (store w2)) /\ ix w2 = ix w1 /\
      appended (fun e => ev_Type e = EvLegDuplicate) (v_events (view (store w1))) (v_events (view (store w2))) /\
      forall b2, r2 = Ok (b2, None) ->
        br_Accepted b2 = Z.of_nat (length ls) /\ br_Duplicates b2 = Z.of_nat (length ls) /\
        br_Matched b2 = 0 /\ br_Breaks b2 = 0 /\ br_Open b2 = 0)).
Proof.
  intros Hr Hn Hw Hls. eapply run_mono; [by apply (run_Ingest_again cfg U)|]. intros r w1 H1' b Hb.
  eapply run_mono; [by apply (H1' b)|]. intros r2 w2 [(Hp & Hi & Ha) Hc]. split_and!; [done..|].
  intros b2 Hb2. by destruct (Hc b2 Hb2) as (? & ? & ? & ? & ?).
Qed.

Lemma redelivery_harmless_witness :
  run (Ingest fixture_cfg [rail1; rail2]) w1 (fun r w1 => forall b, r = Ok (b, None) ->
    run (Ingest fixture_cfg [rail1; rail2]) w1 (fun r2 w2 =>
      same_projections (view (store w1)) (view (store w2)) /\ ix w2 = ix w1 /\
      appended (fun e => ev_Type e = EvLegDuplicate) (v_events (view (store w1))) (v_events (view (store w2))) /\
      forall b2, r2 = Ok (b2, None) ->
        br_Accepted b2 = 2 /\ br_Duplicates b2 = 2 /\ br_Matched b2 = 0 /\ br_Breaks b2 = 0 /\ br_Open b2 = 0)).
Proof.
  apply (redelivery_harmless fixture_cfg fixture_U w1 [rail1; rail2] fixture_sane fixture_no_collisions w1_inv
           fixture_batch_in_scope).
Defined.

(** The deliveries of the witness do go through. *)
Example redelivery_runs :
  counts (Ingest fixture_cfg [rail1; rail2] w1).1 = Some (2, 0, 1, 0, 1) /\
  counts (Ingest fixture_cfg [rail1; rail2] w2).1 = Some (2, 2, 0, 0, 0).
Proof. split; vm_compute; reflexivity. Qed.

(** A batch is validated as a whole: with one invalid leg in it, [Ingest]
    fails with ErrInvalidLeg and has touched neither the store nor the engine. *)
Theorem batch_all_or_nothing `{Sha256} `{BreakClassifier} {S} `{Repository S} cfg (w : World S) ls :
  Exists (fun l => ~ valid l) ls ->
  exists e, Ingest cfg ls w = (Ok (zero_batch, Some e), w) /\ errors_Is e ErrInvalidLeg = true.
Proof.
  intros Hbad. destruct (validate_batch_refuses 0 ls Hbad) as (ls' & e & He & Hs). exists e.
  split; [|done]. unfold Ingest. by rewrite He.
Qed.

Lemma batch_all_or_nothing_witness :
  exists e, Ingest fixture_cfg [rail1; leg "rail" "R3" 0] w1 = (Ok (zero_batch, Some e), w1) /\
    errors_Is e ErrInvalidLeg = true.
Proof.
  apply (batch_all_or_nothing fixture_cfg w1). right. left. unfold valid. vm_compute. discriminate.
Defined.

(** ** Histories *)

(** C9. Nothing that was decided is undone, except by a replay: whatever a
    batch, a sweep, a closed window, a resolution or a restart does, and even
    when it fails, a stored leg keeps its business fields and moves only from
    open to broken to matched, a stored match never changes, and a stored break
    changes at most by being resolved once. *)
Theorem decisions_are_final `{Sha256} `{BreakClassifier} {S} `{RepositoryLaws S} cfg U (w : World S) o :
  sane_config cfg -> no_collisions U -> world_inv cfg U w ->
  op_in_scope U o -> is_replay o = false ->
  view_life (view (store w)) (view (store (run_op cfg o w))).
Proof.
  intros Hr Hn Hw Ho Hno. by apply (op_after cfg U Hr Hn same_life); [apply life_step_rel|..].
Qed.

Lemma decisions_are_final_witness :
  view_life (view (store w1)) (view (store (run_op fixture_cfg (OpIngest [rail1; rail2]) w1))).
Proof.
  apply (decisions_are_final fixture_cfg fixture_U w1 (OpIngest [rail1; rail2]) fixture_sane
           fixture_no_collisions w1_inv fixture_batch_in_scope eq_refl).
Defined.

(** The log is append-only: every operation, replays included and failures
    included, leaves the recorded events where they are, and keeps the sequence
    numbers strictly increasing. *)
Theorem log_append_only `{Sha256} `{BreakClassifier} {S} `{RepositoryLaws S} cfg U (w : World S) o :
  sane_config cfg -> no_collisions U -> world_inv cfg U w -> op_in_scope U o ->
  (exists new, v_events (view (store (run_op cfg o w))) = v_events (view (store w)) ++ new) /\
  log_wf (v_events (view (store (run_op cfg o w)))).
Proof.
  intros Hr Hn Hw Ho. split.
  - destruct (op_extends cfg U Hr Hn o w Ho Hw) as (new & Hnew & _). by exists new.
  - pose proof (op_inv cfg U Hr Hn o w Ho Hw) as [_ Hi]. apply (inv_view _ _ _ _ Hi).
Qed.

Lemma log_append_only_witness :
  (exists new, v_events (view (store (run_op fixture_cfg (OpReplay 1) w2))) = v_events (view (store w2)) ++ new) /\
  log_wf (v_events (view (store (run_op fixture_cfg (OpReplay 1) w2)))).
Proof.
  apply (log_append_only fixture_cfg fixture_U w2 (OpReplay 1) fixture_sane fixture_no_collisions w2_inv I).
Defined.

(** ** Replay and restart *)

(** C21. A replay always ends, and misses nothing: it answers (the paging loop
    never runs out of fuel), and when it answers without an error it has cleared
    the projections and the index and then replayed every event that was in the
    log from its starting point on, each exactly once and in order: a
    leg.ingested event by decoding its leg and ingesting it, a break.resolved
    event by doing the resolution again, any other by nothing. So every
    leg.ingested event has decoded; the legs stored afterwards are those legs and
    no others; where the callbacks are on, the leg callback was called once for
    each of them, in that order; and the counters are the numbers of events, of
    legs and of each outcome. *)
Theorem replay_reads_everything `{Sha256} `{BreakClassifier} {S} `{RepositoryLaws S} cfg U (w : World S) from :
  sane_config cfg -> no_collisions U -> world_inv cfg U w ->
  let log := filter (fun e => from <= ev_Seq e) (v_events (view (store w))) in
  exists out oe, (Replay cfg from w).1 = Ok (Some (out, oe)) /\
    (oe = None -> exists legs, replay_done cfg w (Replay cfg from w).2 log out legs).
Proof. intros Hr Hn Hw. exact (run_Replay cfg U Hr Hn from w Hw). Qed.

Lemma replay_reads_everything_witness :
  let log := filter (fun e => 1 <= ev_Seq e) (v_events (view (store w2))) in
  exists out oe, (Replay fixture_cfg 1 w2).1 = Ok (Some (out, oe)) /\
    (oe = None -> exists legs, replay_done fixture_cfg w2 (Replay fixture_cfg 1 w2).2 log out legs).
Proof. apply (replay_reads_everything fixture_cfg fixture_U w2 1 fixture_sane fixture_no_collisions w2_inv). Defined.

(** The replay of the fixtures reads four events, replays three legs and finds
    the match again. *)
Example replay_runs :
  replay_counts (Replay fixture_cfg 1 w2).1 = Some (4, 3, 1, 0, 2) /\
  v_matches (view (store (Replay fixture_cfg 1 w2).2)) !! fixture_match <> None.
Proof. split; vm_compute; [reflexivity|discriminate]. Qed.

(** A replay invents no arrivals: what it appends to the log contains no
    leg.ingested and no leg.duplicate event, so replaying again reads the same
    arrivals. *)
Theorem replay_records_no_arrival `{Sha256} `{BreakClassifier} {S} `{RepositoryLaws S} cfg U (w : World S) from :
  sane_config cfg -> no_collisions U -> world_inv cfg U w ->
  exists new, v_events (view (store (Replay cfg from w).2)) = v_events (view (store w)) ++ new /\
    Forall (fun e => ev_Type e <> EvLegIngested /\ ev_Type e <> EvLegDuplicate) new.
Proof.
  intros Hr Hn Hw. destruct (Replay_no_arrivals cfg U Hr Hn from w Hw) as (new & Hnew & Hall).
  exists new. split; [done|]. eapply Forall_impl; [exact Hall|]. unfold is_arrival. cbn. tauto.
Qed.

Lemma replay_records_no_arrival_witness :
  exists new, v_events (view (store (Replay fixture_cfg 1 w2).2)) = v_events (view (store w2)) ++ new /\
    Forall (fun e => ev_Type e <> EvLegIngested /\ ev_Type e <> EvLegDuplicate) new.
Proof. apply (replay_records_no_arrival fixture_cfg fixture_U w2 1 fixture_sane fixture_no_collisions w2_inv). Defined.

(** C23. Crash recovery: an engine restarted over the store of another one, after
    any history, rebuilds the very index the other one held, or reports an error
    and leaves everything alone. *)
Theorem restart_restores_index `{Sha256} `{BreakClassifier} {S} `{RepositoryLaws S} cfg U (w w1 : World S) :
  sane_config cfg -> no_collisions U -> reachable cfg U w ->
  NewEngine cfg (store w) (ttl (ix w)) = Ok w1 ->
  view (store (Rebuild cfg w1).2) = view (store w) /\
  match (Rebuild cfg w1).1 with
  | Ok _ => ix (Rebuild cfg w1).2 = ix w
  | Err _ => ix (Rebuild cfg w1).2 = NewIndex (ttl (ix w))
  end.
Proof.
  intros Hr Hn Hw%reachable_inv Hnew; [|done..]. destruct Hw as [Hok Hi]. unfold NewEngine in Hnew.
  destruct (Rules_Validate _); [|done]. destruct (_ <=? 0); [done|]. injection Hnew as <-.
  pose proof (run_Rebuild cfg U (mkWorld (store w) (NewIndex (ttl (ix w))) false 0 0 []) (ix w) Hok Hi eq_refl)
    as (_ & Hv & Hix & _). by split.
Qed.

Lemma restart_restores_index_witness :
  view (store (Rebuild fixture_cfg (mkWorld (store w2) (NewIndex (ttl (ix w2))) false 0 0 [])).2) = view (store w2) /\
  match (Rebuild fixture_cfg (mkWorld (store w2) (NewIndex (ttl (ix w2))) false 0 0 [])).1 with
  | Ok _ => ix (Rebuild fixture_cfg (mkWorld (store w2) (NewIndex (ttl (ix w2))) false 0 0 [])).2 = ix w2
  | Err _ => ix (Rebuild fixture_cfg (mkWorld (store w2) (NewIndex (ttl (ix w2))) false 0 0 [])).2
             = NewIndex (ttl (ix w2))
  end.
Proof.
  apply (restart_restores_index fixture_cfg fixture_U w2); [apply fixture_sane|apply fixture_no_collisions
    |apply w2_reachable|vm_compute; reflexivity].
Defined.

(** ** Expiry and resolution *)

(** C25. A sweep, or a closed window, that ends without an error has expired
    exactly the legs that were due: it reports their number, they are broken in
    the store and gone from the index, every other stored leg and every other
    open leg is untouched, and nothing that was due is left. *)
Theorem expiry_is_exact `{Sha256} `{BreakClassifier} {S} `{RepositoryLaws S} cfg U (w : World S) older forced n :
  sane_config cfg -> no_collisions U -> world_inv cfg U w ->
  let due := Expired (ix w) (clock cfg (ticks w)) older in
  let w' := (expire cfg older forced w).2 in
  (expire cfg older forced w).1 = Ok (n, None) ->
  n = Z.of_nat (length due) /\
  (forall l, l ∈ due -> exists bid, v_legs (view (store w')) !! ID l = Some (broken bid l)) /\
  (forall id, id ∉ ID <$> due -> v_legs (view (store w')) !! id = v_legs (view (store w)) !! id) /\
  (forall id, byID (ix w') !! id = if decide (id ∈ ID <$> due) then None else byID (ix w) !! id) /\
  Expired (ix w') (clock cfg (ticks w)) older = [].
Proof.
  intros Hsane Hn Hw due w' Hres. pose proof (run_expire_all cfg U Hsane Hn older forced w Hw) as Hrun.
  destruct (Hrun n Hres) as [Hlen [Hix Hbr Hoth Httl]]. split_and!; [done..|].
  pose proof (inv_ix _ _ _ _ (wi_inv _ _ _ Hw)) as Hwf.
  assert (Hw' : world_inv cfg U w') by (by apply (keeps_expire cfg U Hsane Hn (fun _ _ => True))).
  pose proof (inv_ix _ _ _ _ (wi_inv _ _ _ Hw')) as Hwf'.
  apply elem_of_nil_inv. intros l Hl. apply (elem_of_Expired (ix w') Hwf') in Hl as [Ho Ht].
  fold w' in Hix, Httl. rewrite Hix in Ho. rewrite Httl in Ht. destruct (decide _) as [|Hnin]; [done|].
  apply Hnin, list_elem_of_fmap. exists l. split; [done|]. by apply (elem_of_Expired (ix w) Hwf).
Qed.

Lemma expiry_is_exact_witness :
  let w' := (expire fixture_cfg 0 true w2).2 in
  1 = Z.of_nat (length (Expired (ix w2) (clock fixture_cfg (ticks w2)) 0)) /\
  (forall l, l ∈ Expired (ix w2) (clock fixture_cfg (ticks w2)) 0 ->
     exists bid, v_legs (view (store w')) !! ID l = Some (broken bid l)) /\
  (forall id, id ∉ ID <$> Expired (ix w2) (clock fixture_cfg (ticks w2)) 0 ->
     v_legs (view (store w')) !! id = v_legs (view (store w2)) !! id) /\
  (forall id, byID (ix w') !! id =
     if decide (id ∈ ID <$> Expired (ix w2) (clock fixture_cfg (ticks w2)) 0) then None else byID (ix w2) !! id) /\
  Expired (ix w') (clock fixture_cfg (ticks w2)) 0 = [].
Proof.
  apply (expiry_is_exact fixture_cfg fixture_U w2 0 true 1 fixture_sane fixture_no_collisions w2_inv).
  vm_compute. reflexivity.
Defined.

(** C26. Resolving a break needs a reason and an actor, and happens once: a
    success changes the break, found unresolved, to resolved with that reason
    and actor, appends one break.resolved event and touches nothing else; every
    refusal and every failure leaves the store and the index as they were. *)
Theorem resolution_is_recorded `{Sha256} `{BreakClassifier} {S} `{RepositoryLaws S} cfg (w : World S) id reason actor :
  (forall n, exact_time (clock cfg n)) -> repo_ok (store w) ->
  run (ResolveBreak cfg id reason actor) w (fun r w' => ix w' = ix w /\
    match r with
    | Ok (b', None) =>
        reason <> "" /\ actor <> "" /\
        exists b t e, v_breaks (view (store w)) !! id = Some b /\ b_Status b <> BreakResolved /\
          b' = resolve t reason actor b /\
          v_legs (view (store w')) = v_legs (view (store w)) /\
          v_matches (view (store w')) = v_matches (view (store w)) /\
          v_breaks (view (store w')) = <[b_ID b := b']> (v_breaks (view (store w))) /\
          v_events (view (store w')) = v_events (view (store w)) ++ [e] /\ ev_Type e = EvBreakResolved
    | _ => view (store w') = view (store w)
    end).
Proof.
  intros Hclock Hok. eapply run_mono; [by apply run_ResolveBreak|].
  intros [[b' [e|]]|e] w' (_ & _ & Hs); [by destruct Hs|..|by destruct Hs].
  destruct Hs as (Hix & Hr & Ha & b & n & Hb & Hst & -> & (e & He & Ht) & Hstep). split; [done|].
  split_and!; [done..|]. exists b, (clock cfg n), e.
  inversion Hstep as [b0 evs v1 Hb0 _ _ Hap]; subst. assert (b0 = b) as -> by congruence.
  split_and!; try done; apply Hap.
Qed.

Lemma w3_ok : repo_ok (store w3).
Proof.
  assert (world_inv fixture_cfg fixture_U w3) as [Hok _]; [|exact Hok].
  unfold w3. apply (op_inv _ _ fixture_sane fixture_no_collisions); [done|apply w2_inv].
Qed.

Lemma resolution_is_recorded_witness :
  run (ResolveBreak fixture_cfg fixture_break "written off" "ops") w3 (fun r w' => ix w' = ix w3 /\
    match r with
    | Ok (b', None) =>
        "written off" <> "" /\ "ops" <> "" /\
        exists b t e, v_breaks (view (store w3)) !! fixture_break = Some b /\ b_Status b <> BreakResolved /\
          b' = resolve t "written off" "ops" b /\
          v_legs (view (store w')) = v_legs (view (store w3)) /\
          v_matches (view (store w')) = v_matches (view (store w3)) /\
          v_breaks (view (store w')) = <[b_ID b := b']> (v_breaks (view (store w3))) /\
          v_events (view (store w')) = v_events (view (store w3)) ++ [e] /\ ev_Type e = EvBreakResolved
    | _ => view (store w') = view (store w3)
    end).
Proof. apply (resolution_is_recorded fixture_cfg w3 fixture_break "written off" "ops" (sc_clock _ fixture_sane) w3_ok). Defined.

(** The resolution of the witness succeeds, once. *)
Example resolution_runs :
  resolution (ResolveBreak fixture_cfg fixture_break "written off" "ops" w3).1 = Some (BreakResolved, None) /\
  resolution (ResolveBreak fixture_cfg fixture_break "written off" "ops"
                (ResolveBreak fixture_cfg fixture_break "written off" "ops" w3).2).1
    = Some (BreakResolved, Some (ErrSentinel ErrBreakResolved)).
Proof. split; vm_compute; reflexivity. Qed.

(** A replay does not restore a resolution of a break that an expiry opened:
    expiries are not replayed, so the break is not there when its resolution is.
    After the fixtures' leg expired and its break was resolved by an operator, a
    replay of the whole log goes through, the break and its resolution are gone,
    and the leg is open again. *)
Theorem expired_resolution_lost :
  let resolved := ResolveBreak fixture_cfg fixture_break "written off" "ops" w3 in
  let replayed := Replay fixture_cfg 1 resolved.2 in
  resolution resolved.1 = Some (BreakResolved, None) /\
  b_Status <$> v_breaks (view (store resolved.2)) !! fixture_break = Some BreakResolved /\
  replay_counts replayed.1 <> None /\
  v_breaks (view (store replayed.2)) !! fixture_break = None /\
  Status <$> v_legs (view (store replayed.2)) !! ID rail2 = Some LegOpen.
Proof. cbv zeta. split_and!; try (vm_compute; reflexivity). vm_compute. discriminate. Qed.
