(* ===== verification/ReplayProperties.v ===== *)
(** * Replays: properties

    A replay rebuilds, from the log alone, the state that live operation left;
    and where it does not. *)

From S2P Require Export EngineProperties ReplayRun.

#[local] Existing Instance checksum.

(** C22. The log is enough: after any history of arrivals and of operator
    decisions, over the in-memory store, a replay from the first event goes
    through, under a clock of its own, and rebuilds what live operation left:
    the same legs with the same states, the same matches and breaks with the
    same members, categories, confidences and resolutions (only the times of
    decisions differ), and the very same matching window. The legs are those a
    caller may send: an amount of 64 bits, a date that can be printed, text in
    UTF-8, no state of their own; the reasons and actors of the decisions are
    UTF-8 too, as all text is that was read from JSON. *)
Theorem replay_reproduces `{Sha256} `{BreakClassifier} cfg1 cfg2 T (w0 : World Store) ops :
  rules cfg1 = rules cfg2 ->
  (forall n, good_time (clock cfg1 n)) -> (forall n, good_time (clock cfg2 n)) ->
  NewEngine cfg1 NewStore T = Ok w0 -> Forall replayable ops ->
  let w := foldl (fun w o => run_op cfg1 o w) w0 ops in
  exists out w', Replay cfg2 1 w = (Ok (Some (out, None)), w') /\
    same_state (store w) (store w') /\ ix w' = ix w /\ replaying w' = false.
Proof.
  intros Hr Hc1 Hc2 Hnew Hops w. unfold NewEngine in Hnew.
  destruct (Rules_Validate _); [|done]. destruct (_ <=? 0); [done|]. injection Hnew as <-.
  set (w0 := mkWorld _ _ _ _ _ _) in w.
  assert (live T w0) as Hw0 by (by split_and!).
  destruct (follows_ops cfg1 cfg2 Hr Hc1 Hc2 T ops w0 Hw0 Hops) as (Hl & Hf & new & Hlog & Hn).
  apply (run_Replay_all cfg2 T w Hl); [|exact Hf]. by apply Hn.
Qed.

(** The fixtures' run, then two legs in conflict, whose break an operator
    resolves. *)
Definition ledger3 : Leg := leg "ledger" "R3" 900000.
Definition rail3 : Leg := leg "rail" "R3" 500.
Definition fixture_conflict : string := "brk_49e0f5c019fc3b91c797".
Definition fixture_ops : list op :=
  [OpIngest [ledger1]; OpIngest [rail1; rail2]; OpIngest [ledger3; rail3; rail1];
   OpResolve fixture_conflict "written off" "ops"].

(** The clock of a day, which a reading moves by [tick]. *)
Definition day_clock (day tick : Z) (n : nat) : Time := day * Day + Z.min (Z.of_nat n * tick) (Day - 1).
(** The live engine, and one that replays three days later, without hooks. *)
Definition live_cfg : Config :=
  mkConfig fixture_rules (mkHooks true true true true) (day_clock 739873 Second) (fun _ => None).
Definition later_cfg : Config :=
  mkConfig fixture_rules (mkHooks false false false false) (day_clock 739876 (60 * Second)) (fun _ => None).

Lemma day_clock_good day tick n : 0 < day < 3652059 -> 0 <= tick -> good_time (day_clock day tick n).
Proof.
  intros Hd Ht. assert (day_clock day tick n / Day = day) as Hday.
  { unfold day_clock. change Day with 86400000000000. symmetry. apply (Z.div_unique_pos _ _ _ (Z.min (Z.of_nat n * tick) 86399999999999)); lia. }
  split; [apply bool_decide_eq_true_2; lia|]. apply Z.eqb_neq. intros Heq.
  rewrite Heq, Z.div_0_l in Hday by done. lia.
Qed.

Lemma leg_plain src ref amt : in64 amt -> ValidString src = true -> ValidString ref = true ->
  plain_leg (leg src ref amt).
Proof.
  intros Ha Hs Hr. constructor; [done| | |done..]; [exists 739873; by split|].
  constructor; [done|done|done|apply map_Forall_empty].
Qed.

Lemma fixture_replayable : Forall replayable fixture_ops.
Proof.
  unfold fixture_ops. repeat (apply Forall_cons; split); try apply Forall_nil; try done; cbn [replayable];
    repeat (apply Forall_cons; split); try apply Forall_nil; try done; by apply leg_plain.
Qed.

Lemma replay_reproduces_witness :
  let w4 := foldl (fun w o => run_op live_cfg o w) w0 fixture_ops in
  exists out w', Replay later_cfg 1 w4 = (Ok (Some (out, None)), w') /\
    same_state (store w4) (store w') /\ ix w' = ix w4 /\ replaying w' = false.
Proof.
  apply (replay_reproduces live_cfg later_cfg Hour w0 fixture_ops eq_refl).
  - intros n. by apply day_clock_good.
  - intros n. by apply day_clock_good.
  - reflexivity.
  - exact fixture_replayable.
Defined.

(** What the run leaves: a match, a resolved break, an open leg; and the replay
    of its nine events. *)
Example replay_reproduces_runs :
  let w4 := foldl (fun w o => run_op live_cfg o w) w0 fixture_ops in
  length (log w4) = 9%nat /\
  b_Status <$> breaks (store w4) !! fixture_conflict = Some BreakResolved /\
  replay_counts (Replay later_cfg 1 w4).1 = Some (9, 5, 1, 1, 3).
Proof. cbv zeta. split_and!; vm_compute; reflexivity. Qed.

(** ** A leg whose reference is not text *)

(** The same leg twice, the second time by way of the log: a reference that is
    not UTF-8 (the raw key of a Kafka record, here the bytes 82 and 255) is
    stored as it came and logged with U+FFFD in its place, and a replay stores
    the leg under that reference and another identifier. *)
Theorem raw_reference_replayed :
  let raw := leg "rail" (bytes [82; 255]%nat) 70000 in
  let live := Ingest live_cfg [raw] w0 in
  let replayed := Replay later_cfg 1 live.2 in
  counts live.1 = Some (1, 0, 0, 0, 1) /\ replay_counts replayed.1 = Some (1, 1, 0, 0, 1) /\
  bool_decide (is_Some (v_legs (view (store live.2)) !! ID raw)) = true /\
  bool_decide (is_Some (v_legs (view (store replayed.2)) !! ID raw)) = false /\
  (TxnRef <$> values (v_legs (view (store replayed.2)))) = ["R" +:+ RuneError].
Proof. cbv zeta. split_and!; vm_compute; reflexivity. Qed.

(** ** A leg that claims a state of its own *)

(** What a caller writes in the match and break fields of a leg is stored
    with it while it waits for a partner, but kept out of the log: the state of
    the leg is then no function of the log, and a replay changes it. *)
Theorem claimed_state_lost :
  let claimed := set_state "" "m_9" "brk_9" rail2 in
  let live := Ingest live_cfg [claimed] w0 in
  let replayed := Replay later_cfg 1 live.2 in
  counts live.1 = Some (1, 0, 0, 0, 1) /\ replay_counts replayed.1 = Some (1, 1, 0, 0, 1) /\
  (fun l => (Status l, MatchID l, BreakID l)) <$> v_legs (view (store live.2)) !! ID rail2 = Some (LegOpen, "m_9", "brk_9") /\
  (fun l => (Status l, MatchID l, BreakID l)) <$> v_legs (view (store replayed.2)) !! ID rail2 = Some (LegOpen, "", "").
Proof. cbv zeta. split_and!; vm_compute; reflexivity. Qed.

(** ** A replay from the middle of the log *)

(** [Replay] clears every projection and reads the log from the given event on:
    what was ingested before that event is gone from the projections, although it
    is still in the log. *)
Example replay_from_the_middle :
  let w4 := foldl (fun w o => run_op live_cfg o w) w0 fixture_ops in
  let w5 := (Replay later_cfg 4 w4).2 in
  (size (v_legs (view (store w4))), size (v_matches (view (store w4)))) = (5, 1)%nat /\
  (size (v_legs (view (store w5))), size (v_matches (view (store w5)))) = (3, 0)%nat.
Proof. cbv zeta. split; vm_compute; reflexivity. Qed.
