(* ===== verification/StoreProperties.v ===== *)
(** * Properties of the in-memory store

    The store keeps the repository contract; its listing of breaks and its
    statistics are exact. *)

From S2P Require Export EngineProperties StatsFacts.

#[local] Existing Instance checksum.

(** ** The claims *)

(** [Apply] is atomic and exact: on a consistent store every leg, match and
    break of the change set is stored under its identifier, the others are as
    they were, the events are appended in order with consecutive sequence
    numbers, the reference index follows, and the call cannot fail. *)
Theorem store_apply_exact cs s :
  mem_ok s -> refs_kept s (cs_Legs cs) ->
  exists s', mem_Apply cs s = (Ok tt, s') /\ mem_ok s' /\ applied cs (mem_view s) (mem_view s') /\
    ev_Seq <$> events s' = (fun n => Z.of_nat n + 1) <$> seq 0 (length (events s) + length (cs_Events cs)).
Proof.
  intros Hs Hcs. destruct (mem_Apply_ok cs s Hs Hcs) as [Hok Hap].
  exists (mem_Apply cs s).2. split; [reflexivity|]. split; [exact Hok|]. split; [exact Hap|].
  destruct Hap as [_ _ _ (new & Hnew & Hst)]. change (events (mem_Apply cs s).2 = events s ++ new) in Hnew.
  pose proof (mo_events _ Hok) as Hseq. rewrite Hseq, Hnew, length_app.
  by rewrite (Forall2_length _ _ _ Hst).
Qed.

Lemma store_apply_exact_witness : exists s',
  mem_Apply (mkChangeSet [ledger1; rail1] [] [] [event EvLegIngested 0 (ID ledger1) JNull]) NewStore = (Ok tt, s') /\
  mem_ok s' /\
  applied (mkChangeSet [ledger1; rail1] [] [] [event EvLegIngested 0 (ID ledger1) JNull])
    (mem_view NewStore) (mem_view s') /\
  ev_Seq <$> events s' = (fun n => Z.of_nat n + 1) <$> seq 0 (0 + 1).
Proof.
  apply (store_apply_exact (mkChangeSet [ledger1; rail1] [] [] [event EvLegIngested 0 (ID ledger1) JNull]) NewStore NewStore_ok).
  split.
  - apply (bool_decide_unpack _). vm_compute. done.
  - intros l l0 _ Hl. cbn in Hl. by rewrite lookup_empty in Hl.
Defined.

(** Reads are exact: on a consistent store the reference index lists exactly
    the stored legs of a reference, the open legs are exactly those with status
    open, and a page of the log is exactly the requested number of events from
    the requested sequence number on. *)
Theorem store_reads_exact s ref from limit :
  mem_ok s -> 0 < limit ->
  (exists ls, (mem_LegsByTxnRef ref s).1 = Ok ls /\
     ls ≡ₚ filter (fun l => TxnRef l = ref) (values (legs s))) /\
  (exists ls, (mem_OpenLegs s).1 = Ok ls /\ ls ≡ₚ filter (fun l => Status l = LegOpen) (values (legs s))) /\
  (mem_EventsFrom from limit s).1 =
    Ok (take (Z.to_nat limit) (filter (fun e => from <= ev_Seq e) (events s))).
Proof.
  intros Hs Hl. split_and!.
  - eexists. split; [reflexivity|]. by apply mem_LegsByTxnRef_ok.
  - eexists. split; [reflexivity|]. by rewrite merge_sort_Permutation.
  - destruct ((mem_EventsFrom from limit s).1) as [evs|e] eqn:E.
    + f_equal. by apply (mem_EventsFrom_ok from limit s).
    + unfold mem_EventsFrom in E. cbv zeta in E. by destruct (_ <? _) in E.
Qed.

Lemma store_reads_exact_witness :
  (exists ls, (mem_LegsByTxnRef "R1" (store w2)).1 = Ok ls /\
     ls ≡ₚ filter (fun l => TxnRef l = "R1") (values (legs (store w2)))) /\
  (exists ls, (mem_OpenLegs (store w2)).1 = Ok ls /\
     ls ≡ₚ filter (fun l => Status l = LegOpen) (values (legs (store w2)))) /\
  (mem_EventsFrom 2 2 (store w2)).1 = Ok (take 2 (filter (fun e => 2 <= ev_Seq e) (events (store w2)))).
Proof. apply (store_reads_exact (store w2) "R1" 2 2 (wi_ok _ _ _ w2_inv)). done. Defined.

(** The break inbox is exact: a listing holds every stored break that passes
    the filter, once, and no other; it is ordered by opening time and
    identifier; and the pages cut out of it by offset and limit are consecutive
    pieces of that one list. *)
Theorem break_listing_exact s now f :
  mem_ok s -> exists all,
  (forall b, b ∈ all <-> breaks s !! b_ID b = Some b /\ break_selected f now b = true) /\
  NoDup all /\ StronglySorted break_le all /\
  (mem_ListBreaks now f s).1 =
    Ok ((if 0 <? f_Limit f then take (Z.to_nat (f_Limit f)) else id) (drop (Z.to_nat (f_Offset f)) all)).
Proof.
  intros Hs. pose proof (mo_breaks _ Hs) as Hk.
  set (sel := filter (fun b => break_selected f now b = true) ((map_to_list (breaks s)).*2)).
  exists (merge_sort break_le sel).
  assert (forall b, b ∈ (map_to_list (breaks s)).*2 <-> breaks s !! b_ID b = Some b) as Hval.
  { intros b. rewrite list_elem_of_fmap. split.
    - intros ([id b'] & -> & Hin%elem_of_map_to_list). cbn. by rewrite (Hk _ _ Hin).
    - intros Hb. exists (b_ID b, b). split; [done|]. by apply elem_of_map_to_list. }
  split_and!.
  - intros b. rewrite merge_sort_Permutation. unfold sel. rewrite list_elem_of_filter, Hval. tauto.
  - rewrite merge_sort_Permutation. unfold sel. apply NoDup_filter, NoDup_fmap_2_strong; [|apply NoDup_map_to_list].
    intros [i x] [j y] Hx%elem_of_map_to_list Hy%elem_of_map_to_list Heq. cbn in Heq. subst.
    by rewrite <- (Hk _ _ Hx), <- (Hk _ _ Hy).
  - apply (StronglySorted_merge_sort break_le).
  - unfold mem_ListBreaks. cbn [fst]. by rewrite page_of_take.
Qed.

Lemma break_listing_exact_witness : exists all,
  (forall b, b ∈ all <-> breaks (store w3) !! b_ID b = Some b /\
     break_selected (mkBreakFilter BreakOpen "" "" "" 0 10 0) 0 b = true) /\
  NoDup all /\ StronglySorted break_le all /\
  (mem_ListBreaks 0 (mkBreakFilter BreakOpen "" "" "" 0 10 0) (store w3)).1 = Ok (take 10 (drop 0 all)).
Proof. apply (break_listing_exact (store w3) 0 (mkBreakFilter BreakOpen "" "" "" 0 10 0) w3_ok). Defined.

(** The statistics are exact: the counters are the numbers of stored legs,
    of legs per status, of matches, of open breaks and of events, resolved
    breaks are all the others, and the match rate is the share of matched legs
    among the decided ones, a number between 0 and 1. *)
Theorem statistics_exact s :
  exists st, (mem_Stats s).1 = Ok st /\
    st_LegsTotal st = Z.of_nat (length (values (legs s))) /\
    st_LegsOpen st = Z.of_nat (length (with_status LegOpen (values (legs s)))) /\
    st_LegsMatched st = Z.of_nat (length (with_status LegMatched (values (legs s)))) /\
    st_LegsInBreak st = Z.of_nat (length (with_status LegBroken (values (legs s)))) /\
    st_MatchesTotal st = Z.of_nat (length (map_to_list (matches s)).*2) /\
    st_BreaksOpen st = Z.of_nat (length (open_breaks (map_to_list (breaks s)).*2)) /\
    st_BreaksOpen st + st_BreaksResolved st = Z.of_nat (length (map_to_list (breaks s)).*2) /\
    st_EventsTotal st = Z.of_nat (length (events s)) /\
    st_AutoMatchRate st = match_rate (st_LegsMatched st) (st_LegsInBreak st) /\
    (0 <= st_AutoMatchRate st <= 1)%Q.
Proof.
  rewrite mem_Stats_spec. cbn [fst]. eexists. split; [reflexivity|].
  assert (0 <= match_rate (count (with_status LegMatched (values (legs s)))) (count (with_status LegBroken (values (legs s)))) <= 1)%Q
    as [Hlo Hhi] by (apply match_rate_range; unfold count; lia).
  cbn [statistics st_LegsTotal st_LegsOpen st_LegsMatched st_LegsInBreak st_MatchesTotal st_BreaksOpen st_BreaksResolved
    st_EventsTotal st_AutoMatchRate]. unfold count in *. split_and!; first [done|lia].
Qed.
