(* ===== verification/HttpProperties.v ===== *)
(** * Properties of the HTTP API

    What the answers of the API say, and what a request leaves behind, over any
    store that keeps its contract; each property is applied to the run of
    Fixtures.v over the in-memory store. *)

From S2P Require Export EngineProperties HttpFacts.

#[local] Existing Instance checksum.

(** ** Fixtures *)

(** The JSON texts of the fixtures' requests. *)
#[local] Instance fixture_json : JSONText := fun text =>
  if bool_decide (text = "[rails]")
  then res_bind (marshal_array marshal_leg [rail1; rail2]) Ok
  else if bool_decide (text = "{resolution}")
  then Ok (JObj [("reason", JStr " written off "); ("actor", JStr "ops")])
  else Err (ErrText "invalid character").

#[local] Instance fixture_reads : StoreReads Store := memory_reads (739873 * Day).
#[local] Instance fixture_reads_laws : StoreReadsLaws Store := memory_reads_laws _.

Definition fixture_request (text : string) (query : string -> string) : Request :=
  mkRequest query (if bool_decide (text = "") then NoBody else Body text) (739873 * Day).

Definition no_query : string -> string := fun _ => "".

Abbreviation fixture_handle := (handle fixture_cfg "test" None).

(** What was answered: the status, and whether there is a body. *)
Definition answered (r : result (option Response)) : option Z :=
  match r with Ok (Some rsp) => Some (rs_status rsp) | _ => None end.

Lemma memory_plain : plain_store (S := Store).
Proof.
  constructor; try (intros; intros s e s'; by intros [=]).
  intros id s e s'. cbn. unfold mem_GetBreak, mem_lookup. by destruct (breaks s !! id); intros [= <- <-].
Qed.

Lemma fixture_context : plain_context fixture_cfg.
Proof. done. Qed.

(** ** Reads *)

(** C19. Reads are truthful and harmless. A request of a read route is always
    answered; whatever it asks and whatever the store fails at, the projections,
    the log and the index are as before; and the answer is true of the store: a
    leg, match or break is shown exactly as stored; a match or break comes with
    the legs it lists, in that order and as they are stored, each of them unless
    its own lookup fails (so with all that are stored, over a store whose
    lookups only fail on what is not there, such as the in-memory one); "not
    found" is said only of what is not stored; and a page of events is the log
    from the requested number on. *)
Theorem reads_are_truthful `{Sha256} `{BreakClassifier} `{JSONText} {S} `{StoreReadsLaws S} cfg Version Ready
    r rq (w : World S) :
  is_read r = true -> repo_ok (store w) ->
  exists rsp, let '(res, w') := handle cfg Version Ready r rq w in
    res = Ok (Some rsp) /\ answer_true r rq rsp w /\
    view (store w') = view (store w) /\ ix w' = ix w /\ replaying w' = replaying w.
Proof.
  intros Hr Hw. destruct (read_routes cfg Version Ready r rq Hr w Hw) as [[_ Hv Hi Hrep] (o & Ho & rsp & -> & Ht)].
  exists rsp. destruct (handle _ _ _ _ _ w) as [res w']. by split_and!.
Qed.

Lemma reads_are_truthful_witness : exists rsp,
  let '(res, w') := fixture_handle (GetMatchRoute fixture_match) (fixture_request "" no_query) w2 in
    res = Ok (Some rsp) /\ answer_true (GetMatchRoute fixture_match) (fixture_request "" no_query) rsp w2 /\
    view (store w') = view (store w2) /\ ix w' = ix w2 /\ replaying w' = replaying w2.
Proof.
  pose proof (reads_are_truthful fixture_cfg "test" None (GetMatchRoute fixture_match) (fixture_request "" no_query) w2
                eq_refl (wi_ok _ _ _ w2_inv)) as Ht. exact Ht.
Defined.

Lemma memory_reliable : reliable (S := Store).
Proof. intros id s e s' _. cbn. unfold mem_GetLeg, mem_lookup. by destruct (legs s !! id); intros [= <- <-]. Qed.

(** The legs of the fixtures' match, as they are shown. *)
Example match_shown : exists ls, shown (store w2) [ID ledger1; ID rail1] ls /\ ID <$> ls = [ID ledger1; ID rail1].
Proof.
  destruct (run_loadLegs [ID ledger1; ID rail1] w2 (wi_ok _ _ _ w2_inv)) as (ls & w' & _ & _ & Hls).
  exists ls. split; [exact Hls|]. rewrite (sh_all _ _ _ Hls memory_reliable). vm_compute. reflexivity.
Qed.

Example reads_run :
  answered (fixture_handle (GetMatchRoute fixture_match) (fixture_request "" no_query) w2).1 = Some 200 /\
  answered (fixture_handle (GetMatchRoute "m_none") (fixture_request "" no_query) w2).1 = Some 404 /\
  answered (fixture_handle EventsRoute (fixture_request "" (fun k => if bool_decide (k = "limit") then "1001" else "")) w2).1
    = Some 400.
Proof. split_and!; vm_compute; reflexivity. Qed.

(** ** Refusals *)

(** C13. Every request is answered, and a refused request changes nothing. Over
    an engine in a consistent state, whose store and context do not report
    validation errors of their own, each route gives a response (a replay
    included: it terminates); when the status is 4xx (malformed parameters or
    bodies, an invalid leg anywhere in a batch, too many legs, an unknown or
    already resolved break) the projections, the log and the index are exactly
    as before. *)
Theorem refusals_change_nothing `{Sha256} `{BreakClassifier} `{JSONText} {S} `{StoreReadsLaws S} cfg U Version Ready
    r rq (w : World S) :
  sane_config cfg -> no_collisions U -> world_inv cfg U w ->
  plain_store (S := S) -> plain_context cfg ->
  exists rsp, let '(res, w') := handle cfg Version Ready r rq w in
    res = Ok (Some rsp) /\
    (400 <= rs_status rsp < 500 -> view (store w') = view (store w) /\ ix w' = ix w).
Proof.
  intros Hr Hn Hw Hs Hc. destruct (run_handle cfg Version Ready U r rq w Hr Hn Hw Hs Hc) as (rsp & Ho & Hst).
  exists rsp. by destruct (handle _ _ _ _ _ w) as [res w'].
Qed.

Lemma refusals_change_nothing_witness : exists rsp,
  let '(res, w') := fixture_handle PostLegs (fixture_request "oops" no_query) w2 in
    res = Ok (Some rsp) /\
    (400 <= rs_status rsp < 500 -> view (store w') = view (store w2) /\ ix w' = ix w2).
Proof.
  pose proof (refusals_change_nothing fixture_cfg fixture_U "test" None PostLegs (fixture_request "oops" no_query) w2
                fixture_sane fixture_no_collisions w2_inv memory_plain fixture_context) as Ht. exact Ht.
Defined.

Example refusals_run :
  answered (fixture_handle PostLegs (fixture_request "oops" no_query) w2).1 = Some 400 /\
  answered (fixture_handle (ResolveRoute "brk_none") (fixture_request "{resolution}" no_query) w2).1 = Some 404.
Proof. split; vm_compute; reflexivity. Qed.

(** ** Accepted requests *)

(** C14. What "200 OK" to a batch of legs means: the body held 1 to 5000 legs, the
    engine ingested exactly these and the response is the engine's count of
    them, and each of them is valid and stored under its content identifier. *)
Theorem accepted_legs_stored `{Sha256} `{BreakClassifier} `{JSONText} {S} `{StoreReadsLaws S} cfg U rq (w : World S) rsp w' :
  sane_config cfg -> no_collisions U -> world_inv cfg U w ->
  plain_store (S := S) -> plain_context cfg ->
  (forall legs, posted rq legs -> Forall (leg_in_scope U) legs) ->
  postLegs cfg rq w = (Ok rsp, w') -> rs_status rsp = StatusOK ->
  exists legs res, posted rq legs /\ Ingest cfg legs w = (Ok (res, None), w') /\
    rs_body rsp = Ok (marshal_batch res) /\
    Forall (fun l => valid l /\ stored w' (AssignID (Validate l).1)) legs.
Proof.
  intros Hr Hn Hw Hs Hc Hscope Hpost Hst.
  pose proof (run_postLegs cfg rq w Hs Hc) as Hrun. unfold run in Hrun. rewrite Hpost in Hrun.
  destruct Hrun as (rsp' & [= <-] & _ & Hok). specialize (Hok Hst).
  pose proof Hok as (legs & res & Hp & Hi & Hb). exists legs, res. split_and!; [done..|].
  by eapply (accepted_stored cfg U rq w w' rsp legs Hr Hn Hw Hp (Hscope legs Hp)).
Qed.

Lemma fixture_posted legs : posted (fixture_request "[rails]" no_query) legs -> legs = [rail1; rail2].
Proof.
  intros (text & stale & [= <-] & Hd & _). apply (f_equal (fun r => match r with Ok p => p.1 | Err _ => [] end)) in Hd.
  cbn [fst] in Hd. subst legs. vm_compute. reflexivity.
Qed.

Lemma accepted_legs_stored_witness : exists rsp w' legs res,
  postLegs fixture_cfg (fixture_request "[rails]" no_query) w1 = (Ok rsp, w') /\
  posted (fixture_request "[rails]" no_query) legs /\ Ingest fixture_cfg legs w1 = (Ok (res, None), w') /\
  rs_body rsp = Ok (marshal_batch res) /\
  Forall (fun l => valid l /\ stored w' (AssignID (Validate l).1)) legs.
Proof.
  destruct (postLegs fixture_cfg (fixture_request "[rails]" no_query) w1) as [[rsp|e] w'] eqn:E.
  - exists rsp, w'.
    destruct (accepted_legs_stored fixture_cfg fixture_U (fixture_request "[rails]" no_query) w1 rsp w'
                fixture_sane fixture_no_collisions w1_inv memory_plain fixture_context) as (legs & res & Hl).
    + intros legs ->%fixture_posted. apply fixture_batch_in_scope.
    + exact E.
    + apply (f_equal (fun p => match p.1 with Ok r => rs_status r | Err _ => 0 end)) in E.
      cbn [fst] in E. rewrite <- E. vm_compute. reflexivity.
    + exists legs, res. split; [reflexivity|exact Hl].
  - exfalso. apply (f_equal (fun p => match p.1 with Ok r => true | Err _ => false end)) in E.
    vm_compute in E. discriminate.
Defined.

(** C20. What "200 OK" to a resolution means: the body gave a reason and an actor
    that are not blank; the break was stored and not resolved; it is stored now
    as resolved by that actor for that reason, with one break.resolved event
    appended; and the response shows it. Any other answer leaves the store as it
    was, and in no case does the index change. *)
Theorem accepted_resolution_recorded `{Sha256} `{BreakClassifier} `{JSONText} {S} `{StoreReadsLaws S} cfg id rq
    (w : World S) :
  (forall n, exact_time (clock cfg n)) -> repo_ok (store w) ->
  exists rsp, let '(res, w') := resolveBreak cfg id rq w in
    res = Ok rsp /\ ix w' = ix w /\
    (rs_status rsp <> StatusOK -> view (store w') = view (store w)) /\
    (rs_status rsp = StatusOK -> resolution_answer cfg id rq w w' rsp).
Proof.
  intros Hclock Hw. destruct (run_resolveBreak cfg id rq w Hclock Hw) as (rsp & Hr). exists rsp.
  by destruct (resolveBreak cfg id rq w) as [res w'].
Qed.

Lemma accepted_resolution_recorded_witness : exists rsp,
  let '(res, w') := resolveBreak fixture_cfg fixture_break (fixture_request "{resolution}" no_query) w3 in
    res = Ok rsp /\ ix w' = ix w3 /\
    (rs_status rsp <> StatusOK -> view (store w') = view (store w3)) /\
    (rs_status rsp = StatusOK ->
       resolution_answer fixture_cfg fixture_break (fixture_request "{resolution}" no_query) w3 w' rsp).
Proof.
  pose proof (accepted_resolution_recorded fixture_cfg fixture_break (fixture_request "{resolution}" no_query) w3
                (sc_clock _ fixture_sane) w3_ok) as Ht. exact Ht.
Defined.

Example resolution_answers :
  answered (fixture_handle (ResolveRoute fixture_break) (fixture_request "{resolution}" no_query) w3).1 = Some 200 /\
  answered (fixture_handle (ResolveRoute fixture_break) (fixture_request "{resolution}" no_query)
              (fixture_handle (ResolveRoute fixture_break) (fixture_request "{resolution}" no_query) w3).2).1 = Some 409.
Proof. split; vm_compute; reflexivity. Qed.

(** ** Parameters *)

(** C38. The break listing's parameters are bounded: a filter is used exactly when
    the limit is absent or a number from 1 to 1000, the offset absent or a number
    not below 0, the minimal age absent or a duration not below 0, and the status
    empty, open or resolved; an absent limit is 100, an absent offset or age 0. *)
Theorem break_filter_exact q f :
  break_filter q = inl f <->
  ((q "limit" = "" /\ f_Limit f = 100) \/
   (q "limit" <> "" /\ Atoi (q "limit") = Ok (f_Limit f) /\ 1 <= f_Limit f <= 1000)) /\
  ((q "offset" = "" /\ f_Offset f = 0) \/
   (q "offset" <> "" /\ Atoi (q "offset") = Ok (f_Offset f) /\ 0 <= f_Offset f)) /\
  ((q "min_age" = "" /\ f_MinAge f = 0) \/
   (q "min_age" <> "" /\ ParseDuration (q "min_age") = Ok (f_MinAge f) /\ 0 <= f_MinAge f)) /\
  q "status" ∈ [""; BreakOpen; BreakResolved] /\ f_Status f = q "status" /\ f_Category f = q "category" /\
  f_Currency f = ToUpper (q "currency") /\ f_Counterparty f = q "counterparty".
Proof.
  assert (forall {A} parse (ok : A -> bool) def v (P : A -> Prop) a, (forall a, ok a = true <-> P a) ->
    query_param parse ok def v = Some a <-> (v = "" /\ a = def) \/ (v <> "" /\ parse v = Ok a /\ P a)) as Hq.
  { intros A parse ok def v P a HP. by rewrite query_param_spec, HP. }
  assert (forall s, negb (bool_decide (s = "")) && negb (bool_decide (s = BreakOpen)) &&
    negb (bool_decide (s = BreakResolved)) = false <-> s ∈ [""; BreakOpen; BreakResolved]) as Hstatus.
  { intros s. rewrite !elem_of_cons, elem_of_nil, !andb_false_iff, !negb_false_iff, !bool_decide_eq_true. tauto. }
  rewrite <- (Hq _ Atoi (fun n => (1 <=? n) && (n <=? 1000)) 100 _ (fun n => 1 <= n <= 1000)),
    <- (Hq _ Atoi (fun n => 0 <=? n) 0 _ (fun n => 0 <= n)),
    <- (Hq _ ParseDuration (fun n => 0 <=? n) 0 _ (fun n => 0 <= n)), <- Hstatus by (intros; cbv beta; lia).
  unfold break_filter, limit_param, offset_param, duration_param.
  destruct (query_param _ _ _ (q "limit")) as [lim|]; [|split; [done|by intros ([=] & _)]].
  destruct (query_param _ _ _ (q "offset")) as [off|]; [|split; [done|by intros (_ & [=] & _)]].
  destruct (query_param _ _ _ (q "min_age")) as [age|]; [|split; [done|by intros (_ & _ & [=] & _)]].
  destruct (negb _ && _ && _); [split; [done|by intros (_ & _ & _ & [=] & _)]|].
  destruct f. cbn. split; [by intros [= <- <- <- <- <- <- <-]|].
  by intros ([= ->] & [= ->] & [= ->] & _ & -> & -> & -> & ->).
Qed.
