(* ===== verification/ObservabilityProperties.v ===== *)
(** * Properties of the metrics, the logs and the middleware

    What the counters, the gauge, the access log and the spans say, compared
    with what the engine and the handlers did. *)

From S2P Require Export MetricsFacts MiddlewareFacts HttpProperties.

#[local] Existing Instances checksum fixture_json fixture_reads.

(** ** A concrete metrics library *)

Definition PlainCounter : Type := list (list string).
Definition PlainHistogram : Type := list (list string * float64).
#[local] Instance plain_counter : CounterVec PlainCounter := {|
  cv_empty := [];
  cv_inc ls v := v ++ [ls];
  cv_get ls v := Z.of_nat (length (filter (ls =.) v))
|}.
#[local] Instance plain_histogram : HistogramVec PlainHistogram := {|
  hv_empty := [];
  hv_observe ls x v := v ++ [(ls, x)];
  hv_observed ls v := (filter (fun lx => ls = lx.1) v).*2
|}.
#[local] Instance plain_metrics_laws : MetricsLaws PlainCounter PlainHistogram.
Proof.
  split; cbn; try done.
  - intros ls ls' v. rewrite filter_app, length_app, filter_cons. destruct (decide (ls = ls')); cbn; lia.
  - intros ls ls' x v. rewrite filter_app, fmap_app, filter_cons. cbn. by destruct (decide (ls = ls')).
Qed.

(** ** Metrics *)

(** C35. The counters say what the engine answered. When a batch has been
    ingested (or has stopped at an error), the leg counter has grown, under each
    source and outcome, by the number of results with that outcome for legs of
    that source; the match counter by the matches of the batch, and the break
    counter by its breaks, each once and under its own labels: the matches
    counted have exactly the identifiers and rules of the results, the breaks
    exactly the identifiers. *)
Theorem metrics_follow_batch `{Sha256} `{BreakClassifier} {S} `{!Repository S} {C Hg} `{!CounterVec C} `{!HistogramVec Hg}
    `{!MetricsLaws C Hg} cfg legs (w w' : World S) b err (m : Metrics C Hg) :
  hooks cfg = metrics_hooks -> Ingest cfg legs w = (Ok (b, err), w') ->
  let before := foldl on_hook m (trace w) in
  let after := foldl on_hook m (trace w') in
  (forall src o, cv_get [src; o] (LegsIngested after) = cv_get [src; o] (LegsIngested before) +
     times (src, o) (zip (Source <$> (validate_batch 0 legs).1) (ir_Outcome <$> br_Results b))) /\
  (exists ms : list Match,
     (fun m => (m_ID m, m_RuleID m)) <$> ms = (fun r => (ir_MatchID r, ir_RuleID r)) <$> filter is_matched (br_Results b) /\
     forall t rule, cv_get [t; rule] (Matches after) = cv_get [t; rule] (Matches before) +
       times (t, rule) ((fun m => (tier_label m, m_RuleID m)) <$> ms)) /\
  (exists bs : list Break,
     b_ID <$> bs = ir_BreakID <$> filter is_broken (br_Results b) /\
     forall c t, cv_get [c; t] (BreaksOpened after) = cv_get [c; t] (BreaksOpened before) +
       times (c, t) ((fun b => (b_Category b, b_Trigger b)) <$> bs)).
Proof.
  intros Hh Hi before after. destruct (reports_Ingest cfg Hh legs w) as (tr & Ht & Hr).
  rewrite Hi in Ht, Hr. cbn [fst snd] in Ht, Hr. destruct (Hr b err eq_refl) as [Hls Hms Hbs].
  assert (after = foldl on_hook before tr) as -> by (unfold after, before; by rewrite Ht, foldl_app).
  split_and!.
  - intros src o. by rewrite legs_counted, Hls.
  - exists (match_calls tr). split; [done|]. intros t rule. apply matches_counted.
  - exists (break_calls tr). split; [done|]. intros c t. apply breaks_counted.
Qed.

Lemma fixture_hooks : hooks fixture_cfg = metrics_hooks.
Proof. reflexivity. Qed.

Abbreviation fixture_metrics := (NewMetrics : Metrics PlainCounter PlainHistogram).

Lemma metrics_follow_batch_witness : exists b err w', Ingest fixture_cfg [ledger1; rail1; rail2] w0 = (Ok (b, err), w') /\
  forall src o, cv_get [src; o] (LegsIngested (foldl on_hook fixture_metrics (trace w'))) =
    cv_get [src; o] (LegsIngested (foldl on_hook fixture_metrics (trace w0))) +
    times (src, o) (zip (Source <$> (validate_batch 0 [ledger1; rail1; rail2]).1) (ir_Outcome <$> br_Results b)).
Proof.
  destruct (Ingest fixture_cfg [ledger1; rail1; rail2] w0) as [[[b err]|e] w'] eqn:E; [|by vm_compute in E].
  exists b, err, w'. split; [done|].
  exact (proj1 (metrics_follow_batch fixture_cfg _ _ _ _ _ fixture_metrics fixture_hooks E)).
Defined.

Example metrics_run : let m := foldl on_hook fixture_metrics (trace (Ingest fixture_cfg [ledger1; rail1; rail2] w0).2) in
  cv_get ["rail"; "matched"] (LegsIngested m) = 1 /\ cv_get ["rail"; "open"] (LegsIngested m) = 1 /\
  cv_get ["T2"; RuleT2Tolerant] (Matches m) = 1 /\ OpenLegs_gauge m = of_int 1.
Proof. split_and!; vm_compute; reflexivity. Qed.

(** C36. The gauge of open legs shows what the index holds. After the start-up's
    rebuild, and after any run of batches, sweeps, closed windows, resolutions,
    replays and rebuilds that ended without an error, the last value set is the
    number of legs in the matching window. *)
Theorem gauge_follows_index `{Sha256} `{BreakClassifier} {S} `{!Repository S} {C Hg} `{!CounterVec C} `{!HistogramVec Hg}
    cfg (w w1 w2 : World S) (m : Metrics C Hg) :
  hooks cfg = metrics_hooks -> Rebuild cfg w = (Ok tt, w1) -> ended_run cfg w1 w2 ->
  OpenLegs_gauge (foldl on_hook m (trace w2)) = of_int (Z.of_nat (Len (ix w2))).
Proof.
  intros Hh Hr Hrun. rewrite gauge_last_open.
  assert (gauge_true w1) as Hw1. { pose proof (gauges_Rebuild cfg Hh w tt) as Hreb. rewrite Hr in Hreb. by apply Hreb. }
  by rewrite (gauge_run cfg Hh _ _ Hrun Hw1).
Qed.

Lemma gauge_follows_index_witness : exists w1 w2 : World Store, Rebuild fixture_cfg w0 = (Ok tt, w1) /\
  OpenLegs_gauge (foldl on_hook fixture_metrics (trace w2)) = of_int (Z.of_nat (Len (ix w2))) /\ Len (ix w2) = 1%nat.
Proof.
  pose (w1 := (Rebuild fixture_cfg w0).2).
  pose (w2 := run_op fixture_cfg (OpIngest [ledger1; rail1; rail2]) w1).
  assert (Rebuild fixture_cfg w0 = (Ok tt, w1)) as Hr by (vm_compute; reflexivity).
  exists w1, w2. split; [exact Hr|]. split; [|vm_compute; reflexivity].
  apply (gauge_follows_index fixture_cfg w0 w1 w2 fixture_metrics fixture_hooks Hr).
  apply (ended_cons fixture_cfg (OpIngest [ledger1; rail1; rail2])); [|apply ended_nil].
  eexists. vm_compute. reflexivity.
Defined.

(** A batch that stops half-way leaves the gauge behind: here the context is
    cancelled after the first leg, which is in the index and not in the gauge. *)
Definition cancelled_cfg : Config :=
  mkConfig fixture_rules metrics_hooks (clock fixture_cfg)
    (fun n => if bool_decide (n = 0%nat) then None else Some (ErrSentinel Canceled)).

Example gauge_behind_after_failure :
  let w1 := (Rebuild cancelled_cfg w0).2 in
  let '(r, w2) := Ingest cancelled_cfg [ledger1; rail2] w1 in
  (exists b e, r = Ok (b, Some e)) /\ Len (ix w2) = 1%nat /\
  OpenLegs_gauge (foldl on_hook fixture_metrics (trace w2)) = of_int 0.
Proof. vm_compute. split; [by do 2 eexists|done]. Qed.

(** ** Requests *)

(** C33. A request is answered, counted, logged and traced once, as what it was.
    When a request's method and path are taken by a pattern of [New], and the
    handler behind it answers with [rsp], the client gets that status, that body
    (or none, if the method is HEAD, which the patterns for GET take too) and an
    X-Request-ID, which is the inbound one if there was one of at most 128 bytes;
    the engine is as the handler left it; the request counter grows by one under
    the pattern, the method and the class of the status on the wire, and under no
    other labels; the latency histogram gets one observation under the pattern
    and the method, the seconds between two readings of the clock, and no other;
    the access log gets one line with that status and identifier, none for the
    probes; and one span is started and ended. The order of the registrations
    does not matter. *)
Theorem request_served `{Sha256} `{BreakClassifier} `{JSONText} {S} `{!Repository S} `{!StoreReads S} {C Hg}
    `{!CounterVec C} `{!HistogramVec Hg} `{!MetricsLaws C Hg}
    cfg Version Ready logger NewString Extract Start clk json_text stack page
    pat mk vs (r : HttpRequest) (x : Exchange (World S) C Hg) rsp e :
  (forall n, NewString n <> "") -> x_wire x = new_wire (Method r) ->
  mkRegistration pat (route pat (serve cfg Version Ready json_text mk)) ∈ New cfg Version Ready json_text page ->
  takes pat r = Some vs ->
  handle cfg Version Ready (mk (path_value vs)) (rq_rest r) (x_engine x) = (Ok (Some rsp), e) ->
  let id := request_id NewString r x in
  exists y hd ls,
    ServeHTTP cfg Version Ready logger NewString Extract Start clk json_text stack page Raw r x = (Ok tt, y) /\
    x_engine y = e /\
    wi_sent (x_wire y) = Some (rs_status rsp, hd) /\ hd !! "X-Request-ID" = Some id /\
    wi_body (x_wire y) = (if bool_decide (Method r = "HEAD") then "" else answer_text json_text rsp) /\
    (forall lbl, cv_get lbl (HTTPRequests (x_metrics y)) = cv_get lbl (HTTPRequests (x_metrics x)) +
       (if decide (lbl = [pat; Method r; FormatInt (rs_status rsp / 100) +:+ "xx"]) then 1 else 0)) /\
    (exists t, x_clock y = (1 + t)%nat /\
       forall lbl, hv_observed lbl (HTTPDuration (x_metrics y)) = hv_observed lbl (HTTPDuration (x_metrics x)) ++
         (if decide (lbl = [pat; Method r]) then [Seconds (Sub (clk t) (clk (x_clock x)))] else [])) /\
    x_lines y = x_lines x ++ ls /\ Forall (access_record logger r id pat (rs_status rsp)) ls /\
    length ls = (if unlogged pat || negb (json_Enabled (th_Handler logger) LevelInfo) then 0 else 1)%nat /\
    x_spans y = x_spans x ++ [span_opened r x; SpanEnded (x_started x)].
Proof.
  intros Huuid Hw Hin Htake Hh id. unfold ServeHTTP. rewrite chain_eq.
  set (p := length (x_rws x)). set (r1 := entered NewString Extract Start r x). set (x1 := entry NewString r x).
  rewrite (mux_unique _ _ vs _ r1 (New_apart cfg Version Ready json_text page) Hin Htake). cbn [rg_handler].
  pose proof (tracked_entry NewString r x _ Hw) as Htr. fold p x1 in Htr.
  destruct (route_serve cfg Version Ready json_text pat mk p (WithPathValues vs r1) x1 rsp e Htr) as
    (y & -> & [Hm Hl Hsp Hty _ Hid] & He & Hst & Hbd & Hrt & hd & Hsent); [by cbn; rewrite Hw..|exact Hh|].
  assert (route_label (final_rw p y) = pat) as Hlab.
  { unfold route_label. rewrite final_route, Hrt, bool_decide_eq_false_2; [done| |done].
    intros ->. by apply (New_named cfg Version Ready json_text page) in Hin. }
  destruct (access_line_spec logger r (rq_ctx r1) (final_rw p y) (elapsed clk x y) id) as [Hlen Hall]; [done| |].
  { apply request_id_nonempty, Huuid. }
  rewrite Hlab in Hlen. rewrite Hlab, final_status, Hst in Hall by done.
  eexists _, hd, (access_line logger r (rq_ctx r1) (final_rw p y) (elapsed clk x y)).
  split; [reflexivity|]. unfold left_normally. cbn. fold p. rewrite Hlab, final_status, Hst by done.
  split_and!; try done.
  - cbn in Hid. rewrite Hw, Hsent in Hid. rewrite Hid. cbn. by rewrite lookup_insert_eq.
  - rewrite Hbd. cbn. by rewrite Hw.
  - intros lbl. rewrite Hm, cv_get_inc. unfold status_class. rewrite Z.quot_div_nonneg; [done| |done].
    destruct (statuses_final (rs_status rsp)) as [[]]; [|lia]. by apply (handle_answers cfg Version Ready _ _ _ _ _ Hh).
  - exists (x_clock y). split; [done|]. intros lbl. rewrite Hm. apply hv_observed_observe.
  - by rewrite Hl.
  - rewrite Hsp. cbn. by rewrite <- app_assoc.
Qed.

(** The fixtures' server: identifiers and spans numbered, a clock at the value
    date, JSON left blank, and a page of metrics that writes nothing. *)
Definition fixture_uuid (n : nat) : string := "uuid-" +:+ FormatInt (Z.of_nat n).
Definition fixture_span (n : nat) (parent : SpanContext) : SpanContext := mkSpanContext "t" (FormatInt (Z.of_nat n)) true.
Definition fixture_extract (hdr : string -> string) (sc : SpanContext) : SpanContext := sc.
Definition fixture_clock (n : nat) : Time := 739873 * Day + Z.of_nat n * 1000000.
Definition blank_json (j : json) : string := "json".
Abbreviation FixtureX := (Exchange (World Store) PlainCounter PlainHistogram).
Definition fixture_page : Handler (W := World Store) (C := PlainCounter) (H := PlainHistogram) := fun _ _ => mret tt.
Definition exchange_for (method : string) (w : World Store) : FixtureX :=
  mkExchange w fixture_metrics [] [] (new_wire method) [] 0 0 0.
Abbreviation fixture_exchange := (exchange_for "GET").
Abbreviation fixture_serve := (ServeHTTP fixture_cfg "test" None (NewLogger "info") fixture_uuid fixture_extract fixture_span
  fixture_clock blank_json "stack" fixture_page).

(** A request whose only header is an X-Request-ID, if [id] is not empty. *)
Definition fixture_http (method : string) (segs : list string) (id : string) (rest : Request) : HttpRequest :=
  mkHttpRequest method "/path" segs (fun k => if bool_decide (k = "X-Request-ID") then id else "") "10.0.0.1:1" (fun _ => "")
    Background rest.

Definition match_request : HttpRequest :=
  fixture_http "GET" ["v1"; "matches"; fixture_match] "req-123" (fixture_request "" no_query).

Lemma request_served_witness : exists y hd, fixture_serve Raw match_request (fixture_exchange w2) = (Ok tt, y) /\
  wi_sent (x_wire y) = Some (200, hd) /\ hd !! "X-Request-ID" = Some "req-123".
Proof.
  destruct (handle fixture_cfg "test" None (GetMatchRoute fixture_match) (fixture_request "" no_query) w2)
    as [[[rsp|]|e0] e] eqn:E; [|by vm_compute in E..].
  assert (rs_status rsp = 200) as Hst by (vm_compute in E; by injection E as <- _).
  destruct (request_served (C := PlainCounter) (Hg := PlainHistogram) fixture_cfg "test" None (NewLogger "info") fixture_uuid
    fixture_extract fixture_span fixture_clock blank_json "stack" fixture_page "GET /v1/matches/{id}" (fun v => GetMatchRoute (v "id"))
    [("id", fixture_match)] match_request (fixture_exchange w2) rsp e) as (y & hd & ls & Hs & _ & Hw & Hh & _);
    [done|done|by do 7 right; left|reflexivity|exact E|].
  exists y, hd. rewrite <- Hst. by split_and!.
Defined.

(** A HEAD request to a GET route is answered and counted as itself: the status
    and the bytes in the log are those of the GET, and no body is sent. *)
Example head_has_no_body :
  let head_request := fixture_http "HEAD" ["v1"; "matches"; fixture_match] "req-123" (fixture_request "" no_query) in
  let '(r, y) := fixture_serve Raw head_request (exchange_for "HEAD" w2) in
  let '(rg, yg) := fixture_serve Raw match_request (fixture_exchange w2) in
  wire_status (x_wire y) = 200 /\ wi_body (x_wire y) = "" /\ wi_body (x_wire yg) = "json" +:+ bytes [10%nat] /\
  rw_bytes <$> x_rws y = rw_bytes <$> x_rws yg /\
  cv_get ["GET /v1/matches/{id}"; "HEAD"; "2xx"] (HTTPRequests (x_metrics y)) = 1.
Proof. vm_compute. done. Qed.

(** The metrics page is not behind [route], so a scrape is counted and logged as
    an unmatched request. *)
Example metrics_scrape_unmatched :
  let '(r, y) := fixture_serve Raw (fixture_http "GET" ["metrics"] "" (fixture_request "" no_query)) (fixture_exchange w0) in
  r = Ok tt /\ cv_get ["unmatched"; "GET"; "2xx"] (HTTPRequests (x_metrics y)) = 1 /\ length (x_lines y) = 1%nat.
Proof. vm_compute. done. Qed.

(** C34. A panic costs one request. Whatever a handler had done when it panicked,
    the chain returns: the client keeps the status that was sent, or gets a 500
    with its X-Request-ID; the engine is as the handler left it; the span is
    ended; and one error line is logged. The request is in no counter, and under
    the program's own logger the line does not carry the request's identifier,
    because the recovery is outside the middleware that sets it. *)
Theorem panic_recovered {W C Hg} `{!CounterVec C} `{!HistogramVec Hg} logger NewString Extract Start clk json_text stack
    (core : Handler (W := W) (C := C) (H := Hg)) r x e y1 :
  faithful core -> x_wire x = new_wire (Method r) ->
  core (Wrapped (length (x_rws x)) Raw) (entered NewString Extract Start r x) (entry NewString r x) = (Err e, y1) ->
  exists y ls, chain logger NewString Extract Start clk json_text stack core Raw r x = (Ok tt, y) /\
    x_engine y = x_engine y1 /\ x_metrics y = x_metrics x /\
    x_spans y = x_spans x ++ [span_opened r x; SpanEnded (x_started x)] /\
    match wi_sent (x_wire y1) with
    | Some s => wi_sent (x_wire y) = Some s
    | None => exists hd, wi_sent (x_wire y) = Some (StatusInternalServerError, hd) /\
                hd !! "X-Request-ID" = Some (request_id NewString r x)
    end /\
    x_lines y = x_lines x ++ ls /\
    length ls = (if json_Enabled (th_Handler logger) LevelError then 1 else 0)%nat /\
    Forall (fun ln => ll_Message ln = "panic recovered" /\ ll_Level ln = LevelError) ls /\
    (forall level, logger = NewLogger level -> ctx_id (rq_ctx r) = None -> Forall (fun ln => line_request_id ln = []) ls).
Proof.
  intros Hf Hw Hc. rewrite chain_eq, Hc.
  destruct (Hf (length (x_rws x)) (entered NewString Extract Start r x) (entry NewString r x)) as [Hm Hl Hsp _ Hid _];
    [by eapply tracked_entry|]. rewrite Hc in Hm, Hl, Hsp, Hid. cbn [snd] in Hm, Hl, Hsp, Hid.
  destruct (left_panicking_eq logger json_text stack r x y1 e) as (wi & -> & Hs).
  eexists _, _. split; [reflexivity|]. cbn [x_engine x_metrics x_spans x_lines x_wire set_wire add_lines add_span].
  split_and!.
  - done.
  - by rewrite Hm.
  - rewrite Hsp. cbn. by rewrite <- app_assoc.
  - rewrite Hs. destruct (wi_sent (x_wire y1)) as [s|]; [done|]. eexists. split; [done|].
    rewrite lookup_insert_ne by done. rewrite Hid. cbn. by rewrite lookup_insert_eq.
  - by rewrite Hl.
  - unfold ErrorContext, slog. by destruct (json_Enabled _ _).
  - unfold ErrorContext, slog. destruct (json_Enabled _ _); [|done]. by apply Forall_singleton.
  - intros level -> Hi. unfold ErrorContext, slog. destruct (json_Enabled _ _); [|done]. apply Forall_singleton.
    unfold line_request_id, Handle, correlation. cbn. rewrite Hi. by destruct (IsValid (ctx_span (rq_ctx r))).
Qed.

Lemma panic_recovered_witness : let core : Handler (W := World Store) (C := PlainCounter) (H := PlainHistogram) :=
    fun _ _ => mfail (ErrText "kaboom") in
  exists y hd, chain (NewLogger "info") fixture_uuid fixture_extract fixture_span fixture_clock blank_json "stack" core Raw
      match_request (fixture_exchange w2) = (Ok tt, y) /\
    wi_sent (x_wire y) = Some (500, hd) /\ hd !! "X-Request-ID" = Some "req-123" /\ length (x_lines y) = 1%nat.
Proof.
  intros core. assert (faithful core) as Hf by (intros p r x Hx; by apply kept_refl).
  destruct (panic_recovered (NewLogger "info") fixture_uuid fixture_extract fixture_span fixture_clock blank_json "stack" core
    match_request (fixture_exchange w2) (ErrText "kaboom") _ Hf eq_refl eq_refl)
    as (y & ls & Hy & _ & _ & _ & (hd & Hs & Hh) & Hl & Hn & _).
  exists y, hd. split; [exact Hy|]. split; [exact Hs|]. split; [exact Hh|]. rewrite Hl. exact Hn.
Defined.
