(* ===== verification/SourceProperties.v ===== *)
(** * Properties of the in-memory source

    What a batch that was published can count on. *)

From S2P Require Export Source.

Local Open Scope recon_scope.

(** A handler that records its batches and fails on an empty one. *)
Definition recording (b : list Leg) : M (list (list Leg)) unit :=
  if bool_decide (b = []) then mfail (ErrText "no legs") else mmodify (fun bs => bs ++ [b]).

(** A run over a channel of one: two batches are published, the second after the
    first was taken, and the source is closed with the second in its buffer. *)
Definition fixture_leg : Leg :=
  mkLeg "" "rail" "R1" 100 "USD" (NewDate 2026 9 15) Debit "VISA" ∅ 0 "" "" "".
Definition batch1 : list Leg := [fixture_leg].
Definition batch2 : list Leg := [fixture_leg; fixture_leg].
Definition fixture_labels : list label := [Call batch1; Send 0; Call batch2; Receive; Send 0; CloseSource].
Definition fixture_closed : State :=
  mkState (mkSource [batch2] 1 true) [] [(batch1, Sent); (batch2, Sent)] Running [batch1] [batch1; batch2] [batch1].

Lemma fixture_run : source_steps recording fixture_labels (start_source 1 []) fixture_closed.
Proof.
  eapply steps_cons; [apply step_call|]. eapply steps_cons; [eapply step_send; [done..|cbn; lia]|].
  eapply steps_cons; [apply step_call|]. eapply steps_cons; [by eapply step_receive|].
  eapply steps_cons; [eapply step_send; [done..|cbn; lia]|]. eapply steps_cons; [by eapply step_close|]. apply steps_nil.
Qed.

Definition fixture_drained : State :=
  mkState (mkSource [] 1 true) [] [(batch1, Sent); (batch2, Sent)] (Returned source_closed) [batch1; batch2]
    [batch1; batch2] [batch1; batch2].

Lemma fixture_drains : source_steps recording [Receive; RunClosed] fixture_closed fixture_drained.
Proof. eapply steps_cons; [by eapply step_receive|]. eapply steps_cons; [by eapply step_run_closed|]. apply steps_nil. Qed.

(** First in, first out, once. However the publishers, the consumer, the
    cancellations and the close interleave, the batches whose [Publish] returned
    without an error are, in that order, those the handler was given followed by
    those in the buffer; the buffer holds no more than its size; and the handler's
    state is what the batches given to it make of it, each once. *)
Theorem source_order {W} (h : list Leg -> M W unit) cap w0 ls s :
  source_steps h ls (start_source cap w0) s ->
  (filter was_sent (st_results s)).*1 = st_handed s ++ ch_buffer (st_source s) /\
  (length (ch_buffer (st_source s)) <= cap)%nat /\
  st_world s = foldl (fun w b => (h b w).2) w0 (st_handed s).
Proof.
  intros Hs. destruct (steps_source_inv h cap w0 _ _ _ Hs (start_inv h cap w0)) as [Ho _ Hb Hw Hr].
  by rewrite Hr, Ho.
Qed.

Lemma source_order_witness :
  (filter was_sent (st_results fixture_closed)).*1 = [batch1; batch2] /\ st_world fixture_closed = [batch1].
Proof. destruct (source_order recording 1 [] _ _ fixture_run) as (Ho & _ & Hw). by split. Defined.

(** C37. A closed source is drained. Once the source is closed and its consumer is
    in its loop, the consumer takes at most one more step per buffered batch and
    one to return, whatever else happens in between; it is never stuck while it
    has not returned; and when it returns, either its context was cancelled, or
    the handler failed, or every batch that was sent has been handled. *)
Theorem closed_source_drains {W} (h : list Leg -> M W unit) cap w0 ls s ls' s' :
  source_steps h ls (start_source cap w0) s -> ch_closed (st_source s) = true -> st_run s = Running -> source_steps h ls' s s' ->
  (consumer_steps ls' <= 1 + length (ch_buffer (st_source s)))%nat /\
  match st_run s' with
  | Running => exists l s'', by_consumer l = true /\ (forall e, l <> RunCancelled e) /\ source_step h l s' s''
  | Returned e => RunCancelled e ∈ ls' \/ handler_failed h e \/ (e = source_closed /\ st_handed s' = st_accepted s')
  end.
Proof.
  intros Hs Hc Hr Hs'. destruct (closed_steps h _ _ _ Hs' Hc) as [Hc' Hw]. unfold source_work at 2 in Hw. rewrite Hr in Hw.
  split; [lia|]. destruct (st_run s') as [|e] eqn:Hr'.
  - apply consumer_progress; [done|]. right. by left.
  - destruct (run_returned h _ _ _ _ Hs' Hr Hr') as [?|[?|(-> & _ & Hb)]]; [by left|by right; left|].
    right; right. split; [done|].
    pose proof (steps_source_inv h cap w0 _ _ _ Hs' (steps_source_inv h cap w0 _ _ _ Hs (start_inv h cap w0))) as [Ho _ _ _ _].
    by rewrite Ho, Hb, app_nil_r.
Qed.

Lemma closed_source_drains_witness :
  RunCancelled source_closed ∈ [Receive; RunClosed] \/ handler_failed recording source_closed \/
  st_handed fixture_drained = st_accepted fixture_drained.
Proof.
  destruct (closed_source_drains recording 1 [] _ _ _ _ fixture_run eq_refl eq_refl fixture_drains)
    as (_ & [Hc|[Hh|[_ Ha]]]); auto.
Defined.
