(* ===== verification/GenProperties.v ===== *)
(** * Properties of the sample generator

    What examples/gen/main.go writes, whatever the draws. That some draws give
    exactly examples/legs.json is computed in Sample.v. *)

From S2P Require Export GenFacts.

(** C39. What the sample is. Over a source of random bits in which every number
    keeps coming up, the generator ends, and writes 200 legs that pass
    validation, 105 ledger postings and 95 rail records, Visa in dollars and
    Mastercard in pounds, the records dated September 16 but for one: 76 pairs
    equal in reference, amount and currency, posted in turn on the 15th and on
    the 14th, so that 38 settle a day later and 38, against the comment
    (settled T+1), two days later; 9 pairs of the 15th and 16th that differ by 1
    or 2 minor units, which the tolerance admits; 4 batches, of 3, 3, 3 and 4
    postings, each with a record that is their sum and has their batch as its
    reference; 2 pairs that share amount and currency, whose record has an ARN
    for its reference; a pair apart by a fee of 2.5 percent, rounded down, which
    is beyond the tolerance; a pair posted in dollars and settled in euros, at
    0.9183; a pair settled six days later, outside the window; 2 postings
    without a record; and the first record again. No two postings have the same
    amount, and their references are consecutive. *)
Theorem sample_as_described src WriteFile path : fair_source src -> exists f0 s L R r js,
  let doc := JObj [("description", JStr (description 200 105 95)); ("legs", JArr js)] in
  (forall fuel, (f0 <= fuel)%nat ->
     main src WriteFile path fuel no_legs =
     Some ((match WriteFile path doc with Some _ => 1 | None => 0 end, Some doc), s)) /\
  head R = Some r /\ made kinds L R /\
  Forall2 (fun l j => marshal_leg l = Ok j) (L ++ R ++ [resent r]) js /\
  Forall wf_leg (L ++ R ++ [resent r]) /\ NoDup (AmountMinor <$> L) /\
  TxnRef <$> L = (fun k => ref_text (Z.of_nat k)) <$> seq 1 105.
Proof. apply main_ends. Qed.

(** A source that counts up to ever larger numbers, from 0 each time. *)
Definition counting (q : nat) : Z := (Z.of_nat q - Z.sqrt (Z.of_nat q) * Z.sqrt (Z.of_nat q)) mod 2 ^ 63.

Lemma counting_fair : fair_source counting.
Proof.
  constructor; [intros n; apply Z.mod_pos_bound; lia|]. intros p x Hx.
  set (k := Z.max x (Z.of_nat p)). exists (Z.to_nat (k * k + x)). split; [nia|].
  unfold counting. rewrite Z2Nat.id by nia.
  rewrite (Z.sqrt_unique (k * k + x) k) by nia. rewrite Z.mod_small; lia.
Qed.

Lemma sample_as_described_witness : exists f0 s L R r js,
  let doc := JObj [("description", JStr (description 200 105 95)); ("legs", JArr js)] in
  (forall fuel, (f0 <= fuel)%nat ->
     main counting (fun _ _ => None) "examples/legs.json" fuel no_legs = Some ((0, Some doc), s)) /\
  head R = Some r /\ made kinds L R /\
  Forall2 (fun l j => marshal_leg l = Ok j) (L ++ R ++ [resent r]) js /\
  Forall wf_leg (L ++ R ++ [resent r]) /\ NoDup (AmountMinor <$> L) /\
  TxnRef <$> L = (fun k => ref_text (Z.of_nat k)) <$> seq 1 105.
Proof. exact (sample_as_described counting (fun _ _ => None) "examples/legs.json" counting_fair). Defined.
