(* ===== verification/ServiceProperties.v ===== *)
(** * Properties of the service

    Configuration and the Kafka consumer: which settings are accepted, what an
    accepted configuration starts, and what committed records have become. *)

From S2P Require Export EngineProperties Service.

#[local] Existing Instance checksum.

(** ** Configuration *)

(** C18. [Load] accepts exactly the good configurations: it returns [c] if and
    only if every setting of [c] is what its variable says (the trimmed value,
    parsed, or the default when it is unset or blank) and [c] is usable (a known
    store with its DSN, a known log level, brokers and topics when Kafka is on,
    positive durations, rules within bounds). *)
Theorem configuration_exact lookup c :
  Config.Load lookup = Ok c <-> Config.config_read lookup c /\ Config.config_ok c.
Proof. apply Config.Load_spec. Qed.

(** The environment of a service with its own window and tolerance. *)
Definition fixture_env (key : string) : option string :=
  if bool_decide (key = "RECON_WINDOW_TTL") then Some " 90m "
  else if bool_decide (key = "RECON_TOLERANCE_BPS") then Some "25"
  else if bool_decide (key = "RECON_KAFKA_ENABLED") then Some "true"
  else None.

(** What became of three of the settings, or the number of problems found. *)
Definition loaded_settings (r : result Config.Config) : (Duration * Z * bool) + nat :=
  match r with
  | Ok c => inl (Config.WindowTTL c, ToleranceBps (Config.cf_Rules c), Config.KafkaEnabled c)
  | Err (ErrWrap _ (ErrJoin es) _) => inr (length es)
  | Err _ => inr 0%nat
  end.

Example configuration_runs :
  loaded_settings (Config.Load fixture_env) = inl (90 * 60 * Second, 25, true) /\
  loaded_settings (Config.Load (fun key => if bool_decide (key = "RECON_WINDOW_TTL") then Some "soon"
                                else if bool_decide (key = "RECON_STORE") then Some "disk" else None)) = inr 2%nat.
Proof. split; vm_compute; reflexivity. Qed.

(** C15. An accepted configuration starts, and restarts. Over the store of a
    consistent engine with the same rules (a fresh one, or one that stopped), the
    service comes up with that engine's projections, log and open legs, under
    the window configured now, and is consistent; it refuses to start only when
    the open legs cannot be read. *)
Theorem accepted_configuration_starts `{Sha256} `{BreakClassifier} {S} `{RepositoryLaws S} lookup c cfg U h clk ctx
    (w : World S) :
  Config.Load lookup = Ok c -> world_inv cfg U w -> rules cfg = Config.cf_Rules c ->
  match start_engine c h clk ctx (store w) with
  | Ok w' => world_inv (engine_config c h clk ctx) U w' /\ view (store w') = view (store w) /\
      ix w' = with_ttl (Config.WindowTTL c) (ix w)
  | Err e => exists e', (OpenLegs (store w)).1 = Err e' /\ e = ErrWrap "load open legs: " e' ""
  end.
Proof. intros [_ Hok]%Config.Load_spec Hw Hr. by eapply start_engine_spec. Qed.

Lemma accepted_configuration_starts_witness :
  match start_engine Config.default_config (hooks fixture_cfg) (clock fixture_cfg) (ctx_Err fixture_cfg) (store w2) with
  | Ok w' => world_inv (engine_config Config.default_config (hooks fixture_cfg) (clock fixture_cfg)
                          (ctx_Err fixture_cfg)) fixture_U w' /\
      view (store w') = view (store w2) /\ ix w' = with_ttl (Config.WindowTTL Config.default_config) (ix w2)
  | Err e => exists e', (OpenLegs (store w2)).1 = Err e' /\ e = ErrWrap "load open legs: " e' ""
  end.
Proof.
  pose proof (accepted_configuration_starts (fun _ => None) Config.default_config fixture_cfg fixture_U
    (hooks fixture_cfg) (clock fixture_cfg) (ctx_Err fixture_cfg) w2 Config.Load_defaults w2_inv eq_refl) as Ht.
  exact Ht.
Defined.

(** ** The consumer *)

(** A client over a list of polls still to come. *)
Record Feed : Type := mkFeed {
  fd_next : list (list KRecord);
  fd_committed : list KRecord;
  fd_waiting : list KRecord
}.

#[local] Instance feed_client : KafkaClient Feed := {|
  PollRecords n c :=
    match fd_next c with
    | [] => (mkFetches true [], c)
    | recs :: next => (mkFetches false recs, mkFeed next (fd_committed c) (fd_waiting c ++ recs))
    end;
  AllowRebalance c := c;
  CommitUncommittedOffsets c := (None, mkFeed (fd_next c) (fd_committed c ++ fd_waiting c) [])
|}.

#[local] Instance feed_laws : KafkaLaws Feed.
Proof.
  refine {| committed := fd_committed; uncommitted := fd_waiting |}.
  - intros n c f c'. cbn. destruct (fd_next c); intros [= <- <-]; cbn; by rewrite ?app_nil_r.
  - done.
  - by intros c e c' [= <- <-].
Defined.

Definition fixture_topics : gmap string string := source_map ["ledger.legs"; "rail.legs"].
Definition record_of (l : Leg) : KRecord := mkKRecord "rail.legs" "" (marshal_leg l) 0.
Definition fixture_consumer (polls : list (list KRecord)) : Consumer Feed (World Store) :=
  mkConsumer (mkFeed polls [] []) w0 0 [].
Definition fixture_service (hs : list happening) (polls : list (list KRecord)) :=
  run_service fixture_cfg fixture_topics (fun _ => None) hs (fixture_consumer polls).

(** C12. A committed record is not lost. However the turns of the consumer, the
    ticks of the sweeper and the requests of the API (replays apart) interleave,
    starting with nothing handed out: a record whose offset is committed either
    does not decode, or has its leg stored, or was part of a batch that the
    engine failed on. *)
Theorem committed_means_stored `{Sha256} `{BreakClassifier} {S} `{RepositoryLaws S} {C} `{KafkaLaws C} cfg U sourceOf
    ctx_err (k : Consumer C (World S)) hs ts k' r :
  sane_config cfg -> no_collisions U -> world_inv cfg U (k_state k) ->
  committed (k_client k) = [] -> uncommitted (k_client k) = [] ->
  Forall (happening_in_scope U) hs -> run_service cfg sourceOf ctx_err hs k = (ts, k') ->
  (forall t r, t ∈ ts -> r ∈ turn_records t -> record_in_scope sourceOf U r) ->
  r ∈ committed (k_client k') -> r ∉ failed_records ts ->
  match Kafka.decode r (source_of sourceOf r) with
  | Ok l => stored (k_state k') (AssignID l)
  | Err _ => True
  end.
Proof.
  intros Hr Hn Hw Hc Hu Hhs Hrun Hts Hin Hnf.
  assert (consumer_inv cfg sourceOf U [] k) as Hk.
  { constructor; [done|rewrite Hc|rewrite Hu]; by intros ? ?%not_elem_of_nil. }
  destruct (run_service_accounts cfg sourceOf ctx_err U Hr Hn hs [] k ts k' Hk Hrun Hhs Hts) as [_ Hacc].
  by destruct (Hacc r Hin).
Qed.

(** The fixtures' legs, consumed in two batches around a tick. *)
Definition fixture_polls : list (list KRecord) := [[record_of ledger1; record_of rail1]; [record_of rail2]].

Lemma fixture_record_in_scope r : r ∈ [record_of ledger1; record_of rail1; record_of rail2] ->
  record_in_scope fixture_topics fixture_U r.
Proof.
  intros Hr l Hl. assert (l ∈ [ledger1; rail1; rail2]) as Hin; [|by apply in_scope_fixture].
  repeat (apply elem_of_cons in Hr as [->|Hr];
    [apply (f_equal (fun r => match r with Ok l => l | Err _ => zero_leg end)) in Hl; subst l;
     apply (bool_decide_unpack _); vm_compute; exact I|]).
  by apply not_elem_of_nil in Hr.
Qed.

Lemma committed_means_stored_witness : exists ts k',
  fixture_service [Consume; Tick; Consume] fixture_polls = (ts, k') /\
  match Kafka.decode (record_of rail1) (source_of fixture_topics (record_of rail1)) with
  | Ok l => stored (k_state k') (AssignID l)
  | Err _ => True
  end.
Proof.
  destruct (fixture_service [Consume; Tick; Consume] fixture_polls) as [ts k'] eqn:E.
  exists ts, k'. split; [reflexivity|].
  assert (ts = [TurnDone [record_of ledger1; record_of rail1] true; TurnDone [record_of rail2] true]) as Hts.
  { change ts with (ts, k').1. rewrite <- E. vm_compute. reflexivity. }
  assert (committed (k_client k') = [record_of ledger1; record_of rail1; record_of rail2]) as Hcm.
  { change k' with (ts, k').2. rewrite <- E. vm_compute. reflexivity. }
  apply (committed_means_stored fixture_cfg fixture_U fixture_topics (fun _ => None) (fixture_consumer fixture_polls)
           [Consume; Tick; Consume] ts k' (record_of rail1)).
  - apply fixture_sane.
  - apply fixture_no_collisions.
  - eapply NewEngine_inv; [apply w0_new|apply NewStore_ok|reflexivity].
  - reflexivity.
  - reflexivity.
  - repeat constructor.
  - exact E.
  - intros t r Ht Hr. apply fixture_record_in_scope. rewrite Hts in Ht.
    apply elem_of_cons in Ht as [->|Ht].
    + apply elem_of_cons in Hr as [->|Hr]; [left|].
      apply list_elem_of_singleton in Hr as ->. right. left.
    + apply list_elem_of_singleton in Ht as ->. right. by right.
  - rewrite Hcm. right. left.
  - rewrite Hts. apply not_elem_of_nil.
Defined.

(** A record whose timestamp no JSON time can show: the engine fails on its leg. *)
Definition far_record (l : Leg) : KRecord :=
  mkKRecord "rail.legs" "" (marshal_leg l) (3652100 * Day).

(** The accounts need their last clause: a batch the engine failed on can be
    committed. The first batch fails on its first record, so its good second
    record is not ingested and nothing is committed; the next batch goes through,
    and its commit covers everything handed out so far: the good record is
    committed, and its leg was never stored. *)
Theorem failed_batch_is_committed :
  let out := fixture_service [Consume; Consume] [[far_record ledger1; record_of rail1]; [record_of rail2]] in
  out.1 = [TurnFailed [far_record ledger1; record_of rail1]; TurnDone [record_of rail2] true] /\
  record_of rail1 ∈ committed (k_client out.2) /\
  Kafka.decode (record_of rail1) (source_of fixture_topics (record_of rail1)) = Ok rail1 /\
  v_legs (view (store (k_state out.2))) !! ID rail1 = None.
Proof.
  cbv zeta. split_and!; [vm_compute; reflexivity| |vm_compute; reflexivity|vm_compute; reflexivity].
  match goal with |- _ ∈ ?l =>
    assert (l = [far_record ledger1; record_of rail1; record_of rail2]) as -> by (vm_compute; reflexivity) end.
  right. left.
Qed.
