(* ===== verification/MomentProperties.v ===== *)
(** * Properties of interrupted operations

    What readers see while the engine works, and what a process that dies leaves
    behind: the states between the calls of the store (Moments.v), applied to the
    fixtures' second batch, cut after its first leg. *)

From S2P Require Export RowTypes ServiceProperties.

#[local] Existing Instance checksum.

(** C10. Whenever a reader looks, what it sees is consistent. In every state
    the store passes through while an engine performs any operations, failures
    included, matched and broken legs point to the match and the break that list
    them and are listed by them, for the index that belongs to that state; the log
    has only grown; and, a replay apart, nothing that was decided is undone. *)
Theorem every_moment_consistent `{Sha256} `{BreakClassifier} {S} `{RepositoryLaws S} cfg U (w : World S) os s :
  sane_config cfg -> no_collisions U -> reachable cfg U w -> Forall (op_in_scope U) os -> s ∈ moments cfg os w ->
  repo_ok s /\ (exists i, state_inv (rules cfg) U (view s) i) /\
  appended (fun _ => True) (v_events (view (store w))) (v_events (view s)) /\
  (Forall (fun o => is_replay o = false) os -> view_life (view (store w)) (view s)).
Proof.
  intros Hsane Hnc Hw%reachable_inv Hos Hs; [|done..].
  destruct (moment_inv cfg U Hsane Hnc os w s Hw Hs Hos) as [Hok Hi].
  split_and!; [done..|by eapply (moment_extends cfg U Hsane Hnc os w s)|].
  intros Hr. apply (moment_life cfg U Hsane Hnc os w s Hw Hs), Forall_and. done.
Qed.

(** The store after the fixtures' second batch has stored its first leg. *)
Definition mid_batch : Store := default NewStore (moments fixture_cfg [OpIngest [rail1; rail2]] w1 !! 3%nat).

Example mid_batch_holds : length (moments fixture_cfg [OpIngest [rail1; rail2]] w1) = 7%nat /\
  is_Some (v_matches (view mid_batch) !! fixture_match) /\ v_legs (view mid_batch) !! ID rail2 = None.
Proof. split; [|split; [eexists|]]; vm_compute; reflexivity. Qed.

Lemma mid_batch_moment : mid_batch ∈ moments fixture_cfg [OpIngest [rail1; rail2]] w1.
Proof.
  unfold mid_batch. destruct (_ !! 3%nat) as [s|] eqn:E; [by eapply list_elem_of_lookup_2|].
  apply lookup_ge_None in E. rewrite (proj1 mid_batch_holds) in E. lia.
Qed.

Lemma w1_reachable : reachable fixture_cfg fixture_U w1.
Proof.
  exists NewStore, Hour, w0. split; [apply NewStore_ok|]. split; [done|]. split; [apply w0_new|].
  apply rtc_once, w1_step.
Qed.

Lemma every_moment_consistent_witness : exists i, state_inv (rules fixture_cfg) fixture_U (view mid_batch) i.
Proof.
  destruct (every_moment_consistent fixture_cfg fixture_U w1 [OpIngest [rail1; rail2]] mid_batch) as (_ & Hi & _).
  - apply fixture_sane.
  - apply fixture_no_collisions.
  - apply w1_reachable.
  - apply Forall_singleton. apply fixture_batch_in_scope.
  - apply mid_batch_moment.
  - exact Hi.
Defined.

(** C16. The rows are well typed, at every moment. Whatever an engine started over
    an empty store performs, every row it stores, and every row a reader finds
    while it works, has the type the schema and the API promise: a leg has a
    positive amount that fits an int64, a currency of three capitals, a date in
    range and a direction and a status of the enumerations; a match has one of
    the three tiers, one of the five rules, a confidence between 0.70 and 1 and a
    residual that fits an int64; a break has one of its triggers, and says when it
    was resolved exactly if it is resolved. *)
Theorem rows_in_type `{Sha256} `{BreakClassifier} {S} `{RepositoryLaws S} cfg U (w : World S) os s :
  sane_config cfg -> no_collisions U -> reachable cfg U w -> Forall (op_in_scope U) os -> s ∈ moments cfg os w ->
  rows_typed (view s).
Proof.
  intros Hsane Hnc (s0 & t & w0 & Hs0 & Hv0 & Hn & Hsteps) Hos Hs.
  pose proof (NewEngine_inv cfg U s0 t w0 Hn Hs0 Hv0) as Hw0.
  eapply (moment_typed cfg U Hsane Hnc os w s); [|..|done|done].
  - by eapply (steps_inv cfg U Hsane Hnc).
  - apply (steps_types cfg U Hsane Hnc w0 w Hsteps Hw0).
    unfold NewEngine in Hn. destruct (Rules_Validate _); [|done]. destruct (t <=? 0); [done|].
    injection Hn as <-. cbn [store]. rewrite Hv0. by constructor.
Qed.

Lemma rows_in_type_witness : exists m, v_matches (view mid_batch) !! fixture_match = Some m /\ match_typed m.
Proof.
  destruct mid_batch_holds as (_ & [m Hm] & _). exists m. split; [exact Hm|].
  destruct (rows_in_type fixture_cfg fixture_U w1 [OpIngest [rail1; rail2]] mid_batch) as [_ Hms _].
  - apply fixture_sane.
  - apply fixture_no_collisions.
  - apply w1_reachable.
  - apply Forall_singleton. apply fixture_batch_in_scope.
  - apply mid_batch_moment.
  - exact (Hms _ _ Hm).
Defined.

(** C11. A crash loses no state. Let the process die at any moment of a batch,
    and a service with the same rules start over what the store then holds: it is
    consistent, and keeps everything decided before the crash, in that batch too.
    When the batch is delivered again and goes through, each of its legs is
    stored, and nothing decided before the crash has changed. *)
Theorem crash_loses_nothing `{Sha256} `{BreakClassifier} {S} `{RepositoryLaws S} cfg U (w : World S) ls s
    lookup c h clk ctx w' :
  sane_config cfg -> no_collisions U -> reachable cfg U w -> Forall (leg_in_scope U) ls ->
  s ∈ moments cfg [OpIngest ls] w ->
  Config.Load lookup = Ok c -> rules cfg = Config.cf_Rules c -> (forall n, exact_time (clk n)) ->
  start_engine c h clk ctx s = Ok w' ->
  let cfg' := engine_config c h clk ctx in
  world_inv cfg' U w' /\ view (store w') = view s /\ view_life (view (store w)) (view s) /\
  forall b ls' w2, Ingest cfg' ls w' = (Ok (b, None), w2) -> validate_batch 0 ls = (ls', None) ->
    Forall (stored w2) ls' /\ view_life (view s) (view (store w2)).
Proof.
  intros Hsane Hnc Hw%reachable_inv Hls Hs Hload Hrules Hclk Hstart cfg'; [|done..].
  assert (Forall (op_in_scope U) [OpIngest ls]) as Hos by (by apply Forall_singleton).
  destruct (moment_inv cfg U Hsane Hnc _ w s Hw Hs Hos) as [Hok [i Hi]].
  apply Config.Load_spec in Hload as [_ Hc].
  pose proof (start_engine_spec cfg U c h clk ctx (mkWorld s i false 0 0 []) Hc) as Hst.
  cbn [store ix] in Hst. rewrite Hstart in Hst. destruct Hst as (Hw' & Hv & _); [by constructor|done|].
  split_and!; [done..| |].
  { apply (moment_life cfg U Hsane Hnc _ w s Hw Hs). by apply Forall_singleton. }
  intros b ls' w2 Hrun Hval.
  assert (sane_config cfg') as Hsane'.
  { split; [|done]. cbn. rewrite <- Hrules. apply Hsane. }
  pose proof (Ingest_stored cfg' U Hsane' Hnc ls w' Hls Hw') as Hst. unfold run in Hst. rewrite Hrun in Hst.
  split; [by eapply Hst|]. rewrite <- Hv.
  pose proof (keeps_Ingest cfg' U Hsane' Hnc same_life (life_step_rel cfg' U Hsane' Hnc) ls Hls w' Hw') as Hl.
  unfold run in Hl. rewrite Hrun in Hl. apply Hl.
Qed.

(** The service started over that store, and the batch delivered to it again. *)
Definition restarted : World Store :=
  match start_engine Config.default_config (hooks fixture_cfg) (clock fixture_cfg) (ctx_Err fixture_cfg) mid_batch with
  | Ok w => w
  | Err _ => w0
  end.
Definition again := Ingest (engine_config Config.default_config (hooks fixture_cfg) (clock fixture_cfg)
  (ctx_Err fixture_cfg)) [rail1; rail2] restarted.

Lemma restarted_runs : start_engine Config.default_config (hooks fixture_cfg) (clock fixture_cfg)
  (ctx_Err fixture_cfg) mid_batch = Ok restarted.
Proof. vm_compute. reflexivity. Qed.

(** The first leg is a duplicate now, and the second stays open. *)
Example again_runs : counts again.1 = Some (2, 1, 0, 0, 1).
Proof. vm_compute. reflexivity. Qed.

Lemma again_valid : validate_batch 0 [rail1; rail2] = (AssignID <$> [rail1; rail2], None).
Proof. vm_compute. reflexivity. Qed.

Lemma crash_loses_nothing_witness :
  stored again.2 (AssignID rail2) /\ view_life (view mid_batch) (view (store again.2)).
Proof.
  destruct (crash_loses_nothing fixture_cfg fixture_U w1 [rail1; rail2] mid_batch (fun _ => None)
    Config.default_config (hooks fixture_cfg) (clock fixture_cfg) (ctx_Err fixture_cfg) restarted)
    as (_ & _ & _ & Hagain).
  - apply fixture_sane.
  - apply fixture_no_collisions.
  - apply w1_reachable.
  - apply fixture_batch_in_scope.
  - apply mid_batch_moment.
  - apply Config.Load_defaults.
  - reflexivity.
  - done.
  - apply restarted_runs.
  - destruct again as [r w2] eqn:E; unfold again in E. pose proof again_runs as Hc. unfold again in Hc. rewrite E in Hc. cbn [fst snd] in Hc |- *.
    destruct r as [[b [e|]]|e]; [done| |done].
    destruct (Hagain b _ w2 E again_valid) as [Hst Hl]. split; [|exact Hl].
    exact (Forall_inv (Forall_inv_tail Hst)).
Defined.
