(* ===== verification/MainProperties.v ===== *)
(** * Properties of the process

    What [run] gives back and what it returns, and two starts evaluated: one that
    serves, and one whose broker cannot be reached. *)

From S2P Require Export Main ServiceProperties PgFixture.

#[local] Existing Instance checksum.

(** C17. Whatever happens, [run] cleans up after itself. However far it gets, what
    it has acquired is a beginning of signal handler, tracer provider, store,
    consumer, and each of these is given back once, the latest first: no consumer
    outlives the store it writes to. The exit status is 0 exactly when the
    configuration is accepted, tracing, store, engine and (if it is enabled) the
    consumer start, and the goroutines end without an error other than
    cancellation. *)
Theorem process_cleans_up `{Sha256} `{BreakClassifier} {DB Tx} `{!Database DB Tx} {Exporter Res Provider Client}
    (otlp : list ExporterOption -> result Exporter) (merge : list (string * string) -> result Res)
    (new_provider : Exporter -> Res -> Provider) (noop : Provider) (connect : KafkaConfig -> result Client)
    lookup files (db : DB) h clk ctx version goroutines Wait (p : Process Provider) :
  let run := Main.run otlp merge new_provider noop connect lookup files db h clk ctx version goroutines Wait in
  let main := Main.main otlp merge new_provider noop connect lookup files db h clk ctx version goroutines Wait in
  (exists a, pc_actions (run p).2 = pc_actions p ++ a /\ held a [] = Some [] /\
     acquired a `prefix_of` [Signals; TracerProvider; StoreHandle; ConsumerHandle]) /\
  (main p = 0 <-> exists c t s w ks,
     Config.Load lookup = Ok c /\
     (SetupTracing otlp merge new_provider noop
        (Config.ServiceName c) (Config.OTelEndpoint c) (Config.OTelInsecure c) (pc_otel p)).1 = Ok t /\
     open_store files c db = Ok s /\ engine_over h clk ctx c s = Ok w /\
     match ks with
     | None => Config.KafkaEnabled c = false
     | Some ks => Config.KafkaEnabled c = true /\ Kafka.New connect
         (mkKafkaConfig (Config.KafkaBrokers c) (Config.KafkaGroup c) (Config.KafkaTopics c) 0) = Ok ks
     end /\
     run_result Wait (goroutines (mkStarted (http_server c) w ks)) = None).
Proof.
  cbv zeta. split.
  - destruct (run_tidy otlp merge new_provider noop connect lookup files db h clk ctx version goroutines Wait p)
      as (a & Ha & Hheld & Hacq). exists a. by split_and!.
  - rewrite <- (run_succeeds otlp merge new_provider noop connect lookup files db h clk ctx version goroutines Wait p).
    unfold Main.main. destruct (Main.run _ _ _ _ _ _ _ _ _ _ _ _ _ _ p) as [[[]|e] p']; cbn [fst]; split; by intros ?.
Qed.

(** A process with a broker that cannot be reached, or none needed; no tracing
    endpoint, and goroutines that end when they are cancelled. *)
Definition fixture_process (env : string -> option string) : result unit * Process unit :=
  Main.run (Exporter := unit) (Res := unit) (Client := unit)
    (fun _ => Ok tt) (fun _ => Ok tt) (fun _ _ => tt) tt (fun _ => Err (ErrText "no brokers"))
    env [] (mkPlainDB (mkTables ∅ ∅ ∅ [] ∅) 0) (hooks fixture_cfg) (clock fixture_cfg) (ctx_Err fixture_cfg) "dev"
    (fun _ => [None; None; Some (ErrSentinel Canceled)]) (fun rs => head (omap id rs))
    (mkProcess (mkGlobals None []) []).

(** The actions, without what the logger makes of them. *)
Definition told (a : list Action) : list (Resource * bool + string) :=
  (fun x => match x with
            | Acquire r => inl (r, true)
            | Release r => inl (r, false)
            | Logged ln => inr (ll_Message ln)
            end) <$> a.

Example process_runs :
  (fixture_process (fun _ => None)).1 = Ok tt /\
  told (pc_actions (fixture_process (fun _ => None)).2) =
    [inl (Signals, true); inl (TracerProvider, true); inl (StoreHandle, true); inr "engine ready"; inr "stopped";
     inl (StoreHandle, false); inl (TracerProvider, false); inl (Signals, false)].
Proof. split; vm_compute; reflexivity. Qed.

Example process_fails :
  (fixture_process fixture_env).1 = Err (ErrWrap "kafka client: " (ErrText "no brokers") "") /\
  told (pc_actions (fixture_process fixture_env).2) =
    [inl (Signals, true); inl (TracerProvider, true); inl (StoreHandle, true); inr "engine ready";
     inl (StoreHandle, false); inl (TracerProvider, false); inl (Signals, false)].
Proof. split; vm_compute; reflexivity. Qed.
