(* ===== verification/PostgresProperties.v ===== *)
(** * Properties of the Postgres store

    The store keeps the repository's contract under the laws of Sql.v, agrees
    with the in-memory store, and finds its schema and its legs again when the
    service restarts; each property is then applied to the database of
    PgFixture.v. *)

From S2P Require Export EngineProperties PgFixture MigrationFacts Service.

#[local] Existing Instance checksum.
#[local] Existing Instance postgres_repository.
#[local] Existing Instance postgres_laws.

(** What the columns keep. *)
Abbreviation pg_fidelity := (us_fidelity jsonb jsonb_law).
Abbreviation plain_fidelity := (fidelity (S := PlainDB)).

(** ** A run over Postgres *)

Definition fixture_files : EmbedFS :=
  [("0001_init.sql", Some "CREATE TABLE IF NOT EXISTS legs ()"); ("README", Some "not a migration"); ("seed.sql", None)].

(** A database that was opened, with the time of day an hour after the fixtures'
    clock starts, and the run of the fixtures over it. *)
Definition empty_db : PlainDB := mkPlainDB (mkTables ∅ ∅ ∅ [] ∅) (739873 * Day + Hour).
Definition fresh_db : PlainDB := (Open (All fixture_files) "postgres://" empty_db).2.
Definition pw0 : World PlainDB := mkWorld fresh_db (NewIndex Hour) false 0 0 [].
Definition pw1 : World PlainDB := run_op fixture_cfg (OpIngest [ledger1]) pw0.
Definition pw2 : World PlainDB := run_op fixture_cfg (OpIngest [rail1; rail2]) pw1.
Definition pw3 : World PlainDB := run_op fixture_cfg (OpCloseWindow 0) pw2.

Lemma exact_us_mul k : exact_us (k * Microsecond).
Proof. unfold exact_us, timestamptz. by rewrite Z.div_mul. Qed.

Lemma fixture_sane_us : sane_config (H := plain_fidelity) fixture_cfg.
Proof.
  split; [apply fixture_sane|]. intros n. change (exact_us (739873 * Day + Z.of_nat n * Second)).
  replace (739873 * Day + Z.of_nat n * Second)
    with ((739873 * (Day / Microsecond) + Z.of_nat n * (Second / Microsecond)) * Microsecond).
  - apply exact_us_mul.
  - change Day with 86400000000000. change Second with 1000000000. change Microsecond with 1000. 
    change (86400000000000 / 1000) with 86400000000. change (1000000000 / 1000) with 1000000. lia.
Qed.

Lemma fresh_ok : pg_ok fresh_db /\ pg_view fresh_db = mkView ∅ ∅ ∅ [].
Proof.
  assert (tables fresh_db = mkTables ∅ ∅ ∅ [] {["0001_init"]}) as Ht by (vm_compute; reflexivity).
  unfold pg_ok, pg_view. rewrite Ht. split; [|reflexivity].
  constructor; cbn [t_legs t_matches t_breaks t_events]; [intros id r; by rewrite lookup_empty..|constructor|constructor].
Qed.

Lemma in_scope_us l : l ∈ [ledger1; rail1; rail2] -> leg_in_scope (S := PlainDB) fixture_U l.
Proof.
  intros Hl. destruct (in_scope_fixture l Hl) as (H1 & H2 & H3 & _ & _ & H4).
  assert (IngestedAt l = 0 /\ Attrs l = ∅) as [Ht Hat].
  { clear - Hl. repeat (apply elem_of_cons in Hl as [->|Hl]; [done|]). destruct (not_elem_of_nil l Hl). }
  unfold leg_in_scope. split; [exact H1|]. split; [exact H2|]. split_and!; [exact H3| | |exact H4].
  - change (exact_us (IngestedAt l)). by rewrite Ht.
  - change (valid_attrs (Attrs l)). rewrite Hat. apply map_Forall_empty.
Qed.

Lemma pw3_reachable : reachable fixture_cfg fixture_U pw3.
Proof.
  destruct fresh_ok as [Hok Hv]. exists fresh_db, Hour, pw0. split; [exact Hok|]. split; [exact Hv|]. split; [reflexivity|].
  eapply rtc_l; [apply (step_op fixture_cfg fixture_U (OpIngest [ledger1]) pw0)|].
  { apply Forall_singleton, in_scope_us. left. }
  eapply rtc_l; [apply (step_op fixture_cfg fixture_U (OpIngest [rail1; rail2]) pw1)|].
  { apply Forall_forall. intros l Hl. apply in_scope_us. by right. }
  apply rtc_once. exact (step_op fixture_cfg fixture_U (OpCloseWindow 0) pw2 I).
Qed.

Lemma pw3_ok : pg_ok (store pw3).
Proof. apply (wi_ok _ _ _ (reachable_inv fixture_cfg fixture_U fixture_sane_us fixture_no_collisions pw3 pw3_reachable)). Qed.

(** ** The contract *)

(** C28. [Apply] is atomic, exact and durable. Under the laws of the database, a
    change set the engine may send is stored as a whole (every leg, match and
    break under its identifier, the others as they were, the events appended
    with growing sequence numbers) or, when any statement, the batch or the
    commit fails, not at all; and afterwards every leg, match and break of the
    change set that is read by its identifier is read back as it was written,
    through the rows' own types. *)
Theorem postgres_apply_exact {DB Tx} `{!Database DB Tx} `{!DatabaseLaws DB Tx} cs (d : DB) r d' :
  pg_ok d -> cs_ok (H := pg_fidelity) (pg_view d) cs -> pg_Apply cs d = (r, d') ->
  pg_ok d' /\
  match r with
  | Err _ => pg_view d' = pg_view d
  | Ok _ => applied (H := pg_fidelity) cs (pg_view d) (pg_view d') /\
      (forall l x, l ∈ cs_Legs cs -> (pg_GetLeg (ID l) d').1 = Ok x -> x = l) /\
      (forall m x, m ∈ cs_Matches cs -> (pg_GetMatch (m_ID m) d').1 = Ok x -> x = m) /\
      (forall b x, b ∈ cs_Breaks cs -> (pg_GetBreak (b_ID b) d').1 = Ok x -> x = b)
  end.
Proof.
  intros Hok Hcs E. destruct (pg_Apply_ok cs d r d' Hok Hcs E) as [Hok' Hr]. split; [done|].
  destruct r as [u|e]; [|done]. split; [done|]. destruct Hr as [Hl Hm Hb _]. split_and!.
  - intros l x Hin Hx. destruct (pg_GetLeg (ID l) d') as [r1 d1] eqn:E1. cbn in Hx. subst r1.
    apply pg_GetLeg_ok in E1 as [_ E1]; [|done]. rewrite Hl in E1. by eapply (put_found ID); [apply Hcs|done|].
  - intros m x Hin Hx. destruct (pg_GetMatch (m_ID m) d') as [r1 d1] eqn:E1. cbn in Hx. subst r1.
    apply pg_GetMatch_ok in E1 as [_ E1]. rewrite Hm in E1. by eapply (put_found m_ID); [apply Hcs|done|].
  - intros b x Hin Hx. destruct (pg_GetBreak (b_ID b) d') as [r1 d1] eqn:E1. cbn in Hx. subst r1.
    apply pg_GetBreak_ok in E1 as [_ E1]. rewrite Hb in E1. by eapply (put_found b_ID); [apply Hcs|done|].
Qed.

(** Two legs, a match, a break and an event, all new. *)
Definition fixture_changes : ChangeSet :=
  mkChangeSet [ledger1; rail2]
    [mkMatch "m_1" [ID ledger1; ID rail1] TierTolerant "t2" 1%Q (- 50) "USD" (739873 * Day)]
    [mkBreak "brk_1" [ID rail2] "USD" "VISA" CatTiming 1%Q "heuristic@v1" TriggerWindowExpired BreakOpen (739873 * Day)
       None "" "" 0]
    [event EvLegIngested (739873 * Day) (ID ledger1) JNull].

Lemma iso_usd : iso_currency "USD".
Proof. split; [reflexivity|]. repeat constructor; vm_compute; lia. Qed.

Lemma fixture_changes_ok : cs_ok (H := plain_fidelity) (pg_view fresh_db) fixture_changes.
Proof.
  destruct fresh_ok as [_ ->].
  assert (forall l, l ∈ [ledger1; rail2] -> leg_fits (H := plain_fidelity) l) as Hlegs.
  { intros l Hl. destruct (in_scope_us l) as (H1 & H2 & _ & H4 & H5 & _); [set_solver|].
    constructor; [|destruct H1; unfold in64; lia|exact H2|exact H4|exact H5]. 
    assert (Currency l = "USD") as ->; [|exact iso_usd].
    repeat (apply elem_of_cons in Hl as [->|Hl]; [reflexivity|]). destruct (not_elem_of_nil l Hl). }
  assert (exact_us (739873 * Day)) as Ht by (vm_compute; reflexivity).
  constructor; cbn [cs_Legs cs_Matches cs_Breaks cs_Events fixture_changes v_legs v_matches v_breaks].
  - apply (bool_decide_unpack _). vm_compute. reflexivity.
  - intros l Hl. rewrite lookup_empty. by apply Hlegs.
  - apply NoDup_singleton.
  - intros m ->%list_elem_of_singleton. split; [apply lookup_empty|]. constructor; [exact iso_usd|vm_compute; by split|exact Ht].
  - apply NoDup_singleton.
  - intros b ->%list_elem_of_singleton. cbn [b_ID]. rewrite lookup_empty.
    constructor; [exact iso_usd|exact Ht|reflexivity|reflexivity].
  - apply Forall_singleton. exact Ht.
Qed.

Lemma postgres_apply_exact_witness : exists d', pg_Apply fixture_changes fresh_db = (Ok tt, d') /\ pg_ok d' /\
  applied (H := plain_fidelity) fixture_changes (pg_view fresh_db) (pg_view d') /\
  (forall l x, l ∈ cs_Legs fixture_changes -> (pg_GetLeg (ID l) d').1 = Ok x -> x = l) /\
  (forall m x, m ∈ cs_Matches fixture_changes -> (pg_GetMatch (m_ID m) d').1 = Ok x -> x = m) /\
  (forall b x, b ∈ cs_Breaks fixture_changes -> (pg_GetBreak (b_ID b) d').1 = Ok x -> x = b).
Proof.
  assert (pg_Apply fixture_changes fresh_db = (Ok tt, (pg_Apply fixture_changes fresh_db).2)) as E by (vm_compute; reflexivity).
  eexists. split; [exact E|].
  exact (postgres_apply_exact fixture_changes fresh_db (Ok tt) _ (proj1 fresh_ok) fixture_changes_ok E).
Defined.

(** ** Agreement with the in-memory store *)

(** C31. Both stores report the same statistics: for the same legs, matches,
    breaks and number of events, the queries of the Postgres store and the
    counting loops of the in-memory store give the same record, the counts per
    tier, rule, category and source and the oldest open break included. *)
Theorem statistics_agree {DB Tx} `{!Database DB Tx} `{!DatabaseLaws DB Tx} (d d' : DB) st (s : Store) :
  pg_ok d ->
  (forall bid b, breaks s !! bid = Some b -> b_Status b = BreakOpen \/ b_Status b = BreakResolved) ->
  v_legs (pg_view d) = legs s -> v_matches (pg_view d) = matches s -> v_breaks (pg_view d) = breaks s ->
  length (v_events (pg_view d)) = length (events s) ->
  pg_Stats d = (Ok st, d') -> mem_Stats s = (Ok st, s).
Proof.
  intros Hok Hst Hl Hm Hb He E. rewrite mem_Stats_spec. apply pg_Stats_spec in E as ->; [|done|].
  - unfold count. by rewrite Hl, Hm, Hb, He.
  - rewrite Hb. intros b Hin. apply list_elem_of_fmap in Hin as ([bid b'] & -> & Hin%elem_of_map_to_list).
    by apply (Hst bid).
Qed.

(** The run of the fixtures leaves the same in both stores. *)
Lemma same_run : v_legs (pg_view (store pw3)) = legs (store w3) /\ v_matches (pg_view (store pw3)) = matches (store w3) /\
  v_breaks (pg_view (store pw3)) = breaks (store w3) /\ length (v_events (pg_view (store pw3))) = length (events (store w3)).
Proof. split_and!; vm_compute; reflexivity. Qed.

Lemma fixture_statuses bid b : breaks (store w3) !! bid = Some b -> b_Status b = BreakOpen \/ b_Status b = BreakResolved.
Proof.
  revert bid b. assert (map_Forall (fun _ b => b_Status b = BreakOpen \/ b_Status b = BreakResolved) (breaks (store w3))) as H;
    [|exact H]. apply (bool_decide_unpack _). vm_compute. reflexivity.
Qed.

Lemma statistics_agree_witness : exists st, pg_Stats (store pw3) = (Ok st, store pw3) /\ mem_Stats (store w3) = (Ok st, store w3).
Proof.
  assert (exists st, pg_Stats (store pw3) = (Ok st, store pw3)) as [st E] by (eexists; vm_compute; reflexivity).
  exists st. split; [exact E|]. destruct same_run as (Hl & Hm & Hb & He).
  exact (statistics_agree (store pw3) (store pw3) st (store w3) pw3_ok fixture_statuses Hl Hm Hb He E).
Defined.

(** A filter that means the same to both: whole microseconds, and no blanks at
    the end of the currency. *)
Record plain_filter (f : BreakFilter) : Prop := {
  pf_age : exact_us (f_MinAge f) /\ f_MinAge f < 2 ^ 63;
  pf_currency : trim_right blank (f_Currency f) = f_Currency f
}.

Lemma trim_right_iso c : iso_currency c -> trim_right blank c = c.
Proof.
  intros [Hl Hu]. destruct c as [|x [|y [|z [|? ?]]]]; cbn in Hl; simplify_eq.
  apply Forall_cons in Hu as [_ [_ [Hz _]%Forall_cons]%Forall_cons]. unfold trim_right.
  change (String.rev (String x (String y (String z "")))) with (String z (String y (String x ""))).
  rewrite trim_left_head_ne; [done|]. cbn. constructor; [|constructor]. eexists _, _. split; [reflexivity|].
  intros <-. unfold is_upper in Hz. vm_compute in Hz. lia.
Qed.

(** An age that is not saturated reaches a bound exactly when the times do. *)
Lemma age_reaches b now m : 0 < m < 2 ^ 63 ->
  (Age b now <? m) = negb (m <=? default now (b_ResolvedAt b) - b_OpenedAt b).
Proof.
  intros Hm. unfold Age, Sub. assert (match b_ResolvedAt b with Some t => t | None => now end = default now (b_ResolvedAt b))
    as -> by (by destruct (b_ResolvedAt b)).
  set (x := default now (b_ResolvedAt b) - b_OpenedAt b).
  cbv zeta. fold x. unfold in64. set (y := if decide _ then _ else _).
  assert (y < m <-> x < m) as Hy.
  { unfold y. destruct (decide _) as [|Hx]; [done|]. destruct (Z.ltb_spec (default now (b_ResolvedAt b)) (b_OpenedAt b)); lia. }
  destruct (Z.ltb_spec y m), (Z.leb_spec m x); try done; lia.
Qed.

(** One condition of the filter, on the row and on the break. *)
Lemma active_condition now r want got c v : (want <> "" -> cond_holds now c v r = bool_decide (got = want)) ->
  Forall (fun cv => cond_holds now cv.1 cv.2 r = true) (active (negb (bool_decide (want = ""))) c v) <->
  unset_or want got = true.
Proof.
  intros Hc. unfold active, unset_or. destruct (decide (want = "")) as [Hw|Hw];
    [rewrite (bool_decide_eq_true_2 _ Hw); split; [done|constructor]|rewrite (bool_decide_eq_false_2 _ Hw)].
  cbn [negb orb].
  rewrite Forall_singleton. cbn [fst snd]. by rewrite Hc.
Qed.

Lemma age_condition now f r : plain_filter f -> exact_us now ->
  Forall (fun cv => cond_holds now cv.1 cv.2 r = true) (active (0 <? f_MinAge f) ColAge (VInterval (f_MinAge f))) <->
  negb ((0 <? f_MinAge f) && (Age (row_break r) now <? f_MinAge f)) = true.
Proof.
  intros [[Hage Hmax] _] Hnow. unfold active. destruct (Z.ltb_spec 0 (f_MinAge f)) as [Hpos|]; cbn [andb];
    [|split; [done|constructor]].
  rewrite Forall_singleton, age_reaches, negb_involutive by done. cbn. unfold exact_us, timestamptz in *. by rewrite Hage, Hnow.
Qed.

(** Rows and breaks pass the same filters. *)
Lemma row_selected_break f now r : plain_filter f -> iso_currency (br_currency r) -> exact_us now ->
  row_selected f now r <-> break_selected f now (row_break r) = true.
Proof.
  intros Hf Hiso Hnow. unfold row_selected, filter_conditions, break_selected. rewrite !Forall_app, !andb_true_iff.
  rewrite (active_condition now r (f_Status f) (br_status r)) by done.
  rewrite (active_condition now r (f_Category f) (br_category r)) by done.
  rewrite (active_condition now r (f_Counterparty f) (br_counterparty r)) by done.
  rewrite (active_condition now r (f_Currency f) (TrimSpace (br_currency r))), age_condition by
    (try done; intros _; cbn; unfold char_eq; rewrite trim_right_iso, (pf_currency f Hf), TrimSpace_iso by (done || apply Hiso); done).
  cbn [b_Status b_Category b_Currency b_Counterparty row_break]. tauto.
Qed.

(** C30. Both stores show the same inbox. For the same stored breaks, the same
    time of day and a filter in whole microseconds, the query the Postgres store
    puts together from the filter (its conditions, its numbered placeholders,
    its order, limit and offset) answers with the very list the in-memory store
    computes, provided that the database compares identifiers byte by byte. *)
Theorem listings_agree {DB Tx} `{!Database DB Tx} `{!DatabaseLaws DB Tx} (d d' : DB) f bs (s : Store) :
  pg_ok d -> v_breaks (pg_view d) = breaks s -> plain_filter f -> exact_us (db_now d) ->
  (forall a b, collate a b <-> String.le a b) ->
  pg_ListBreaks f d = (Ok bs, d') -> mem_ListBreaks (db_now d) f s = (Ok bs, s).
Proof.
  intros Hok Hb Hf Hnow Hcoll E. destruct (pg_ListBreaks_ok _ _ _ _ E) as [_ Ha].
  destruct (Ha bs eq_refl) as (out & [Hperm Hsort] & ->). clear Ha E.
  unfold mem_ListBreaks. do 2 f_equal. rewrite page_of_take. unfold cut. do 2 f_equal.
  rewrite <- Hb. unfold pg_view. cbn [tables_view v_breaks]. rewrite rows_of_fmap, filter_fmap.
  assert (forall r, r ∈ rows_of (t_breaks (tables d)) ->
    t_breaks (tables d) !! br_id r = Some r /\ iso_currency (br_currency r)) as Hrow.
  { intros r Hr. apply list_elem_of_fmap in Hr as ([id r'] & -> & Hin%elem_of_map_to_list).
    by destruct (to_breaks _ _ Hok _ _ Hin) as [<- ?]. }
  apply merge_sort_unique; [apply _|apply _|..].
  - intros x y (rx & -> & [_ Hx%Hrow]%list_elem_of_filter)%list_elem_of_fmap
      (ry & -> & [_ Hy%Hrow]%list_elem_of_filter)%list_elem_of_fmap Hxy Hyx.
    assert (br_id rx = br_id ry) as Hid.
    { destruct Hxy as [H1|[E1 H1]], Hyx as [H2|[E2 H2]]; cbn in *; try lia. by apply (anti_symm String.le). }
    destruct Hx as [Hx _], Hy as [Hy _]. rewrite Hid in Hx. congruence.
  - clear - Hsort Hcoll. induction Hsort as [|r out Hs IH Hr]; cbn; constructor; [done|]. apply Forall_fmap.
    eapply Forall_impl; [exact Hr|]. intros x [H|[H1 H2]]; [by left|right]. split; [done|by apply Hcoll].
  - rewrite Hperm. apply reflexive_eq. f_equal. apply filter_ext_in. intros r [_ Hr]%Hrow. symmetry. by apply row_selected_break.
Qed.

(** The open breaks in dollars that are at least a second old. *)
Definition fixture_filter : BreakFilter := mkBreakFilter BreakOpen "" "USD" "" Second 10 0.

Lemma listings_agree_witness : exists bs, pg_ListBreaks fixture_filter (store pw3) = (Ok bs, store pw3) /\ length bs = 1%nat /\
  mem_ListBreaks (db_now (store pw3)) fixture_filter (store w3) = (Ok bs, store w3).
Proof.
  assert (exists bs, pg_ListBreaks fixture_filter (store pw3) = (Ok bs, store pw3) /\ length bs = 1%nat) as (bs & E & Hlen)
    by (eexists; split; [vm_compute; reflexivity|reflexivity]).
  exists bs. split; [exact E|]. split; [exact Hlen|].
  apply (listings_agree (store pw3) (store pw3) fixture_filter bs (store w3) pw3_ok); [apply same_run|..].
  - constructor; [by split|vm_compute; reflexivity].
  - vm_compute. reflexivity.
  - done.
  - exact E.
Defined.

(** ** Opening and restarting *)


Lemma fixture_ddl : keeps_records (DB := PlainDB) (All fixture_files) /\ first_repeatable (DB := PlainDB) (All fixture_files).
Proof.
  assert (forall m t, m ∈ All fixture_files -> ddl (DB := PlainDB) (SQL m) t = t) as H.
  { intros m t Hm. assert (All fixture_files = [mkMigration "0001_init" "CREATE TABLE IF NOT EXISTS legs ()"]) as Heq
      by (vm_compute; reflexivity). rewrite Heq in Hm. apply list_elem_of_singleton in Hm as ->. reflexivity. }
  split; [intros m t Hm; by rewrite H|]. intros m t Hm _. apply H. destruct (All fixture_files); [done|].
  injection Hm as ->. left.
Qed.

Lemma fixture_names : NoDup fixture_files.*1.
Proof. apply (bool_decide_unpack _). vm_compute. reflexivity. Qed.


(** C29. A service over Postgres recovers. After any history of an engine over a
    migrated database, failed calls included, opening the store again and
    starting the engine over it brings back that engine's projections, its log
    and its open legs, under the window configured now, in a consistent state;
    it can only refuse because the store does not open or the open legs cannot
    be read. The engine's clock is taken to tick in whole microseconds, which is
    what the columns keep. *)
Theorem postgres_service_recovers `{Sha256} `{BreakClassifier} {DB Tx} `{!Database DB Tx} `{!DatabaseLaws DB Tx}
    cfg U (w : World DB) files c h clk ctx d :
  sane_config (H := fidelity (S := DB)) cfg -> no_collisions U -> reachable cfg U w ->
  NoDup files.*1 -> first_repeatable (DB := DB) (All files) -> recorded (All files) (tables (store w)) ->
  Config.config_ok c -> rules cfg = Config.cf_Rules c -> open_store files c (store w) = Ok (inr d) ->
  match start_engine c h clk ctx d with
  | Ok w' => world_inv (engine_config c h clk ctx) U w' /\ pg_view (store w') = pg_view (store w) /\
      ix w' = with_ttl (Config.WindowTTL c) (ix w)
  | Err e => exists e', (pg_OpenLegs d).1 = Err e' /\ e = ErrWrap "load open legs: " e' ""
  end.
Proof.
  intros Hs Hn Hw%(reachable_inv cfg U Hs Hn) Hnd Hf Hrec Hc Hr E. unfold open_store, mwrap in E.
  destruct (bool_decide _); [|done]. destruct (Open _ _ (store w)) as [[[]|e] d1] eqn:Eo; [|done]. injection E as ->.
  apply Open_again in Eo; [|done..]. destruct (pg_kept (store w) d Eo (wi_ok _ _ _ Hw)) as [Hok Hv].
  set (w1 := mkWorld d (ix w) (replaying w) (ticks w) (polls w) (trace w)).
  assert (world_inv cfg U w1) as Hw1.
  { pose proof (wi_inv _ _ _ Hw) as Hi. change (view (store w)) with (pg_view (store w)) in Hi. rewrite <- Hv in Hi.
    constructor; [done|exact Hi]. }
  pose proof (start_engine_spec cfg U c h clk ctx w1 Hc Hw1 Hr) as Hstart. cbn [store w1 ix] in Hstart.
  destruct (start_engine c h clk ctx d) as [w'|e]; [|done]. destruct Hstart as (H1' & H2' & H3'). split; [done|].
  split; [|done]. rewrite <- Hv. exact H2'.
Qed.

(** The default settings, but for the store. *)
Definition postgres_config : Config.Config :=
  Config.mkServiceConfig ":8080" (20 * Second) "info" "recon-stream" Config.StorePostgres "postgres://" false
    ["localhost:9092"] "recon-stream" ["ledger.legs"; "rail.legs"] (48 * Hour) (30 * Second) DefaultRules "" true.

Lemma postgres_config_ok : Config.config_ok postgres_config.
Proof.
  constructor; [by right| |done|by vm_compute..|apply DefaultRules_wf]. right. left.
Qed.

(** The service that comes up over the fixtures' database. *)
Lemma postgres_service_recovers_witness : exists d,
  open_store fixture_files postgres_config (store pw3) = Ok (inr d) /\
  match start_engine postgres_config (hooks fixture_cfg) (clock fixture_cfg) (ctx_Err fixture_cfg) d with
  | Ok w' => world_inv (engine_config postgres_config (hooks fixture_cfg) (clock fixture_cfg) (ctx_Err fixture_cfg))
               fixture_U w' /\
      pg_view (store w') = pg_view (store pw3) /\ ix w' = with_ttl (48 * Hour) (ix pw3)
  | Err e => exists e', (pg_OpenLegs d).1 = Err e' /\ e = ErrWrap "load open legs: " e' ""
  end.
Proof.
  assert (open_store fixture_files postgres_config (store pw3) = Ok (inr (store pw3))) as E by (vm_compute; reflexivity).
  exists (store pw3). split; [exact E|]. destruct fixture_ddl as [_ Hf].
  assert (recorded (All fixture_files) (tables (store pw3))) as Hrec.
  { intros m Hm. apply (bool_decide_unpack _). apply list_elem_of_singleton in Hm as ->. vm_compute. reflexivity. }
  exact (postgres_service_recovers fixture_cfg fixture_U pw3 fixture_files postgres_config (hooks fixture_cfg)
    (clock fixture_cfg) (ctx_Err fixture_cfg) (store pw3) fixture_sane_us fixture_no_collisions pw3_reachable fixture_names Hf Hrec
    postgres_config_ok eq_refl E).
Defined.
